(* ===== verification/_CoqProject ===== *)
-Q . S2P
Prelude.v
GoBytes.v
GoTime.v
GoText.v
GoPath.v
GoFlag.v
Primitives.v
Toy.v
Vocabulary.v
Framing.v
Keys.v
Envelope.v
Signature.v
Encryption.v
Headers.v
Json.v
GoScan.v
GoRegexp.v
RegexpSyntax.v
Config.v
ConfigText.v
ServerConfig.v
AgentConfig.v
Vectors.v
Sql.v
Store.v
Migrations.v
Ledger.v
LedgerOpen.v
Subjects.v
Limits.v
Nats.v
Mint.v
Wire.v
Issue.v
Handlers.v
Service.v
Hold.v
Effects.v
Socket.v
Create.v
Commands.v
Operator.v
Listen.v
Tls.v
Deploy.v
DeployFiles.v
Files.v
Artifacts.v
ServerOpen.v
ServiceStart.v
Startup.v
Agent.v
Resume.v
Agreement.v
AgentMain.v
Journal.v
Pending.v
Archlint.v
Capcheck.v
Doclint.v
