(* ===== verification/Prelude.v ===== *)
(** * Keystone Core, verified

    Keystone Core runs commands on enrolled agents through a NATS broker.  The
    repository holds the server ([cmd/keystone-server]), the agent
    ([cmd/keystone-agent]), the operator's command ([cmd/keystone]) and the
    packages under [internal/] they are made of.  This development models those
    packages and commands in Rocq and proves what makes them correct.  All
    paths below are relative to [src/].

    ** How the parts fit together

    A deployment is generated offline: [natsauth.Generate] makes an operator, two
    accounts, the five service identities and the bootstrap identities, and
    [Write] leaves the files a broker and a server run from.  The server reads its
    configuration, opens its SQLite store, opens the deployment's credentials,
    starts the enrollment service on the broker and only then binds the operator
    socket.  Through that socket an operator in the admin group asks for an
    enrollment token; the issuer records it and answers with a bundle.  The agent
    takes the bundle, makes its keys, asks the enrollment service for a permanent
    credential in a sealed envelope, proves it holds the credential by a signed
    presence, and ends with an identity on its disk that outlives a crash.  Every
    message on the broker is an envelope of [internal/protocol].

    ** The files

    The language and libraries the source uses:
    - [Prelude]: results for Go's [(value, error)], lemmas and tactics; [GoBytes],
      [GoTime], [GoText], [GoPath], [GoFlag], [GoScan], [GoRegexp],
      [RegexpSyntax], [Json]: what is used of the standard library's byte, time,
      text, path, flag, scanner, regular expression and JSON packages.
    - [Primitives], [Nats], and the classes [Broker] (in [Subjects]), [Sha256],
      [Unicode], [X509] (in [Tls]), [Revocation] (in [Deploy]): code that is not
      in the repository, each a class of operations with a class of documented
      laws.  [Toy] and the instances beside each class show the laws can hold.
    - [Sql]: statements, transactions and engine faults; [Effects]: programs over
      calls, every place they can stop ([exec]), and the proof rule [wpc];
      [Handlers]: many programs interleaved over one store, and the rule [safe].

    The program, by package:
    - [internal/protocol]: [Vocabulary] (class.go, refusal.go, identifier.go),
      [Framing], [Keys], [Envelope], [Signature], [Encryption], [Headers] (the
      files of those names), [Vectors] (vector.go and the two vector commands).
    - [internal/store]: [Store] (store.go), [Migrations] (migrations.go and
      [open]); [internal/ledger]: [Ledger], with its crash harness, and
      [LedgerOpen].
    - [internal/natsauth]: [Subjects] (subjects.go, grants.go), [Limits]
      (limits.go), [Mint] (mint.go), [Tls] (tls.go), [Deploy] (generate.go),
      [DeployFiles] (write.go).
    - [internal/enrollment]: [Wire] (wire.go), [Issue] (issue.go, operation.go),
      [Service], [Hold] and [ServiceStart] (service.go), [ServerOpen] (server.go),
      [Agent] and [Resume] (agent.go, reconnect.go), [Agreement] (what the
      operator's, the service's and the agent's sides agree on), [Files] and
      [Artifacts] (artifact.go, keys.go), [Journal] (faults.go).
    - [internal/config]: [Config], with [ConfigText], [ServerConfig] and
      [AgentConfig] for what is proved of it.
    - [internal/operator]: [Socket] (one authorized connection, and client.go),
      [Operator] (admission, every connection and worker at once), [Listen] (the
      socket's place in the file system).
    - the commands: [Create] ([keystone enroll create] end to end), [Commands]
      (what the three [run] share, [internal/version], [cmd/keystone]),
      [Startup] ([cmd/keystone-server]), [AgentMain] ([cmd/keystone-agent]).
    - the checks the build runs: [Pending] ([tools/pendingcontract]), [Archlint]
      ([tools/archlint]), [Capcheck] ([tools/capcheck]), [Doclint]
      ([tools/doclint]).

    A definition has its Go function's name; where two packages share one it is
    told apart by its file.  A method takes its receiver as an argument or as a
    section variable.  Shared state is a record passed along or the world of a
    program; a call into the outside is a constructor of the program's call type,
    and what it answers is chosen by the outside within what its documentation
    says.  [int64] arithmetic is [Z] with its wrap-around where the source can
    leave the range; a map is a [gmap], or a list where its order can be seen.

    ** What the theorems show

    - Wire formats: [Split] and [Frame], [Decode] and [Encode], [Open] and [Seal]
      are inverse on exactly the well-formed inputs; verification is the
      conjunction of both signature halves; the order of refusals is normative.
    - Storage: every mutating operation of the store refines one atomic effect
      under any engine fault; the invariant and the one-way evolution of the
      records hold after any history; migrations leave one of five levels; the
      ledger's chain of records holds, and what its retention can delete.
    - Authorization: no subject is reachable by two principals, and who can be
      heard by whom is exactly the five designed flows; minted identities carry
      exactly their grants; a service slot takes only its own credential; what
      [Generate] returns, what [Write] leaves and what [Open] accepts are one
      deployment, up to the chain from an agent's token to the operator's key.
    - Enrollment, service side: any number of requests and presences interleaved
      under faults; replies are justified by the store, one credential per token,
      activation only after a fresh signed presence, confirmation only after the
      hold is on record.
    - Enrollment, agent side: any number of runs cut off anywhere; the halves
      presented never change; success means a confirmed identity that a crash
      cannot take away and that [serve] then runs with.
    - Both sides together ([enrollment_agreement]): from the operator's issuing
      to the agent's success, with only the service's signing key kept from the
      network, the record in the store and the identity on the agent's disk are
      of one enrollment.
    - The operator socket: who is admitted and when, slots bounded and given
      back, nobody stuck; requests answered in order; the socket's directory and
      file safe; and [keystone enroll create] from the command line, through the
      socket and the store, to the exit code ([operator_command]).
    - The commands: what precedes what when the server starts, and what each exit
      code says.
    - The build's checks: each passes exactly when what it promises of the
      documents holds ([pending_main_exact], [archlint_exact], [capcheck_exact],
      [doclint_exact]), over a matcher of regular expressions that finds a match
      exactly when there is one ([MatchString_reads]).

    ** Bounds and fuel

    Recursion that follows its input is structural.  Where it is not, fuel is
    computed from the input and a lemma says it is enough: [Split] takes nine
    fields; [FormatUint] has at most twenty digits; the JSON scanner has twice the
    input's length plus two, and Go's own nesting bound of 10000; runes, quoting,
    comment stripping, path ancestors, the rounds of a repetition in a regular
    expression and the reading of its pattern have the length of their input.  Loops
    that end only with the outside's help ([await], [credential], [confirm], the
    presence loop, [serveAuthorized], a handler's [attempts]) take a number of
    rounds and become [Looping] when it runs out: theorems about what holds cover
    that place too, theorems about a result either have the rounds as a
    hypothesis on the outside ([serveAuthorized]: more than a quarter of the
    stream's bytes) or conclude only from a return.

    ** Not modelled, and why

    - The NATS client: a connection, a subscription, a publication is a call
      that succeeds or fails.  What a connection is asked for with is modelled
      ([ClientOptions], [agent_options]); that the agent's connection comes about
      is one call.
    - Signals, and what goes to standard error: a command starts from its
      arguments, and what parsing them prints is left out.
    - [peercred_linux.go], one system call; [Close] and [DB] of the store and the
      ledger, which expose the handle.
    - [test/] (the contract probes), [deploy/], [docs/]: not part of the running
      system.
    - Of the build's checks, the text they print; Unicode's lower case, where
      [archlint] uses it, is an argument of the model. *)
From stdpp Require Export base gmap strings list sorting.
From Stdlib Require Export ZArith Lia.
From Stdlib Require Export Strings.Byte.

#[global] Open Scope Z_scope.

(** ** Results: Go's [(value, error)] pairs *)

(** A Go function that returns [(T, error)] is a function into [result E T]:
    [Ok v] is a nil error, [Err e] a non-nil one. *)
Inductive result (E A : Type) : Type :=
  | Ok (a : A)
  | Err (e : E).
Arguments Ok {E A} a.
Arguments Err {E A} e.

#[export] Instance result_ret E : MRet (result E) := fun A a => Ok a.
#[export] Instance result_bind E : MBind (result E) :=
  fun A B f m => match m with Ok a => f a | Err e => Err e end.
#[export] Instance result_fmap E : FMap (result E) :=
  fun A B f m => match m with Ok a => Ok (f a) | Err e => Err e end.

#[export] Instance result_eq_dec E A `{!EqDecision E, !EqDecision A} :
  EqDecision (result E A).
Proof. solve_decision. Defined.

(** [if !b { return e }]. *)
Definition ensure {E} (b : bool) (e : E) : result E unit :=
  if b then Ok tt else Err e.

(** [v, err := f(); if err != nil { return e }]: the callee's error replaced. *)
Definition or_err {E E' A} (m : result E' A) (e : E) : result E A :=
  match m with Ok a => Ok a | Err _ => Err e end.

(** An [ok]-style second result turned into an error. *)
Definition of_option {E A} (o : option A) (e : E) : result E A :=
  match o with Some a => Ok a | None => Err e end.

(** [if err != nil { return wrap(err) }]. *)
Definition map_err {E E' A} (f : E' -> E) (m : result E' A) : result E A :=
  match m with Ok a => Ok a | Err e => Err (f e) end.

Definition ok_or {E A} (d : A) (m : result E A) : A := match m with Ok a => a | Err _ => d end.
Definition is_ok {E A} (m : result E A) : bool :=
  match m with Ok _ => true | Err _ => false end.

Section ResultLemmas.
Context {E : Type}.

(** The two equations, for terms too large to compute under. *)
Lemma ok_bind {A B} (a : A) (k : A -> result E B) : Ok a ≫= k = k a.
Proof. reflexivity. Qed.
Lemma err_bind {A B} (e : E) (k : A -> result E B) : Err e ≫= k = Err e.
Proof. reflexivity. Qed.

Lemma ok_or_ok {A} (d : A) (m : result E A) : is_ok m = true -> m = Ok (ok_or d m).
Proof. by destruct m. Qed.

Lemma bind_ok_inv {A B} (m : result E A) (k : A -> result E B) b :
  m ≫= k = Ok b -> exists a, m = Ok a /\ k a = Ok b.
Proof. destruct m; [eauto | discriminate]. Qed.

Lemma bind_err_inv {A B} (m : result E A) (k : A -> result E B) e :
  m ≫= k = Err e -> m = Err e \/ exists a, m = Ok a /\ k a = Err e.
Proof.
  destruct m as [a|e']; cbn.
  - intros H. right. exists a. split; [reflexivity | exact H].
  - intros [= ->]. by left.
Qed.

Lemma ensure_ok_inv b (e : E) u : ensure b e = Ok u -> b = true.
Proof. by destruct b. Qed.

Lemma ensure_err_inv b (e e' : E) : ensure b e = Err e' -> b = false /\ e' = e.
Proof. destruct b; [done | by intros [= ->]]. Qed.

Lemma or_err_ok_inv {E' A} (m : result E' A) (e : E) a :
  or_err m e = Ok a -> m = Ok a.
Proof. destruct m; [by intros [= ->] | done]. Qed.

Lemma or_err_err_inv {E' A} (m : result E' A) (e e' : E) :
  or_err m e = Err e' -> e' = e.
Proof. destruct m; [done | by intros [= ->]]. Qed.

Lemma map_err_ok_inv {E' A} (f : E' -> E) (m : result E' A) a :
  map_err f m = Ok a -> m = Ok a.
Proof. destruct m; [by intros [= ->] | done]. Qed.

Lemma of_option_ok_inv {A} (o : option A) (e : E) a :
  of_option o e = Ok a -> o = Some a.
Proof. destruct o; [by intros [= ->] | done]. Qed.

Lemma of_option_err_inv {A} (o : option A) (e e' : E) :
  of_option o e = Err e' -> o = None /\ e' = e.
Proof. destruct o; [done | by intros [= ->]]. Qed.
End ResultLemmas.

(** [res_inv] splits every hypothesis saying that a chain of binds returned,
    successfully or not, into what each step returned. *)
Ltac res_step :=
  match goal with
  | H : (_ ≫= _) = Ok _ |- _ => apply bind_ok_inv in H as (? & ? & ?)
  | H : ensure _ _ = Ok _ |- _ => apply ensure_ok_inv in H
  | H : ensure _ _ = Err _ |- _ => apply ensure_err_inv in H as [? ?]
  | H : or_err _ _ = Ok _ |- _ => apply or_err_ok_inv in H
  | H : or_err _ _ = Err _ |- _ => apply or_err_err_inv in H
  | H : of_option _ _ = Ok _ |- _ => apply of_option_ok_inv in H
  | H : of_option _ _ = Err _ |- _ => apply of_option_err_inv in H as [? ?]
  | H : Ok _ = Ok _ |- _ => injection H as H
  | H : Err _ = Err _ |- _ => injection H as H
  | H : Ok _ = Err _ |- _ => discriminate H
  | H : Err _ = Ok _ |- _ => discriminate H
  | H : mret _ = _ |- _ => cbv [mret result_ret] in H
  | H : negb _ = true |- _ => apply negb_true_iff in H
  | H : negb _ = false |- _ => apply negb_false_iff in H
  | H : (_ && _) = true |- _ => apply andb_true_iff in H as [? ?]
  | H : (_ || _) = false |- _ => apply orb_false_iff in H as [? ?]
  end.
Ltac res_inv := repeat (res_step; subst).

(** Case analysis on the first [if] or [match] of the goal, remembering it. *)
Ltac case_goal :=
  match goal with
  | |- context [if ?b then _ else _] => destruct b eqn:?
  | |- context [match ?m with _ => _ end] => destruct m eqn:?
  end.
Ltac case_hyp H :=
  match type of H with
  | context [if ?b then _ else _] => destruct b eqn:?
  | context [match ?m with _ => _ end] => destruct m eqn:?
  end.

(** Boolean tests to propositions. *)
Ltac bool_to_prop :=
  repeat match goal with
  | H : (_ =? _) = true |- _ => apply Z.eqb_eq in H
  | H : (_ =? _) = false |- _ => apply Z.eqb_neq in H
  | H : (_ <? _) = true |- _ => apply Z.ltb_lt in H
  | H : (_ <? _) = false |- _ => apply Z.ltb_ge in H
  | H : (_ <=? _) = true |- _ => apply Z.leb_le in H
  | H : (_ <=? _) = false |- _ => apply Z.leb_gt in H
  | H : bool_decide _ = true |- _ => apply bool_decide_eq_true in H
  | H : bool_decide _ = false |- _ => apply bool_decide_eq_false in H
  | H : (_ || _) = true |- _ => apply orb_true_iff in H
  | H : (_ && _) = false |- _ => apply andb_false_iff in H
  end.

(** Case analysis on the integer tests of the goal; impossible cases by [lia]. *)
Ltac ztest :=
  match goal with
  | |- context [?a <? ?b] => destruct (Z.ltb_spec a b)
  | |- context [?a <=? ?b] => destruct (Z.leb_spec a b)
  | |- context [?a =? ?b] => destruct (Z.eqb_spec a b)
  end; try lia.
Ltac ztests := repeat ztest.

(** ** Machine integers

    Go's fixed-width integers are [Z] with the wrap-around written out.
    [int] is 64 bits wide on every platform the program is built for. *)
Definition uint32 (z : Z) : Z := z mod 2 ^ 32.
Definition uint64 (z : Z) : Z := z mod 2 ^ 64.
Definition int64 (z : Z) : Z := (z + 2 ^ 63) mod 2 ^ 64 - 2 ^ 63.

Definition max_int64 : Z := 2 ^ 63 - 1.
Definition min_int64 : Z := - 2 ^ 63.

Lemma uint32_range z : 0 <= uint32 z < 2 ^ 32.
Proof. apply Z.mod_pos_bound. lia. Qed.
Lemma uint64_range z : 0 <= uint64 z < 2 ^ 64.
Proof. apply Z.mod_pos_bound. lia. Qed.
Lemma uint32_small z : 0 <= z < 2 ^ 32 -> uint32 z = z.
Proof. apply Z.mod_small. Qed.
Lemma uint64_small z : 0 <= z < 2 ^ 64 -> uint64 z = z.
Proof. apply Z.mod_small. Qed.
Lemma int64_range z : min_int64 <= int64 z <= max_int64.
Proof.
  unfold int64, min_int64, max_int64.
  pose proof (Z.mod_pos_bound (z + 2 ^ 63) (2 ^ 64)). lia.
Qed.
Lemma int64_small z : min_int64 <= z <= max_int64 -> int64 z = z.
Proof.
  unfold int64, min_int64, max_int64. intros. rewrite Z.mod_small; lia.
Qed.
Lemma int64_uint64 z : int64 (uint64 z) = int64 z.
Proof.
  unfold int64, uint64. rewrite Zplus_mod_idemp_l. reflexivity.
Qed.
Lemma uint64_int64 z : uint64 (int64 z) = uint64 z.
Proof.
  unfold int64, uint64.
  rewrite Zminus_mod_idemp_l. f_equal. lia.
Qed.

(** Length of a list as a Go [int]. *)
Definition zlen {A} (l : list A) : Z := Z.of_nat (length l).

#[global] Arguments zlen : simpl never.

Lemma zlen_nonneg {A} (l : list A) : 0 <= zlen l.
Proof. unfold zlen. lia. Qed.
Lemma zlen_app {A} (l k : list A) : zlen (l ++ k) = zlen l + zlen k.
Proof. unfold zlen. rewrite length_app. lia. Qed.
Lemma zlen_cons {A} (x : A) (l : list A) : zlen (x :: l) = 1 + zlen l.
Proof. unfold zlen. cbn [length]. lia. Qed.
Lemma zlen_nil {A} : zlen (@nil A) = 0.
Proof. reflexivity. Qed.
Lemma zlen_take {A} n (l : list A) :
  0 <= n <= zlen l -> zlen (take (Z.to_nat n) l) = n.
Proof. unfold zlen. intros. rewrite length_take. lia. Qed.
Lemma zlen_zero {A} (l : list A) : zlen l = 0 -> l = [].
Proof. destruct l; [done|]. rewrite zlen_cons. pose proof (zlen_nonneg l). lia. Qed.

(** The rewriting base of lengths, and the hints that close the common
    arithmetic side conditions. *)
Create HintDb keystone discriminated.
Create Rewrite HintDb zlen.
#[export] Hint Rewrite @zlen_app @zlen_cons @zlen_nil : zlen.
#[export] Hint Resolve zlen_nonneg uint32_range uint64_range int64_range : keystone.

(** ** List facts shared by the components *)

Lemma take_app_exact {A} n (l k : list A) :
  zlen l = n -> take (Z.to_nat n) (l ++ k) = l.
Proof. intros <-. unfold zlen. rewrite Nat2Z.id. apply take_app_length. Qed.
Lemma drop_app_exact {A} n (l k : list A) :
  zlen l = n -> drop (Z.to_nat n) (l ++ k) = k.
Proof. intros <-. unfold zlen. rewrite Nat2Z.id. apply drop_app_length. Qed.

Lemma app_inj_zlen {A} (l1 l2 k1 k2 : list A) :
  zlen l1 = zlen l2 -> l1 ++ k1 = l2 ++ k2 -> l1 = l2 /\ k1 = k2.
Proof. unfold zlen. intros. apply app_inj_1; [lia | done]. Qed.

Lemma forallb_false {A} (f : A -> bool) l :
  forallb f l = false -> exists x, In x l /\ f x = false.
Proof.
  induction l as [|x l IH]; cbn; [done|].
  destruct (f x) eqn:E; cbn; [|by eauto]. intros (y & ? & ?)%IH. eauto.
Qed.

Lemma Forall_in {A} (P : A -> Prop) l x : Forall P l -> x ∈ l -> P x.
Proof. rewrite Forall_forall. auto. Qed.
Lemma zlen_cons_pos {A} (x : A) l : (0 <? zlen (x :: l)) = true.
Proof. apply Z.ltb_lt. unfold zlen. cbn [length]. lia. Qed.

(** Lists of complaints, and what it takes to have none. *)
Lemma if_nil {A} (b : bool) (x : A) : (if b then [] else [x]) = [] <-> b = true.
Proof. by destruct b. Qed.
Lemma unless_nil {A} (b : bool) (x : A) : (if b then [x] else []) = [] <-> b = false.
Proof. by destruct b. Qed.
Lemma forall_fresh {A B} (f : A -> B) n l seen :
  Forall (fun x => f x ∉ n :: seen) l <-> (n ∉ map f l) /\ Forall (fun x => f x ∉ seen) l.
Proof.
  rewrite !Forall_forall. split.
  - intros H. split; [|set_solver]. intros (x & Ex & Hx)%list_elem_of_fmap_1. apply (H x Hx). rewrite Ex. by left.
  - intros [H1 H2] x Hx [Ex|Hs]%elem_of_cons; [|by apply (H2 x)]. apply H1. rewrite <- Ex. by apply list_elem_of_fmap_2.
Qed.
Lemma omap_unless_nil {A B} (P : A -> Prop) `{!forall x, Decision (P x)} (f : A -> B) (l : list A) :
  omap (fun x => if bool_decide (P x) then None else Some (f x)) l = [] <-> Forall P l.
Proof.
  induction l as [|x l IH]; cbn; [done|]. rewrite Forall_cons, <- IH. case_bool_decide; naive_solver.
Qed.
Lemma mjoin_map_nil {A B} (f : A -> list B) (l : list A) : mjoin (map f l) = [] <-> Forall (fun x => f x = []) l.
Proof. induction l as [|x l IH]; cbn; [done|]. by rewrite app_nil, Forall_cons, IH. Qed.
