(* ===== verification/GoBytes.v ===== *)
(** * Bytes: what the program uses of Go's byte slices and encodings

    A [[]byte] is a [list byte]; a Go [string] is Rocq's [string], whose
    characters are bytes too.  The file models [encoding/binary]'s big-endian
    words, [encoding/hex] and [encoding/base64]'s standard encoding, with the
    round trips the components rely on. *)
From S2P Require Import Prelude.

Abbreviation bytes := (list byte).

#[export] Instance byte_eq_dec : EqDecision byte := Byte.byte_eq_dec.

(** ** Bytes as numbers *)

Definition byte_val (b : byte) : Z := Z.of_N (Byte.to_N b).
Definition byte_of (z : Z) : byte :=
  default x00 (Byte.of_N (Z.to_N (z mod 256))).

Lemma byte_val_range b : 0 <= byte_val b < 256.
Proof.
  unfold byte_val. pose proof (Byte.to_N_bounded b). lia.
Qed.

Lemma byte_val_of z : byte_val (byte_of z) = z mod 256.
Proof.
  unfold byte_val, byte_of.
  pose proof (Z.mod_pos_bound z 256 ltac:(lia)) as Hb.
  destruct (Byte.of_N _) as [b|] eqn:E; cbn [default].
  - apply Byte.to_of_N in E. cbn. rewrite E. lia.
  - apply Byte.of_N_None_iff in E. lia.
Qed.

Lemma byte_of_val b : byte_of (byte_val b) = b.
Proof.
  unfold byte_of. rewrite Z.mod_small by apply byte_val_range.
  unfold byte_val. rewrite N2Z.id, Byte.of_to_N. reflexivity.
Qed.

Lemma byte_val_inj b c : byte_val b = byte_val c -> b = c.
Proof. intros H. rewrite <- (byte_of_val b), H. apply byte_of_val. Qed.

(** ** Strings and byte slices: [string(b)] and [[]byte(s)] *)

Abbreviation to_bytes := String.list_byte_of_string.
Abbreviation of_bytes := String.string_of_list_byte.

#[global] Arguments String.list_byte_of_string : simpl never.
#[global] Arguments String.string_of_list_byte : simpl never.

Lemma of_to_bytes s : of_bytes (to_bytes s) = s.
Proof. apply String.string_of_list_byte_of_string. Qed.
Lemma to_of_bytes b : to_bytes (of_bytes b) = b.
Proof. apply String.list_byte_of_string_of_list_byte. Qed.

Lemma to_bytes_inj s t : to_bytes s = to_bytes t -> s = t.
Proof. intros H. rewrite <- (of_to_bytes s), H. apply of_to_bytes. Qed.
Lemma of_bytes_inj b c : of_bytes b = of_bytes c -> b = c.
Proof. intros H. rewrite <- (to_of_bytes b), H. apply to_of_bytes. Qed.

(** [len(s)]. *)
Definition slen (s : string) : Z := zlen (to_bytes s).

Lemma slen_of_bytes b : slen (of_bytes b) = zlen b.
Proof. unfold slen. by rewrite to_of_bytes. Qed.
Lemma slen_nonneg s : 0 <= slen s.
Proof. apply zlen_nonneg. Qed.

Lemma to_bytes_app s t : to_bytes (s +:+ t) = to_bytes s ++ to_bytes t.
Proof.
  induction s as [|c s IH]; [reflexivity|].
  change (Ascii.byte_of_ascii c :: to_bytes (s +:+ t)
          = Ascii.byte_of_ascii c :: (to_bytes s ++ to_bytes t)).
  by rewrite IH.
Qed.
Lemma of_bytes_app b c : of_bytes (b ++ c) = of_bytes b +:+ of_bytes c.
Proof. apply to_bytes_inj. by rewrite to_bytes_app, !to_of_bytes. Qed.
Lemma slen_app s t : slen (s +:+ t) = slen s + slen t.
Proof. unfold slen. by rewrite to_bytes_app, zlen_app. Qed.

Create Rewrite HintDb gobytes.
#[export] Hint Rewrite of_to_bytes to_of_bytes to_bytes_app slen_of_bytes slen_app
  byte_val_of byte_of_val : gobytes.
#[export] Hint Resolve byte_val_range slen_nonneg : keystone.

(** ** [encoding/binary]: big-endian words of [n] bytes *)

Fixpoint be_put (n : nat) (z : Z) : bytes :=
  match n with
  | O => []
  | S n' => byte_of (Z.shiftr z (8 * Z.of_nat n')) :: be_put n' z
  end.

Definition be_get (b : bytes) : Z :=
  foldl (fun acc c => acc * 256 + byte_val c) 0 b.

Abbreviation get_uint32 := be_get (only parsing).
Abbreviation get_uint64 := be_get (only parsing).
Definition put_uint32 (z : Z) : bytes := be_put 4 z.
Definition put_uint64 (z : Z) : bytes := be_put 8 z.

#[global] Arguments put_uint32 : simpl never.
#[global] Arguments put_uint64 : simpl never.
#[global] Arguments be_get : simpl never.
#[global] Arguments byte_of : simpl never.
#[global] Arguments byte_val : simpl never.

Lemma length_be_put n z : length (be_put n z) = n.
Proof. induction n; cbn; auto. Qed.
Lemma zlen_be_put n z : zlen (be_put n z) = Z.of_nat n.
Proof. unfold zlen. by rewrite length_be_put. Qed.
Lemma zlen_put_uint32 z : zlen (put_uint32 z) = 4.
Proof. apply zlen_be_put. Qed.
Lemma zlen_put_uint64 z : zlen (put_uint64 z) = 8.
Proof. apply zlen_be_put. Qed.

Lemma be_get_acc b acc :
  foldl (fun a c => a * 256 + byte_val c) acc b
  = acc * 256 ^ zlen b + be_get b.
Proof.
  unfold be_get. revert acc.
  induction b as [|c b IH]; intros acc; cbn [foldl].
  - rewrite zlen_nil, Z.pow_0_r. lia.
  - rewrite (IH (acc * 256 + byte_val c)), (IH (0 * 256 + byte_val c)), zlen_cons.
    rewrite Z.pow_add_r by (auto with keystone; lia).
    change (256 ^ 1) with 256. ring.
Qed.

Lemma be_get_cons c b : be_get (c :: b) = byte_val c * 256 ^ zlen b + be_get b.
Proof. unfold be_get at 1. cbn [foldl]. rewrite be_get_acc. ring. Qed.

Lemma be_get_range b : 0 <= be_get b < 256 ^ zlen b.
Proof.
  induction b as [|c b IH]; [by split|].
  rewrite be_get_cons, zlen_cons, Z.pow_add_r by (auto with keystone; lia).
  pose proof (byte_val_range c). change (256 ^ 1) with 256. nia.
Qed.

Lemma pow256 n : 256 ^ Z.of_nat n = 2 ^ (8 * Z.of_nat n).
Proof. change 256 with (2 ^ 8). rewrite <- Z.pow_mul_r by lia. reflexivity. Qed.

(** Reading back what was written gives the value modulo the width. *)
Lemma be_get_put n z : be_get (be_put n z) = z mod 256 ^ Z.of_nat n.
Proof.
  induction n as [|n IH]; [by rewrite Z.mod_1_r|].
  cbn [be_put]. rewrite be_get_cons, byte_val_of, IH, zlen_be_put.
  rewrite Z.shiftr_div_pow2, <- pow256 by lia.
  rewrite Nat2Z.inj_succ, Z.pow_succ_r by lia.
  rewrite (Z.mul_comm 256), Z.rem_mul_r by lia. ring.
Qed.

(** Only the low [m] bytes of a word reach a field of [m] bytes. *)
Lemma be_put_add_high m k a z :
  (m <= k)%nat -> be_put m (a * 256 ^ Z.of_nat k + z) = be_put m z.
Proof.
  induction m as [|m IH]; intros Hm; [reflexivity|].
  cbn [be_put]. rewrite IH by lia. f_equal.
  rewrite !Z.shiftr_div_pow2, <- pow256 by lia.
  unfold byte_of. do 3 f_equal.
  replace (Z.of_nat k) with (Z.of_nat m + (1 + (Z.of_nat k - 1 - Z.of_nat m))) by lia.
  rewrite !Z.pow_add_r, Z.pow_1_r by lia.
  rewrite (Z.mul_comm (256 ^ Z.of_nat m)), Z.mul_assoc, Z.div_add_l by lia.
  rewrite (Z.mul_comm 256), Z.mul_assoc, Z.add_comm, Z.mod_add by lia. reflexivity.
Qed.

(** Writing what was read gives back the same bytes. *)
Lemma be_put_get b : be_put (length b) (be_get b) = b.
Proof.
  induction b as [|c b IH]; [reflexivity|]. cbn [length be_put].
  pose proof (be_get_range b) as Hb. rewrite be_get_cons. f_equal.
  - rewrite Z.shiftr_div_pow2, <- pow256 by lia. fold (zlen b).
    rewrite Z.div_add_l, Z.div_small, Z.add_0_r by lia. apply byte_of_val.
  - unfold zlen. rewrite be_put_add_high by lia. exact IH.
Qed.

Lemma be_get_put_uint32 z : be_get (put_uint32 z) = uint32 z.
Proof. apply (be_get_put 4). Qed.
Lemma be_get_put_uint64 z : be_get (put_uint64 z) = uint64 z.
Proof. apply (be_get_put 8). Qed.
Lemma put_uint32_get b : zlen b = 4 -> put_uint32 (be_get b) = b.
Proof.
  intros H. unfold put_uint32. replace 4%nat with (length b) by (unfold zlen in H; lia).
  apply be_put_get.
Qed.
Lemma put_uint64_get b : zlen b = 8 -> put_uint64 (be_get b) = b.
Proof.
  intros H. unfold put_uint64. replace 8%nat with (length b) by (unfold zlen in H; lia).
  apply be_put_get.
Qed.
Lemma be_get_uint32_range b : zlen b = 4 -> 0 <= be_get b < 2 ^ 32.
Proof. intros H. pose proof (be_get_range b) as Hb. rewrite H in Hb. exact Hb. Qed.
Lemma be_get_uint64_range b : zlen b = 8 -> 0 <= be_get b < 2 ^ 64.
Proof. intros H. pose proof (be_get_range b) as Hb. rewrite H in Hb. exact Hb. Qed.

(** ** [encoding/hex] *)

Definition hex_digit (n : Z) : byte :=
  if n <? 10 then byte_of (48 + n) else byte_of (87 + n).

Definition hex_val (c : byte) : option Z :=
  let v := byte_val c in
  if (48 <=? v) && (v <=? 57) then Some (v - 48)
  else if (97 <=? v) && (v <=? 102) then Some (v - 87)
  else if (65 <=? v) && (v <=? 70) then Some (v - 55)
  else None.

Definition hex_encode (b : bytes) : bytes :=
  flat_map (fun c => [hex_digit (byte_val c / 16); hex_digit (byte_val c mod 16)]) b.

Fixpoint hex_decode (s : bytes) : option bytes :=
  match s with
  | [] => Some []
  | a :: c :: rest =>
      x ← hex_val a; y ← hex_val c; tl ← hex_decode rest;
      Some (byte_of (16 * x + y) :: tl)
  | [_] => None
  end.

(** [hex.EncodeToString] and [hex.DecodeString]. *)
Definition hex_encode_string (b : bytes) : string := of_bytes (hex_encode b).
Definition hex_decode_string (s : string) : option bytes := hex_decode (to_bytes s).

(** A property of the numbers below [n], checked by evaluation. *)
Lemma forall_below (P : Z -> bool) (n : nat) :
  forallb (fun k => P (Z.of_nat k)) (seq 0 n) = true ->
  forall z, 0 <= z < Z.of_nat n -> P z = true.
Proof.
  intros H z Hz. rewrite forallb_forall in H.
  rewrite <- (Z2Nat.id z) by lia. apply H, in_seq. lia.
Qed.

Lemma hex_val_digit n : 0 <= n < 16 -> hex_val (hex_digit n) = Some n.
Proof.
  intros Hn. eapply bool_decide_eq_true_1.
  revert n Hn. apply (forall_below (fun n => bool_decide (hex_val (hex_digit n) = Some n)) 16).
  vm_compute. reflexivity.
Qed.

Lemma hex_decode_encode b : hex_decode (hex_encode b) = Some b.
Proof.
  induction b as [|c b IH]; [reflexivity|].
  cbn [hex_encode flat_map app hex_decode]. fold (hex_encode b).
  pose proof (byte_val_range c).
  rewrite !hex_val_digit by (Z.to_euclidean_division_equations; lia).
  rewrite IH. cbn. rewrite <- Z.div_mod by lia. by rewrite byte_of_val.
Qed.

Lemma hex_decode_encode_string b : hex_decode_string (hex_encode_string b) = Some b.
Proof.
  unfold hex_decode_string, hex_encode_string. rewrite to_of_bytes. apply hex_decode_encode.
Qed.

Lemma zlen_hex_encode b : zlen (hex_encode b) = 2 * zlen b.
Proof.
  induction b as [|c b IH]; [reflexivity|].
  cbn [hex_encode flat_map app]. fold (hex_encode b).
  rewrite !zlen_cons, IH. lia.
Qed.

Lemma hex_encode_lower b :
  Forall (fun c => exists n, 0 <= n < 16 /\ c = hex_digit n) (hex_encode b).
Proof.
  induction b as [|c b IH]; cbn [hex_encode flat_map app]; [constructor|].
  pose proof (byte_val_range c).
  repeat constructor; [exists (byte_val c / 16) | exists (byte_val c mod 16) | exact IH].
  - split; [|done]. split; [apply Z.div_pos | apply Z.div_lt_upper_bound]; lia.
  - split; [apply Z.mod_pos_bound; lia | done].
Qed.

Lemma hex_encode_inj b c : hex_encode b = hex_encode c -> b = c.
Proof.
  intros H. apply (f_equal hex_decode) in H. rewrite !hex_decode_encode in H. congruence.
Qed.
Lemma hex_encode_string_inj b c : hex_encode_string b = hex_encode_string c -> b = c.
Proof. intros H. by apply of_bytes_inj, hex_encode_inj in H. Qed.
Lemma slen_hex_encode_string b : slen (hex_encode_string b) = 2 * zlen b.
Proof. unfold hex_encode_string. rewrite slen_of_bytes. apply zlen_hex_encode. Qed.

(** ** [encoding/base64]: [StdEncoding] *)

Definition b64_digit (n : Z) : byte :=
  if n <? 26 then byte_of (65 + n)
  else if n <? 52 then byte_of (97 + (n - 26))
  else if n <? 62 then byte_of (48 + (n - 52))
  else if n =? 62 then byte_of 43 else byte_of 47.

Definition b64_val (c : byte) : option Z :=
  let v := byte_val c in
  if (65 <=? v) && (v <=? 90) then Some (v - 65)
  else if (97 <=? v) && (v <=? 122) then Some (v - 97 + 26)
  else if (48 <=? v) && (v <=? 57) then Some (v - 48 + 52)
  else if v =? 43 then Some 62
  else if v =? 47 then Some 63
  else None.

Definition b64_pad : byte := x3d.

Fixpoint b64_encode (b : bytes) : bytes :=
  match b with
  | [] => []
  | [x] =>
      let n := byte_val x * 65536 in
      [b64_digit (n / 262144); b64_digit (n / 4096 mod 64); b64_pad; b64_pad]
  | [x; y] =>
      let n := byte_val x * 65536 + byte_val y * 256 in
      [b64_digit (n / 262144); b64_digit (n / 4096 mod 64);
       b64_digit (n / 64 mod 64); b64_pad]
  | x :: y :: z :: rest =>
      let n := byte_val x * 65536 + byte_val y * 256 + byte_val z in
      b64_digit (n / 262144) :: b64_digit (n / 4096 mod 64)
      :: b64_digit (n / 64 mod 64) :: b64_digit (n mod 64) :: b64_encode rest
  end.

(** Padding ends the input: nothing may follow it.  The bits a padded quantum
    leaves over are not checked, as the encoding is not [Strict]. *)
Fixpoint b64_quanta (s : bytes) : option bytes :=
  match s with
  | [] => Some []
  | a :: b :: c :: d :: rest =>
      x ← b64_val a; y ← b64_val b;
      match b64_val c with
      | None =>
          if bool_decide (c = b64_pad /\ d = b64_pad /\ rest = [])
          then Some [byte_of (x * 4 + y / 16)] else None
      | Some z =>
          match b64_val d with
          | None =>
              if bool_decide (d = b64_pad /\ rest = [])
              then Some [byte_of (x * 4 + y / 16); byte_of (y mod 16 * 16 + z / 4)] else None
          | Some w =>
              tl ← b64_quanta rest;
              Some (byte_of (x * 4 + y / 16) :: byte_of (y mod 16 * 16 + z / 4)
                    :: byte_of (z mod 4 * 64 + w) :: tl)
          end
      end
  | _ => None
  end.

(** Line ends are skipped wherever they are. *)
Definition is_newline (c : byte) : bool := bool_decide (c = x0a \/ c = x0d).
Definition b64_decode (s : bytes) : option bytes :=
  b64_quanta (filter (fun c => is_newline c = false) s).

Definition b64_encode_string (b : bytes) : string := of_bytes (b64_encode b).
Definition b64_decode_string (s : string) : option bytes := b64_decode (to_bytes s).

Lemma b64_val_digit n : 0 <= n < 64 -> b64_val (b64_digit n) = Some n.
Proof.
  intros Hn. eapply bool_decide_eq_true_1.
  revert n Hn. apply (forall_below (fun n => bool_decide (b64_val (b64_digit n) = Some n)) 64).
  vm_compute. reflexivity.
Qed.

Lemma b64_digit_plain n : 0 <= n < 64 -> is_newline (b64_digit n) = false.
Proof.
  intros Hn. apply negb_true_iff.
  revert n Hn. apply (forall_below (fun n => negb (is_newline (b64_digit n))) 64).
  vm_compute. reflexivity.
Qed.

(** Induction three bytes at a time, as the encoder walks. *)
Lemma list_ind3 {A} (P : list A -> Prop) :
  P [] -> (forall x, P [x]) -> (forall x y, P [x; y]) ->
  (forall x y z l, P l -> P (x :: y :: z :: l)) -> forall l, P l.
Proof.
  intros H0 H1 H2 H3. fix IH 1. intros [|x [|y [|z l]]];
    [exact H0 | apply H1 | apply H2 | apply H3, IH].
Qed.

Ltac sextets :=
  match goal with
  | |- context [byte_val ?x * 65536 + byte_val ?y * 256 + byte_val ?z] =>
      pose proof (byte_val_range x); pose proof (byte_val_range y);
      pose proof (byte_val_range z)
  | |- context [byte_val ?x * 65536 + byte_val ?y * 256] =>
      pose proof (byte_val_range x); pose proof (byte_val_range y)
  | |- context [byte_val ?x * 65536] => pose proof (byte_val_range x)
  end.

Lemma b64_sextets n :
  0 <= n < 2 ^ 24 ->
  0 <= n / 262144 < 64 /\ 0 <= n / 4096 mod 64 < 64 /\
  0 <= n / 64 mod 64 < 64 /\ 0 <= n mod 64 < 64.
Proof. intros. Z.to_euclidean_division_equations. lia. Qed.

Lemma b64_encode_plain b :
  Forall (fun c => is_newline c = false) (b64_encode b).
Proof.
  induction b as [|x|x y|x y z l IH] using list_ind3; cbn [b64_encode]; [constructor|..];
    sextets; match goal with |- context [b64_digit (?n / 262144)] =>
      destruct (b64_sextets n) as (?&?&?&?); [lia|] end;
    repeat constructor; auto using b64_digit_plain.
Qed.

(** The three bytes of a group from its four sextets. *)
Lemma b64_join x y z :
  let n := byte_val x * 65536 + byte_val y * 256 + byte_val z in
  byte_of (n / 262144 * 4 + n / 4096 mod 64 / 16) = x /\
  byte_of (n / 4096 mod 64 mod 16 * 16 + n / 64 mod 64 / 4) = y /\
  byte_of (n / 64 mod 64 mod 4 * 64 + n mod 64) = z.
Proof.
  intros n. pose proof (byte_val_range x). pose proof (byte_val_range y).
  pose proof (byte_val_range z).
  split; [|split]; apply byte_val_inj; rewrite byte_val_of; subst n;
    Z.to_euclidean_division_equations; lia.
Qed.

Lemma b64_quanta_encode b : b64_quanta (b64_encode b) = Some b.
Proof.
  induction b as [|x|x y|x y z l IH] using list_ind3; [reflexivity|..];
    cbn [b64_encode]; sextets;
    match goal with |- context [b64_digit (?n / 262144)] =>
      destruct (b64_sextets n) as (?&?&?&?); [lia|] end;
    cbn [b64_quanta]; rewrite !b64_val_digit by done; cbn [mbind option_bind].
  - change (b64_val b64_pad) with (@None Z). cbn.
    destruct (b64_join x x00 x00) as (Hx & _ & _). cbn in Hx.
    change (byte_val x00) with 0 in Hx. rewrite !Z.add_0_r in Hx. by rewrite Hx.
  - change (b64_val b64_pad) with (@None Z). cbn.
    destruct (b64_join x y x00) as (Hx & Hy & _).
    change (byte_val x00) with 0 in Hx, Hy. rewrite Z.add_0_r in Hx, Hy. by rewrite Hx, Hy.
  - rewrite IH. cbn. destruct (b64_join x y z) as (-> & -> & ->). reflexivity.
Qed.

Lemma filter_all {A} (P : A -> Prop) `{!forall x, Decision (P x)} (l : list A) :
  Forall P l -> filter P l = l.
Proof.
  induction 1 as [|x l Hx _ IH]; [done|]. rewrite filter_cons_True by done. by rewrite IH.
Qed.

Lemma b64_decode_encode b : b64_decode (b64_encode b) = Some b.
Proof.
  unfold b64_decode. rewrite filter_all by apply b64_encode_plain. apply b64_quanta_encode.
Qed.

Lemma b64_decode_encode_string b : b64_decode_string (b64_encode_string b) = Some b.
Proof.
  unfold b64_decode_string, b64_encode_string. rewrite to_of_bytes. apply b64_decode_encode.
Qed.

Lemma b64_encode_string_inj b c : b64_encode_string b = b64_encode_string c -> b = c.
Proof.
  intros H. apply (f_equal b64_decode_string) in H.
  rewrite !b64_decode_encode_string in H. congruence.
Qed.
