(* ===== verification/GoTime.v ===== *)
(** * Instants and durations: what the program uses of Go's [time]

    A [time.Time] is the number of nanoseconds since the Unix epoch in UTC, a
    [time.Duration] a number of nanoseconds.  Only [Sub] saturates and only
    [UnixMilli] wraps; the program calls both on values a peer chooses. *)
From S2P Require Import Prelude.

Abbreviation Time := Z (only parsing).
Abbreviation Duration := Z (only parsing).

Definition Millisecond : Duration := 1000000.
Definition Second : Duration := 1000 * Millisecond.
Definition Minute : Duration := 60 * Second.
Definition Hour : Duration := 60 * Minute.

(** [t.UnixMilli()]: rounds down, as [int64]. *)
Definition UnixMilli_of (t : Time) : Z := int64 (t / Millisecond).
(** [time.UnixMilli(ms)]. *)
Definition time_UnixMilli (ms : Z) : Time := ms * Millisecond.

(** [t.Unix()] and [time.Unix(s, 0)]. *)
Definition Unix_of (t : Time) : Z := int64 (t / Second).
Definition time_Unix (s : Z) : Time := s * Second.

Definition t_add (t : Time) (d : Duration) : Time := t + d.

(** [t.Sub(u)] saturates at the ends of [int64]. *)
Definition t_sub (t u : Time) : Duration := Z.max min_int64 (Z.min max_int64 (t - u)).

Definition t_before (t u : Time) : bool := t <? u.
Definition t_after (t u : Time) : bool := u <? t.

(** [t.Truncate(time.Second)]: the zero instant is a whole second. *)
Definition t_truncate_second (t : Time) : Time := t / Second * Second.

(** The zero [time.Time], 1 January of year 1. *)
Definition t_zero : Time := -62135596800 * Second.
Definition IsZero (t : Time) : bool := t =? t_zero.

Lemma UnixMilli_roundtrip ms :
  min_int64 <= ms <= max_int64 -> UnixMilli_of (time_UnixMilli ms) = ms.
Proof.
  intros H. unfold UnixMilli_of, time_UnixMilli, Millisecond.
  rewrite Z.div_mul by lia. by apply int64_small.
Qed.

(** What survives [UnixMilli] survives it again. *)
Lemma UnixMilli_again t : UnixMilli_of (time_UnixMilli (UnixMilli_of t)) = UnixMilli_of t.
Proof. apply UnixMilli_roundtrip, int64_range. Qed.

Lemma truncate_bounds t : t_truncate_second t <= t < t_truncate_second t + Second.
Proof. unfold t_truncate_second, Second, Millisecond. Z.to_euclidean_division_equations. lia. Qed.

Lemma truncate_whole t : Unix_of (t_truncate_second t) = Unix_of t.
Proof. unfold Unix_of, t_truncate_second, Second, Millisecond. by rewrite Z.div_mul. Qed.

Lemma time_Unix_truncate t :
  min_int64 <= t / Second <= max_int64 -> time_Unix (Unix_of t) = t_truncate_second t.
Proof. intros H. unfold time_Unix, Unix_of. by rewrite int64_small. Qed.

(** Saturation never turns a distance over a bound into one within it. *)
Lemma t_sub_le t u d : min_int64 <= d < max_int64 -> d < t_sub t u <-> d < t - u.
Proof. unfold t_sub, max_int64, min_int64. lia. Qed.
Lemma t_sub_ge t u d : min_int64 < d <= max_int64 -> t_sub t u < d <-> t - u < d.
Proof. unfold t_sub, max_int64, min_int64. lia. Qed.
