(* ===== verification/GoText.v ===== *)
(** * Text: what the program uses of Go's [strings] and [strconv]

    Over the bytes of a string: trimming, prefixes, splitting at a byte, and
    the decimal integers of [strconv] with their ranges. *)
From S2P Require Import Prelude GoBytes.

(** ** [strings] *)

(** [strings.Split(s, sep)] for a one-byte separator: always one part more than
    there are separators. *)
Fixpoint split_on (sep : byte) (s : bytes) : list bytes :=
  match s with
  | [] => [[]]
  | c :: s' =>
      if bool_decide (c = sep) then [] :: split_on sep s'
      else match split_on sep s' with
           | [] => [[c]]
           | p :: ps => (c :: p) :: ps
           end
  end.

Fixpoint join_with (sep : byte) (ps : list bytes) : bytes :=
  match ps with
  | [] => []
  | [p] => p
  | p :: ps' => p ++ sep :: join_with sep ps'
  end.

Definition Split_string (s : string) (sep : byte) : list string :=
  map of_bytes (split_on sep (to_bytes s)).

(** [strings.SplitN(s, sep, 2)], a pair when the separator is there. *)
Fixpoint cut_at (sep : byte) (s : bytes) : option (bytes * bytes) :=
  match s with
  | [] => None
  | c :: s' =>
      if bool_decide (c = sep) then Some ([], s')
      else match cut_at sep s' with
           | Some (a, b) => Some (c :: a, b)
           | None => None
           end
  end.

Fixpoint prefix_of (p s : bytes) : bool :=
  match p, s with
  | [], _ => true
  | c :: p', d :: s' => bool_decide (c = d) && prefix_of p' s'
  | _ :: _, [] => false
  end.
Definition HasPrefix (s p : string) : bool := prefix_of (to_bytes p) (to_bytes s).
Definition HasSuffix (s p : string) : bool :=
  prefix_of (rev (to_bytes p)) (rev (to_bytes s)).

Lemma split_on_nonempty sep s : split_on sep s <> [].
Proof.
  destruct s as [|c s]; cbn; [done|]. case_bool_decide; [done|].
  by destruct (split_on sep s).
Qed.

Lemma join_split sep s : join_with sep (split_on sep s) = s.
Proof.
  induction s as [|c s IH]; [reflexivity|]. cbn [split_on].
  pose proof (split_on_nonempty sep s) as Hne.
  case_bool_decide as Hc; destruct (split_on sep s) as [|p [|q ps]]; try done;
    cbn [join_with app] in *; by rewrite IH, ?Hc.
Qed.

Lemma split_on_none sep s : sep ∉ s -> split_on sep s = [s].
Proof.
  induction s as [|c s IH]; [reflexivity|]. intros [Hc Hs]%not_elem_of_cons.
  cbn [split_on]. rewrite IH by done. case_bool_decide; congruence.
Qed.

Lemma split_on_cat sep a b : split_on sep (a ++ sep :: b) = split_on sep a ++ split_on sep b.
Proof.
  induction a as [|c a IH]; cbn [app split_on].
  - by rewrite bool_decide_eq_true_2.
  - rewrite IH. case_bool_decide; [done|]. pose proof (split_on_nonempty sep a).
    by destruct (split_on sep a).
Qed.

Lemma split_on_app sep p s :
  sep ∉ p -> split_on sep (p ++ sep :: s) = p :: split_on sep s.
Proof.
  induction p as [|c p IH]; cbn [app split_on].
  - intros _. by rewrite bool_decide_eq_true_2.
  - intros [Hc Hp]%not_elem_of_cons. rewrite IH by done. case_bool_decide; congruence.
Qed.

Lemma split_join sep ps :
  ps <> [] -> Forall (fun p => sep ∉ p) ps -> split_on sep (join_with sep ps) = ps.
Proof.
  intros Hne Hps. induction Hps as [|p ps Hp Hps IH]; [done|].
  destruct ps as [|q ps]; [by apply split_on_none|].
  cbn [join_with]. rewrite split_on_app by done. f_equal. by apply IH.
Qed.

Lemma split_on_parts sep s : Forall (fun p => sep ∉ p) (split_on sep s).
Proof.
  induction s as [|c s IH]; cbn [split_on].
  - repeat constructor. apply not_elem_of_nil.
  - case_bool_decide; [constructor; [apply not_elem_of_nil | done]|].
    pose proof (split_on_nonempty sep s).
    destruct (split_on sep s) as [|p ps]; [done|].
    apply Forall_cons in IH as [Hp IH]. constructor; [|done].
    apply not_elem_of_cons. split; congruence.
Qed.

Lemma cut_at_spec sep s a b :
  cut_at sep s = Some (a, b) <-> s = a ++ sep :: b /\ sep ∉ a.
Proof.
  revert a b. induction s as [|c s IH]; intros a b; cbn [cut_at].
  { split; [done|]. intros [H _]. by destruct a. }
  case_bool_decide as Hc.
  - split.
    + intros [= <- <-]. rewrite Hc. split; [done | apply not_elem_of_nil].
    + intros [H Ha]. destruct a as [|d a]; cbn in H.
      * by injection H as -> ->.
      * injection H as -> ->. rewrite not_elem_of_cons in Ha. naive_solver.
  - destruct (cut_at sep s) as [[a' b']|] eqn:E.
    + destruct (proj1 (IH a' b') eq_refl) as [-> Ha']. split.
      * intros [= <- <-]. split; [done|]. apply not_elem_of_cons. split; congruence.
      * intros [H Ha]. destruct a as [|d a]; [naive_solver|]. cbn in H. injection H as <- H.
        apply not_elem_of_cons in Ha as [_ Ha].
        assert (Hs : Some (a', b') = Some (a, b)) by (apply IH; auto). by injection Hs as -> ->.
    + split; [done|]. intros [H Ha]. destruct a as [|d a]; cbn in H; [naive_solver|].
      injection H as <- H. apply not_elem_of_cons in Ha as [_ Ha].
      discriminate (proj2 (IH a b) (conj H Ha)).
Qed.

(** ** [strings.TrimSpace]

    Trims the ASCII white space; the program's inputs are configuration lines,
    key files and seeds, and the wider Unicode spaces are trimmed by the same
    rule below, given as their UTF-8 bytes. *)
Definition is_space_ascii (c : byte) : bool :=
  bool_decide (c ∈ [x09; x0a; x0b; x0c; x0d; x20]).

(** The UTF-8 encodings of the other runes of Unicode's White_Space property:
    U+0085, U+00A0, U+1680, U+2000-200A, U+2028, U+2029, U+202F, U+205F, U+3000. *)
Definition unicode_spaces : list bytes :=
  [[xc2; x85]; [xc2; xa0]; [xe1; x9a; x80];
   [xe2; x80; x80]; [xe2; x80; x81]; [xe2; x80; x82]; [xe2; x80; x83]; [xe2; x80; x84];
   [xe2; x80; x85]; [xe2; x80; x86]; [xe2; x80; x87]; [xe2; x80; x88]; [xe2; x80; x89];
   [xe2; x80; x8a]; [xe2; x80; xa8]; [xe2; x80; xa9]; [xe2; x80; xaf];
   [xe2; x81; x9f]; [xe3; x80; x80]].

(** One leading space, given the spellings a space can have. *)
Definition strip_one (spaces : list bytes) (s : bytes) : option bytes :=
  match s with
  | [] => None
  | c :: s' =>
      if is_space_ascii c then Some s'
      else match filter (fun p => prefix_of p s = true) spaces with
           | p :: _ => Some (drop (length p) s)
           | [] => None
           end
  end.

Fixpoint trim_left_fuel (fuel : nat) (spaces : list bytes) (s : bytes) : bytes :=
  match fuel with
  | O => s
  | S fuel' => match strip_one spaces s with
               | Some s' => trim_left_fuel fuel' spaces s'
               | None => s
               end
  end.
Definition trim_left (spaces : list bytes) (s : bytes) : bytes :=
  trim_left_fuel (length s) spaces s.

Definition trim_space (s : bytes) : bytes :=
  let s := trim_left unicode_spaces s in
  rev (trim_left (map (@rev byte) unicode_spaces) (rev s)).
Definition TrimSpace (s : string) : string := of_bytes (trim_space (to_bytes s)).

(** What starts and ends with bytes that are no space is not trimmed. *)
Definition solid (c : byte) : bool := (byte_val c <? 128) && negb (is_space_ascii c).

Lemma trim_left_solid spaces c s :
  solid c = true -> forallb (fun p => match p with d :: _ => 128 <=? byte_val d | [] => false end) spaces = true ->
  trim_left spaces (c :: s) = c :: s.
Proof.
  unfold solid. intros [Hc%Z.ltb_lt Hs%negb_true_iff]%andb_true_iff Hsp.
  assert (strip_one spaces (c :: s) = None) as H; [|unfold trim_left; cbn [length trim_left_fuel]; by rewrite H].
  cbn [strip_one]. rewrite Hs. rewrite forallb_forall in Hsp.
  destruct (filter (fun p => prefix_of p (c :: s) = true) spaces) as [|p l] eqn:E; [done|].
  assert (p ∈ p :: l) as Hp by left. rewrite <- E in Hp. apply list_elem_of_filter in Hp as [Hp Hin].
  apply list_elem_of_In, Hsp in Hin. destruct p as [|d p]; [done|]. apply Z.leb_le in Hin.
  cbn [prefix_of] in Hp. case_bool_decide; [subst; lia | done].
Qed.

Lemma trim_space_solid s :
  (exists c t, s = c :: t /\ solid c = true) -> (exists c t, s = t ++ [c] /\ solid c = true) -> trim_space s = s.
Proof.
  intros (c & t & E & Hc) (d & u & E' & Hd). unfold trim_space. rewrite E at 1.
  rewrite trim_left_solid, <- E by done. rewrite E', rev_app_distr. cbn [rev app].
  rewrite trim_left_solid by done. cbn [rev]. by rewrite rev_involutive.
Qed.

(** ** [strconv] *)

Definition is_digit (c : byte) : bool := (48 <=? byte_val c) && (byte_val c <=? 57).

(** The value of a string of decimal digits after [acc]. *)
Fixpoint digits_val (acc : Z) (s : bytes) : option Z :=
  match s with
  | [] => Some acc
  | c :: s' => if is_digit c then digits_val (acc * 10 + (byte_val c - 48)) s' else None
  end.

(** [strconv.ParseUint(s, 10, bits)]; the error's kind is never looked at. *)
Definition ParseUint (s : string) (bits : Z) : option Z :=
  match to_bytes s with
  | [] => None
  | b => match digits_val 0 b with
         | Some n => if n <? 2 ^ bits then Some n else None
         | None => None
         end
  end.

(** [strconv.ParseInt(s, 10, 64)]. *)
Definition ParseInt64 (s : string) : option Z :=
  match to_bytes s with
  | [] => None
  | c :: b =>
      let '(neg, digits) :=
        if bool_decide (c = x2d) then (true, b)
        else if bool_decide (c = x2b) then (false, b) else (false, c :: b) in
      match ParseUint (of_bytes digits) 64 with
      | None => None
      | Some n =>
          if neg then if 2 ^ 63 <? n then None else Some (- n)
          else if 2 ^ 63 <=? n then None else Some n
      end
  end.

(** [strconv.FormatUint(n, 10)]; twenty digits hold every [uint64]. *)
Fixpoint format_digits (fuel : nat) (n : Z) : bytes :=
  match fuel with
  | O => []
  | S fuel' =>
      if n <? 10 then [byte_of (48 + n)]
      else format_digits fuel' (n / 10) ++ [byte_of (48 + n mod 10)]
  end.
Definition FormatUint (n : Z) : string := of_bytes (format_digits 20 n).

(** [%d] of an [int64]. *)
Definition FormatInt (n : Z) : string :=
  if n <? 0 then "-" +:+ FormatUint (- n) else FormatUint n.

Lemma is_digit_of n : 0 <= n < 10 -> is_digit (byte_of (48 + n)) = true.
Proof.
  intros Hn. unfold is_digit. rewrite byte_val_of, Z.mod_small by lia.
  ztests.
Qed.

Lemma digits_val_app acc s c :
  digits_val acc (s ++ [c]) =
  match digits_val acc s with
  | Some n => if is_digit c then Some (n * 10 + (byte_val c - 48)) else None
  | None => None
  end.
Proof.
  revert acc. induction s as [|d s IH]; intros acc; cbn [app digits_val]; [reflexivity|].
  destruct (is_digit d); [apply IH | reflexivity].
Qed.

Lemma format_digits_val fuel n :
  0 <= n < 10 ^ Z.of_nat fuel -> digits_val 0 (format_digits fuel n) = Some n.
Proof.
  revert n. induction fuel as [|fuel IH]; intros n Hn; [cbn in *; f_equal; lia|].
  cbn [format_digits]. destruct (Z.ltb_spec n 10).
  - cbn [digits_val]. rewrite is_digit_of by lia. rewrite byte_val_of, Z.mod_small by lia.
    f_equal. lia.
  - rewrite digits_val_app, IH.
    + pose proof (Z.mod_pos_bound n 10). rewrite is_digit_of by lia.
      rewrite byte_val_of, Z.mod_small by lia. f_equal.
      pose proof (Z.div_mod n 10). lia.
    + rewrite Nat2Z.inj_succ, Z.pow_succ_r in Hn by lia.
      split; [apply Z.div_pos; lia | apply Z.div_lt_upper_bound; lia].
Qed.

Lemma format_digits_nonempty fuel n : format_digits (S fuel) n <> [].
Proof. cbn [format_digits]. case_match; [done|]. by destruct (format_digits fuel _). Qed.

Lemma ParseUint_FormatUint n bits :
  0 <= n < 2 ^ bits -> n < 2 ^ 64 -> ParseUint (FormatUint n) bits = Some n.
Proof.
  intros Hn H64. unfold ParseUint, FormatUint. rewrite to_of_bytes.
  pose proof (format_digits_nonempty 19 n).
  destruct (format_digits 20 n) as [|c s] eqn:E; [done|].
  rewrite <- E, format_digits_val by (cbn; lia).
  destruct (Z.ltb_spec n (2 ^ bits)); [done | lia].
Qed.

Lemma ParseUint_range s bits n : ParseUint s bits = Some n -> 0 <= n < 2 ^ bits.
Proof.
  unfold ParseUint. destruct (to_bytes s) as [|c b]; [done|].
  assert (Hpos : forall b acc n, 0 <= acc -> digits_val acc b = Some n -> 0 <= n).
  { clear. induction b as [|c b IH]; cbn [digits_val]; intros acc n Ha; [by intros [= <-]|].
    destruct (is_digit c) eqn:E; [|done]. apply IH.
    unfold is_digit in E. res_inv. bool_to_prop. lia. }
  destruct (digits_val 0 (c :: b)) as [m|] eqn:E; [|done].
  destruct (Z.ltb_spec m (2 ^ bits)); [|done]. intros [= <-].
  split; [|done]. by apply (Hpos (c :: b) 0).
Qed.

Lemma ParseInt64_range s n : ParseInt64 s = Some n -> min_int64 <= n <= max_int64.
Proof.
  unfold ParseInt64, min_int64, max_int64. destruct (to_bytes s) as [|c b]; [done|].
  destruct (if bool_decide _ then _ else _) as [neg digits].
  destruct (ParseUint _ _) as [m|] eqn:E; [|done]. apply ParseUint_range in E.
  destruct neg; ztests; intros [= <-]; lia.
Qed.
