(* ===== verification/GoPath.v ===== *)
(** * Slash-separated paths

    What the program uses of [path] and, on Unix, [path/filepath]: [Clean],
    [Join], [Dir], [Base] and [IsAbs]. *)
From S2P Require Import Prelude GoBytes GoText.

Definition slash : byte := x2f.

(** One element of a path taken into the cleaned ones, kept last first. *)
Definition clean_step (rooted : bool) (out : list bytes) (e : bytes) : list bytes :=
  if bool_decide (e = []) || bool_decide (e = [x2e]) then out
  else if bool_decide (e = [x2e; x2e]) then
    match out with
    | last :: rest => if bool_decide (last = [x2e; x2e]) then e :: out else rest
    | [] => if rooted then [] else [e]
    end
  else e :: out.

Definition is_rooted (p : bytes) : bool :=
  match p with c :: _ => bool_decide (c = slash) | [] => false end.

Definition clean_bytes (p : bytes) : bytes :=
  let rooted := is_rooted p in
  let out := rev (foldl (clean_step rooted) [] (split_on slash p)) in
  let body := match out with [] => [] | _ => join_with slash out end in
  if rooted then slash :: body else match body with [] => [x2e] | _ => body end.

(** The part up to and including the last slash, and the part after it. *)
Definition split_last (p : bytes) : bytes * bytes :=
  match rev (split_on slash p) with
  | last :: ((_ :: _) as front) => (join_with slash (rev front) ++ [slash], last)
  | _ => ([], p)
  end.

Fixpoint strip_slashes (rev_p : bytes) : bytes :=
  match rev_p with
  | c :: rest => if bool_decide (c = slash) then strip_slashes rest else rev_p
  | [] => []
  end.

Definition Clean (p : string) : string := of_bytes (clean_bytes (to_bytes p)).
Definition IsAbs (p : string) : bool := is_rooted (to_bytes p).
Definition Dir (p : string) : string := of_bytes (clean_bytes (split_last (to_bytes p)).1).
Definition Base (p : string) : string :=
  if bool_decide (p = ""%string) then "."
  else match rev (strip_slashes (rev (to_bytes p))) with
       | [] => "/"
       | q => of_bytes (split_last q).2
       end.

(** [Join]: the empty elements are dropped, the rest cleaned together. *)
Definition Join (elems : list string) : string :=
  match filter (fun e => e <> ""%string) elems with
  | [] => ""
  | es => of_bytes (clean_bytes (join_with slash (map to_bytes es)))
  end.

Example clean_examples :
  Clean "" = "."%string /\ Clean "/a/./b/../../c/" = "/c"%string /\ Clean "../a//b" = "../a/b"%string
  /\ Clean "/../x" = "/x"%string.
Proof. by vm_compute. Qed.
Example dir_examples :
  Dir "/var/lib/ks/keys.json" = "/var/lib/ks"%string /\ Base "/var/lib/ks/keys.json" = "keys.json"%string
  /\ Dir "x" = "."%string /\ Base "/" = "/"%string /\ Dir "/x" = "/"%string
  /\ Join ["/etc"; "keystone"; "a.toml"] = "/etc/keystone/a.toml"%string.
Proof. by vm_compute. Qed.

(** An absolute path stays absolute under [Join]. *)
Lemma Join_abs p ps : IsAbs p = true -> IsAbs (Join (p :: ps)) = true.
Proof.
  intros H. unfold Join, IsAbs in *. destruct (decide (p = ""%string)) as [->|Hne]; [done|].
  rewrite filter_cons_True by done. rewrite to_of_bytes. unfold clean_bytes.
  assert (is_rooted (join_with slash (map to_bytes (p :: filter (fun e => e <> ""%string) ps))) = true) as ->.
  { cbn [map]. destruct (to_bytes p) as [|c l] eqn:E; [done|]. by destruct (map _ _). }
  by cbn.
Qed.

(** ** The last element *)

Definition last_elem (p : bytes) : bytes := default [] (last (split_on slash p)).

Lemma last_elem_cat a b : last_elem (a ++ slash :: b) = last_elem b.
Proof.
  unfold last_elem. rewrite split_on_cat, last_app. pose proof (split_on_nonempty slash b) as H.
  destruct (last (split_on slash b)) as [x|] eqn:E; [done|]. by apply last_None in E.
Qed.

Lemma last_elem_plain b : slash ∉ b -> last_elem b = b.
Proof. intros H. unfold last_elem. by rewrite split_on_none. Qed.

Lemma split_last_elem p : (split_last p).2 = last_elem p.
Proof.
  unfold split_last, last_elem. pose proof (join_split slash p) as Hj.
  destruct (exists_last (split_on_nonempty slash p)) as (l & x & E). rewrite E in Hj |- *.
  rewrite rev_app_distr, last_snoc. cbn [rev app default].
  destruct (rev l) as [|y r] eqn:Er; [|done]. cbn. apply (f_equal (@rev _)) in Er.
  rewrite rev_involutive in Er. subst l. by cbn in Hj.
Qed.

Lemma Base_last p : last_elem (to_bytes p) <> [] -> to_bytes (Base p) = last_elem (to_bytes p).
Proof.
  intros Hne. unfold Base. case_bool_decide as Hp; [by subst|].
  destruct (to_bytes p) as [|c l _] eqn:E using rev_ind; [done|].
  rewrite rev_app_distr. cbn [rev app strip_slashes]. case_bool_decide as Hc.
  { subst. exfalso. apply Hne. by rewrite (last_elem_cat l []). }
  rewrite <- rev_unit, rev_involutive. destruct (l ++ [c]) eqn:E'; [by destruct l|].
  by rewrite to_of_bytes, split_last_elem.
Qed.

(** ** A name joined to a directory *)

Definition plain_name (name : bytes) : Prop := (slash ∉ name) /\ name <> [] /\ name <> [x2e] /\ name <> [x2e; x2e].

#[export] Instance plain_name_dec name : Decision (plain_name name).
Proof. unfold plain_name. apply _. Defined.

Lemma clean_last a name : plain_name name -> last_elem (clean_bytes (a ++ slash :: name)) = name.
Proof.
  intros (Hs & H0 & H1 & H2). unfold clean_bytes. rewrite split_on_cat, (split_on_none _ name), foldl_app by done.
  set (out := foldl _ [] (split_on slash a)). cbn [foldl]. unfold clean_step. rewrite !bool_decide_eq_false_2 by done. cbn [orb rev].
  assert (Hj : last_elem (join_with slash (rev out ++ [name])) = name).
  { generalize (rev out). clear -Hs. induction l as [|x l IH]; [by apply last_elem_plain|].
    cbn [app]. destruct (l ++ [name]) as [|y r] eqn:E; [by destruct l|]. cbn [join_with]. by rewrite last_elem_cat. }
  destruct (rev out ++ [name]) as [|y r] eqn:E; [by destruct (rev out)|].
  destruct (is_rooted _).
  - exact (eq_trans (last_elem_cat [] _) Hj).
  - revert Hj. generalize (join_with slash (y :: r)) as b. intros [|c b] Hj; [by destruct H0 | exact Hj].
Qed.

Lemma Join_last d name : plain_name (to_bytes name) -> last_elem (to_bytes (Join [d; name])) = to_bytes name.
Proof.
  intros Hn. unfold Join. rewrite !filter_cons, filter_nil.
  rewrite (decide_True (P := name <> ""%string)) by (intros ->; by destruct Hn as (_ & ? & _)).
  destruct (decide (d <> ""%string)).
  - cbn [map join_with]. rewrite to_of_bytes. by apply clean_last.
  - cbn [map join_with]. rewrite to_of_bytes. destruct Hn as (Hs & H0 & H1 & H2). unfold clean_bytes.
    rewrite split_on_none by done. cbn [foldl]. unfold clean_step. rewrite !bool_decide_eq_false_2 by done. cbn [orb rev app join_with].
    assert (is_rooted (to_bytes name) = false) as ->.
    { destruct (to_bytes name) as [|c r]; [done|]. cbn. apply bool_decide_eq_false. intros ->. apply Hs. by left. }
    destruct (to_bytes name); [done|]. by apply last_elem_plain.
Qed.

Lemma Join_inj d d' name name' :
  plain_name (to_bytes name) -> plain_name (to_bytes name') -> Join [d; name] = Join [d'; name'] -> name = name'.
Proof. intros H H' E. apply to_bytes_inj. by rewrite <- (Join_last d name H), E, Join_last. Qed.
