(* ===== verification/GoFlag.v ===== *)
(** * Command lines

    Models what the commands use of Go's [flag] package: a set of boolean, string
    and [int64] flags, [Parse] over the arguments word by word, and
    [strconv.ParseBool] and [strconv.ParseInt] with base 0 behind the values.
    What [Parse] prints is not modelled. *)
From S2P Require Import Prelude GoBytes GoText.

(** ** Numbers and truth values *)

Definition ParseBool (s : string) : option bool :=
  if bool_decide (s ∈ ["1"; "t"; "T"; "true"; "TRUE"; "True"]%string) then Some true
  else if bool_decide (s ∈ ["0"; "f"; "F"; "false"; "FALSE"; "False"]%string) then Some false
  else None.

(** [lower] of [strconv], on a byte's value. *)
Definition lower (c : byte) : Z := Z.lor (byte_val c) 32.
Definition digit_of (c : byte) : option Z :=
  if is_digit c then Some (byte_val c - 48)
  else if (97 <=? lower c) && (lower c <=? 122) then Some (lower c - 97 + 10) else None.

Fixpoint digits_in (base acc : Z) (s : bytes) : option Z :=
  match s with
  | [] => Some acc
  | c :: s' =>
      if bool_decide (c = x5f) then digits_in base acc s'
      else d ← digit_of c; if base <=? d then None else digits_in base (acc * base + d) s'
  end.

(** [underscoreOK]: what was seen last. *)
Inductive seen := AtStart | Digit | Underscore | Other.
Fixpoint underscores (hex : bool) (saw : seen) (s : bytes) : bool :=
  match s with
  | [] => match saw with Underscore => false | _ => true end
  | c :: s' =>
      if is_digit c || (hex && ((97 <=? lower c) && (lower c <=? 102))) then underscores hex Digit s'
      else if bool_decide (c = x5f) then match saw with Digit => underscores hex Underscore s' | _ => false end
      else match saw with Underscore => false | _ => underscores hex Other s' end
  end.
(** The base's letter after a leading zero. *)
Definition base_letter (c : byte) : option Z :=
  if lower c =? 98 then Some 2 else if lower c =? 111 then Some 8 else if lower c =? 120 then Some 16 else None.
Definition underscoreOK (s : bytes) : bool :=
  let s := match s with c :: s' => if bool_decide (c = x2d) || bool_decide (c = x2b) then s' else s | [] => s end in
  match s with
  | z :: c :: s' =>
      match (if bool_decide (z = x30) then base_letter c else None) with
      | Some b => underscores (b =? 16) Digit s'
      | None => underscores false AtStart s
      end
  | _ => underscores false AtStart s
  end.

(** The base a literal is in, and its digits. *)
Definition split_base (s : bytes) : Z * bytes :=
  match s with
  | z :: s' =>
      if bool_decide (z = x30) then
        match s' with
        | c :: ((_ :: _) as ds) => match base_letter c with Some b => (b, ds) | None => (8, s') end
        | _ => (8, s')
        end
      else (10, s)
  | [] => (10, s)
  end.

(** [strconv.ParseUint(s, 0, 64)]. *)
Definition ParseUint0 (s : bytes) : option Z :=
  match s with
  | [] => None
  | _ =>
      let '(base, ds) := split_base s in
      n ← digits_in base 0 ds;
      if bool_decide (x5f ∈ ds) && negb (underscoreOK s) then None
      else if n <? 2 ^ 64 then Some n else None
  end.

(** [strconv.ParseInt(s, 0, 64)]. *)
Definition ParseInt (s : string) : option Z :=
  match to_bytes s with
  | [] => None
  | c :: b =>
      let '(neg, ds) :=
        if bool_decide (c = x2d) then (true, b) else if bool_decide (c = x2b) then (false, b) else (false, c :: b) in
      n ← ParseUint0 ds;
      if neg then if 2 ^ 63 <? n then None else Some (- n) else if 2 ^ 63 <=? n then None else Some n
  end.

(** ** The flag set *)

Inductive flag_value := VBool (b : bool) | VString (s : string) | VInt64 (z : Z).
#[export] Instance flag_value_eq_dec : EqDecision flag_value.
Proof. solve_decision. Defined.
(** Each flag with the value it stands at; a set starts from its defaults. *)
Abbreviation FlagSet := (list (string * flag_value)).

Inductive flag_err := ErrHelp | BadSyntax (word : string) | NotDefined (name : string) | NeedsArgument (name : string) | InvalidValue (name value : string).

(** [Value.Set]: a flag keeps its kind. *)
Definition set_value (v : flag_value) (s : string) : option flag_value :=
  match v with
  | VBool _ => VBool <$> ParseBool s
  | VString _ => Some (VString s)
  | VInt64 _ => VInt64 <$> ParseInt s
  end.
Definition is_bool (v : flag_value) : bool := match v with VBool _ => true | _ => false end.

Fixpoint formal (fs : FlagSet) (name : string) : option flag_value :=
  match fs with
  | [] => None
  | (n, v) :: fs' => if bool_decide (n = name) then Some v else formal fs' name
  end.
Fixpoint with_flag (fs : FlagSet) (name : string) (v : flag_value) : FlagSet :=
  match fs with
  | [] => []
  | (n, w) :: fs' => if bool_decide (n = name) then (n, v) :: fs' else (n, w) :: with_flag fs' name v
  end.

(** *** One word *)

Inductive word := Positional | Terminator | BadFlag | Named (name : string) (value : option string).

Definition named (b : bytes) : word :=
  match b with
  | [] => BadFlag
  | c :: _ =>
      if bool_decide (c = x2d) || bool_decide (c = x3d) then BadFlag
      else match cut_at x3d b with
           | Some (name, value) => Named (of_bytes name) (Some (of_bytes value))
           | None => Named (of_bytes b) None
           end
  end.
Definition read_word (s : string) : word :=
  match to_bytes s with
  | m :: c :: b =>
      if negb (bool_decide (m = x2d)) then Positional
      else if bool_decide (c = x2d) then match b with [] => Terminator | _ => named b end
      else named (c :: b)
  | _ => Positional
  end.

(** [failf] and the special case of the help flags. *)
Definition undefined (name : string) : flag_err :=
  if bool_decide (name = "help"%string) || bool_decide (name = "h"%string) then ErrHelp else NotDefined name.
Definition assign (fs : FlagSet) (name : string) (v : flag_value) (s : string) : result flag_err FlagSet :=
  match set_value v s with Some v' => Ok (with_flag fs name v') | None => Err (InvalidValue name s) end.

(** [Parse], [parseOne] after [parseOne]: the flags as set, and the arguments left. *)
Fixpoint Parse (fs : FlagSet) (args : list string) : result flag_err (FlagSet * list string) :=
  match args with
  | [] => Ok (fs, [])
  | s :: rest =>
      match read_word s with
      | Positional => Ok (fs, args)
      | Terminator => Ok (fs, rest)
      | BadFlag => Err (BadSyntax s)
      | Named name value =>
          match formal fs name with
          | None => Err (undefined name)
          | Some v =>
              match value with
              | Some x => fs' ← assign fs name v x; Parse fs' rest
              | None =>
                  if is_bool v then fs' ← assign fs name v "true"; Parse fs' rest
                  else match rest with
                       | [] => Err (NeedsArgument name)
                       | x :: rest' => fs' ← assign fs name v x; Parse fs' rest'
                       end
              end
          end
      end
  end.

(** What the variables behind the flags hold. *)
Definition get_bool (fs : FlagSet) (name : string) : bool := match formal fs name with Some (VBool b) => b | _ => false end.
Definition get_string (fs : FlagSet) (name : string) : string := match formal fs name with Some (VString s) => s | _ => ""%string end.
Definition get_int64 (fs : FlagSet) (name : string) : Z := match formal fs name with Some (VInt64 z) => z | _ => 0 end.

(** The exit code of a command whose flags exit on an error ([flag.Parse]). *)
Definition exit_on_error (e : flag_err) : Z := match e with ErrHelp => 0 | _ => 2 end.

Example Parse_words :
  let fs := [("v", VBool false); ("n", VInt64 7); ("s", VString "d")]%string in
  Parse fs ["-v"; "--n=0x1_0"; "-s"; "-v"; "x"; "-v"]%string = Ok ([("v", VBool true); ("n", VInt64 16); ("s", VString "-v")]%string, ["x"; "-v"]%string)
  /\ Parse fs ["--s="; "--"; "-n"]%string = Ok ([("v", VBool false); ("n", VInt64 7); ("s", VString "")]%string, ["-n"]%string)
  /\ Parse fs ["-"]%string = Ok (fs, ["-"]%string)
  /\ map (Parse fs) [["-n"]; ["-n"; "08"]; ["-n=1__0"]; ["-v=2"]; ["---v"]; ["-=v"]; ["-help"]; ["-help=1"]; ["-w"]]%string
     = map Err [NeedsArgument "n"; InvalidValue "n" "08"; InvalidValue "n" "1__0"; InvalidValue "v" "2"; BadSyntax "---v"; BadSyntax "-=v"; ErrHelp; ErrHelp; NotDefined "w"]%string
  /\ map ParseInt ["0"; "-0b101"; "+0o17"; "017"; "0_7"; "0x"; "0x_f"; "_1"; "1_"; "9223372036854775807"; "-9223372036854775808"; "9223372036854775808"]%string
     = [Some 0; Some (-5); Some 15; Some 15; Some 7; None; Some 15; None; None; Some (2 ^ 63 - 1); Some (- 2 ^ 63); None].
Proof. by vm_compute. Qed.

(** ** What was written is what is set *)

(** A name a flag may be written with. *)
Definition flag_name (name : string) : Prop :=
  match to_bytes name with [] => False | c :: _ => c <> x2d /\ c <> x3d end /\ x3d ∉ to_bytes name.

(** The ways to write a value for a flag. *)
Inductive spelled (v : flag_value) (name text : string) : list string -> Prop :=
  | spelled_with d : d ∈ ["-"; "--"]%string -> spelled v name text [d +:+ name +:+ "=" +:+ text]
  | spelled_next d : d ∈ ["-"; "--"]%string -> is_bool v = false -> spelled v name text [d +:+ name; text]
  | spelled_bare d : d ∈ ["-"; "--"]%string -> is_bool v = true -> text = "true"%string -> spelled v name text [d +:+ name].

Lemma cut_at_absent sep s : sep ∉ s -> cut_at sep s = None.
Proof.
  intros Hn. destruct (cut_at sep s) as [[a b]|] eqn:E; [|done]. apply cut_at_spec in E as [-> _]. set_solver.
Qed.

Lemma named_name name : flag_name name -> named (to_bytes name) = Named name None.
Proof.
  intros [Hh Hn]. unfold named. destruct (to_bytes name) as [|c b] eqn:E; [done|]. destruct Hh as [H1 H2].
  rewrite !bool_decide_eq_false_2 by done. cbn [orb]. rewrite <- E in *. by rewrite cut_at_absent, of_to_bytes.
Qed.

Lemma named_value name text : flag_name name -> named (to_bytes name ++ x3d :: to_bytes text) = Named name (Some text).
Proof.
  intros [Hh Hn]. unfold named. destruct (to_bytes name) as [|c b] eqn:E; [done|]. destruct Hh as [H1 H2].
  cbn [app]. rewrite !bool_decide_eq_false_2 by done. cbn [orb]. change (c :: b ++ x3d :: to_bytes text) with ((c :: b) ++ x3d :: to_bytes text).
  rewrite <- E in *. rewrite (proj2 (cut_at_spec x3d _ (to_bytes name) (to_bytes text))) by (split; done).
  by rewrite !of_to_bytes.
Qed.

(** Behind one dash or two. *)
Lemma read_dashed d b : d ∈ ["-"; "--"]%string -> b <> [] -> hd x00 b <> x2d ->
  read_word (of_bytes (to_bytes d ++ b)) = named b.
Proof.
  intros Hd Hb Hc. unfold read_word. rewrite to_of_bytes. destruct b as [|c b]; [done|]. cbn [hd] in Hc.
  apply elem_of_cons in Hd as [->|Hd]; [|apply list_elem_of_singleton in Hd as ->].
  - change (to_bytes "-" ++ c :: b) with (x2d :: c :: b). cbn [negb]. rewrite (bool_decide_eq_true_2 (x2d = x2d)) by done.
    cbn [negb]. by rewrite bool_decide_eq_false_2.
  - change (to_bytes "--" ++ c :: b) with (x2d :: x2d :: c :: b). cbv iota. by rewrite (bool_decide_eq_true_2 (x2d = x2d)).
Qed.

Lemma name_head name b : flag_name name -> to_bytes name ++ b <> [] /\ hd x00 (to_bytes name ++ b) <> x2d.
Proof. intros [Hh _]. by destruct (to_bytes name) as [|c l]; [|split; [|apply Hh]]. Qed.

Lemma read_spelled d name text : d ∈ ["-"; "--"]%string -> flag_name name ->
  read_word (d +:+ name) = Named name None /\ read_word (d +:+ name +:+ "=" +:+ text) = Named name (Some text).
Proof.
  intros Hd Hn. split.
  - rewrite <- (of_to_bytes (d +:+ name)), to_bytes_app. destruct (name_head name [] Hn) as [H1 H2]. rewrite app_nil_r in *.
    rewrite read_dashed by done. by apply named_name.
  - rewrite <- (of_to_bytes (d +:+ _)), !to_bytes_app. destruct (name_head name (to_bytes "=" ++ to_bytes text) Hn) as [H1 H2].
    rewrite read_dashed by done. by apply named_value.
Qed.

Lemma Parse_spelled fs name text v v' words rest :
  flag_name name -> formal fs name = Some v -> spelled v name text words -> set_value v text = Some v' ->
  Parse fs (words ++ rest) = Parse (with_flag fs name v') rest.
Proof.
  intros Hn Hf Hs Hv. assert (Ha : assign fs name v text = Ok (with_flag fs name v')) by (unfold assign; by rewrite Hv).
  destruct Hs as [d Hd|d Hd Hb|d Hd Hb E]; destruct (read_spelled d name text Hd Hn) as [R1 R2]; cbn [app Parse].
  - by rewrite R2, Hf, Ha.
  - by rewrite R1, Hf, Hb, Ha.
  - by rewrite R1, Hf, Hb, <- E, Ha.
Qed.

(** ** Decimals *)

Lemma digits_in_val acc s n : digits_val acc s = Some n -> digits_in 10 acc s = Some n.
Proof.
  revert acc. induction s as [|c s IH]; intros acc; [done|]. cbn [digits_val digits_in].
  destruct (is_digit c) eqn:Hc; [|done]. assert (Hne : c <> x5f) by (intros ->; by vm_compute in Hc).
  unfold digit_of. rewrite Hc, (bool_decide_eq_false_2 (c = x5f)) by done. cbn [mbind option_bind].
  unfold is_digit in Hc. res_inv. bool_to_prop. destruct (Z.leb_spec 10 (byte_val c - 48)); [lia|]. apply IH.
Qed.

Lemma digits_no_underscore acc s n : digits_val acc s = Some n -> x5f ∉ s.
Proof.
  revert acc. induction s as [|c s IH]; intros acc; cbn [digits_val]; [by intros _ ?%not_elem_of_nil|].
  destruct (is_digit c) eqn:Hc; [|done]. intros Hv [<-|Hin]%elem_of_cons; [by vm_compute in Hc | by eapply IH].
Qed.

(** A positive number has no leading zero. *)
Lemma format_digits_head fuel n : 0 < n < 10 ^ Z.of_nat fuel -> exists c s, format_digits fuel n = c :: s /\ c <> x30 /\ is_digit c = true.
Proof.
  revert n. induction fuel as [|fuel IH]; intros n Hn; [cbn in Hn; lia|]. cbn [format_digits]. destruct (Z.ltb_spec n 10).
  - exists (byte_of (48 + n)), []. split; [done|]. split; [|by apply is_digit_of; lia].
    intros E. apply (f_equal byte_val) in E. rewrite byte_val_of, Z.mod_small in E by lia. change (byte_val x30) with 48 in E. lia.
  - rewrite Nat2Z.inj_succ, Z.pow_succ_r in Hn by lia.
    destruct (IH (n / 10)) as (c & s & E & Hc); [Z.to_euclidean_division_equations; lia|].
    exists c, (s ++ [byte_of (48 + n mod 10)]). by rewrite E.
Qed.

Lemma ParseUint0_FormatUint n : 0 <= n < 2 ^ 64 -> ParseUint0 (to_bytes (FormatUint n)) = Some n.
Proof.
  intros Hn. unfold FormatUint. rewrite to_of_bytes. destruct (decide (n = 0)) as [->|Hne]; [done|].
  destruct (format_digits_head 20 n) as (c & s & E & Hc & _); [cbn; lia|].
  pose proof (format_digits_val 20 n ltac:(cbn; lia)) as Hv. rewrite E in Hv |- *.
  unfold ParseUint0, split_base. rewrite bool_decide_eq_false_2 by done.
  rewrite (digits_in_val _ _ _ Hv), (bool_decide_eq_false_2 _ (digits_no_underscore _ _ _ Hv)). cbn [mbind option_bind andb].
  destruct (Z.ltb_spec n (2 ^ 64)); [done | lia].
Qed.

Lemma ParseInt_FormatInt n : min_int64 <= n <= max_int64 -> ParseInt (FormatInt n) = Some n.
Proof.
  unfold min_int64, max_int64, FormatInt. intros Hn. destruct (Z.ltb_spec n 0).
  - unfold ParseInt. rewrite to_bytes_app. cbn [app to_bytes]. change (to_bytes "-") with [x2d]. cbn [app].
    rewrite bool_decide_eq_true_2 by done. rewrite ParseUint0_FormatUint by lia. cbn [mbind option_bind].
    destruct (Z.ltb_spec (2 ^ 63) (- n)); [lia | f_equal; lia].
  - pose proof (ParseUint0_FormatUint n ltac:(lia)) as HP. unfold ParseInt.
    destruct (to_bytes (FormatUint n)) as [|c b] eqn:E; [done|].
    assert (Hc : is_digit c = true).
    { unfold FormatUint in E. rewrite to_of_bytes in E. destruct (decide (n = 0)) as [->|]; [by injection E as <- <-|].
      destruct (format_digits_head 20 n) as (c' & s & E' & _ & Hd); [cbn; lia|]. rewrite E in E'. by injection E' as -> ->. }
    rewrite !bool_decide_eq_false_2 by (intros ->; by vm_compute in Hc). rewrite HP. cbn [mbind option_bind].
    destruct (Z.leb_spec (2 ^ 63) n); [lia | done].
Qed.
