(* ===== verification/Primitives.v ===== *)
(** * The cryptographic primitives, as interfaces

    The primitives of [crypto/ed25519], [crypto/mldsa], [crypto/ecdh],
    [crypto/mlkem], [crypto/hkdf], [crypto/aes] and [crypto/cipher] are code the
    program only calls.  Each family is a class of operations, [SignatureScheme]
    and [EncryptionScheme]; what its documentation promises and the protocol
    relies on is a class of laws.  The sizes are [internal/protocol]'s. *)
From S2P Require Import Prelude GoBytes.

(** ** Signatures: sizes and interface *)

Definition Ed25519PublicBytes : Z := 32.
Definition MLDSAPublicBytes : Z := 1952.
Definition VerifyingKeyBytes : Z := Ed25519PublicBytes + MLDSAPublicBytes.
Definition ed25519_SeedSize : Z := 32.
Definition mldsa_PrivateKeySize : Z := 32.
Definition SigningPrivateKeyBytes : Z := ed25519_SeedSize + mldsa_PrivateKeySize.
Definition Ed25519SignatureBytes : Z := 64.
Definition MLDSASignatureBytes : Z := 3309.
Definition SignatureBytes : Z := Ed25519SignatureBytes + MLDSASignatureBytes.

Definition SignatureContext : string := "keystone-envelope-v1".

(** Randomness is an argument: [entropy] is what a read of the system's random
    source returned.  A primitive that can fail returns an option. *)
Class SignatureScheme := {
  entropy : Type;
  ed_priv : Type;
  ml_priv : Type;
  ml_pub : Type;
  ed_GenerateKey : entropy -> option ed_priv;
  ed_NewKeyFromSeed : bytes -> ed_priv;
  ed_Seed : ed_priv -> bytes;
  ed_Public : ed_priv -> bytes;
  ed_Sign : ed_priv -> bytes -> bytes;
  ed_Verify : bytes -> bytes -> bytes -> bool;
  ml_GenerateKey : entropy -> option ml_priv;
  ml_NewPrivateKey : bytes -> option ml_priv;
  ml_Bytes : ml_priv -> bytes;
  ml_PublicKey : ml_priv -> ml_pub;
  ml_NewPublicKey : bytes -> option ml_pub;
  ml_PublicBytes : ml_pub -> bytes;
  ml_Sign : entropy -> ml_priv -> bytes -> string -> option bytes;
  ml_Verify : ml_pub -> bytes -> bytes -> string -> bool;
}.

(** What the packages document: sizes, correctness of verification, and that
    a key survives its encoding. *)
Class SignatureLaws (S : SignatureScheme) : Prop := {
  ed_Seed_size k : zlen (ed_Seed k) = ed25519_SeedSize;
  ed_Public_size k : zlen (ed_Public k) = Ed25519PublicBytes;
  ed_Sign_size k m : zlen (ed_Sign k m) = Ed25519SignatureBytes;
  ed_Seed_key k : ed_NewKeyFromSeed (ed_Seed k) = k;
  ed_Verify_Sign k m : ed_Verify (ed_Public k) m (ed_Sign k m) = true;
  ml_Bytes_size k : zlen (ml_Bytes k) = mldsa_PrivateKeySize;
  ml_PublicBytes_size p : zlen (ml_PublicBytes p) = MLDSAPublicBytes;
  ml_Bytes_key k : ml_NewPrivateKey (ml_Bytes k) = Some k;
  ml_PublicBytes_key p : ml_NewPublicKey (ml_PublicBytes p) = Some p;
  ml_Public_canonical b p :
    zlen b = MLDSAPublicBytes -> ml_NewPublicKey b = Some p -> ml_PublicBytes p = b;
  ml_Sign_size r k m c s : ml_Sign r k m c = Some s -> zlen s = MLDSASignatureBytes;
  ml_Verify_Sign r k m c s :
    ml_Sign r k m c = Some s -> ml_Verify (ml_PublicKey k) m s c = true;
}.

(** ** Encryption: sizes and interface *)

Definition X25519PublicBytes : Z := 32.
Definition MLKEMPublicBytes : Z := 1184.
Definition MLKEMCiphertext : Z := 1088.
Definition AEADOverheadBytes : Z := 16.
Definition RecipientKeyBytes : Z := X25519PublicBytes + MLKEMPublicBytes.
Definition SealOverheadBytes : Z := X25519PublicBytes + MLKEMCiphertext + AEADOverheadBytes.

(** The primitives of [crypto/ecdh], [mlkem], [hkdf], [aes] and [cipher]. *)
Class EncryptionScheme := {
  e_entropy : Type;
  x_priv : Type;
  x_pub : Type;
  kem_priv : Type;
  kem_pub : Type;
  aead_key : Type;
  x_GenerateKey : e_entropy -> option x_priv;
  x_PublicKey : x_priv -> x_pub;
  x_PublicBytes : x_pub -> bytes;
  x_NewPublicKey : bytes -> option x_pub;
  x_Bytes : x_priv -> bytes;
  x_NewPrivateKey : bytes -> option x_priv;
  x_ECDH : x_priv -> x_pub -> option bytes;
  kem_GenerateKey : e_entropy -> option kem_priv;
  kem_EncapsulationKey : kem_priv -> kem_pub;
  kem_PublicBytes : kem_pub -> bytes;
  kem_NewEncapsulationKey : bytes -> option kem_pub;
  kem_Bytes : kem_priv -> bytes;
  kem_NewDecapsulationKey : bytes -> option kem_priv;
  (** the shared secret and its ciphertext *)
  kem_Encapsulate : e_entropy -> kem_pub -> bytes * bytes;
  kem_Decapsulate : kem_priv -> bytes -> option bytes;
  hkdf_Key : bytes -> string -> Z -> option bytes;
  aes_gcm : bytes -> option aead_key;
  aead_Seal : aead_key -> bytes -> bytes -> bytes -> bytes;
  aead_Open : aead_key -> bytes -> bytes -> bytes -> option bytes;
}.

Class EncryptionLaws (S : EncryptionScheme) : Prop := {
  x_PublicBytes_size p : zlen (x_PublicBytes p) = X25519PublicBytes;
  x_PublicBytes_key p : x_NewPublicKey (x_PublicBytes p) = Some p;
  x_Public_canonical b p : x_NewPublicKey b = Some p -> x_PublicBytes p = b;
  x_Bytes_size k : zlen (x_Bytes k) = X25519PublicBytes;
  x_Bytes_key k : x_NewPrivateKey (x_Bytes k) = Some k;
  x_ECDH_agree a b : x_ECDH a (x_PublicKey b) = x_ECDH b (x_PublicKey a);
  kem_PublicBytes_size p : zlen (kem_PublicBytes p) = MLKEMPublicBytes;
  kem_PublicBytes_key p : kem_NewEncapsulationKey (kem_PublicBytes p) = Some p;
  kem_Public_canonical b p : kem_NewEncapsulationKey b = Some p -> kem_PublicBytes p = b;
  kem_Bytes_nonempty k : 0 < zlen (kem_Bytes k);
  kem_Bytes_key k : kem_NewDecapsulationKey (kem_Bytes k) = Some k;
  kem_Ciphertext_size r p : zlen (kem_Encapsulate r p).2 = MLKEMCiphertext;
  kem_agree r k :
    kem_Decapsulate k (kem_Encapsulate r (kem_EncapsulationKey k)).2 =
    Some (kem_Encapsulate r (kem_EncapsulationKey k)).1;
  aead_Seal_size a n p ad : zlen (aead_Seal a n p ad) = zlen p + AEADOverheadBytes;
  aead_Open_Seal a n p ad : aead_Open a n (aead_Seal a n p ad) ad = Some p;
  aead_Open_only a n c ad p : aead_Open a n c ad = Some p -> c = aead_Seal a n p ad;
}.
