(* ===== verification/Toy.v ===== *)
(** * Concrete primitives for the witnesses

    An instance of each cryptographic interface that satisfies its laws and
    evaluates: keys are single bytes, and a signature, a shared secret or a
    ciphertext carries what made it.  Nothing here models the program; it shows
    that the hypotheses the theorems name are satisfiable. *)
From S2P Require Import Prelude GoBytes Primitives.

(** [n] bytes starting with [b]. *)
Definition fit (n : Z) (b : bytes) : bytes :=
  take (Z.to_nat n) (b ++ replicate (Z.to_nat n) x00).

Lemma zlen_fit n b : 0 <= n -> zlen (fit n b) = n.
Proof.
  intros Hn. unfold fit. apply zlen_take. unfold zlen.
  rewrite length_app, length_replicate. lia.
Qed.

Definition all_eq (n : Z) (b : bytes) : option byte :=
  match b with
  | [] => None
  | c :: _ => if bool_decide (b = replicate (Z.to_nat n) c) then Some c else None
  end.

Definition rep (n : Z) (c : byte) : bytes := replicate (Z.to_nat n) c.

Lemma zlen_rep n c : 0 <= n -> zlen (rep n c) = n.
Proof. intros. unfold zlen, rep. rewrite length_replicate. lia. Qed.

Lemma all_eq_rep n c : 0 < n -> all_eq n (rep n c) = Some c.
Proof.
  intros Hn. unfold rep, all_eq. destruct (Z.to_nat n) as [|k] eqn:E; [lia|].
  cbn [replicate]. by rewrite bool_decide_eq_true_2.
Qed.

Lemma all_eq_inv n b c : all_eq n b = Some c -> b = rep n c.
Proof.
  unfold all_eq. destruct b as [|d b]; [done|]. case_bool_decide as E; [|done].
  by intros [= <-].
Qed.

Definition head_or (b : bytes) : byte := match b with c :: _ => c | [] => x00 end.

Definition ToySignature : SignatureScheme := {|
  entropy := byte; ed_priv := byte; ml_priv := byte; ml_pub := byte;
  ed_GenerateKey r := Some r;
  ed_NewKeyFromSeed b := head_or b;
  ed_Seed k := rep ed25519_SeedSize k;
  ed_Public k := rep Ed25519PublicBytes k;
  ed_Sign k m := fit Ed25519SignatureBytes (k :: m);
  ed_Verify p m s := bool_decide (s = fit Ed25519SignatureBytes (head_or p :: m));
  ml_GenerateKey r := Some r;
  ml_NewPrivateKey b := all_eq mldsa_PrivateKeySize b;
  ml_Bytes k := rep mldsa_PrivateKeySize k;
  ml_PublicKey k := k;
  ml_NewPublicKey b := all_eq MLDSAPublicBytes b;
  ml_PublicBytes p := rep MLDSAPublicBytes p;
  ml_Sign r k m c := Some (fit MLDSASignatureBytes (k :: m));
  ml_Verify p m s c := bool_decide (s = fit MLDSASignatureBytes (p :: m));
|}.

Lemma ToySignatureLaws : SignatureLaws ToySignature.
Proof.
  split; cbn; intros; try (by apply zlen_rep); try (by apply zlen_fit);
    try (by apply all_eq_rep); try (by apply bool_decide_eq_true_2).
  - reflexivity.
  - symmetry. by apply all_eq_inv.
  - injection H as <-. by apply zlen_fit.
  - injection H as <-. by apply bool_decide_eq_true_2.
Qed.

(** A KEM ciphertext names the key that opens it; the AEAD output is the
    plaintext and the key it was sealed under. *)
Definition ToyEncryption : EncryptionScheme := {|
  e_entropy := byte; x_priv := byte; x_pub := byte; kem_priv := byte; kem_pub := byte;
  aead_key := byte;
  x_GenerateKey r := Some r;
  x_PublicKey k := k;
  x_PublicBytes p := rep X25519PublicBytes p;
  x_NewPublicKey b := all_eq X25519PublicBytes b;
  x_Bytes k := rep X25519PublicBytes k;
  x_NewPrivateKey b := all_eq X25519PublicBytes b;
  x_ECDH a b := Some [byte_of (byte_val a + byte_val b)];
  kem_GenerateKey r := Some r;
  kem_EncapsulationKey k := k;
  kem_PublicBytes p := rep MLKEMPublicBytes p;
  kem_NewEncapsulationKey b := all_eq MLKEMPublicBytes b;
  kem_Bytes k := [k];
  kem_NewDecapsulationKey b := all_eq 1 b;
  kem_Encapsulate r p := ([r], rep MLKEMCiphertext (byte_of (byte_val r + byte_val p)));
  kem_Decapsulate k c := Some [byte_of (byte_val (head_or c) - byte_val k)];
  hkdf_Key t i n := Some (fit n t);
  aes_gcm k := Some (head_or k);
  aead_Seal a n p ad := p ++ rep AEADOverheadBytes a;
  aead_Open a n c ad :=
    let k := Z.to_nat (zlen c - AEADOverheadBytes) in
    if bool_decide (c = take k c ++ rep AEADOverheadBytes a) then Some (take k c) else None;
|}.

Lemma ToyEncryptionLaws : EncryptionLaws ToyEncryption.
Proof.
  split; cbn; intros; try (by apply zlen_rep); try (by apply all_eq_rep).
  - symmetry. by apply all_eq_inv.
  - do 3 f_equal. lia.
  - symmetry. by apply all_eq_inv.
  - by rewrite zlen_cons.
  - by rewrite bool_decide_eq_true_2.
  - unfold rep. destruct (Z.to_nat MLKEMCiphertext) eqn:E; [discriminate E|].
    cbn [replicate head_or]. do 2 f_equal. apply byte_val_inj.
    rewrite !byte_val_of, Zminus_mod_idemp_l. pose proof (byte_val_range r).
    rewrite Z.add_simpl_r. apply Z.mod_small. done.
  - rewrite zlen_app, zlen_rep by done. done.
  - rewrite zlen_app, zlen_rep, Z.add_simpl_r by done.
    rewrite take_app_exact by done. by rewrite bool_decide_eq_true_2.
  - revert H. case_bool_decide as E; [|done]. intros [= <-]. exact E.
Qed.
