(* ===== verification/Vocabulary.v ===== *)
(** * The protocol's vocabulary: classes, refusals, identifiers

    Models [internal/protocol/class.go], [refusal.go] and [identifier.go]:
    the seven message classes, the seven refusal codes and the identifier
    grammar with its reserved sender tokens. *)
From S2P Require Import Prelude GoBytes.

(** ** Classes ([class.go]) *)

(** [type Class string]: any string can be held, seven are known. *)
Abbreviation Class_ := string (only parsing).

Definition ClassEnrollmentRequest : Class_ := "enrollment-request".
Definition ClassEnrollmentReply : Class_ := "enrollment-reply".
Definition ClassCommand : Class_ := "command".
Definition ClassCancellation : Class_ := "cancellation".
Definition ClassResult : Class_ := "result".
Definition ClassLifecycleEvent : Class_ := "lifecycle-event".
Definition ClassPresence : Class_ := "presence".

Definition classes : list string :=
  [ClassEnrollmentRequest; ClassEnrollmentReply; ClassCommand; ClassCancellation;
   ClassResult; ClassLifecycleEvent; ClassPresence].

Definition Known (c : Class_) : bool := bool_decide (c ∈ classes).

Definition Encrypted (c : Class_) : bool :=
  bool_decide (c = ClassCommand \/ c = ClassCancellation \/ c = ClassResult).

(** ** Refusals ([refusal.go]) *)

Inductive Refusal :=
  | UnknownVersion
  | MalformedEnvelope
  | SignatureInvalid
  | DecryptionFailed
  | ReplayRejected
  | PayloadTooLarge
  | UnknownClass.

#[export] Instance Refusal_eq_dec : EqDecision Refusal.
Proof. solve_decision. Defined.

Definition refusalText (r : Refusal) : string :=
  match r with
  | UnknownVersion => "unknown version"
  | MalformedEnvelope => "malformed envelope"
  | SignatureInvalid => "signature invalid"
  | DecryptionFailed => "decryption failed"
  | ReplayRejected => "replay rejected"
  | PayloadTooLarge => "payload too large"
  | UnknownClass => "unknown class"
  end.

(** ** Identifiers ([identifier.go]) *)

Definition MaxIdentifier : Z := 64.

Definition id_char (c : byte) : bool :=
  let v := byte_val c in
  ((97 <=? v) && (v <=? 122)) || ((48 <=? v) && (v <=? 57)) || (v =? 45).

Definition ValidIdentifier (s : string) : bool :=
  negb (bool_decide (s = ""%string) || (MaxIdentifier <? slen s))
  && forallb id_char (to_bytes s).

Definition SenderCommandPublisher : string := "command-publisher".
Definition SenderEnrollmentService : string := "enrollment-service".
Definition SenderResultConsumer : string := "result-consumer".
Definition SenderPresenceConsumer : string := "presence-consumer".
Definition SenderMonitoringRole : string := "monitoring-role".

Definition reservedSenders : list string :=
  [SenderCommandPublisher; SenderEnrollmentService; SenderResultConsumer;
   SenderPresenceConsumer; SenderMonitoringRole].

Definition ReservedSender (s : string) : bool := bool_decide (s ∈ reservedSenders).

(** ** Facts *)

Lemma ValidIdentifier_spec s :
  ValidIdentifier s = true <->
  s <> ""%string /\ slen s <= MaxIdentifier /\ Forall (fun c => id_char c = true) (to_bytes s).
Proof.
  unfold ValidIdentifier. rewrite andb_true_iff, negb_true_iff, orb_false_iff.
  rewrite bool_decide_eq_false, Z.ltb_ge, forallb_forall, List.Forall_forall. tauto.
Qed.

(** No byte outside the grammar gets into an identifier; in particular none of
    the three with a meaning in a subject. *)
Lemma ValidIdentifier_no_byte s c :
  ValidIdentifier s = true -> id_char c = false -> c ∉ to_bytes s.
Proof.
  intros (_ & _ & H)%ValidIdentifier_spec Hc Hin.
  rewrite Forall_forall in H. rewrite H in Hc by done. discriminate.
Qed.

Lemma ValidIdentifier_nonempty s : ValidIdentifier s = true -> s <> ""%string.
Proof. by intros [? _]%ValidIdentifier_spec. Qed.

Lemma reserved_are_valid s : ReservedSender s = true -> ValidIdentifier s = true.
Proof.
  unfold ReservedSender. intros H%bool_decide_eq_true.
  repeat (apply elem_of_cons in H as [->|H]; [reflexivity|]).
  by apply not_elem_of_nil in H.
Qed.

Lemma Known_spec c : Known c = true <-> c ∈ classes.
Proof. apply bool_decide_eq_true. Qed.

Lemma encrypted_known c : Encrypted c = true -> Known c = true.
Proof.
  unfold Encrypted, Known. intros [->|[->| ->]]%bool_decide_eq_true; reflexivity.
Qed.
