(* ===== verification/Framing.v ===== *)
(** * Framing: nine length-prefixed fields

    Models [internal/protocol/framing.go].  [Frame] writes the prefixes,
    [Split] parses them back under a budget, and [SignedInput] is the framed
    form of the first eight fields.  The theorems: the two are inverse, in
    both directions; the refusal code follows the normative order of checks;
    the signed input determines the eight fields and nothing else. *)
From S2P Require Import Prelude GoBytes Vocabulary.

Definition Fields : nat := 9.
Definition PrefixBytes : Z := 4.
Definition DefaultMaxEnvelope : Z := Z.shiftl 1 20.

(** One field with its prefix. *)
Definition framed_field (f : bytes) : bytes := put_uint32 (uint32 (zlen f)) ++ f.

(** [uint64(len(f)) > uint64(^uint32(0))] refuses a field too long to prefix. *)
Definition field_too_long (f : bytes) : bool := uint64 (2 ^ 32 - 1) <? uint64 (zlen f).

Definition Frame (fields : list bytes) : option bytes :=
  if negb (bool_decide (length fields = Fields)) then None
  else if existsb field_too_long fields then None
  else Some (concat (map framed_field fields)).

(** The length of everything before field nine's prefix. *)
Definition signed_length (fields : list bytes) : Z :=
  foldr (fun f n => PrefixBytes + zlen f + n) 0 (take (Fields - 1) fields).

Definition SignedInput (fields : list bytes) : option bytes :=
  if negb (bool_decide (length fields = Fields)) then None
  else match Frame fields with
       | None => None
       | Some framed => Some (take (Z.to_nat (signed_length fields)) framed)
       end.

(** The loop of [Split], [k] fields to go. *)
Fixpoint split_loop (k : nat) (budget : Z) (rest : bytes) (fields : list bytes)
  : result Refusal (list bytes) :=
  match k with
  | O => if zlen rest =? 0 then Ok fields else Err MalformedEnvelope
  | S k' =>
      if zlen rest <? PrefixBytes then Err MalformedEnvelope
      else if budget <? PrefixBytes then Err PayloadTooLarge
      else
        let budget := budget - PrefixBytes in
        let n := get_uint32 (take (Z.to_nat PrefixBytes) rest) in
        let rest := drop (Z.to_nat PrefixBytes) rest in
        if uint64 budget <? uint64 n then Err PayloadTooLarge
        else if uint64 (zlen rest) <? uint64 n then Err MalformedEnvelope
        else split_loop k' (budget - n) (drop (Z.to_nat n) rest)
               (fields ++ [take (Z.to_nat n) rest])
  end.

Definition effective_max (maxEnvelope : Z) : Z :=
  if maxEnvelope <=? 0 then DefaultMaxEnvelope else maxEnvelope.

Definition Split (b : bytes) (maxEnvelope : Z) : result Refusal (list bytes) :=
  split_loop Fields (effective_max maxEnvelope) b [].

(** ** Bounds of machine lengths

    A Go slice never exceeds [max_int64] bytes and [maxEnvelope] is an [int];
    the comparisons in [uint64] are then comparisons of the lengths. *)
Definition go_slice (b : bytes) : Prop := zlen b <= max_int64.
Definition go_int (z : Z) : Prop := min_int64 <= z <= max_int64.

Lemma uint64_len (b : bytes) : go_slice b -> uint64 (zlen b) = zlen b.
Proof.
  unfold go_slice, max_int64. intros. apply uint64_small. pose proof (zlen_nonneg b). lia.
Qed.

(** What framing costs: four bytes per field and the fields. *)
Fixpoint framed_length (fields : list bytes) : Z :=
  match fields with [] => 0 | f :: fs => 4 + zlen f + framed_length fs end.

Lemma framed_length_nonneg fs : 0 <= framed_length fs.
Proof. induction fs as [|f fs IH]; cbn [framed_length]; pose proof (@zlen_nonneg); auto with lia.
  specialize (H byte f). lia. Qed.

Lemma framed_length_app fs gs : framed_length (fs ++ gs) = framed_length fs + framed_length gs.
Proof. induction fs as [|f fs IH]; cbn [framed_length app]; lia. Qed.

Lemma zlen_framed_field f : zlen (framed_field f) = 4 + zlen f.
Proof. unfold framed_field. rewrite zlen_app, zlen_put_uint32. reflexivity. Qed.

Lemma zlen_concat_framed fs : zlen (concat (map framed_field fs)) = framed_length fs.
Proof.
  induction fs as [|f fs IH]; [reflexivity|].
  cbn [map concat framed_length]. rewrite zlen_app, zlen_framed_field. lia.
Qed.

(** A field short enough to have a prefix. *)
Definition short (f : bytes) : Prop := zlen f < 2 ^ 32.

Lemma field_too_long_false f : go_slice f -> field_too_long f = false <-> short f.
Proof.
  intros H. unfold field_too_long, short. rewrite uint64_len by done.
  change (uint64 (2 ^ 32 - 1)) with (2 ^ 32 - 1). rewrite Z.ltb_ge. lia.
Qed.

Lemma existsb_false_Forall {A} (p : A -> bool) l :
  existsb p l = false <-> Forall (fun x => p x = false) l.
Proof.
  induction l as [|x l IH]; cbn; [by split|].
  rewrite orb_false_iff, IH, Forall_cons. tauto.
Qed.

Lemma Frame_Some fields b :
  Forall go_slice fields ->
  Frame fields = Some b <->
  length fields = Fields /\ Forall short fields /\ b = concat (map framed_field fields).
Proof.
  intros Hgo. unfold Frame.
  assert (Hl : existsb field_too_long fields = false <-> Forall short fields).
  { rewrite existsb_false_Forall. induction Hgo as [|f fs Hf _ IH]; [by rewrite !Forall_nil|].
    by rewrite !Forall_cons, IH, field_too_long_false. }
  case_bool_decide; cbn [negb]; [|split; [done | tauto]].
  destruct (existsb _ _).
  - split; [done|]. intros (_ & [=]%Hl & _).
  - split; [intros [= <-] | intros (_ & _ & ->)]; intuition.
Qed.

(** ** One turn of the loop, without the machine conversions *)

Definition declared (rest : bytes) : Z := be_get (take 4 rest).

Lemma declared_range rest : 4 <= zlen rest -> 0 <= declared rest < 2 ^ 32.
Proof.
  intros H. apply be_get_uint32_range. apply (zlen_take 4). lia.
Qed.

Lemma declared_framed f rest : short f -> declared (framed_field f ++ rest) = zlen f.
Proof.
  intros Hf. pose proof (zlen_nonneg f). unfold declared, framed_field.
  rewrite <- app_assoc, (take_app_exact 4) by apply zlen_put_uint32.
  rewrite be_get_put_uint32, !uint32_small; unfold short in Hf; rewrite ?uint32_small; lia.
Qed.

(** Enough bytes for a prefix and what it declares is one framed field. *)
Lemma framed_head rest :
  4 + declared rest <= zlen rest -> 4 <= zlen rest ->
  exists f tl, rest = framed_field f ++ tl /\ zlen f = declared rest /\ short f /\
    drop 4 rest = f ++ tl.
Proof.
  intros Hn H4. pose proof (declared_range rest H4) as Hr.
  set (n := declared rest) in *.
  exists (take (Z.to_nat n) (drop 4 rest)), (drop (Z.to_nat n) (drop 4 rest)).
  assert (Hlen : zlen (take (Z.to_nat n) (drop 4 rest)) = n).
  { apply zlen_take. unfold zlen in *. rewrite length_drop. lia. }
  split; [|split; [done|split; [unfold short; lia | by rewrite take_drop]]].
  unfold framed_field. rewrite Hlen, uint32_small by lia.
  unfold n, declared at 1. rewrite put_uint32_get by (apply (zlen_take 4); lia).
  rewrite <- app_assoc, take_drop. symmetry. apply take_drop.
Qed.

Lemma split_loop_S k budget rest acc :
  go_slice rest -> 0 <= budget <= max_int64 ->
  split_loop (S k) budget rest acc =
    if zlen rest <? 4 then Err MalformedEnvelope
    else if budget <? 4 + declared rest then Err PayloadTooLarge
    else if zlen rest <? 4 + declared rest then Err MalformedEnvelope
    else let n := Z.to_nat (declared rest) in
         split_loop k (budget - (4 + declared rest)) (drop n (drop 4 rest))
           (acc ++ [take n (drop 4 rest)]).
Proof.
  intros Hgo Hb. cbn [split_loop]. unfold PrefixBytes. change (Z.to_nat 4) with 4%nat.
  fold (declared rest).
  destruct (Z.ltb_spec (zlen rest) 4) as [|H4]; [reflexivity|].
  pose proof (declared_range rest H4) as Hr.
  assert (Hd : zlen (drop 4 rest) = zlen rest - 4).
  { unfold zlen in *. rewrite length_drop. lia. }
  assert (go_slice (drop 4 rest)) by (unfold go_slice in *; lia).
  unfold max_int64 in *.
  destruct (Z.ltb_spec budget 4).
  { destruct (Z.ltb_spec budget (4 + declared rest)); [reflexivity | lia]. }
  rewrite uint64_len, !uint64_small, Hd by (done || lia).
  destruct (Z.ltb_spec (budget - 4) (declared rest)),
    (Z.ltb_spec budget (4 + declared rest)); try lia; [reflexivity|].
  destruct (Z.ltb_spec (zlen rest - 4) (declared rest)),
    (Z.ltb_spec (zlen rest) (4 + declared rest)); try lia; [reflexivity|].
  cbn zeta. f_equal. lia.
Qed.

(** ** The declarative reading of a parse *)

(** [b] frames [fs] within [budget]. *)
Definition frames (budget : Z) (fs : list bytes) (b : bytes) : Prop :=
  b = concat (map framed_field fs) /\ Forall short fs /\ framed_length fs <= budget.

(** Some field of the first [k] declares more than what is left of [budget]:
    the fields before it are present and affordable, and its prefix is there. *)
Definition over_budget (k : nat) (budget : Z) (b : bytes) : Prop :=
  exists fs rest,
    (length fs < k)%nat /\ b = concat (map framed_field fs) ++ rest /\
    Forall short fs /\ framed_length fs <= budget /\
    4 <= zlen rest /\ budget < framed_length fs + 4 + declared rest.

Lemma go_slice_app a b : go_slice (a ++ b) -> go_slice b.
Proof. unfold go_slice. rewrite zlen_app. pose proof (zlen_nonneg a). lia. Qed.

Lemma split_loop_framed k budget f rest acc :
  go_slice (framed_field f ++ rest) -> 0 <= budget <= max_int64 -> short f ->
  4 + zlen f <= budget ->
  split_loop (S k) budget (framed_field f ++ rest) acc =
  split_loop k (budget - (4 + zlen f)) rest (acc ++ [f]).
Proof.
  intros Hgo Hb Hf Hle. pose proof (zlen_nonneg f). pose proof (zlen_nonneg rest).
  rewrite split_loop_S, declared_framed, zlen_app, zlen_framed_field by done.
  ztests. cbn zeta.
  unfold framed_field at 1 2. rewrite <- app_assoc.
  rewrite (drop_app_exact 4) by apply zlen_put_uint32.
  rewrite take_app_exact, drop_app_exact by done. reflexivity.
Qed.

Lemma split_loop_complete k budget fs acc :
  go_slice (concat (map framed_field fs)) -> budget <= max_int64 ->
  length fs = k -> Forall short fs -> framed_length fs <= budget ->
  split_loop k budget (concat (map framed_field fs)) acc = Ok (acc ++ fs).
Proof.
  revert k budget acc. induction fs as [|f fs IH]; intros k budget acc Hgo Hb <- Hs Hle.
  - cbn. by rewrite app_nil_r.
  - apply Forall_cons in Hs as [Hf Hs]. cbn [map concat length framed_length] in *.
    pose proof (framed_length_nonneg fs). pose proof (zlen_nonneg f).
    rewrite split_loop_framed by (done || lia).
    rewrite IH by (done || lia || eauto using go_slice_app). by rewrite <- app_assoc.
Qed.

Lemma framed_app_inj f g r t :
  short f -> short g -> framed_field f ++ r = framed_field g ++ t -> f = g /\ r = t.
Proof.
  intros Hf Hg H.
  assert (Hl : zlen f = zlen g) by (by rewrite <- (declared_framed f r), H, declared_framed).
  apply app_inj_zlen in H as [H ->]; [|rewrite !zlen_framed_field; lia].
  unfold framed_field in H. apply app_inj_zlen in H as [_ ->]; [done|].
  by rewrite !zlen_put_uint32.
Qed.

(** The two predicates one field at a time. *)
Lemma frames_S k budget rest :
  (exists gs, length gs = S k /\ frames budget gs rest) <->
  exists f tl, rest = framed_field f ++ tl /\ short f /\ 4 + zlen f <= budget /\
    exists gs, length gs = k /\ frames (budget - (4 + zlen f)) gs tl.
Proof.
  unfold frames. split.
  - intros ([|f gs] & Hl & -> & Hs & Hle); [done|]. apply Forall_cons in Hs as [Hf Hs].
    cbn [framed_length] in Hle. pose proof (framed_length_nonneg gs).
    exists f, (concat (map framed_field gs)). repeat split; [done | lia |].
    exists gs. repeat split; [by injection Hl | done | lia].
  - intros (f & tl & -> & Hf & Hle & gs & <- & -> & Hs & Hle').
    exists (f :: gs). cbn [framed_length]. repeat split; [by constructor | lia].
Qed.

Lemma over_budget_S k budget rest :
  0 <= budget ->
  over_budget (S k) budget rest <->
  4 <= zlen rest /\ (budget < 4 + declared rest \/
    exists f tl, rest = framed_field f ++ tl /\ short f /\ 4 + zlen f <= budget /\
      over_budget k (budget - (4 + zlen f)) tl).
Proof.
  intros Hb. unfold over_budget. split.
  - intros ([|f gs] & r & Hl & -> & Hs & Hle & H4 & Hover); cbn [map concat app].
    { cbn [framed_length] in Hover. split; [done|]. left. lia. }
    apply Forall_cons in Hs as [Hf Hs]. cbn [framed_length length] in *.
    pose proof (framed_length_nonneg gs). rewrite <- app_assoc. split.
    { rewrite zlen_app, zlen_framed_field. pose proof (zlen_nonneg f).
      pose proof (zlen_nonneg (concat (map framed_field gs) ++ r)). lia. }
    right. exists f, (concat (map framed_field gs) ++ r).
    repeat split; [done | lia |]. exists gs, r. repeat split; auto; lia.
  - intros (H4 & [Hover | (f & tl & -> & Hf & Hle & gs & r & Hl & -> & Hs & Hle' & H4' & Hover)]).
    + exists [], rest. cbn [framed_length length]. repeat split; auto; lia.
    + exists (f :: gs), r. cbn [framed_length length map concat].
      rewrite app_assoc. repeat split; auto; lia.
Qed.

(** An input that frames its fields within the budget overruns nowhere. *)
Lemma frames_not_over k budget b :
  0 <= budget -> (exists gs, length gs = k /\ frames budget gs b) ->
  ~ over_budget k budget b.
Proof.
  revert budget b. induction k as [|k IH]; intros budget b Hb.
  { intros _ (? & ? & Hl & _). lia. }
  rewrite frames_S, over_budget_S by done.
  intros (f & tl & -> & Hf & Hle & Hex) (_ & [Hov | (g & t & Heq & Hg & _ & Hov)]).
  - rewrite declared_framed in Hov by done. lia.
  - apply framed_app_inj in Heq as [<- <-]; [|done..]. revert Hov. apply IH; [lia | done].
Qed.

(** What every outcome of the loop says about its input. *)
Lemma split_loop_outcome k budget rest acc :
  go_slice rest -> 0 <= budget <= max_int64 ->
  match split_loop k budget rest acc with
  | Ok fs => exists gs, fs = acc ++ gs /\ length gs = k /\ frames budget gs rest
  | Err PayloadTooLarge => over_budget k budget rest
  | Err MalformedEnvelope => ~ over_budget k budget rest /\
      ~ exists gs, length gs = k /\ frames budget gs rest
  | Err _ => False
  end.
Proof.
  revert budget rest acc. induction k as [|k IH]; intros budget rest acc Hgo Hb.
  { cbn [split_loop]. destruct (Z.eqb_spec (zlen rest) 0) as [H0|H0].
    - exists []. rewrite app_nil_r. apply zlen_zero in H0 as ->.
      repeat split; [constructor | cbn; lia].
    - split; [intros (? & ? & ? & _); lia|].
      intros ([|] & ? & -> & _); [by apply H0 | done]. }
  rewrite split_loop_S by done.
  destruct (Z.ltb_spec (zlen rest) 4) as [H4|H4].
  { rewrite frames_S, over_budget_S by lia.
    split; [lia|]. intros (f & tl & -> & _). revert H4.
    rewrite zlen_app, zlen_framed_field. pose proof (zlen_nonneg f). pose proof (zlen_nonneg tl). lia. }
  pose proof (declared_range rest H4) as Hr.
  destruct (Z.ltb_spec budget (4 + declared rest)) as [Hbud|Hbud].
  { rewrite over_budget_S by lia. auto. }
  destruct (Z.ltb_spec (zlen rest) (4 + declared rest)) as [Hpres|Hpres].
  { rewrite frames_S, over_budget_S by lia.
    assert (Hno : forall f tl, rest = framed_field f ++ tl -> short f -> False).
    { intros f tl -> Hf. revert Hpres. rewrite declared_framed by done.
      rewrite zlen_app, zlen_framed_field. pose proof (zlen_nonneg tl). lia. }
    split; [intros (_ & [?|(f & tl & ? & ? & _)]); [lia | eauto]|].
    intros (f & tl & ? & ? & _). eauto. }
  destruct (framed_head rest) as (f & tl & -> & Hf & Hs & Hd); [done..|].
  cbn zeta. rewrite Hd, <- Hf, take_app_exact, drop_app_exact by done.
  pose proof (zlen_nonneg f).
  specialize (IH (budget - (4 + zlen f)) tl (acc ++ [f])).
  assert (Hstep : forall P, (exists f' tl', framed_field f ++ tl = framed_field f' ++ tl' /\
             short f' /\ 4 + zlen f' <= budget /\ P (budget - (4 + zlen f')) tl') <->
           P (budget - (4 + zlen f)) tl).
  { intros P. split; [|intros HP; exists f, tl; repeat split; auto; lia].
    intros (f' & tl' & Heq & Hf' & _ & HP). by apply framed_app_inj in Heq as [<- <-]. }
  specialize (IH (go_slice_app _ _ Hgo) ltac:(lia)).
  destruct (split_loop _ _ _ _) as [fs|[]]; try done.
  - destruct IH as (gs & -> & Hl & Hfr & Hgs & Hle).
    exists (f :: gs). rewrite <- app_assoc. unfold frames.
    cbn [app length framed_length map concat].
    repeat split; [by rewrite Hl | by rewrite Hfr | by constructor | lia].
  - rewrite frames_S, over_budget_S, Hstep by lia.
    rewrite (Hstep (fun b t => exists gs, length gs = k /\ frames b gs t)).
    destruct IH as [H1 H2]. split; [|done]. intros (_ & [?|?]); [lia | done].
  - rewrite over_budget_S, Hstep by lia. auto.
Qed.

(** ** [Frame], [Split] and [SignedInput] *)

Lemma go_slice_fields fs : go_slice (concat (map framed_field fs)) -> Forall go_slice fs.
Proof.
  induction fs as [|f fs IH]; cbn [map concat]; [constructor|]. unfold go_slice.
  rewrite zlen_app, zlen_framed_field. intros H.
  pose proof (zlen_nonneg f). pose proof (zlen_nonneg (concat (map framed_field fs))).
  constructor; [unfold go_slice; lia | apply IH; unfold go_slice; lia].
Qed.

Lemma Frame_concat fs b : Frame fs = Some b -> b = concat (map framed_field fs).
Proof. unfold Frame. repeat case_match; congruence. Qed.

Lemma Frame_frames fs b :
  go_slice b -> Frame fs = Some b <-> length fs = Fields /\ frames (zlen b) fs b.
Proof.
  intros Hgo. unfold frames. split.
  - intros H. pose proof (Frame_concat _ _ H) as ->.
    apply Frame_Some in H as (? & ? & _); [|by apply go_slice_fields].
    rewrite zlen_concat_framed. repeat split; auto; lia.
  - intros (? & -> & ? & _). by apply Frame_Some; [apply go_slice_fields|].
Qed.

Lemma effective_max_range m : go_int m -> 0 <= effective_max m <= max_int64.
Proof.
  unfold go_int, effective_max, DefaultMaxEnvelope, max_int64, min_int64.
  rewrite Z.shiftl_mul_pow2 by lia. ztests.
Qed.

Lemma Split_ok_frames b m fs :
  go_slice b -> go_int m ->
  Split b m = Ok fs <-> length fs = Fields /\ frames (effective_max m) fs b.
Proof.
  intros Hb Hm%effective_max_range. unfold Split.
  pose proof (split_loop_outcome Fields (effective_max m) b [] Hb Hm) as Ho.
  split.
  - intros E. rewrite E in Ho. by destruct Ho as (gs & -> & ? & ?).
  - intros (Hl & -> & Hs & Hle). apply (split_loop_complete _ _ _ []); auto; lia.
Qed.

(** [Split] inverts [Frame] and accepts nothing else: parsing bytes [b]
    under [maxEnvelope] returns the fields [fs] exactly when [b] is the framing
    of [fs] and fits the budget.  So no two field lists share an encoding and
    no input has two parses. *)
Theorem Split_inverts_Frame b m fs :
  go_slice b -> go_int m ->
  Split b m = Ok fs <-> Frame fs = Some b /\ zlen b <= effective_max m.
Proof.
  intros Hb Hm. rewrite Split_ok_frames, Frame_frames by done. unfold frames.
  split.
  - intros (? & -> & ? & ?). rewrite zlen_concat_framed. repeat split; auto; lia.
  - intros ((? & -> & ? & _) & Hle). rewrite zlen_concat_framed in Hle. auto.
Qed.

(** The refusal code is decided by the normative order of checks: an input
    is [PayloadTooLarge] exactly when some field, reached over fields that are
    present and affordable, declares more than what is left of the budget --
    whether or not the declared bytes are there -- and [MalformedEnvelope]
    exactly when that is not so and the input frames no nine fields.  [Split]
    has no other refusal. *)
Theorem Split_refusal_order b m e :
  go_slice b -> go_int m ->
  Split b m = Err e <->
  (e = PayloadTooLarge /\ over_budget Fields (effective_max m) b) \/
  (e = MalformedEnvelope /\ ~ over_budget Fields (effective_max m) b /\
   ~ exists fs, length fs = Fields /\ frames (effective_max m) fs b).
Proof.
  intros Hb Hm. pose proof (effective_max_range m Hm) as Hr.
  pose proof (split_loop_outcome Fields (effective_max m) b [] Hb Hr) as Ho.
  unfold Split in *. destruct (split_loop _ _ _ _) as [fs|e'] eqn:E.
  - destruct Ho as (gs & _ & Hex).
    assert (Hn : ~ over_budget Fields (effective_max m) b)
      by (apply frames_not_over; [lia | eauto]).
    split; [done|]. intros [[_ Hov] | (_ & _ & Hno)]; [by destruct Hn | destruct Hno; eauto].
  - destruct e'; try done.
    + destruct Ho as [Hn Hno]. split; [intros [= <-]; auto|].
      intros [[_ Hov] | (-> & _)]; [by destruct Hn | done].
    + split; [intros [= <-]; auto|].
      intros [[-> _] | (_ & Hn & _)]; [done | by destruct Hn].
Qed.

Lemma SignedInput_snoc f8 f9 :
  length f8 = 8%nat ->
  SignedInput (f8 ++ [f9]) =
  if existsb field_too_long (f8 ++ [f9]) then None
  else Some (concat (map framed_field f8)).
Proof.
  intros Hl. unfold SignedInput, Frame, Fields.
  rewrite bool_decide_eq_true_2 by (rewrite length_app, Hl; reflexivity). cbn [negb].
  destruct (existsb _ _); [done|]. f_equal.
  rewrite map_app, concat_app. apply take_app_exact.
  rewrite zlen_concat_framed. unfold signed_length, PrefixBytes.
  rewrite take_app_length' by (rewrite Hl; done).
  clear. induction f8 as [|f fs IH]; cbn [foldr framed_length]; [done|]. lia.
Qed.

Lemma signed_prefix f8 f9 :
  length f8 = 8%nat ->
  SignedInput (f8 ++ [f9]) <> None ->
  SignedInput (f8 ++ [f9]) = Some (concat (map framed_field f8)).
Proof. intros Hl. rewrite SignedInput_snoc by done. by destruct (existsb _ _). Qed.

(** What field nine holds does not matter to the signed input. *)
Lemma SignedInput_field9 f8 f9 g9 :
  length f8 = 8%nat -> field_too_long f9 = false -> field_too_long g9 = false ->
  SignedInput (f8 ++ [f9]) = SignedInput (f8 ++ [g9]).
Proof.
  intros Hl Hf Hg. rewrite !SignedInput_snoc by done. by rewrite !existsb_app; cbn; rewrite Hf, Hg.
Qed.

Lemma concat_framed_inj fs gs :
  Forall short fs -> Forall short gs -> length fs = length gs ->
  concat (map framed_field fs) = concat (map framed_field gs) -> fs = gs.
Proof.
  revert gs. induction fs as [|f fs IH]; intros [|g gs] Hf Hg Hl; try done.
  apply Forall_cons in Hf as [? ?]. apply Forall_cons in Hg as [? ?].
  cbn [map concat]. intros [<- Heq]%framed_app_inj; [|done..].
  f_equal. apply IH; auto.
Qed.

Lemma SignedInput_Frame fs x : SignedInput fs = Some x -> exists b, Frame fs = Some b.
Proof. unfold SignedInput. repeat case_match; naive_solver. Qed.

(** The signed bytes determine the first eight fields and depend on nothing
    else: two framable envelopes present the same bytes to the signature
    exactly when they agree on fields 1 to 8.  No byte can move across a field
    boundary, and field 9 does not sign itself. *)
Theorem SignedInput_determines fs gs x y :
  Forall go_slice fs -> Forall go_slice gs ->
  SignedInput fs = Some x -> SignedInput gs = Some y ->
  x = y <-> take 8 fs = take 8 gs.
Proof.
  intros Hfs Hgs Hx Hy.
  destruct (SignedInput_Frame _ _ Hx) as [bx (Hlx & Hsx & _)%Frame_Some]; [|done].
  destruct (SignedInput_Frame _ _ Hy) as [b_y (Hly & Hsy & _)%Frame_Some]; [|done].
  assert (Hsplit : forall l : list bytes, length l = Fields ->
            exists l8 l9, l = l8 ++ [l9] /\ length l8 = 8%nat).
  { intros l Hl. destruct (exists_last (l := l)) as (l8 & l9 & ->); [by destruct l|].
    exists l8, l9. split; [done|]. rewrite length_app in Hl. unfold Fields in Hl. cbn in Hl. lia. }
  destruct (Hsplit fs Hlx) as (f8 & f9 & -> & Hf8). destruct (Hsplit gs Hly) as (g8 & g9 & -> & Hg8).
  rewrite signed_prefix in Hx by congruence. rewrite signed_prefix in Hy by congruence.
  injection Hx as <-. injection Hy as <-.
  rewrite !take_app_length' by done.
  apply Forall_app in Hsx as [? _]. apply Forall_app in Hsy as [? _].
  split; [|by intros ->]. apply concat_framed_inj; [done..|congruence].
Qed.

(** ** Concrete inputs *)

Definition sample_fields : list bytes :=
  [[x01]; to_bytes "presence"; []; []; to_bytes "agent-1"; [x00; x07]; [xff]; to_bytes "{}"; [x2a]].
Definition sample_framed : bytes := concat (map framed_field sample_fields).

Lemma Split_inverts_Frame_witness :
  go_slice sample_framed /\ go_int 64 /\ Split sample_framed 64 = Ok sample_fields.
Proof.
  split; [done|]. split; [done|].
  apply (Split_inverts_Frame sample_framed 64 sample_fields); [done..|].
  split; vm_compute; [reflexivity | discriminate].
Defined.

(** Nine one-byte fields do not fit 40 bytes: the ninth prefix is read, and what
    it declares is not afforded although the byte is there. *)
Definition sample_over : bytes := concat (replicate 9 (framed_field [x01])).

Lemma Split_refusal_order_witness :
  Split sample_over 44 = Err PayloadTooLarge /\ over_budget Fields 44 sample_over.
Proof.
  split; [reflexivity|].
  pose proof (proj1 (Split_refusal_order sample_over 44 PayloadTooLarge
    ltac:(done) ltac:(done)) ltac:(reflexivity)) as [[_ H] | [[=] _]].
  exact H.
Defined.

Lemma SignedInput_determines_witness :
  let fs := [[x41; x42]; [x43; x44]; []; []; []; []; []; []; []] in
  let gs := [[x41]; [x42; x43; x44]; []; []; []; []; []; []; []] in
  concat fs = concat gs /\ SignedInput fs <> SignedInput gs.
Proof.
  intros fs gs. split; [reflexivity|]. intros Heq.
  pose proof (SignedInput_determines fs gs _ _ ltac:(repeat constructor; done)
    ltac:(repeat constructor; done) eq_refl eq_refl) as [H _].
  discriminate (H ltac:(vm_compute in Heq |- *; congruence)).
Defined.
