(* ===== verification/Keys.v ===== *)
(** * Keys: the hybrid signing keys

    Models [internal/protocol/keys.go] over the signature interface: generation,
    the wire form of the public half and the stored form of the private one. *)
From S2P Require Import Prelude GoBytes Vocabulary Primitives.

(** ** Keys *)

Section Keys.
Context `{S : SignatureScheme}.

Record SigningKey := { sk_ed : ed_priv; sk_ml : ml_priv }.
Record VerifyingKey := { vk_ed : bytes; vk_ml : ml_pub }.

(** Errors of generation are the random source's; [None] is any of them. *)
Definition GenerateSigningKey (r1 r2 : entropy) : option SigningKey :=
  ed ← ed_GenerateKey r1; ml ← ml_GenerateKey r2;
  Some {| sk_ed := ed; sk_ml := ml |}.

Definition Verifying (k : SigningKey) : VerifyingKey :=
  {| vk_ed := ed_Public (sk_ed k); vk_ml := ml_PublicKey (sk_ml k) |}.

Definition MarshalSigningKey (k : SigningKey) : bytes :=
  ed_Seed (sk_ed k) ++ ml_Bytes (sk_ml k).

Definition ParseSigningKey (b : bytes) : result Refusal SigningKey :=
  if negb (zlen b =? SigningPrivateKeyBytes) then Err SignatureInvalid
  else
    let ed := ed_NewKeyFromSeed (take (Z.to_nat ed25519_SeedSize) b) in
    match ml_NewPrivateKey (drop (Z.to_nat ed25519_SeedSize) b) with
    | None => Err SignatureInvalid
    | Some ml => Ok {| sk_ed := ed; sk_ml := ml |}
    end.

Definition VerifyingKey_Bytes (v : VerifyingKey) : bytes :=
  vk_ed v ++ ml_PublicBytes (vk_ml v).

Definition ParseVerifyingKey (b : bytes) : result Refusal VerifyingKey :=
  if negb (zlen b =? VerifyingKeyBytes) then Err SignatureInvalid
  else
    match ml_NewPublicKey (drop (Z.to_nat Ed25519PublicBytes) b) with
    | None => Err SignatureInvalid
    | Some ml => Ok {| vk_ed := take (Z.to_nat Ed25519PublicBytes) b; vk_ml := ml |}
    end.

(** The values of type [VerifyingKey] the package makes: its fields are
    private, and both constructors give the Ed25519 half its 32 bytes. *)
Definition vk_ok (v : VerifyingKey) : Prop := zlen (vk_ed v) = Ed25519PublicBytes.

Context `{L : !SignatureLaws S}.

Lemma Verifying_ok k : vk_ok (Verifying k).
Proof. apply ed_Public_size. Qed.

Lemma ParseVerifyingKey_ok b v : ParseVerifyingKey b = Ok v -> vk_ok v.
Proof.
  unfold ParseVerifyingKey, vk_ok. case_match eqn:Hl; [done|].
  apply negb_false_iff, Z.eqb_eq in Hl. case_match; [|done]. intros [= <-].
  apply zlen_take. rewrite Hl. unfold VerifyingKeyBytes, Ed25519PublicBytes, MLDSAPublicBytes. lia.
Qed.

Lemma ParseVerifyingKey_Bytes v :
  vk_ok v -> ParseVerifyingKey (VerifyingKey_Bytes v) = Ok v.
Proof.
  unfold vk_ok, ParseVerifyingKey, VerifyingKey_Bytes. intros Hv.
  rewrite zlen_app, Hv, ml_PublicBytes_size. cbn [negb Z.eqb].
  change (Ed25519PublicBytes + MLDSAPublicBytes =? VerifyingKeyBytes) with true. cbn [negb].
  rewrite drop_app_exact, take_app_exact by done.
  rewrite ml_PublicBytes_key. by destruct v.
Qed.

Lemma VerifyingKey_Bytes_Parse b v :
  ParseVerifyingKey b = Ok v -> VerifyingKey_Bytes v = b.
Proof.
  unfold ParseVerifyingKey. case_match eqn:Hl; [done|].
  apply negb_false_iff, Z.eqb_eq in Hl. case_match eqn:Hp; [|done]. intros [= <-].
  unfold VerifyingKey_Bytes; cbn. apply ml_Public_canonical in Hp as ->.
  - apply take_drop.
  - unfold zlen in *. rewrite length_drop.
    unfold VerifyingKeyBytes, Ed25519PublicBytes, MLDSAPublicBytes in *. lia.
Qed.

Lemma zlen_VerifyingKey_Bytes v : vk_ok v -> zlen (VerifyingKey_Bytes v) = VerifyingKeyBytes.
Proof.
  unfold vk_ok, VerifyingKey_Bytes. intros H. by rewrite zlen_app, H, ml_PublicBytes_size.
Qed.

Lemma ParseSigningKey_Marshal k : ParseSigningKey (MarshalSigningKey k) = Ok k.
Proof.
  unfold ParseSigningKey, MarshalSigningKey.
  rewrite zlen_app, ed_Seed_size, ml_Bytes_size.
  change (_ =? SigningPrivateKeyBytes) with true. cbn [negb].
  rewrite drop_app_exact, take_app_exact by apply ed_Seed_size.
  rewrite ml_Bytes_key, ed_Seed_key. by destruct k.
Qed.

Lemma Verifying_Bytes_inj v w :
  vk_ok v -> vk_ok w -> VerifyingKey_Bytes v = VerifyingKey_Bytes w -> v = w.
Proof.
  intros Hv Hw H. pose proof (ParseVerifyingKey_Bytes v Hv) as E.
  rewrite H, ParseVerifyingKey_Bytes in E by done. congruence.
Qed.
End Keys.
