(* ===== verification/Envelope.v ===== *)
(** * The v1 envelope

    Models [internal/protocol/envelope.go]: nine typed fields over the framing.
    [Decode] accepts exactly the encodings of well-formed envelopes, and its
    refusal codes follow the version, the class and then the field sequence. *)
From S2P Require Import Prelude GoBytes GoTime Vocabulary Primitives Framing Keys.

Definition Version : Z := 1.
Definition VersionBytes : Z := 4.
Definition TimestampBytes : Z := 8.
Definition NonceBytes : Z := 16.

(** [NewNonce]: what the random source returned for sixteen bytes, if it did. *)
Definition NewNonce (read : Z -> option bytes) : option bytes := read NonceBytes.

Record Envelope := MkEnvelope {
  Version_ : Z;
  Class : string;
  JobID : string;
  CorrelationID : string;
  Sender : string;
  Timestamp : Time;
  Nonce : bytes;
  Payload : bytes;
  Signature : bytes;
}.

(** The zero [Envelope], returned beside an error. *)
Definition fieldValues (e : Envelope) : list bytes :=
  [put_uint32 (Version_ e);
   to_bytes (Class e);
   to_bytes (JobID e);
   to_bytes (CorrelationID e);
   to_bytes (Sender e);
   put_uint64 (uint64 (UnixMilli_of (Timestamp e)));
   Nonce e;
   Payload e;
   Signature e].

Definition Envelope_SignedInput (e : Envelope) : option bytes := SignedInput (fieldValues e).

Definition Encode (e : Envelope) : option bytes := Frame (fieldValues e).

Definition field (fs : list bytes) (i : nat) : bytes := nth i fs [].

(** Fields 3 and 4 are empty or identifiers. *)
Definition id_field_ok (id : bytes) : bool :=
  (zlen id =? 0) || ValidIdentifier (of_bytes id).

Definition Decode (b : bytes) (maxEnvelope : Z) : result Refusal Envelope :=
  fields ← Split b maxEnvelope;
  _ ← ensure (zlen (field fields 0) =? VersionBytes) MalformedEnvelope;
  let v := get_uint32 (field fields 0) in
  _ ← ensure (v =? Version) UnknownVersion;
  let class := of_bytes (field fields 1) in
  _ ← ensure (Known class) UnknownClass;
  _ ← ensure ((zlen (field fields 5) =? TimestampBytes) && (zlen (field fields 6) =? NonceBytes))
        MalformedEnvelope;
  _ ← ensure (zlen (field fields 8) =? SignatureBytes) MalformedEnvelope;
  _ ← ensure (forallb id_field_ok [field fields 2; field fields 3]) MalformedEnvelope;
  let sender := of_bytes (field fields 4) in
  _ ← ensure (ValidIdentifier sender || ReservedSender sender) MalformedEnvelope;
  _ ← ensure (negb (Encrypted class && negb (zlen (field fields 3) =? 0))) MalformedEnvelope;
  Ok {| Version_ := v;
        Class := class;
        JobID := of_bytes (field fields 2);
        CorrelationID := of_bytes (field fields 3);
        Sender := sender;
        Timestamp := time_UnixMilli (int64 (get_uint64 (field fields 5)));
        Nonce := field fields 6;
        Payload := field fields 7;
        Signature := field fields 8 |}.

Definition HeaderAgrees (e : Envelope) (header : string) : bool :=
  bool_decide (Class e = header).

(** ** Well-formed envelopes *)

Definition id_ok (s : string) : Prop := s = ""%string \/ ValidIdentifier s = true.

(** What the v1 field sequence admits. *)
Record envelope_ok (e : Envelope) : Prop := {
  ok_version : Version_ e = Version;
  ok_class : Known (Class e) = true;
  ok_job : id_ok (JobID e);
  ok_correlation : id_ok (CorrelationID e);
  ok_sender : ValidIdentifier (Sender e) = true;
  ok_timestamp : exists ms, min_int64 <= ms <= max_int64 /\ Timestamp e = time_UnixMilli ms;
  ok_nonce : zlen (Nonce e) = NonceBytes;
  ok_signature : zlen (Signature e) = SignatureBytes;
  ok_encrypted : Encrypted (Class e) = true -> CorrelationID e = ""%string;
}.

Lemma id_field_ok_spec id : id_field_ok id = true <-> id_ok (of_bytes id).
Proof.
  unfold id_field_ok, id_ok. rewrite orb_true_iff, Z.eqb_eq. split; intros [H|H]; auto.
  - left. apply zlen_zero in H as ->. reflexivity.
  - left. apply (f_equal to_bytes) in H. rewrite to_of_bytes in H. by subst.
Qed.

Lemma zlen_zero_string b : (zlen b =? 0) = bool_decide (of_bytes b = ""%string).
Proof.
  apply eq_true_iff_eq. rewrite Z.eqb_eq, bool_decide_eq_true. split.
  - by intros ->%zlen_zero.
  - intros H. apply (f_equal to_bytes) in H. rewrite to_of_bytes in H. by subst.
Qed.

Lemma sender_ok s : ValidIdentifier s || ReservedSender s = ValidIdentifier s.
Proof.
  destruct (ReservedSender s) eqn:E; [|apply orb_false_r].
  by rewrite (reserved_are_valid _ E).
Qed.

(** The checks of [Decode] after [Split], on nine fields. *)
Definition decode_fields (fs : list bytes) : result Refusal Envelope :=
  if negb (zlen (field fs 0) =? VersionBytes) then Err MalformedEnvelope
  else if negb (be_get (field fs 0) =? Version) then Err UnknownVersion
  else if negb (Known (of_bytes (field fs 1))) then Err UnknownClass
  else if negb ((zlen (field fs 5) =? TimestampBytes) && (zlen (field fs 6) =? NonceBytes)
                && (zlen (field fs 8) =? SignatureBytes)
                && forallb id_field_ok [field fs 2; field fs 3]
                && (ValidIdentifier (of_bytes (field fs 4)) || ReservedSender (of_bytes (field fs 4)))
                && negb (Encrypted (of_bytes (field fs 1)) && negb (zlen (field fs 3) =? 0)))
       then Err MalformedEnvelope
  else Ok {| Version_ := be_get (field fs 0); Class := of_bytes (field fs 1);
             JobID := of_bytes (field fs 2); CorrelationID := of_bytes (field fs 3);
             Sender := of_bytes (field fs 4);
             Timestamp := time_UnixMilli (int64 (be_get (field fs 5)));
             Nonce := field fs 6; Payload := field fs 7; Signature := field fs 8 |}.

Lemma Decode_fields b m : Decode b m = Split b m ≫= decode_fields.
Proof.
  unfold Decode. destruct (Split b m) as [fs|e]; [|reflexivity]. cbn [mbind result_bind].
  unfold decode_fields, ensure.
  destruct (zlen (field fs 0) =? _); [|reflexivity]. cbn.
  destruct (be_get (field fs 0) =? _); [|reflexivity]. cbn.
  destruct (Known _); [|reflexivity]. cbn.
  destruct (zlen (field fs 5) =? _), (zlen (field fs 6) =? _); try reflexivity. cbn.
  destruct (zlen (field fs 8) =? _); [|reflexivity]. cbn.
  destruct (id_field_ok (field fs 2)), (id_field_ok (field fs 3)); try reflexivity. cbn.
  destruct (ValidIdentifier _), (ReservedSender _); try reflexivity; cbn;
    by destruct (Encrypted _), (zlen (field fs 3) =? 0).
Qed.

Lemma fields9 (fs : list bytes) :
  length fs = Fields ->
  exists a b c d e f g h i, fs = [a; b; c; d; e; f; g; h; i].
Proof.
  unfold Fields. intros H.
  destruct fs as [|a [|b [|c [|d [|e [|f [|g [|h [|i [|]]]]]]]]]]; try discriminate H.
  eauto 10.
Qed.

Lemma timestamp_field b :
  zlen b = TimestampBytes ->
  put_uint64 (uint64 (UnixMilli_of (time_UnixMilli (int64 (be_get b))))) = b.
Proof.
  intros H. rewrite UnixMilli_roundtrip by apply int64_range.
  rewrite uint64_int64, uint64_small by (by apply be_get_uint64_range).
  by apply put_uint64_get.
Qed.

Lemma decode_fields_ok fs e :
  length fs = Fields ->
  decode_fields fs = Ok e <-> envelope_ok e /\ fieldValues e = fs.
Proof.
  intros (f0 & f1 & f2 & f3 & f4 & f5 & f6 & f7 & f8 & ->)%fields9.
  unfold decode_fields, field. cbn [nth]. rewrite sender_ok. split.
  - repeat (case_match; [done|]). res_inv. bool_to_prop. intros [= <-].
    cbn [forallb] in *. res_inv. bool_to_prop.
    split; [split; cbn; auto using int64_range |].
    + by apply id_field_ok_spec.
    + by apply id_field_ok_spec.
    + eauto using int64_range.
    + intros E. match goal with H : _ \/ _ |- _ => destruct H as [H|H]; [congruence|] end.
      res_inv. bool_to_prop.
      match goal with H : zlen f3 = 0 |- _ => apply zlen_zero in H as -> end. reflexivity.
    + unfold fieldValues. cbn [Version_ Class JobID CorrelationID Sender Timestamp Nonce Payload Signature].
      rewrite !to_of_bytes, put_uint32_get, timestamp_field; done.
  - intros [[Hv Hc Hj Hco Hs (ms & Hms & Ht) Hn Hsig He] Hf].
    unfold fieldValues in Hf. injection Hf as <- <- <- <- <- <- <- <- <-.
    rewrite !of_to_bytes. rewrite zlen_put_uint32, zlen_put_uint64, be_get_put_uint32.
    rewrite Hv, Hc, Hn, Hsig, Hs. cbn [negb Z.eqb andb].
    change (uint32 Version) with Version. cbn [forallb].
    rewrite !(proj2 (id_field_ok_spec _)) by (by rewrite of_to_bytes).
    assert (Hemp : negb (Encrypted (Class e) && negb (zlen (to_bytes (CorrelationID e)) =? 0)) = true).
    { destruct (Encrypted (Class e)) eqn:E; [|done]. by rewrite He. }
    rewrite Hemp. unfold TimestampBytes, NonceBytes, SignatureBytes, Version, VersionBytes.
    cbn. rewrite Ht, be_get_put_uint64, UnixMilli_roundtrip by done.
    rewrite !int64_uint64. rewrite int64_small by done. rewrite <- Ht.
    destruct e; cbn in *. by subst.
Qed.

Lemma Decode_iff b m e :
  go_slice b -> go_int m ->
  Decode b m = Ok e <->
  envelope_ok e /\ Encode e = Some b /\ zlen b <= effective_max m.
Proof.
  intros Hb Hm. rewrite Decode_fields. unfold Encode. split.
  - intros (fs & HS & Hd)%bind_ok_inv. apply Split_inverts_Frame in HS as HF; [|done..].
    apply Split_ok_frames in HS as [Hl _]; [|done..].
    apply decode_fields_ok in Hd as [? ->]; auto.
  - intros (Hok & HF & Hle).
    rewrite (proj2 (Split_inverts_Frame b m (fieldValues e) Hb Hm)) by done.
    by apply decode_fields_ok.
Qed.

(** Fields short enough to have a prefix are all it takes to encode. *)
Lemma Encode_some e :
  Forall short (fieldValues e) ->
  exists b, Encode e = Some b /\ zlen b = framed_length (fieldValues e).
Proof.
  intros Hs. exists (concat (map framed_field (fieldValues e))). split.
  - unfold Encode. apply Frame_Some; [|done].
    eapply Forall_impl; [exact Hs|]. unfold short, go_slice, max_int64. cbn. lia.
  - apply zlen_concat_framed.
Qed.

Lemma SignedInput_some e :
  Forall short (fieldValues e) -> exists x, Envelope_SignedInput e = Some x.
Proof.
  intros Hs. destruct (Encode_some e Hs) as (b & Hb & _).
  unfold Envelope_SignedInput, SignedInput. unfold Encode in Hb. rewrite Hb.
  cbn [negb]. rewrite bool_decide_eq_true_2 by done. eauto.
Qed.

(** C32. [Decode] and [Encode] are inverse on well-formed envelopes: decoding
    [b] returns [e] exactly when [e] is well formed, [b] is its encoding and
    [b] fits the budget.  Every accepted input is therefore canonical, and
    nothing malformed is ever returned. *)
Theorem Decode_inverts_Encode b m e :
  go_slice b -> go_int m ->
  Decode b m = Ok e <->
  envelope_ok e /\ Encode e = Some b /\ zlen b <= effective_max m.
Proof. apply Decode_iff. Qed.

(** Refusals beyond framing, in the order of § 9: on nine well-framed
    fields an unknown version is reported whatever else is wrong, an unknown
    class whatever the shapes, and every other departure from the v1 field
    sequence is [MalformedEnvelope]; [Decode] has no other refusal. *)
Theorem Decode_refusal_order b m fs e :
  Split b m = Ok fs ->
  Decode b m = Err e <->
  let f := field fs in
  if negb (zlen (f 0%nat) =? VersionBytes) then e = MalformedEnvelope
  else if negb (be_get (f 0%nat) =? Version) then e = UnknownVersion
  else if negb (Known (of_bytes (f 1%nat))) then e = UnknownClass
  else e = MalformedEnvelope /\
       ~ (zlen (f 5%nat) = TimestampBytes /\ zlen (f 6%nat) = NonceBytes /\
          zlen (f 8%nat) = SignatureBytes /\
          id_ok (of_bytes (f 2%nat)) /\ id_ok (of_bytes (f 3%nat)) /\
          ValidIdentifier (of_bytes (f 4%nat)) = true /\
          (Encrypted (of_bytes (f 1%nat)) = true -> f 3%nat = [])).
Proof.
  intros HS. rewrite Decode_fields, HS. cbn [mbind result_bind]. cbv zeta.
  unfold decode_fields. rewrite sender_ok.
  destruct (zlen (field fs 0) =? VersionBytes); cbn [negb]; [|naive_solver].
  destruct (be_get (field fs 0) =? Version); cbn [negb]; [|naive_solver].
  destruct (Known _); cbn [negb]; [|naive_solver].
  cbn [forallb].
  match goal with |- context [if negb ?c then _ else _] =>
    assert (Hc : c = true <->
      (zlen (field fs 5) = TimestampBytes /\ zlen (field fs 6) = NonceBytes /\
          zlen (field fs 8) = SignatureBytes /\
          id_ok (of_bytes (field fs 2)) /\ id_ok (of_bytes (field fs 3)) /\
          ValidIdentifier (of_bytes (field fs 4)) = true /\
          (Encrypted (of_bytes (field fs 1)) = true -> field fs 3 = [])));
    [|destruct c eqn:E; cbn [negb]; naive_solver]
  end.
  rewrite !andb_true_iff, !Z.eqb_eq, !id_field_ok_spec, negb_true_iff, andb_false_iff.
  rewrite negb_false_iff, Z.eqb_eq.
  assert (Hz : zlen (field fs 3) = 0 <-> field fs 3 = []) by (split; [apply zlen_zero | by intros ->]).
  rewrite Hz. destruct (Encrypted _); naive_solver.
Qed.

(** ** Concrete inputs *)

Definition sample_envelope : Envelope := {|
  Version_ := 1; Class := ClassPresence; JobID := ""; CorrelationID := "";
  Sender := "agent-1"; Timestamp := time_UnixMilli 1700000000000;
  Nonce := replicate 16 x07; Payload := to_bytes "{}";
  Signature := replicate (Z.to_nat SignatureBytes) x01 |}.

Lemma Decode_inverts_Encode_witness :
  exists b, Encode sample_envelope = Some b /\ Decode b 4096 = Ok sample_envelope.
Proof.
  eexists. split; [reflexivity|].
  apply (Decode_inverts_Encode _ 4096); [done..|]. split; [|split; [reflexivity | done]].
  split; try done; [by left | by left |]. by exists 1700000000000.
Defined.

(** An envelope of version 2 whose class is unknown: the version is reported. *)
Definition sample_v2 : list bytes :=
  [put_uint32 2; to_bytes "nonsense"; []; []; []; []; []; []; []].

Lemma Decode_refusal_order_witness :
  Decode (concat (map framed_field sample_v2)) 0 = Err UnknownVersion.
Proof.
  apply (Decode_refusal_order _ 0 sample_v2); reflexivity.
Defined.
