(* ===== verification/Signature.v ===== *)
(** * Hybrid signatures

    Models [internal/protocol/signature.go]: field 9 is the Ed25519 signature
    followed by the ML-DSA-65 signature, both over the framed fields 1 to 8, and
    both must verify.  [signer_of] is the normative table of who signs what. *)
From S2P Require Import Prelude GoBytes GoTime Vocabulary Primitives Toy Framing Keys Envelope.

(** An error that is not a refusal code is a primitive's own. *)
Inductive protocol_error := Primitive | Refused (r : Refusal).
#[export] Instance protocol_error_eq_dec : EqDecision protocol_error.
Proof. solve_decision. Defined.

(** ** Who signs *)

Inductive SignerRole := RoleAgentEnrolling | RoleService | RoleAgent.
#[export] Instance SignerRole_eq_dec : EqDecision SignerRole.
Proof. solve_decision. Defined.

Definition signerOf : gmap string SignerRole :=
  list_to_map
    [(ClassEnrollmentRequest, RoleAgentEnrolling);
     (ClassEnrollmentReply, RoleService);
     (ClassCommand, RoleService);
     (ClassCancellation, RoleService);
     (ClassResult, RoleAgent);
     (ClassLifecycleEvent, RoleAgent);
     (ClassPresence, RoleAgent)].

Definition SignerOf (c : string) : option SignerRole := signerOf !! c.

Section Signature.
Context `{S : SignatureScheme}.

Definition Sign (r : entropy) (k : SigningKey) (signedInput : bytes)
  : result protocol_error bytes :=
  let edSig := ed_Sign (sk_ed k) signedInput in
  match ml_Sign r (sk_ml k) signedInput SignatureContext with
  | None => Err Primitive
  | Some mlSig =>
      if negb (zlen edSig =? Ed25519SignatureBytes)
         || negb (zlen mlSig =? MLDSASignatureBytes)
      then Err (Refused SignatureInvalid)
      else Ok (edSig ++ mlSig)
  end.

Definition Verify (v : VerifyingKey) (signedInput signature : bytes)
  : result Refusal unit :=
  if negb (zlen signature =? SignatureBytes) then Err SignatureInvalid
  else
    let okEd := ed_Verify (vk_ed v) signedInput
                  (take (Z.to_nat Ed25519SignatureBytes) signature) in
    let okML := ml_Verify (vk_ml v) signedInput
                  (drop (Z.to_nat Ed25519SignatureBytes) signature) SignatureContext in
    if negb okEd || negb okML then Err SignatureInvalid else Ok tt.

(** [e.Signature = sig]. *)
Definition with_signature (sig : bytes) (e : Envelope) : Envelope :=
  {| Version_ := Version_ e; Class := Class e; JobID := JobID e;
     CorrelationID := CorrelationID e; Sender := Sender e; Timestamp := Timestamp e;
     Nonce := Nonce e; Payload := Payload e; Envelope.Signature := sig |}.

Definition SignEnvelope (r : entropy) (k : SigningKey) (e : Envelope)
  : result protocol_error Envelope :=
  if negb (Known (Class e)) then Err (Refused UnknownClass)
  else match Envelope_SignedInput e with
       | None => Err (Refused MalformedEnvelope)
       | Some input => sig ← Sign r k input; Ok (with_signature sig e)
       end.

Definition VerifyEnvelope (v : VerifyingKey) (e : Envelope) : result Refusal unit :=
  if negb (Known (Class e)) then Err UnknownClass
  else match Envelope_SignedInput e with
       | None => Err MalformedEnvelope
       | Some input => Verify v input (Envelope.Signature e)
       end.

(** ** Specification *)

(** Both halves of [sig] verify over [input]: the hybrid conjunction. *)
Definition both_verify (v : VerifyingKey) (input sig : bytes) : Prop :=
  exists ed ml, sig = ed ++ ml /\
    zlen ed = Ed25519SignatureBytes /\ zlen ml = MLDSASignatureBytes /\
    ed_Verify (vk_ed v) input ed = true /\
    ml_Verify (vk_ml v) input ml SignatureContext = true.

Lemma Verify_spec v input sig :
  Verify v input sig = Ok tt <-> both_verify v input sig.
Proof.
  unfold Verify, both_verify. split.
  - case_match eqn:Hl; [done|]. res_inv. bool_to_prop.
    case_match eqn:Hv; [done|]. res_inv. intros _.
    exists (take (Z.to_nat Ed25519SignatureBytes) sig), (drop (Z.to_nat Ed25519SignatureBytes) sig).
    rewrite take_drop. unfold SignatureBytes, Ed25519SignatureBytes, MLDSASignatureBytes in *.
    split; [done|]. split; [apply zlen_take; lia|]. split; [|done].
    unfold zlen in *. rewrite length_drop. lia.
  - intros (ed & ml & -> & He & Hm & Hed & Hml).
    rewrite zlen_app, He, Hm. change (_ =? SignatureBytes) with true. cbn [negb].
    by rewrite take_app_exact, drop_app_exact, Hed, Hml.
Qed.

Lemma Verify_err v input sig e : Verify v input sig = Err e -> e = SignatureInvalid.
Proof. unfold Verify. repeat case_match; naive_solver. Qed.

Lemma SignedInput_with_signature sig e :
  zlen sig < 2 ^ 32 -> zlen (Envelope.Signature e) < 2 ^ 32 ->
  Envelope_SignedInput (with_signature sig e) = Envelope_SignedInput e.
Proof.
  assert (Hsh : forall f, zlen f < 2 ^ 32 -> field_too_long f = false).
  { intros f Hf. apply field_too_long_false; [|done]. unfold go_slice, max_int64. lia. }
  intros Hs He. unfold Envelope_SignedInput.
  change (fieldValues e) with (take 8 (fieldValues e) ++ [Envelope.Signature e]).
  change (fieldValues (with_signature sig e)) with (take 8 (fieldValues e) ++ [sig]).
  apply SignedInput_field9; auto.
Qed.

Context `{L : !SignatureLaws S}.

Lemma Sign_outcome r k input :
  match Sign r k input with
  | Ok sig => zlen sig = SignatureBytes /\ both_verify (Verifying k) input sig
  | Err e => e = Primitive /\ ml_Sign r (sk_ml k) input SignatureContext = None
  end.
Proof.
  unfold Sign. destruct (ml_Sign _ _ _ _) as [ml|] eqn:E; [|done].
  pose proof (ml_Sign_size _ _ _ _ _ E) as Hm. pose proof (ed_Sign_size (sk_ed k) input) as He.
  rewrite He, Hm, !Z.eqb_refl. cbn [negb orb]. split; [rewrite zlen_app; unfold SignatureBytes; lia|].
  exists (ed_Sign (sk_ed k) input), ml. repeat split; [done..| |].
  - apply ed_Verify_Sign.
  - by eapply ml_Verify_Sign.
Qed.

(** ** The envelope operations *)

Lemma SignEnvelope_ok r k e e' :
  zlen (Envelope.Signature e) < 2 ^ 32 -> SignEnvelope r k e = Ok e' ->
  exists sig, e' = with_signature sig e /\ zlen sig = SignatureBytes /\
    VerifyEnvelope (Verifying k) e' = Ok tt.
Proof.
  intros Hs. unfold SignEnvelope, VerifyEnvelope.
  destruct (Known (Class e)) eqn:HK; cbn [negb]; [|done].
  destruct (Envelope_SignedInput e) as [input|] eqn:HI; [|done].
  pose proof (Sign_outcome r k input) as HS.
  destruct (Sign r k input) as [sig|]; [|done]. cbn [mbind result_bind].
  destruct HS as [Hz Hv]. intros [= <-]. exists sig. split; [done|]. split; [done|].
  cbn [with_signature Class]. rewrite HK. cbn [negb].
  rewrite SignedInput_with_signature; [|rewrite Hz; done | done].
  rewrite HI. by apply Verify_spec.
Qed.

Lemma SignEnvelope_total r k e :
  (forall m, is_Some (ml_Sign r (sk_ml k) m SignatureContext)) ->
  Known (Class e) = true -> Forall short (fieldValues e) ->
  exists e', SignEnvelope r k e = Ok e'.
Proof.
  intros Hml HK Hsh. unfold SignEnvelope. rewrite HK. cbn [negb].
  destruct (SignedInput_some e Hsh) as [input ->].
  pose proof (Sign_outcome r k input) as HS.
  destruct (Sign r k input) as [sig|]; [cbn; eauto|].
  destruct HS as [_ HS]. destruct (Hml input). congruence.
Qed.

(** Signing never changes what it signs, and what it returns verifies.  A
    signed envelope differs from its input in field 9 alone, which has the
    wire size and verifies under the signer's public half; the refusals are
    the unknown class, checked before anything cryptographic, and an envelope
    that cannot be framed; any other error is the primitive's own. *)
Theorem SignEnvelope_outcome r k e :
  zlen (Envelope.Signature e) < 2 ^ 32 ->
  match SignEnvelope r k e with
  | Ok e' => exists sig, e' = with_signature sig e /\ zlen sig = SignatureBytes /\
               VerifyEnvelope (Verifying k) e' = Ok tt
  | Err (Refused UnknownClass) => Known (Class e) = false
  | Err (Refused MalformedEnvelope) => Known (Class e) = true /\ Encode e = None
  | Err Primitive => exists input, Envelope_SignedInput e = Some input /\
               ml_Sign r (sk_ml k) input SignatureContext = None
  | Err _ => False
  end.
Proof.
  intros Hs. destruct (SignEnvelope r k e) as [e'|err] eqn:HE; [by apply (SignEnvelope_ok r)|].
  revert HE. unfold SignEnvelope.
  destruct (Known (Class e)) eqn:HK; cbn [negb]; [|by intros [= <-]].
  destruct (Envelope_SignedInput e) as [input|] eqn:HI.
  - pose proof (Sign_outcome r k input) as HS.
    destruct (Sign r k input) as [sig|]; cbn [mbind result_bind]; [done|].
    destruct HS as [-> HS]. intros [= <-]. eauto.
  - intros [= <-]. split; [done|].
    unfold Envelope_SignedInput, SignedInput, Encode in *.
    cbn [fieldValues length] in HI. rewrite bool_decide_eq_true_2 in HI by done. cbn [negb] in HI.
    by destruct (Frame _).
Qed.

(** C33. Verification is the conjunction of both halves over fields 1 to 8,
    and every cryptographic failure is the one code: an envelope of a known
    class that can be framed either carries two signatures that both verify,
    or is refused as [SignatureInvalid] whichever half, key or byte is wrong. *)
Theorem VerifyEnvelope_conjunction v e :
  match VerifyEnvelope v e with
  | Ok _ => exists input, Known (Class e) = true /\ Envelope_SignedInput e = Some input /\
               both_verify v input (Envelope.Signature e)
  | Err SignatureInvalid => exists input, Known (Class e) = true /\
               Envelope_SignedInput e = Some input /\
               ~ both_verify v input (Envelope.Signature e)
  | Err UnknownClass => Known (Class e) = false
  | Err MalformedEnvelope => Known (Class e) = true /\ Envelope_SignedInput e = None
  | Err _ => False
  end.
Proof.
  unfold VerifyEnvelope. destruct (Known (Class e)) eqn:HK; cbn [negb]; [|done].
  destruct (Envelope_SignedInput e) as [input|]; [|done].
  pose proof (Verify_spec v input (Envelope.Signature e)) as HV.
  destruct (Verify v input (Envelope.Signature e)) as [[]|err] eqn:HE.
  - exists input. naive_solver.
  - rewrite (Verify_err _ _ _ _ HE). exists input. naive_solver.
Qed.
End Signature.

(** ** Concrete inputs *)

Definition toy_signer : @SigningKey ToySignature :=
  {| sk_ed := x0a : @ed_priv ToySignature; sk_ml := x0b : @ml_priv ToySignature |}.

Lemma SignEnvelope_outcome_witness :
  exists e', SignEnvelope (x01 : @entropy ToySignature) toy_signer sample_envelope = Ok e' /\
    VerifyEnvelope (Verifying toy_signer) e' = Ok tt.
Proof.
  pose proof (SignEnvelope_outcome (L := ToySignatureLaws) (x01 : @entropy ToySignature) toy_signer
    sample_envelope eq_refl) as H.
  destruct (SignEnvelope _ _ _) as [e'|] eqn:E; [|discriminate E].
  destruct H as (sig & _ & _ & H). by exists e'.
Defined.
