(* ===== verification/Encryption.v ===== *)
(** * Hybrid payload encryption

    Models [internal/protocol/encryption.go]: X25519 and ML-KEM-768 shared
    secrets bound with the transcript by HKDF into a single-use AES-256-GCM
    key, over the encryption interface. *)
From S2P Require Import Prelude GoBytes GoTime Vocabulary Primitives Toy Framing Keys Envelope Signature.

Definition EncryptionContext : string := SignatureContext.
Definition gcmNonce : bytes := replicate 12 x00.

Section Encryption.
Context `{S : EncryptionScheme}.

Record DecryptionKey := { dk_x : x_priv; dk_ml : kem_priv }.
Record RecipientKey := { rk_x : x_pub; rk_ml : kem_pub }.

Definition GenerateDecryptionKey (r1 r2 : e_entropy) : option DecryptionKey :=
  x ← x_GenerateKey r1; ml ← kem_GenerateKey r2;
  Some {| dk_x := x; dk_ml := ml |}.

Definition Recipient (k : DecryptionKey) : RecipientKey :=
  {| rk_x := x_PublicKey (dk_x k); rk_ml := kem_EncapsulationKey (dk_ml k) |}.

Definition RecipientKey_Bytes (r : RecipientKey) : bytes :=
  x_PublicBytes (rk_x r) ++ kem_PublicBytes (rk_ml r).

Definition ParseRecipientKey (b : bytes) : result Refusal RecipientKey :=
  _ ← ensure (zlen b =? RecipientKeyBytes) DecryptionFailed;
  x ← of_option (x_NewPublicKey (take (Z.to_nat X25519PublicBytes) b)) DecryptionFailed;
  ml ← of_option (kem_NewEncapsulationKey (drop (Z.to_nat X25519PublicBytes) b)) DecryptionFailed;
  Ok {| rk_x := x; rk_ml := ml |}.

Definition derive (ss1 ss2 ephPub kemCT : bytes) : option bytes :=
  hkdf_Key (ss1 ++ ss2 ++ ephPub ++ kemCT) EncryptionContext 32.

Definition newAEAD (key : bytes) : option aead_key := aes_gcm key.

Definition Seal (r1 r2 : e_entropy) (r : RecipientKey) (plaintext : bytes)
  : result protocol_error bytes :=
  eph ← of_option (x_GenerateKey r1) Primitive;
  ss1 ← of_option (x_ECDH eph (rk_x r)) (Refused DecryptionFailed);
  let '(ss2, kemCT) := kem_Encapsulate r2 (rk_ml r) in
  key ← of_option (derive ss1 ss2 (x_PublicBytes (x_PublicKey eph)) kemCT) Primitive;
  aead ← of_option (newAEAD key) Primitive;
  Ok (x_PublicBytes (x_PublicKey eph) ++ kemCT ++ aead_Seal aead gcmNonce plaintext []).

Definition Open (k : DecryptionKey) (field8 : bytes) : result Refusal bytes :=
  _ ← ensure (negb (zlen field8 <? SealOverheadBytes)) DecryptionFailed;
  let ephBytes := take (Z.to_nat X25519PublicBytes) field8 in
  let kemCT := take (Z.to_nat MLKEMCiphertext) (drop (Z.to_nat X25519PublicBytes) field8) in
  let sealed := drop (Z.to_nat (X25519PublicBytes + MLKEMCiphertext)) field8 in
  eph ← of_option (x_NewPublicKey ephBytes) DecryptionFailed;
  ss1 ← of_option (x_ECDH (dk_x k) eph) DecryptionFailed;
  ss2 ← of_option (kem_Decapsulate (dk_ml k) kemCT) DecryptionFailed;
  key ← of_option (derive ss1 ss2 ephBytes kemCT) DecryptionFailed;
  aead ← of_option (newAEAD key) DecryptionFailed;
  of_option (aead_Open aead gcmNonce sealed []) DecryptionFailed.

(** [e.Payload = sealed]. *)
Definition with_payload (p : bytes) (e : Envelope) : Envelope :=
  {| Version_ := Version_ e; Class := Class e; JobID := JobID e;
     CorrelationID := CorrelationID e; Sender := Sender e; Timestamp := Timestamp e;
     Nonce := Nonce e; Payload := p; Envelope.Signature := Envelope.Signature e |}.

Definition no_correlation (e : Envelope) : bool := bool_decide (CorrelationID e = ""%string).

Definition SealEnvelope (r1 r2 : e_entropy) (r : RecipientKey) (e : Envelope)
  : result protocol_error Envelope :=
  _ ← ensure (Known (Class e)) (Refused UnknownClass);
  _ ← ensure (Encrypted (Class e)) (Refused MalformedEnvelope);
  _ ← ensure (no_correlation e) (Refused MalformedEnvelope);
  sealed ← Seal r1 r2 r (Payload e);
  Ok (with_payload sealed e).

Definition OpenEnvelope (k : DecryptionKey) (e : Envelope) : result Refusal bytes :=
  _ ← ensure (Known (Class e)) UnknownClass;
  _ ← ensure (Encrypted (Class e)) MalformedEnvelope;
  _ ← ensure (no_correlation e) MalformedEnvelope;
  Open k (Payload e).

Definition MarshalDecryptionKey (k : DecryptionKey) : bytes :=
  x_Bytes (dk_x k) ++ kem_Bytes (dk_ml k).

Definition ParseDecryptionKey (b : bytes) : result Refusal DecryptionKey :=
  _ ← ensure (negb (zlen b <=? X25519PublicBytes)) DecryptionFailed;
  x ← of_option (x_NewPrivateKey (take (Z.to_nat X25519PublicBytes) b)) DecryptionFailed;
  ml ← of_option (kem_NewDecapsulationKey (drop (Z.to_nat X25519PublicBytes) b)) DecryptionFailed;
  Ok {| dk_x := x; dk_ml := ml |}.

Context `{L : !EncryptionLaws S}.

(** ** Keys on the wire *)

Lemma ParseRecipientKey_iff b r :
  ParseRecipientKey b = Ok r <-> RecipientKey_Bytes r = b.
Proof.
  unfold ParseRecipientKey, RecipientKey_Bytes. split.
  - intros H. res_inv. bool_to_prop. cbn.
    rewrite (x_Public_canonical _ _ ltac:(eassumption)).
    rewrite (kem_Public_canonical _ _ ltac:(eassumption)). apply take_drop.
  - intros <-. rewrite zlen_app, x_PublicBytes_size, kem_PublicBytes_size.
    change (_ =? RecipientKeyBytes) with true. cbn [ensure mbind result_bind].
    rewrite take_app_exact, drop_app_exact by apply x_PublicBytes_size.
    rewrite x_PublicBytes_key, kem_PublicBytes_key. by destruct r.
Qed.

Lemma ParseRecipientKey_err b e : ParseRecipientKey b = Err e -> e = DecryptionFailed.
Proof.
  unfold ParseRecipientKey. intros H.
  repeat (apply bind_err_inv in H as [H|(? & ? & H)]; res_inv; try done).
Qed.

Lemma ParseDecryptionKey_Marshal k : ParseDecryptionKey (MarshalDecryptionKey k) = Ok k.
Proof.
  unfold ParseDecryptionKey, MarshalDecryptionKey.
  rewrite zlen_app, x_Bytes_size. pose proof (kem_Bytes_nonempty (dk_ml k)).
  destruct (Z.leb_spec (X25519PublicBytes + zlen (kem_Bytes (dk_ml k))) X25519PublicBytes); [lia|].
  cbn [ensure mbind result_bind negb].
  rewrite take_app_exact, drop_app_exact by apply x_Bytes_size.
  rewrite x_Bytes_key, kem_Bytes_key. by destruct k.
Qed.

(** ** Field 8 *)

(** What [Open] accepts: an ephemeral key, a KEM ciphertext and the AEAD
    output under the key their transcript derives. *)
Definition opens (k : DecryptionKey) (f8 p : bytes) : Prop :=
  exists eph ct ss1 ss2 key aead,
    zlen ct = MLKEMCiphertext /\
    f8 = x_PublicBytes eph ++ ct ++ aead_Seal aead gcmNonce p [] /\
    x_ECDH (dk_x k) eph = Some ss1 /\
    kem_Decapsulate (dk_ml k) ct = Some ss2 /\
    derive ss1 ss2 (x_PublicBytes eph) ct = Some key /\
    newAEAD key = Some aead.

Lemma split3 (f8 : bytes) :
  SealOverheadBytes <= zlen f8 ->
  exists a b c, f8 = a ++ b ++ c /\ zlen a = X25519PublicBytes /\ zlen b = MLKEMCiphertext.
Proof.
  unfold SealOverheadBytes, X25519PublicBytes, MLKEMCiphertext, AEADOverheadBytes. intros H.
  exists (take (Z.to_nat 32) f8), (take (Z.to_nat 1088) (drop (Z.to_nat 32) f8)),
    (drop (Z.to_nat 1088) (drop (Z.to_nat 32) f8)).
  rewrite !take_drop. split; [done|]. split; [apply zlen_take; lia|].
  apply zlen_take. unfold zlen in *. rewrite length_drop. lia.
Qed.

Lemma drop_app2_exact {A} (a b c : list A) n m :
  zlen a = n -> zlen b = m -> drop (Z.to_nat (n + m)) (a ++ b ++ c) = c.
Proof. intros Ha Hb. rewrite app_assoc. apply drop_app_exact. rewrite zlen_app. lia. Qed.

Lemma Open_iff k f8 p : Open k f8 = Ok p <-> opens k f8 p.
Proof.
  unfold Open, opens. split.
  - intros H. apply bind_ok_inv in H as (u & Hl & H).
    apply ensure_ok_inv, negb_true_iff, Z.ltb_ge in Hl. cbv zeta in H.
    destruct (split3 f8) as (a & b & c & -> & Ha & Hb); [done|].
    rewrite take_app_exact, (drop_app_exact X25519PublicBytes a), take_app_exact in H by done.
    rewrite drop_app2_exact in H by done. res_inv.
    match goal with HE : aead_Open _ _ _ _ = Some _ |- _ => apply aead_Open_only in HE as -> end.
    match goal with HP : x_NewPublicKey a = Some ?e |- _ =>
      pose proof (x_Public_canonical _ _ HP) as <- end.
    do 6 eexists; repeat split; eauto.
  - intros (eph & ct & ss1 & ss2 & key & aead & Hct & -> & H1 & H2 & H3 & H4).
    destruct (Z.ltb_spec (zlen (x_PublicBytes eph ++ ct ++ aead_Seal aead gcmNonce p [])) SealOverheadBytes) as [Hl|_].
    { exfalso. rewrite !zlen_app, x_PublicBytes_size, Hct, aead_Seal_size in Hl.
      pose proof (zlen_nonneg p). unfold SealOverheadBytes in Hl. lia. }
    cbn [negb ensure mbind result_bind].
    rewrite take_app_exact, (drop_app_exact X25519PublicBytes), take_app_exact
      by (apply x_PublicBytes_size || done).
    rewrite drop_app2_exact by (apply x_PublicBytes_size || done).
    rewrite x_PublicBytes_key. cbn [of_option mbind result_bind].
    rewrite H1; cbn [of_option mbind result_bind]. rewrite H2; cbn [of_option mbind result_bind].
    rewrite H3; cbn [of_option mbind result_bind]. rewrite H4; cbn [of_option mbind result_bind].
    by rewrite aead_Open_Seal.
Qed.

Lemma Open_err k f8 e : Open k f8 = Err e -> e = DecryptionFailed.
Proof.
  unfold Open. intros H.
  repeat (apply bind_err_inv in H as [H|(? & ? & H)]; res_inv; try done).
Qed.

Lemma Seal_ok r1 r2 r p c :
  Seal r1 r2 r p = Ok c ->
  zlen c = SealOverheadBytes + zlen p /\
  exists eph ss1 key aead,
    x_GenerateKey r1 = Some eph /\ x_ECDH eph (rk_x r) = Some ss1 /\
    derive ss1 (kem_Encapsulate r2 (rk_ml r)).1 (x_PublicBytes (x_PublicKey eph))
      (kem_Encapsulate r2 (rk_ml r)).2 = Some key /\
    newAEAD key = Some aead /\
    c = x_PublicBytes (x_PublicKey eph) ++ (kem_Encapsulate r2 (rk_ml r)).2
          ++ aead_Seal aead gcmNonce p [].
Proof.
  unfold Seal. pose proof (kem_Ciphertext_size r2 (rk_ml r)) as Hct.
  destruct (kem_Encapsulate r2 (rk_ml r)) as [ss2 ct]; cbn [fst snd] in *.
  intros H. res_inv. split.
  - rewrite !zlen_app, x_PublicBytes_size, aead_Seal_size, Hct. unfold SealOverheadBytes. lia.
  - do 4 eexists; repeat split; eauto.
Qed.

Lemma sealed_opens r1 r2 k p c :
  Seal r1 r2 (Recipient k) p = Ok c ->
  zlen c = SealOverheadBytes + zlen p /\ Open k c = Ok p.
Proof.
  intros H. apply Seal_ok in H as (Hz & eph & ss1 & key & aead & H1 & H2 & H3 & H4 & ->).
  split; [done|]. cbn [Recipient rk_x rk_ml] in *.
  apply Open_iff. exists (x_PublicKey eph).
  do 5 eexists; split; [apply kem_Ciphertext_size|]. split; [done|].
  split; [by rewrite x_ECDH_agree|]. split; [apply kem_agree|]. split; eauto.
Qed.

(** C34. A sealed payload opens for its recipient and for what it is: whatever
    the randomness, [Seal] to the public half of [k] yields the plaintext's
    length plus the fixed overhead, and [Open] with [k] returns exactly the
    plaintext.  Conversely everything [Open] accepts has that shape, so an
    accepted payload has one plaintext and no slack bytes. *)
Theorem Open_inverts_Seal r1 r2 k p c :
  Seal r1 r2 (Recipient k) p = Ok c ->
  zlen c = SealOverheadBytes + zlen p /\ Open k c = Ok p /\
  (forall f8 q, Open k f8 = Ok q -> zlen f8 = SealOverheadBytes + zlen q).
Proof.
  intros H. destruct (sealed_opens _ _ _ _ _ H). repeat split; [done..|].
  intros f8 q (eph & ct & ? & ? & ? & aead & Hct & -> & _)%Open_iff.
  rewrite !zlen_app, x_PublicBytes_size, aead_Seal_size, Hct. unfold SealOverheadBytes. lia.
Qed.

Lemma Seal_total r1 r2 r p :
  is_Some (x_GenerateKey r1) -> (forall a b, is_Some (x_ECDH a b)) ->
  (forall t i, is_Some (hkdf_Key t i 32)) -> (forall k, is_Some (aes_gcm k)) ->
  exists c, Seal r1 r2 r p = Ok c.
Proof.
  intros [eph He] Hx Hh Ha. unfold Seal. rewrite He. cbn [of_option mbind result_bind].
  destruct (Hx eph (rk_x r)) as [ss1 ->]. cbn [of_option mbind result_bind].
  destruct (kem_Encapsulate r2 (rk_ml r)) as [ss2 ct]. unfold derive, newAEAD.
  destruct (Hh (ss1 ++ ss2 ++ x_PublicBytes (x_PublicKey eph) ++ ct) EncryptionContext) as [key ->].
  cbn [of_option mbind result_bind]. destruct (Ha key) as [aead ->]. cbn. eauto.
Qed.

(** The sealing rules on both boundaries: an envelope is sealed and opened
    only if its class is one of the seven, is encrypted and carries no
    cleartext correlation identifier, with the same refusals in the same
    order on both sides; sealing changes field 8 alone; and past the guards
    [DecryptionFailed] is the only refusal opening has. *)
Theorem SealEnvelope_guards r1 r2 k e :
  let guard := if negb (Known (Class e)) then Some UnknownClass
               else if negb (Encrypted (Class e)) then Some MalformedEnvelope
               else if negb (no_correlation e) then Some MalformedEnvelope else None in
  match guard with
  | Some rf => SealEnvelope r1 r2 (Recipient k) e = Err (Refused rf) /\ OpenEnvelope k e = Err rf
  | None =>
      (forall e', SealEnvelope r1 r2 (Recipient k) e = Ok e' ->
         (exists c, e' = with_payload c e) /\ OpenEnvelope k e' = Ok (Payload e)) /\
      (forall rf, OpenEnvelope k e = Err rf -> rf = DecryptionFailed)
  end.
Proof.
  cbv zeta. unfold SealEnvelope, OpenEnvelope, ensure.
  destruct (Known (Class e)) eqn:HK; [|done].
  destruct (Encrypted (Class e)) eqn:HE; [|done].
  destruct (no_correlation e) eqn:HC; [|done].
  cbn [negb mbind result_bind]. split; [|intros rf; apply Open_err].
  intros e' H. apply bind_ok_inv in H as (c & HS & [= <-]).
  split; [eauto|]. cbn [with_payload Class Payload]. rewrite HK, HE.
  change (no_correlation (with_payload c e)) with (no_correlation e). rewrite HC.
  by apply (sealed_opens _ _ _ _ _ HS).
Qed.
End Encryption.

(** ** Concrete inputs *)

Definition toy_key : @DecryptionKey ToyEncryption :=
  {| dk_x := x05 : @x_priv ToyEncryption; dk_ml := x06 : @kem_priv ToyEncryption |}.

Definition seal_toy (p : bytes) : result protocol_error bytes :=
  Seal (S := ToyEncryption) x01 x02 (Recipient toy_key) p.

Lemma Open_inverts_Seal_witness :
  exists c, seal_toy (to_bytes "argv") = Ok c /\ zlen c = 1140 /\
    Open toy_key c = Ok (to_bytes "argv").
Proof.
  eexists. split; [reflexivity|].
  destruct (Open_inverts_Seal (L := ToyEncryptionLaws) x01 x02 toy_key (to_bytes "argv") _ eq_refl)
    as (Hz & Ho & _).
  split; [exact Hz | exact Ho].
Defined.

Definition sample_command : Envelope := {|
  Version_ := 1; Class := ClassCommand; JobID := "job-1"; CorrelationID := "";
  Sender := "command-publisher"; Timestamp := 0; Nonce := []; Payload := to_bytes "argv";
  Envelope.Signature := [] |}.

Lemma SealEnvelope_guards_witness :
  exists e', SealEnvelope (S := ToyEncryption) x01 x02 (Recipient toy_key) sample_command = Ok e' /\
    OpenEnvelope toy_key e' = Ok (to_bytes "argv").
Proof.
  eexists. split; [reflexivity|].
  apply (SealEnvelope_guards (S := ToyEncryption) (L := ToyEncryptionLaws) x01 x02 toy_key sample_command).
  reflexivity.
Defined.
