(* ===== verification/Headers.v ===== *)
(** * Message headers

    Models [internal/protocol/headers.go]: the routing headers of an envelope
    and the receiver's agreement rule, unknown headers tolerated. *)
From S2P Require Import Prelude GoBytes GoTime GoText Vocabulary Envelope.

Definition HeaderMsgID : string := "Nats-Msg-Id".
Definition HeaderVersion : string := "Keystone-Version".
Definition HeaderClass : string := "Keystone-Class".
Definition HeaderJobID : string := "Keystone-Job-Id".

Definition carries_job (class : string) : bool :=
  bool_decide (class ∈ [ClassCommand; ClassCancellation; ClassResult]).

Definition Headers (e : Envelope) (msgID : string) : gmap string string :=
  let h : gmap string string :=
    {[ HeaderVersion := FormatUint (uint64 (Version_ e)); HeaderClass := Class e ]} in
  if carries_job (Class e) then
    let h := <[HeaderJobID := JobID e]> h in
    if negb (bool_decide (msgID = ""%string)) then <[HeaderMsgID := msgID]> h else h
  else h.

Definition CheckHeaders (e : Envelope) (h : gmap string string) : result Refusal unit :=
  _ ← match h !! HeaderVersion with
      | Some v =>
          match ParseUint v 32 with
          | Some n => ensure (uint32 n =? Version_ e) MalformedEnvelope
          | None => Err MalformedEnvelope
          end
      | None => Ok tt
      end;
  _ ← match h !! HeaderClass with
      | Some c => ensure (HeaderAgrees e c) MalformedEnvelope
      | None => Ok tt
      end;
  match h !! HeaderJobID with
  | Some j => ensure (bool_decide (j = JobID e)) MalformedEnvelope
  | None => Ok tt
  end.

(** ** The rule, declaratively *)

(** Every header the receiver knows says what the signed field says. *)
Definition headers_agree (e : Envelope) (h : gmap string string) : Prop :=
  (forall v, h !! HeaderVersion = Some v -> ParseUint v 32 = Some (Version_ e)) /\
  (forall c, h !! HeaderClass = Some c -> c = Class e) /\
  (forall j, h !! HeaderJobID = Some j -> j = JobID e).

Lemma CheckHeaders_iff e h : CheckHeaders e h = Ok tt <-> headers_agree e h.
Proof.
  unfold CheckHeaders, headers_agree, HeaderAgrees.
  assert (HV : forall v n, ParseUint v 32 = Some n -> uint32 n = n).
  { intros v n H. apply ParseUint_range in H. by apply uint32_small. }
  destruct (h !! HeaderVersion) as [v|]; [destruct (ParseUint v 32) as [n|] eqn:E|];
    cbn [mbind result_bind]; [|naive_solver|].
  - rewrite (HV _ _ E). unfold ensure.
    destruct (Z.eqb_spec n (Version_ e)) as [->|]; cbn [mbind result_bind]; [|naive_solver].
    destruct (h !! HeaderClass); [case_bool_decide; cbn [mbind result_bind]; [|naive_solver]|];
      (destruct (h !! HeaderJobID); [case_bool_decide|]; naive_solver).
  - unfold ensure.
    destruct (h !! HeaderClass); [case_bool_decide; cbn [mbind result_bind]; [|naive_solver]|];
      (destruct (h !! HeaderJobID); [case_bool_decide|]; naive_solver).
Qed.

Lemma CheckHeaders_err e h r : CheckHeaders e h = Err r -> r = MalformedEnvelope.
Proof.
  unfold CheckHeaders. intros H.
  repeat (apply bind_err_inv in H as [H|(? & ? & H)]; repeat (case_hyp H); res_inv; try done);
    repeat (case_hyp H); res_inv; done.
Qed.

Lemma Headers_lookup e msgID k :
  Headers e msgID !! k =
  if decide (k = HeaderVersion) then Some (FormatUint (uint64 (Version_ e)))
  else if decide (k = HeaderClass) then Some (Class e)
  else if carries_job (Class e) then
    if decide (k = HeaderJobID) then Some (JobID e)
    else if decide (k = HeaderMsgID /\ msgID <> ""%string) then Some msgID else None
  else None.
Proof.
  unfold Headers.
  repeat case_decide; try destruct_and?; subst; destruct (carries_job _); simplify_map_eq;
    try case_bool_decide; simplify_map_eq; try done;
    destruct (decide (k = HeaderMsgID)); subst; simplify_map_eq; naive_solver.
Qed.

Lemma Headers_agree e msgID h :
  0 <= Version_ e < 2 ^ 32 ->
  (forall k v, h !! k = Some v -> k ∈ [HeaderVersion; HeaderClass; HeaderJobID] ->
     Headers e msgID !! k = Some v) ->
  headers_agree e h.
Proof.
  intros Hv Hsub.
  split; [|split]; intros v H; (apply Hsub in H; [|set_solver]); rewrite Headers_lookup in H.
  - rewrite decide_True in H by done. injection H as <-.
    rewrite uint64_small by lia. apply ParseUint_FormatUint; lia.
  - rewrite decide_False, decide_True in H by done. by injection H as <-.
  - rewrite decide_False, decide_False in H by done.
    destruct (carries_job _); [|done]. rewrite decide_True in H by done. by injection H as <-.
Qed.

(** Headers and the signed fields can never disagree for a receiver: the
    check accepts exactly the header sets whose known headers repeat the signed
    version, class and job, refusing any other as [MalformedEnvelope]; it
    accepts what [Headers] produces for the envelope, whatever unknown headers
    are added or headers dropped on the way. *)
Theorem CheckHeaders_agreement e h :
  0 <= Version_ e < 2 ^ 32 ->
  match CheckHeaders e h with
  | Ok _ => headers_agree e h
  | Err r => r = MalformedEnvelope /\ ~ headers_agree e h
  end /\
  (forall msgID, (forall k v, h !! k = Some v -> k ∈ [HeaderVersion; HeaderClass; HeaderJobID] ->
                   Headers e msgID !! k = Some v) -> CheckHeaders e h = Ok tt).
Proof.
  intros Hv. pose proof (CheckHeaders_iff e h) as Hiff. split.
  - destruct (CheckHeaders e h) as [[]|r] eqn:E; [by apply Hiff|].
    split; [by eapply CheckHeaders_err | naive_solver].
  - intros msgID Hsub. by apply Hiff, (Headers_agree e msgID).
Qed.

(** A receiver tolerates a header it does not know and refuses another class. *)
Lemma CheckHeaders_agreement_witness :
  CheckHeaders sample_envelope {[ HeaderClass := ClassPresence; "X-Other"%string := "?"%string ]} = Ok tt /\
  ~ headers_agree sample_envelope {[ HeaderClass := ClassResult ]}.
Proof.
  split; [reflexivity|].
  destruct (CheckHeaders_agreement sample_envelope {[ HeaderClass := ClassResult ]}) as [H _]; [done|].
  apply H.
Defined.
