(* ===== verification/Json.v ===== *)
(** * JSON as [encoding/json] reads and writes it

    The scanner's grammar, string unquoting with UTF-8 repair and surrogate
    pairs, the encoder's HTML-safe escapes in compact and indented form, and
    decoding an object into a struct by field name.  Shared by every component
    that puts JSON on a wire or in a file. *)
From S2P Require Import Prelude GoBytes GoText Vocabulary.

Inductive json :=
  | JNull
  | JBool (b : bool)
  | JNum (raw : bytes)
  | JStr (s : bytes)
  | JArr (vs : list json)
  | JObj (ms : list (bytes * json)).

(** ** UTF-8 *)

Definition in_range (lo hi : Z) (c : byte) : bool := (lo <=? byte_val c) && (byte_val c <=? hi).
Definition is_cont : byte -> bool := in_range 128 191.

(** Width of the first rune: [Some n] when the next [n] bytes encode one. *)
Definition rune_width (s : bytes) : option nat :=
  match s with
  | [] => None
  | c0 :: s1 =>
      if byte_val c0 <? 128 then Some 1%nat else
      match s1 with
      | [] => None
      | c1 :: s2 =>
          if in_range 194 223 c0 then if is_cont c1 then Some 2%nat else None else
          match s2 with
          | [] => None
          | c2 :: s3 =>
              let lo3 := if byte_val c0 =? 224 then 160 else 128 in
              let hi3 := if byte_val c0 =? 237 then 159 else 191 in
              if in_range 224 239 c0 then
                if in_range lo3 hi3 c1 && is_cont c2 then Some 3%nat else None
              else
              match s3 with
              | [] => None
              | c3 :: _ =>
                  let lo4 := if byte_val c0 =? 240 then 144 else 128 in
                  let hi4 := if byte_val c0 =? 244 then 143 else 191 in
                  if in_range 240 244 c0 && in_range lo4 hi4 c1 && is_cont c2 && is_cont c3
                  then Some 4%nat else None
              end
          end
      end
  end.

Definition rune_error : bytes := [xef; xbf; xbd].

Definition encode_rune (r : Z) : bytes :=
  if r <? 128 then [byte_of r]
  else if r <? 2048 then [byte_of (192 + r / 64); byte_of (128 + r mod 64)]
  else if r <? 65536 then
    [byte_of (224 + r / 4096); byte_of (128 + r / 64 mod 64); byte_of (128 + r mod 64)]
  else [byte_of (240 + r / 262144); byte_of (128 + r / 4096 mod 64);
        byte_of (128 + r / 64 mod 64); byte_of (128 + r mod 64)].

Definition is_surrogate (r : Z) : bool := (55296 <=? r) && (r <? 57344).
(** [utf16.DecodeRune]. *)
Definition surrogate_pair (r1 r2 : Z) : option Z :=
  if (55296 <=? r1) && (r1 <? 56320) && (56320 <=? r2) && (r2 <? 57344)
  then Some ((r1 - 55296) * 1024 + (r2 - 56320) + 65536) else None.

(** ** Scanning *)

Definition is_ws (c : byte) : bool := bool_decide (c ∈ [x20; x09; x0d; x0a]).

Fixpoint skip_ws (s : bytes) : bytes :=
  match s with
  | c :: s' => if is_ws c then skip_ws s' else s
  | [] => []
  end.

(** The next byte, when it is [c]. *)
Definition expect (c : byte) (s : bytes) : option bytes :=
  match s with
  | d :: s' => if bool_decide (d = c) then Some s' else None
  | [] => None
  end.

Definition hex4 (s : bytes) : option (Z * bytes) :=
  match s with
  | a :: b :: c :: d :: r =>
      va ← hex_val a; vb ← hex_val b; vc ← hex_val c; vd ← hex_val d;
      Some (va * 4096 + vb * 256 + vc * 16 + vd, r)
  | _ => None
  end.

(** The one-letter escapes. *)
Definition short_escape (c : byte) : option byte :=
  if bool_decide (c = x22) then Some x22
  else if bool_decide (c = x5c) then Some x5c
  else if bool_decide (c = x2f) then Some x2f
  else if bool_decide (c = x62) then Some x08
  else if bool_decide (c = x66) then Some x0c
  else if bool_decide (c = x6e) then Some x0a
  else if bool_decide (c = x72) then Some x0d
  else if bool_decide (c = x74) then Some x09
  else None.

(** A string after its opening quote: the unquoted bytes and the rest.  Each
    turn consumes a byte, so the input's length is fuel enough. *)
Fixpoint scan_string (fuel : nat) (s : bytes) : option (bytes * bytes) :=
  match fuel with
  | O => None
  | S fuel' =>
      match s with
      | [] => None
      | c :: s' =>
          if bool_decide (c = x22) then Some ([], s')
          else if bool_decide (c = x5c) then
            match s' with
            | [] => None
            | e :: s'' =>
                if bool_decide (e = x75) then
                  '(r, s3) ← hex4 s'';
                  if is_surrogate r then
                    match expect x5c s3 ≫= expect x75 with
                    | Some s4 =>
                        match hex4 s4 with
                        | Some (r2, s5) =>
                            match surrogate_pair r r2 with
                            | Some rr =>
                                '(t, rest) ← scan_string fuel' s5; Some (encode_rune rr ++ t, rest)
                            | None => '(t, rest) ← scan_string fuel' s3; Some (rune_error ++ t, rest)
                            end
                        | None => None
                        end
                    | None => '(t, rest) ← scan_string fuel' s3; Some (rune_error ++ t, rest)
                    end
                  else '(t, rest) ← scan_string fuel' s3; Some (encode_rune r ++ t, rest)
                else
                  d ← short_escape e;
                  '(t, rest) ← scan_string fuel' s''; Some (d :: t, rest)
            end
          else if byte_val c <? 32 then None
          else
            match rune_width s with
            | Some n =>
                '(t, rest) ← scan_string fuel' (drop n s); Some (take n s ++ t, rest)
            | None => '(t, rest) ← scan_string fuel' s'; Some (rune_error ++ t, rest)
            end
      end
  end.

Fixpoint span_digits (s : bytes) : bytes * bytes :=
  match s with
  | c :: s' => if is_digit c then let '(d, r) := span_digits s' in (c :: d, r) else ([], s)
  | [] => ([], [])
  end.

(** The number grammar, longest match: a sign, a zero or digits, a fraction, an
    exponent. *)
Definition digits1 (s : bytes) : option (bytes * bytes) :=
  match span_digits s with
  | ([], _) => None
  | (d, r) => Some (d, r)
  end.

Definition optional (cs : bytes) (s : bytes) : bytes * bytes :=
  match s with
  | c :: s' => if bool_decide (c ∈ cs) then ([c], s') else ([], s)
  | [] => ([], [])
  end.

Definition scan_int (s : bytes) : option (bytes * bytes) :=
  match expect x30 s with
  | Some s' => Some ([x30], s')
  | None => digits1 s
  end.

Definition scan_frac (s : bytes) : option (bytes * bytes) :=
  match optional [x2e] s with
  | ([], _) => Some ([], s)
  | (dot, s') => '(d, r) ← digits1 s'; Some (dot ++ d, r)
  end.

Definition scan_exp (s : bytes) : option (bytes * bytes) :=
  match optional [x65; x45] s with
  | ([], _) => Some ([], s)
  | (e, s') =>
      let '(sg, s'') := optional [x2b; x2d] s' in
      '(d, r) ← digits1 s''; Some (e ++ sg ++ d, r)
  end.

Definition scan_number (s : bytes) : option (bytes * bytes) :=
  let '(sign, s) := optional [x2d] s in
  '(i, s) ← scan_int s;
  '(f, s) ← scan_frac s;
  '(e, s) ← scan_exp s;
  Some (sign ++ i ++ f ++ e, s).

Definition scan_lit (lit : bytes) (v : json) (s : bytes) : option (json * bytes) :=
  if prefix_of lit s then Some (v, drop (length lit) s) else None.

Definition maxNestingDepth : Z := 10000.

(** One value, one array after its bracket, one object after its brace.  The
    fuel is twice the input's length; [depth] counts the enclosing brackets. *)
Fixpoint scan_value (fuel : nat) (depth : Z) (s : bytes) : option (json * bytes) :=
  match fuel with
  | O => None
  | S fuel' =>
      match skip_ws s with
      | [] => None
      | c :: s' =>
          if bool_decide (c = x22) then
            '(t, r) ← scan_string (S (length s')) s'; Some (JStr t, r)
          else if bool_decide (c = x7b) then
            if maxNestingDepth <=? depth then None
            else match expect x7d (skip_ws s') with
                 | Some r => Some (JObj [], r)
                 | None => '(ms, r) ← scan_members fuel' (depth + 1) s'; Some (JObj ms, r)
                 end
          else if bool_decide (c = x5b) then
            if maxNestingDepth <=? depth then None
            else match expect x5d (skip_ws s') with
                 | Some r => Some (JArr [], r)
                 | None => '(vs, r) ← scan_elems fuel' (depth + 1) s'; Some (JArr vs, r)
                 end
          else if bool_decide (c = x6e) then scan_lit (to_bytes "null") JNull (c :: s')
          else if bool_decide (c = x74) then scan_lit (to_bytes "true") (JBool true) (c :: s')
          else if bool_decide (c = x66) then scan_lit (to_bytes "false") (JBool false) (c :: s')
          else '(raw, r) ← scan_number (c :: s'); Some (JNum raw, r)
      end
  end
with scan_elems (fuel : nat) (depth : Z) (s : bytes) : option (list json * bytes) :=
  match fuel with
  | O => None
  | S fuel' =>
      '(v, r) ← scan_value fuel' depth s;
      match expect x2c (skip_ws r) with
      | Some r' => '(vs, r'') ← scan_elems fuel' depth r'; Some (v :: vs, r'')
      | None => r' ← expect x5d (skip_ws r); Some ([v], r')
      end
  end
with scan_members (fuel : nat) (depth : Z) (s : bytes) : option (list (bytes * json) * bytes) :=
  match fuel with
  | O => None
  | S fuel' =>
      s' ← expect x22 (skip_ws s);
      '(k, r) ← scan_string (S (length s')) s';
      r' ← expect x3a (skip_ws r);
      '(v, r'') ← scan_value fuel' depth r';
      match expect x2c (skip_ws r'') with
      | Some t => '(ms, t') ← scan_members fuel' depth t; Some ((k, v) :: ms, t')
      | None => t ← expect x7d (skip_ws r''); Some ([(k, v)], t)
      end
  end.

(** [json.NewDecoder(r).Decode]: one value and what follows it. *)
Definition json_Decode (b : bytes) : option (json * bytes) := scan_value (2 * length b + 2) 0 b.

(** [json.Unmarshal]: one value and nothing after it but white space. *)
Definition json_Unmarshal (b : bytes) : option json :=
  '(v, r) ← json_Decode b;
  match skip_ws r with [] => Some v | _ => None end.

(** [Decoder.More] after a top-level value. *)
Definition json_More (rest : bytes) : bool :=
  match skip_ws rest with
  | [] => false
  | c :: _ => negb (bool_decide (c = x5d)) && negb (bool_decide (c = x7d))
  end.

(** ** Writing *)

Definition html_safe (c : byte) : bool :=
  (32 <=? byte_val c) && (byte_val c <? 128) && negb (bool_decide (c ∈ [x22; x5c; x3c; x3e; x26])).

Definition escape_ascii (c : byte) : bytes :=
  if html_safe c then [c]
  else if bool_decide (c = x22) then [x5c; x22]
  else if bool_decide (c = x5c) then [x5c; x5c]
  else if bool_decide (c = x08) then [x5c; x62]
  else if bool_decide (c = x0c) then [x5c; x66]
  else if bool_decide (c = x0a) then [x5c; x6e]
  else if bool_decide (c = x0d) then [x5c; x72]
  else if bool_decide (c = x09) then [x5c; x74]
  else [x5c; x75; x30; x30; hex_digit (byte_val c / 16); hex_digit (byte_val c mod 16)].

Fixpoint escape_string (fuel : nat) (s : bytes) : bytes :=
  match fuel, s with
  | _, [] => []
  | O, _ => []
  | S fuel', c :: s' =>
      if byte_val c <? 128 then escape_ascii c ++ escape_string fuel' s'
      else match rune_width s with
           | Some n =>
               let r := take n s in
               (if bool_decide (r = [xe2; x80; xa8]) then to_bytes "\u2028"
                else if bool_decide (r = [xe2; x80; xa9]) then to_bytes "\u2029" else r)
                 ++ escape_string fuel' (drop n s)
           | None => to_bytes "\ufffd" ++ escape_string fuel' s'
           end
  end.

Definition quote (s : bytes) : bytes := x22 :: escape_string (length s) s ++ [x22].

(** The layout between tokens: what starts a line at a depth, and what follows
    a member's colon. *)
Record layout := { line : nat -> bytes; gap : bytes }.
Definition compact : layout := {| line := fun _ => []; gap := [] |}.
Definition indented : layout :=
  {| line := fun d => x0a :: replicate (2 * d) x20; gap := [x20] |}.

Fixpoint print (l : layout) (d : nat) (v : json) : bytes :=
  match v with
  | JNull => to_bytes "null"
  | JBool true => to_bytes "true"
  | JBool false => to_bytes "false"
  | JNum raw => raw
  | JStr s => quote s
  | JArr [] => [x5b; x5d]
  | JArr (v :: vs) =>
      x5b :: line l (S d) ++ print l (S d) v
        ++ concat (map (fun w => x2c :: line l (S d) ++ print l (S d) w) vs)
        ++ line l d ++ [x5d]
  | JObj [] => [x7b; x7d]
  | JObj ((k, v) :: ms) =>
      x7b :: line l (S d) ++ quote k ++ x3a :: gap l ++ print l (S d) v
        ++ concat (map (fun m => x2c :: line l (S d) ++ quote m.1 ++ x3a :: gap l
                                     ++ print l (S d) m.2) ms)
        ++ line l d ++ [x7d]
  end.

(** [json.Marshal], and [Encoder.Encode] after [SetIndent("", "  ")]. *)
Definition json_Marshal (v : json) : bytes := print compact 0 v.
Definition json_Encode_indented (v : json) : bytes := print indented 0 v ++ [x0a].

(** ** Decoding into a struct *)

(** The folding under which a member's name matches a field's: ASCII case, and
    the two non-ASCII letters that fold to ASCII ones. *)
Fixpoint fold_name (fuel : nat) (s : bytes) : bytes :=
  match fuel, s with
  | S fuel', c :: s' =>
      if prefix_of [xc5; xbf] s then x53 :: fold_name fuel' (drop 2 s)
      else if prefix_of [xe2; x84; xaa] s then x4b :: fold_name fuel' (drop 3 s)
      else (if in_range 97 122 c then byte_of (byte_val c - 32) else c) :: fold_name fuel' s'
  | _, _ => []
  end.
Definition folded (s : bytes) : bytes := fold_name (length s) s.

(** A struct's fields, each the setter its JSON type allows: [None] is an
    [UnmarshalTypeError], which every caller treats as a failed decode. *)
Definition setter (T : Type) : Type := json -> T -> option T.
Definition struct_fields (T : Type) : Type := list (string * setter T).

Definition find_field {T} (fs : struct_fields T) (k : bytes) : option (setter T) :=
  match filter (fun f => to_bytes f.1 = k) fs with
  | f :: _ => Some f.2
  | [] =>
      match filter (fun f => folded (to_bytes f.1) = folded k) fs with
      | f :: _ => Some f.2
      | [] => None
      end
  end.

Fixpoint set_members {T} (strict : bool) (fs : struct_fields T) (ms : list (bytes * json)) (t : T)
  : option T :=
  match ms with
  | [] => Some t
  | (k, v) :: ms' =>
      match find_field fs k with
      | Some set => t' ← set v t; set_members strict fs ms' t'
      | None => if strict then None else set_members strict fs ms' t
      end
  end.

Definition decode_struct {T} (strict : bool) (fs : struct_fields T) (v : json) (zero : T) : option T :=
  match v with
  | JNull => Some zero
  | JObj ms => set_members strict fs ms zero
  | _ => None
  end.

(** Fields of type [string] and [int]: [null] leaves them alone. *)
Definition set_string {T} (upd : string -> T -> T) : setter T := fun v t =>
  match v with
  | JNull => Some t
  | JStr s => Some (upd (of_bytes s) t)
  | _ => None
  end.
Definition set_int {T} (upd : Z -> T -> T) : setter T := fun v t =>
  match v with
  | JNull => Some t
  | JNum raw => n ← ParseInt64 (of_bytes raw); Some (upd n t)
  | _ => None
  end.

(** A slice of structs; decoded over an earlier one it reuses its elements. *)
Fixpoint decode_each {T} (fs : struct_fields T) (zero : T) (vs : list json) (old : list T) : option (list T) :=
  match vs with
  | [] => Some []
  | v :: vs => t ← decode_struct false fs v (hd zero old); ts ← decode_each fs zero vs (tl old); Some (t :: ts)
  end.
Definition set_slice {T U} (fs : struct_fields U) (zero : U) (get : T -> list U) (upd : list U -> T -> T) : setter T := fun v t =>
  match v with
  | JNull => Some (upd [] t)
  | JArr vs => us ← decode_each fs zero vs (get t); Some (upd us t)
  | _ => None
  end.

Definition jstring (s : string) : json := JStr (to_bytes s).
Definition jint (n : Z) : json :=
  JNum (if n <? 0 then x2d :: to_bytes (FormatUint (- n)) else to_bytes (FormatUint n)).
Definition member (k : string) (v : json) : list (bytes * json) := [(to_bytes k, v)].
(** [json:"k,omitempty"] on a string. *)
Definition member_omitempty (k v : string) : list (bytes * json) :=
  if bool_decide (v = ""%string) then [] else member k (jstring v).

(** ** Reading back what was written *)

Definition ascii (s : bytes) : Prop := Forall (fun c => byte_val c < 128) s.
#[export] Instance ascii_dec s : Decision (ascii s).
Proof. unfold ascii. apply _. Defined.

Definition white (w : bytes) : Prop := Forall (fun c => is_ws c = true) w.

Record layout_ok (l : layout) : Prop := {
  line_white d : white (line l d);
  gap_white : white (gap l);
}.

Lemma compact_ok : layout_ok compact.
Proof. split; intros; constructor. Qed.
Lemma indented_ok : layout_ok indented.
Proof.
  split; intros; repeat constructor.
  apply Forall_replicate. reflexivity.
Qed.

Lemma skip_ws_app w s : white w -> skip_ws (w ++ s) = skip_ws s.
Proof. induction 1 as [|c w Hc Hw IH]; [done|]. cbn [app skip_ws]. by rewrite Hc. Qed.

Lemma skip_ws_head w c s : white w -> is_ws c = false -> skip_ws (w ++ c :: s) = c :: s.
Proof. intros Hw Hc. rewrite skip_ws_app by done. cbn [skip_ws]. by rewrite Hc. Qed.

Lemma scan_escape1 fuel c t :
  byte_val c < 128 ->
  scan_string (S fuel) (escape_ascii c ++ t) =
  '(r, rest) ← scan_string fuel t; Some (c :: r, rest).
Proof. destruct c; intros H; vm_compute in H; try discriminate H; reflexivity. Qed.

Lemma escape_length1 c : (1 <= length (escape_ascii c))%nat.
Proof. unfold escape_ascii. repeat case_match; cbn; lia. Qed.

Lemma escape_length n s : ascii s -> (length s <= n)%nat -> (length s <= length (escape_string n s))%nat.
Proof.
  intros Hs. revert n. induction Hs as [|c s Hc Hs IH]; intros n Hn; [destruct n; cbn; lia|].
  destruct n as [|n]; [cbn in Hn; lia|]. cbn [escape_string length] in *.
  rewrite (proj2 (Z.ltb_lt _ _) Hc), length_app.
  pose proof (escape_length1 c). specialize (IH n). lia.
Qed.

Lemma scan_escape fuel n s rest :
  ascii s -> (length s < fuel)%nat -> (length s <= n)%nat ->
  scan_string fuel (escape_string n s ++ x22 :: rest) = Some (s, rest).
Proof.
  intros Hs. revert fuel n. induction Hs as [|c s Hc Hs IH]; intros fuel n Hf Hn.
  - destruct fuel; [lia|]. by destruct n.
  - destruct fuel as [|fuel]; [lia|]. destruct n as [|n]; cbn [length] in *; [lia|].
    cbn [escape_string]. rewrite (proj2 (Z.ltb_lt _ _) Hc), <- app_assoc.
    rewrite scan_escape1 by done. by rewrite IH by lia.
Qed.

Lemma scan_quoted s rest :
  ascii s ->
  scan_string (S (length (escape_string (length s) s ++ x22 :: rest)))
    (escape_string (length s) s ++ x22 :: rest) = Some (s, rest).
Proof.
  intros Hs. apply scan_escape; [done | | lia].
  rewrite length_app. pose proof (escape_length (length s) s Hs). cbn [length]. lia.
Qed.

Lemma skip_ws_id c s : is_ws c = false -> skip_ws (c :: s) = c :: s.
Proof. cbn [skip_ws]. by intros ->. Qed.

(** *** Numbers *)

(** What may follow a number without extending it. *)
Definition num_end (s : bytes) : Prop :=
  match s with
  | [] => True
  | c :: _ => is_digit c = false /\ c ∉ [x2e; x65; x45]
  end.

Lemma num_end_white w s : white w -> num_end s -> num_end (w ++ s).
Proof.
  intros [|c w' Hc Hw]; [done|]. intros _. cbn [app num_end].
  unfold is_ws in Hc. bool_to_prop.
  repeat (apply elem_of_cons in Hc as [->|Hc]); [split; [reflexivity | set_solver]..|].
  by apply elem_of_nil in Hc.
Qed.

Lemma span_digits_app ds s :
  forallb is_digit ds = true -> num_end s -> span_digits (ds ++ s) = (ds, s).
Proof.
  intros Hd Hs. induction ds as [|c ds IH]; cbn [app span_digits].
  - destruct s as [|c s]; [done|]. destruct Hs as [Hc _]. cbn. by rewrite Hc.
  - cbn in Hd. apply andb_true_iff in Hd as [Hc Hd]. by rewrite Hc, IH.
Qed.

Lemma format_digits_shape fuel n :
  0 <= n < 10 ^ Z.of_nat fuel ->
  exists c ds, format_digits fuel n = c :: ds /\ is_digit c = true /\ forallb is_digit ds = true /\
    (c = x30 -> ds = []) \/ fuel = O.
Proof.
  revert n. induction fuel as [|fuel IH]; intros n Hn; [exists x00, []; auto|].
  cbn [format_digits]. rewrite Nat2Z.inj_succ, Z.pow_succ_r in Hn by lia.
  destruct (Z.ltb_spec n 10).
  - exists (byte_of (48 + n)), []. left. repeat split; auto using is_digit_of with lia.
  - assert (Hr : 0 <= n / 10 < 10 ^ Z.of_nat fuel)
      by (split; [apply Z.div_pos; lia | apply Z.div_lt_upper_bound; lia]).
    destruct (IH (n / 10) Hr) as (c & ds & [(E & Hc & Hds & H0) | ->]).
    + exists c, (ds ++ [byte_of (48 + n mod 10)]). left. rewrite E.
      pose proof (Z.mod_pos_bound n 10).
      repeat split; [done| |].
      * rewrite forallb_app, Hds. cbn. rewrite is_digit_of by lia. done.
      * intros ->. specialize (H0 eq_refl) as ->.
        assert (Hv : digits_val 0 (format_digits fuel (n / 10)) = Some (n / 10))
          by (by apply format_digits_val).
        rewrite E in Hv. cbn in Hv. injection Hv as Hv.
        change (0 * 10 + (byte_val x30 - 48)) with 0 in Hv.
        pose proof (Z.div_str_pos n 10). lia.
    + cbn in Hr. pose proof (Z.div_str_pos n 10). lia.
Qed.

Lemma optional_not cs c s : c ∉ cs -> optional cs (c :: s) = ([], c :: s).
Proof. intros H. cbn [optional]. by rewrite bool_decide_eq_false_2. Qed.

Lemma digit_not_in c cs :
  is_digit c = true -> Forall (fun d => is_digit d = false) cs -> c ∉ cs.
Proof. intros Hc Hcs Hin. rewrite Forall_forall in Hcs. specialize (Hcs _ Hin). congruence. Qed.

Lemma scan_frac_end s : num_end s -> scan_frac s = Some ([], s).
Proof.
  unfold scan_frac. destruct s as [|c s]; [done|]. intros [_ Hc].
  rewrite optional_not; [done | set_solver].
Qed.
Lemma scan_exp_end s : num_end s -> scan_exp s = Some ([], s).
Proof.
  unfold scan_exp. destruct s as [|c s]; [done|]. intros [_ Hc].
  rewrite optional_not; [done | set_solver].
Qed.

Lemma scan_int_digits c ds rest :
  is_digit c = true -> forallb is_digit ds = true -> (c = x30 -> ds = []) -> num_end rest ->
  scan_int (c :: ds ++ rest) = Some (c :: ds, rest).
Proof.
  intros Hc Hds H0 Hend. unfold scan_int, expect. case_bool_decide as E.
  - by rewrite (H0 E), E.
  - unfold digits1. assert (Hsp : span_digits (c :: ds ++ rest) = (c :: ds, rest))
      by (apply (span_digits_app (c :: ds)); [cbn; by rewrite Hc | done]).
    by rewrite Hsp.
Qed.

Lemma scan_number_digits c ds rest :
  is_digit c = true -> forallb is_digit ds = true -> (c = x30 -> ds = []) -> num_end rest ->
  scan_number (c :: ds ++ rest) = Some (c :: ds, rest).
Proof.
  intros Hc Hds H0 Hend. unfold scan_number.
  rewrite optional_not by (apply digit_not_in; [done.. | repeat constructor]).
  rewrite scan_int_digits by done. cbn [mbind option_bind].
  rewrite scan_frac_end by done. cbn [mbind option_bind].
  rewrite scan_exp_end by done. cbn. by rewrite app_nil_r.
Qed.

Lemma expect_eq c s : expect c (c :: s) = Some s.
Proof. cbn [expect]. by rewrite bool_decide_eq_true_2. Qed.
Lemma expect_neq c d s : d <> c -> expect c (d :: s) = None.
Proof. intros H. cbn [expect]. by rewrite bool_decide_eq_false_2. Qed.

(** *** Values *)

Section JsonInd.
Variable P : json -> Prop.
Hypothesis Hnull : P JNull.
Hypothesis Hbool : forall b, P (JBool b).
Hypothesis Hnum : forall raw, P (JNum raw).
Hypothesis Hstr : forall s, P (JStr s).
Hypothesis Harr : forall vs, Forall P vs -> P (JArr vs).
Hypothesis Hobj : forall ms, Forall (fun m => P m.2) ms -> P (JObj ms).

Fixpoint json_nested_ind (v : json) : P v :=
  match v with
  | JNull => Hnull
  | JBool b => Hbool b
  | JNum raw => Hnum raw
  | JStr s => Hstr s
  | JArr vs => Harr vs ((fix go (l : list json) : Forall P l :=
      match l with
      | [] => Forall_nil_2 _
      | w :: l' => Forall_cons_2 _ _ _ (json_nested_ind w) (go l')
      end) vs)
  | JObj ms => Hobj ms ((fix go (l : list (bytes * json)) : Forall (fun m => P m.2) l :=
      match l with
      | [] => Forall_nil_2 _
      | m :: l' => Forall_cons_2 _ _ _ (json_nested_ind m.2) (go l')
      end) ms)
  end.
End JsonInd.

(** Values whose printing reads back as they are: ASCII strings and unsigned
    decimal numbers. *)
Fixpoint clean (v : json) : Prop :=
  match v with
  | JNull | JBool _ => True
  | JNum raw => exists n, 0 <= n < 10 ^ 20 /\ raw = format_digits 20 n
  | JStr s => ascii s
  | JArr vs => Forall id (map clean vs)
  | JObj ms => Forall id (map (fun m => ascii m.1 /\ clean m.2) ms)
  end.

Lemma clean_arr vs : clean (JArr vs) <-> Forall clean vs.
Proof.
  cbn [clean]. induction vs as [|v vs IH]; cbn [map]; [by rewrite !Forall_nil|].
  by rewrite !Forall_cons, IH.
Qed.
Lemma clean_obj ms : clean (JObj ms) <-> Forall (fun m => ascii m.1 /\ clean m.2) ms.
Proof.
  cbn [clean]. induction ms as [|v vs IH]; cbn [map]; [by rewrite !Forall_nil|].
  by rewrite !Forall_cons, IH.
Qed.

Fixpoint height (v : json) : Z :=
  match v with
  | JArr vs => 1 + foldr Z.max 0 (map height vs)
  | JObj ms => 1 + foldr Z.max 0 (map (fun m => height m.2) ms)
  | _ => 0
  end.

(** Fuel a value needs. *)
Fixpoint need (v : json) : nat :=
  match v with
  | JArr vs => 1 + foldr (fun v n => S (need v) + n) 0 vs
  | JObj ms => 1 + foldr (fun m n => S (need m.2) + n) 0 ms
  | _ => 1
  end%nat.

Lemma white_nil : white [].
Proof. constructor. Qed.
#[local] Hint Resolve white_nil line_white gap_white : core.

Section ScanPrint.
Variable l : layout.
Hypothesis Hl : layout_ok l.

(** Reading a value back, whatever white space precedes it. *)
Definition reads_back (v : json) : Prop :=
  forall d fuel depth w rest,
    clean v -> white w -> (need v <= fuel)%nat -> depth + height v <= maxNestingDepth ->
    num_end rest ->
    scan_value fuel depth (w ++ print l d v ++ rest) = Some (v, rest).

Definition tail_elems (d : nat) (vs : list json) : bytes :=
  concat (map (fun w => x2c :: line l d ++ print l d w) vs).
Definition tail_members (d : nat) (ms : list (bytes * json)) : bytes :=
  concat (map (fun m => x2c :: line l d ++ quote m.1 ++ x3a :: gap l ++ print l d m.2) ms).

Lemma num_end_close d c rest :
  is_digit c = false -> c ∉ [x2e; x65; x45] -> num_end (line l d ++ c :: rest).
Proof. intros. apply num_end_white; [auto | done]. Qed.

Lemma scan_elems_print d d' v vs fuel depth w rest :
  Forall reads_back (v :: vs) -> Forall clean (v :: vs) -> white w ->
  (foldr (fun v n => S (need v) + n) 0 (v :: vs) <= fuel)%nat ->
  Forall (fun v => depth + height v <= maxNestingDepth) (v :: vs) ->
  scan_elems fuel depth (w ++ print l d v ++ tail_elems d vs ++ line l d' ++ x5d :: rest) =
  Some (v :: vs, rest).
Proof.
  revert v fuel w. induction vs as [|v' vs IH]; intros v fuel w HP HC Hw Hf HH;
    apply Forall_cons in HP as [Hv HP]; apply Forall_cons in HC as [Hc HC];
    apply Forall_cons in HH as [Hh HH]; cbn [foldr] in Hf;
    (destruct fuel as [|fuel]; [lia|]); cbn [scan_elems]; unfold tail_elems; cbn [map concat app].
  - rewrite Hv by (done || lia || (apply num_end_close; [done | set_solver])).
    cbn [mbind option_bind]. rewrite skip_ws_head by auto. by rewrite expect_neq, expect_eq by done.
  - repeat (rewrite <- app_assoc; cbn [app]).
    rewrite Hv by (done || lia || (cbn; split; [done | set_solver])).
    cbn [mbind option_bind]. rewrite skip_ws_id, expect_eq by done.
    fold (tail_elems d vs).
    rewrite IH; [done | done | done | auto | cbn [foldr]; lia | done].
Qed.

Lemma scan_quote k rest :
  ascii k -> exists s', quote k ++ rest = x22 :: s' /\
    scan_string (S (length s')) s' = Some (k, rest).
Proof.
  intros Hk. unfold quote. eexists. split; [cbn [app]; rewrite <- app_assoc; reflexivity|].
  cbn [app]. by apply scan_quoted.
Qed.

Lemma scan_members_print d d' k v ms fuel depth w rest :
  Forall (fun m => reads_back m.2) ((k, v) :: ms) ->
  Forall (fun m => ascii m.1 /\ clean m.2) ((k, v) :: ms) -> white w ->
  (foldr (fun m n => S (need m.2) + n) 0 ((k, v) :: ms) <= fuel)%nat ->
  Forall (fun m => depth + height m.2 <= maxNestingDepth) ((k, v) :: ms) ->
  scan_members fuel depth
    (w ++ quote k ++ x3a :: gap l ++ print l d v ++ tail_members d ms ++ line l d' ++ x7d :: rest) =
  Some ((k, v) :: ms, rest).
Proof.
  revert k v fuel w. induction ms as [|[k' v'] ms IH]; intros k v fuel w HP HC Hw Hf HH;
    apply Forall_cons in HP as [Hv HP]; apply Forall_cons in HC as [[Hk Hc] HC];
    apply Forall_cons in HH as [Hh HH]; cbn [foldr fst snd] in *;
    (destruct fuel as [|fuel]; [lia|]); cbn [scan_members];
    match goal with |- context [quote k ++ ?r] =>
      destruct (scan_quote k r Hk) as (s' & -> & Hs) end;
    rewrite skip_ws_head, expect_eq by auto; cbn [mbind option_bind]; rewrite Hs; cbn [mbind option_bind];
    rewrite skip_ws_id, expect_eq by done; cbn [mbind option_bind]; unfold tail_members; cbn [map concat app].
  - rewrite Hv by (auto || lia || (apply num_end_close; [done | set_solver])).
    cbn [mbind option_bind]. rewrite skip_ws_head by auto. by rewrite expect_neq, expect_eq by done.
  - repeat (rewrite <- app_assoc; cbn [app]).
    rewrite Hv by (auto || lia || (cbn; split; [done | set_solver])).
    cbn [mbind option_bind]. rewrite skip_ws_id, expect_eq by done.
    fold (tail_members d ms).
    cbn [fst snd]. rewrite IH; [done | done | done | auto | cbn [foldr]; lia | done].
Qed.

Lemma print_head d v :
  clean v -> exists c s, print l d v = c :: s /\ is_ws c = false /\ c <> x5d.
Proof.
  destruct v as [|b|raw|s|vs|ms]; cbn [clean print].
  - intros _. by do 2 eexists.
  - intros _. by destruct b; do 2 eexists.
  - intros (n & Hn & ->).
    destruct (format_digits_shape 20 n) as (c & ds & [(-> & Hc & _)|]); [done| |done].
    exists c, ds. split; [done|]. split.
    + unfold is_ws. apply bool_decide_eq_false. apply digit_not_in; [done | repeat constructor].
    + intros ->. discriminate Hc.
  - intros _. by do 2 eexists.
  - intros _. by destruct vs; do 2 eexists.
  - intros _. by destruct ms as [|[??]?]; do 2 eexists.
Qed.

Lemma max_height_bound (hs : list Z) k :
  k + foldr Z.max 0 hs <= maxNestingDepth -> Forall (fun h => k + h <= maxNestingDepth) hs.
Proof. induction hs as [|h hs IH]; cbn [foldr]; constructor; [lia | apply IH; lia]. Qed.

Lemma max_height_nonneg (hs : list Z) : 0 <= foldr Z.max 0 hs.
Proof. induction hs; cbn [foldr]; lia. Qed.

Lemma print_reads_back v : reads_back v.
Proof.
  induction v as [|b|raw|s|vs IH|ms IH] using json_nested_ind;
    intros d fuel depth w rest Hc Hw Hf Hd He; cbn [need] in Hf;
    (destruct fuel as [|fuel]; [lia|]); cbn [scan_value]; rewrite skip_ws_app by done.
  - reflexivity.
  - by destruct b.
  - destruct Hc as (n & Hn & ->).
    destruct (format_digits_shape 20 n) as (c & ds & [(E & Hc & Hds & H0)|]); [done | | done].
    cbn [print]. rewrite E. cbn [app].
    assert (Hcs : Forall (fun x => c <> x) [x22; x7b; x5b; x6e; x74; x66] /\ is_ws c = false).
    { unfold is_ws. split.
      - repeat constructor; intros ->; discriminate Hc.
      - apply bool_decide_eq_false. apply digit_not_in; [done | repeat constructor]. }
    destruct Hcs as [Hcs Hws]. rewrite skip_ws_id by done.
    repeat (apply Forall_cons in Hcs as [? Hcs]).
    rewrite !bool_decide_eq_false_2 by done.
    by rewrite scan_number_digits.
  - cbn [print clean] in *. destruct (scan_quote s rest Hc) as (s' & -> & Hs).
    rewrite skip_ws_id by done. rewrite bool_decide_eq_true_2 by done. by rewrite Hs.
  - apply clean_arr in Hc. cbn [height] in Hd.
    pose proof (max_height_nonneg (map height vs)).
    destruct vs as [|v vs]; [cbn [print app]; rewrite skip_ws_id by done; cbn -[maxNestingDepth]; by rewrite (proj2 (Z.leb_gt _ _)) by lia|].
    pose proof (Forall_inv Hc) as Hv.
    cbn [print app]. rewrite skip_ws_id by done.
    rewrite !bool_decide_eq_false_2, bool_decide_eq_true_2 by done.
    rewrite (proj2 (Z.leb_gt _ _)) by lia.
    repeat (rewrite <- app_assoc; cbn [app]). fold (tail_elems (S d) vs).
    destruct (print_head (S d) v Hv) as (c & s & Hp & Hcw & Hcd).
    rewrite skip_ws_app by auto. rewrite Hp at 1. cbn [app].
    rewrite skip_ws_id, expect_neq by done.
    rewrite scan_elems_print; [done | done | done | auto | cbn in *; lia |].
    apply (Forall_map height (fun h => depth + 1 + h <= maxNestingDepth)).
    apply max_height_bound. lia.
  - apply clean_obj in Hc. cbn [height] in Hd.
    pose proof (max_height_nonneg (map (fun m => height m.2) ms)).
    destruct ms as [|[k v] ms]; [cbn [print app]; rewrite skip_ws_id by done; cbn -[maxNestingDepth]; by rewrite (proj2 (Z.leb_gt _ _)) by lia|].
    cbn [print app]. rewrite skip_ws_id by done.
    rewrite !bool_decide_eq_false_2, bool_decide_eq_true_2 by done.
    rewrite (proj2 (Z.leb_gt _ _)) by lia.
    repeat (rewrite <- app_assoc; cbn [app]). fold (tail_members (S d) ms).
    rewrite skip_ws_app by auto.
    assert (Hk : forall t, expect x7d (skip_ws (quote k ++ t)) = None) by done.
    rewrite Hk.
    rewrite scan_members_print; [done | done | done | auto | cbn in *; lia |].
    apply (Forall_map (fun m => height m.2) (fun h => depth + 1 + h <= maxNestingDepth)).
    apply max_height_bound. lia.
Qed.
End ScanPrint.

Lemma need_print l d v : clean v -> (need v <= 2 * length (print l d v))%nat.
Proof.
  revert d. induction v as [|b|raw|s|vs IH|ms IH] using json_nested_ind; intros d Hc.
  - change (1 <= 8)%nat. lia.
  - destruct b; [change (1 <= 8)%nat | change (1 <= 10)%nat]; lia.
  - destruct Hc as (n & _ & ->). pose proof (format_digits_nonempty 19 n).
    cbn [print need]. destruct (format_digits 20 n); [done | cbn; lia].
  - cbn. lia.
  - apply clean_arr in Hc. destruct vs as [|v vs]; [cbn; lia|].
    apply Forall_cons in IH as [Hv IH]. apply Forall_cons in Hc as [Hcv Hc].
    cbn [print need foldr]. cbn [length]. rewrite !length_app. specialize (Hv (S d) Hcv).
    assert (foldr (fun v n => S (need v) + n) 0 vs <=
      2 * length (concat (map (fun w => x2c :: line l (S d) ++ print l (S d) w) vs)))%nat.
    { clear -IH Hc. induction vs as [|w vs IHvs]; [cbn; lia|].
      apply Forall_cons in IH as [Hw IH]. apply Forall_cons in Hc as [Hcw Hc].
      specialize (IHvs IH Hc). specialize (Hw (S d) Hcw).
      cbn [foldr map concat length app]. rewrite !length_app. lia. }
    cbn [length]. lia.
  - apply clean_obj in Hc. destruct ms as [|[k v] ms]; [cbn; lia|].
    apply Forall_cons in IH as [Hv IH]. apply Forall_cons in Hc as [[_ Hcv] Hc]. cbn [snd] in *.
    cbn [print need foldr snd]. cbn [length]. rewrite !length_app. cbn [length]. rewrite !length_app.
    specialize (Hv (S d) Hcv).
    assert (foldr (fun m n => S (need m.2) + n) 0 ms <=
      2 * length (concat (map (fun m => x2c :: line l (S d) ++ quote m.1 ++ x3a :: gap l
                                     ++ print l (S d) m.2) ms)))%nat.
    { clear -IH Hc. induction ms as [|w ms IHms]; [cbn; lia|].
      apply Forall_cons in IH as [Hw IH]. apply Forall_cons in Hc as [[_ Hcw] Hc].
      specialize (IHms IH Hc). specialize (Hw (S d) Hcw).
      cbn [foldr map concat length app]. rewrite !length_app. cbn [length]. rewrite !length_app. lia. }
    cbn [length]. lia.
Qed.

Lemma json_Decode_print l v rest :
  layout_ok l -> clean v -> height v <= maxNestingDepth -> num_end rest ->
  json_Decode (print l 0 v ++ rest) = Some (v, rest).
Proof.
  intros Hl Hc Hh He. unfold json_Decode.
  apply (print_reads_back l Hl v 0%nat _ 0 []); auto using white_nil.
  pose proof (need_print l 0 v Hc). rewrite length_app. lia.
Qed.

Lemma json_Unmarshal_Marshal v :
  clean v -> height v <= maxNestingDepth -> json_Unmarshal (json_Marshal v) = Some v.
Proof.
  intros Hc Hh. unfold json_Unmarshal, json_Marshal.
  rewrite <- (app_nil_r (print compact 0 v)).
  rewrite json_Decode_print; [reflexivity | apply compact_ok | done..].
Qed.

Lemma json_Decode_Encode_indented v :
  clean v -> height v <= maxNestingDepth ->
  json_Decode (json_Encode_indented v) = Some (v, [x0a]).
Proof.
  intros Hc Hh. unfold json_Encode_indented. apply json_Decode_print; auto using indented_ok.
  cbn. split; [done | set_solver].
Qed.

(** Decoding the members a struct wrote, in the order it wrote them. *)
Lemma clean_jstring s : ascii (to_bytes s) -> clean (jstring s).
Proof. done. Qed.
Lemma clean_jint n : 0 <= n < 10 ^ 20 -> clean (jint n).
Proof.
  intros Hn. unfold jint. rewrite (proj2 (Z.ltb_ge _ _)) by lia. exists n.
  split; [done|]. unfold FormatUint. by rewrite to_of_bytes.
Qed.

Lemma ParseInt64_FormatUint n : 0 <= n < 2 ^ 63 -> ParseInt64 (FormatUint n) = Some n.
Proof.
  intros Hn. unfold ParseInt64, FormatUint at 1. rewrite to_of_bytes.
  destruct (format_digits_shape 20 n) as (c & ds & [(E & Hc & _)|]); [lia| |done].
  rewrite E. rewrite !bool_decide_eq_false_2 by (intros ->; discriminate Hc).
  rewrite <- E. fold (FormatUint n). rewrite ParseUint_FormatUint by lia. ztests. reflexivity.
Qed.

Lemma set_int_jint {T} (upd : Z -> T -> T) n t :
  0 <= n < 2 ^ 63 -> set_int upd (jint n) t = Some (upd n t).
Proof.
  intros Hn. unfold jint, set_int. rewrite (proj2 (Z.ltb_ge _ _)) by lia.
  rewrite of_to_bytes, ParseInt64_FormatUint by done. reflexivity.
Qed.
Lemma set_string_jstring {T} (upd : string -> T -> T) s t :
  set_string upd (jstring s) t = Some (upd s t).
Proof. cbn. by rewrite of_to_bytes. Qed.

(** *** What the program writes is ASCII *)

Lemma ascii_forallb s : forallb (fun c => byte_val c <? 128) s = true -> ascii s.
Proof.
  intros H. apply List.Forall_forall. intros c Hc.
  rewrite forallb_forall in H. apply Z.ltb_lt, H, Hc.
Qed.

Lemma ascii_app s t : ascii s -> ascii t -> ascii (s ++ t).
Proof. intros. by apply Forall_app. Qed.

Lemma ascii_hex b : ascii (hex_encode b).
Proof.
  unfold ascii. eapply Forall_impl; [apply hex_encode_lower|].
  intros c (n & Hn & ->). unfold hex_digit. ztests; rewrite byte_val_of;
    rewrite Z.mod_small; lia.
Qed.

Lemma ascii_b64_digit n : 0 <= n < 64 -> byte_val (b64_digit n) < 128.
Proof.
  intros Hn. unfold b64_digit. ztests; rewrite byte_val_of; rewrite Z.mod_small; lia.
Qed.

Lemma ascii_b64 b : ascii (b64_encode b).
Proof.
  assert (Hp : byte_val b64_pad < 128) by done.
  unfold ascii. induction b as [|x|x y|x y z b IH] using list_ind3;
    cbn [b64_encode]; [constructor|..];
    repeat constructor; auto; apply ascii_b64_digit;
    repeat match goal with
    | c : byte |- _ =>
        let H := fresh in pose proof (byte_val_range c) as H; revert H; generalize (byte_val c);
        clear c; intros
    end; Z.to_euclidean_division_equations; lia.
Qed.

Lemma ascii_identifier s : ValidIdentifier s = true -> ascii (to_bytes s).
Proof.
  intros (_ & _ & H)%ValidIdentifier_spec. unfold ascii. eapply Forall_impl; [exact H|].
  intros c Hc. unfold id_char in Hc. cbv zeta in Hc.
  apply orb_true_iff in Hc as [[Hc|Hc]%orb_true_iff|Hc]; res_inv; bool_to_prop; lia.
Qed.

Lemma ascii_FormatUint n : 0 <= n < 10 ^ 20 -> ascii (to_bytes (FormatUint n)).
Proof.
  intros Hn. unfold FormatUint. rewrite to_of_bytes.
  destruct (format_digits_shape 20 n) as (c & ds & [(-> & Hc & Hds & _)|]); [lia| |done].
  assert (Hd : forallb is_digit (c :: ds) = true) by (cbn; by rewrite Hc).
  apply ascii_forallb. rewrite forallb_forall in Hd |- *. intros x Hx. specialize (Hd x Hx).
  unfold is_digit in Hd. res_inv. bool_to_prop. apply Z.ltb_lt. lia.
Qed.

(** *** Reading a struct back member by member *)

Lemma set_members_member {T} strict (fs : struct_fields T) k v ms t f :
  find_field fs (to_bytes k) = Some f ->
  set_members strict fs (member k v ++ ms) t = f v t ≫= set_members strict fs ms.
Proof. intros Hf. cbn [member app set_members]. by rewrite Hf. Qed.

Lemma set_members_string {T} strict (fs : struct_fields T) k s ms t upd :
  find_field fs (to_bytes k) = Some (set_string upd) ->
  set_members strict fs (member k (jstring s) ++ ms) t = set_members strict fs ms (upd s t).
Proof. intros Hf. by rewrite (set_members_member _ _ _ _ _ _ _ Hf), set_string_jstring. Qed.

(** A decoder that allows unknown fields passes over them. *)
Lemma set_members_skip {T} (fs : struct_fields T) k v ms t :
  find_field fs (to_bytes k) = None ->
  set_members false fs (member k v ++ ms) t = set_members false fs ms t.
Proof. intros Hf. cbn [member app set_members]. by rewrite Hf. Qed.

Lemma set_members_int {T} strict (fs : struct_fields T) k n ms t upd :
  0 <= n < 2 ^ 63 -> find_field fs (to_bytes k) = Some (set_int upd) ->
  set_members strict fs (member k (jint n) ++ ms) t = set_members strict fs ms (upd n t).
Proof. intros Hn Hf. by rewrite (set_members_member _ _ _ _ _ _ _ Hf), set_int_jint. Qed.

Lemma set_members_omitempty {T} strict (fs : struct_fields T) k s ms t upd :
  find_field fs (to_bytes k) = Some (set_string upd) ->
  set_members strict fs (member_omitempty k s ++ ms) t =
  set_members strict fs ms (if bool_decide (s = ""%string) then t else upd s t).
Proof.
  intros Hf. unfold member_omitempty. case_bool_decide; [done|]. by rewrite (set_members_string _ _ _ _ _ _ _ Hf).
Qed.

(** An object of strings and small integers is one level deep and clean. *)
Lemma clean_members (ms : list (bytes * json)) :
  Forall (fun m => ascii m.1 /\ clean m.2) ms -> clean (JObj ms).
Proof. apply clean_obj. Qed.
Lemma clean_member k v ms :
  ascii (to_bytes k) -> clean v ->
  Forall (fun m => ascii m.1 /\ clean m.2) ms ->
  Forall (fun m => ascii m.1 /\ clean m.2) (member k v ++ ms).
Proof. intros. by constructor. Qed.
Lemma clean_omitempty k s ms :
  ascii (to_bytes k) -> ascii (to_bytes s) ->
  Forall (fun m => ascii m.1 /\ clean m.2) ms ->
  Forall (fun m => ascii m.1 /\ clean m.2) (member_omitempty k s ++ ms).
Proof. intros. unfold member_omitempty. case_bool_decide; [done|]. by constructor. Qed.

(** [member_names] closes the side conditions on literal names. *)
Ltac member_names := first [reflexivity | by apply ascii_forallb].
