(* ===== verification/GoScan.v ===== *)
(** * Lines and quoted strings

    What the configuration readers use of [bufio.Scanner], which hands out the
    lines of a file up to a bound, and of [strconv.Unquote]. *)
From S2P Require Import Prelude GoBytes GoText Json.

(** ** [bufio.Scanner] with [ScanLines] *)

Definition newline : byte := x0a.

(** [bufio.MaxScanTokenSize]: a line must end within a buffer this long. *)
Definition MaxScanTokenSize : Z := 65536.

Definition drop_cr (l : bytes) : bytes :=
  match last l with
  | Some c => if bool_decide (c = x0d) then removelast l else l
  | None => l
  end.

(** The pieces between newlines, a last empty one not being a line; the lines
    before the first that is too long, and whether there is one. *)
Definition pieces (b : bytes) : list bytes :=
  let ps := split_on newline b in
  match last ps with Some [] => removelast ps | _ => ps end.
Fixpoint until_long (ps : list bytes) : list bytes * bool :=
  match ps with
  | [] => ([], true)
  | p :: ps' => if MaxScanTokenSize <=? zlen p then ([], false)
                else let '(ls, ok) := until_long ps' in (drop_cr p :: ls, ok)
  end.
Definition scan_lines (b : bytes) : list bytes * bool := until_long (pieces b).

(** ** [strconv.Unquote] *)

Definition dquote : byte := x22.
Definition squote : byte := x27.
Definition backquote : byte := x60.
Definition backslash : byte := x5c.

(** [n] digits of base [2 ^ w] read with [val]. *)
Fixpoint read_digits (val : byte -> option Z) (base : Z) (n : nat) (acc : Z) (s : bytes) : option (Z * bytes) :=
  match n, s with
  | O, _ => Some (acc, s)
  | S n', c :: s' => v ← val c; read_digits val base n' (acc * base + v) s'
  | S _, [] => None
  end.
Definition unhex (c : byte) : option Z := hex_val c.
Definition unoct (c : byte) : option Z :=
  if (48 <=? byte_val c) && (byte_val c <=? 55) then Some (byte_val c - 48) else None.

(** [utf8.ValidRune]. *)
Definition ValidRune (r : Z) : bool :=
  ((0 <=? r) && (r <? 55296)) || ((57344 <=? r) && (r <=? 1114111)).

(** [strconv.UnquoteChar] and what it appends: a rune's encoding, or one byte. *)
Definition UnquoteChar (quote : byte) (s : bytes) : option (bytes * bytes) :=
  match s with
  | [] => None
  | c :: s1 =>
      if bool_decide (c = quote) then None
      else if 128 <=? byte_val c then
        match rune_width s with
        | Some n => Some (take n s, drop n s)
        | None => Some (rune_error, s1)
        end
      else if negb (bool_decide (c = backslash)) then Some ([c], s1)
      else match s1 with
        | [] => None
        | c :: s2 =>
            if bool_decide (c = x61) then Some ([x07], s2)
            else if bool_decide (c = x62) then Some ([x08], s2)
            else if bool_decide (c = x66) then Some ([x0c], s2)
            else if bool_decide (c = x6e) then Some ([x0a], s2)
            else if bool_decide (c = x72) then Some ([x0d], s2)
            else if bool_decide (c = x74) then Some ([x09], s2)
            else if bool_decide (c = x76) then Some ([x0b], s2)
            else if bool_decide (c = x78) then
              '(v, s3) ← read_digits unhex 16 2 0 s2; Some ([byte_of v], s3)
            else if bool_decide (c = x75) || bool_decide (c = x55) then
              '(v, s3) ← read_digits unhex 16 (if bool_decide (c = x75) then 4 else 8) 0 s2;
              if ValidRune v then Some (encode_rune v, s3) else None
            else if bool_decide (is_Some (unoct c)) then
              '(v, s3) ← read_digits unoct 8 3 0 (c :: s2);
              if 255 <? v then None else Some ([byte_of v], s3)
            else if bool_decide (c = backslash) then Some ([backslash], s2)
            else if bool_decide (c = squote) || bool_decide (c = dquote) then
              if bool_decide (c = quote) then Some ([c], s2) else None
            else None
        end
  end.

(** The characters up to the closing quote, and what is after it. *)
Fixpoint unquote_chars (fuel : nat) (quote : byte) (s : bytes) : option (bytes * bytes) :=
  match fuel with
  | O => None
  | S fuel' =>
      match s with
      | [] => None
      | c :: s' =>
          if bool_decide (c = quote) then Some ([], s')
          else
            '(out, rest) ← UnquoteChar quote s;
            if bool_decide (c = x0a) then None
            else
              '(more, rest) ← unquote_chars fuel' quote rest;
              Some (out ++ more, rest)
      end
  end.

Definition Unquote_bytes (s : bytes) : option bytes :=
  match s with
  | [] => None
  | q :: body =>
      if bool_decide (q = backquote) then
        match cut_at backquote body with
        | Some (raw, []) => Some (filter (fun c => c <> x0d) raw)
        | _ => None
        end
      else if bool_decide (q = dquote) then
        match unquote_chars (S (length body)) dquote body with
        | Some (out, []) => Some out
        | _ => None
        end
      else if bool_decide (q = squote) then
        (* one character, or none at all *)
        if bool_decide (body = [squote]) then Some []
        else match UnquoteChar squote body with
        | Some (out, [c]) => if bool_decide (c = squote) && negb (bool_decide (head body = Some x0a))
                             then Some out else None
        | _ => None
        end
      else None
  end.
Definition Unquote (s : string) : option string := of_bytes <$> Unquote_bytes (to_bytes s).

(** What the readers refuse and what they read, by example. *)
Example unquote_examples :
  Unquote_bytes (to_bytes "`a\b`") = Some (to_bytes "a\b")
  /\ Unquote_bytes (dquote :: to_bytes "\u00e9\x41\101\t" ++ [dquote]) = Some [xc3; xa9; x41; x41; x09]
  /\ Unquote_bytes (dquote :: to_bytes "\'" ++ [dquote]) = None
  /\ Unquote_bytes (dquote :: to_bytes "\ud800" ++ [dquote]) = None
  /\ Unquote_bytes (to_bytes "'ab'") = None /\ Unquote_bytes (to_bytes "'a'") = Some [x61]
  /\ Unquote_bytes (dquote :: [xff; dquote]) = Some rune_error /\ Unquote_bytes [dquote] = None.
Proof. by vm_compute. Qed.

(** ** Plain text *)

(** Printable ASCII that a quoted string holds as it is, and that does not end a
    line, a key or a value. *)
Definition plain_byte (c : byte) : bool :=
  (32 <=? byte_val c) && (byte_val c <? 127) && negb (bool_decide (c = dquote)) && negb (bool_decide (c = backslash)).
Definition plain (s : bytes) : bool := forallb plain_byte s.

Lemma plain_byte_spec c :
  plain_byte c = true -> 32 <= byte_val c < 127 /\ c <> dquote /\ c <> backslash.
Proof. unfold plain_byte. intros H. res_inv. bool_to_prop. auto with lia. Qed.

Lemma unquote_chars_plain fuel s rest :
  plain s = true -> (length s < fuel)%nat ->
  unquote_chars fuel dquote (s ++ dquote :: rest) = Some (s, rest).
Proof.
  revert fuel. induction s as [|c s IH]; intros [|fuel] Hp Hf; cbn [length] in Hf; try lia; [done|].
  cbn [plain forallb] in Hp. apply andb_true_iff in Hp as [Hc Hs]. apply plain_byte_spec in Hc as (Hr & Hq & Hb).
  cbn [unquote_chars app UnquoteChar]. rewrite (bool_decide_eq_false_2 _ Hq), (bool_decide_eq_false_2 _ Hb).
  rewrite (proj2 (Z.leb_gt _ _)) by lia. cbn [negb mbind option_bind].
  rewrite bool_decide_eq_false_2 by (intros ->; vm_compute in Hr; naive_solver).
  rewrite IH by (done || lia). done.
Qed.

Lemma Unquote_plain s : plain s = true -> Unquote_bytes (dquote :: s ++ [dquote]) = Some s.
Proof.
  intros Hp. unfold Unquote_bytes. rewrite bool_decide_eq_false_2, bool_decide_eq_true_2 by done.
  rewrite unquote_chars_plain; [done..|]. rewrite length_app. cbn. lia.
Qed.

(** The lines of a text whose lines are short and end with no carriage return. *)
Definition fits_line (l : bytes) : Prop := newline ∉ l /\ zlen l < MaxScanTokenSize /\ last l <> Some x0d.

Lemma drop_cr_id l : last l <> Some x0d -> drop_cr l = l.
Proof. unfold drop_cr. destruct (last l); [|done]. intros H. by rewrite bool_decide_eq_false_2 by congruence. Qed.

Lemma pieces_lines ls :
  Forall fits_line ls -> pieces (concat (map (fun l => l ++ [newline]) ls)) = ls.
Proof.
  intros Hf. unfold pieces. rewrite <- (app_nil_r (concat _)).
  enough (split_on newline (concat (map (fun l => l ++ [newline]) ls) ++ []) = ls ++ [[]]) as ->.
  { by rewrite last_snoc, removelast_last. }
  induction Hf as [|l ls (Hn & _ & _) _ IH]; [done|]. cbn [map concat].
  rewrite <- !app_assoc. cbn [app]. rewrite split_on_app by done. by rewrite IH.
Qed.

Lemma scan_lines_text ls :
  Forall fits_line ls -> scan_lines (concat (map (fun l => l ++ [newline]) ls)) = (ls, true).
Proof.
  intros Hf. unfold scan_lines. rewrite pieces_lines by done.
  induction Hf as [|l ls (_ & Hz & Hc) _ IH]; [done|]. cbn [until_long].
  rewrite (proj2 (Z.leb_gt _ _)) by done. by rewrite IH, drop_cr_id.
Qed.
