(* ===== verification/GoRegexp.v ===== *)
(** * Regular expressions

    What the document tools use of [regexp]: leftmost-first matching with
    captures, as a backtracking matcher over the text's runes ([regexp]
    documents that it finds the match such a search finds first).  A rune is its
    bytes, an invalid byte one rune. *)
From S2P Require Import Prelude GoBytes GoText Json.

Definition rune : Type := bytes.
Fixpoint runes_of (fuel : nat) (s : bytes) : list rune :=
  match fuel, s with
  | S fuel, _ :: _ =>
      let n := match rune_width s with Some n => Nat.max 1 n | None => 1%nat end in
      take n s :: runes_of fuel (drop n s)
  | _, _ => []
  end.
Definition runes (s : bytes) : list rune := runes_of (length s) s.

(** ** Expressions *)

(** One rune, by its bytes; the assertions [(?m)^], [(?m)$], [\z] and [\b]; a
    captured group. *)
Inductive regexp :=
  | One (class : rune -> bool)
  | Empty
  | Then (a b : regexp)
  | Or (a b : regexp)
  | Many (greedy : bool) (a : regexp)
  | Group (n : nat) (a : regexp)
  | LineStart | LineEnd | TextStart | TextEnd | WordBoundary.

Definition ascii_class (f : Z -> bool) : regexp :=
  One (fun r => match r with [c] => f (byte_val c) | _ => false end).
Definition lit (c : byte) : regexp := One (fun r => bool_decide (r = [c])).
Fixpoint lits (s : bytes) : regexp :=
  match s with [] => Empty | [c] => lit c | c :: s => Then (lit c) (lits s) end.
Definition word (s : string) : regexp := lits (to_bytes s).
(** Neither of these ASCII bytes; a newline is as good as any. *)
Definition none_of (cs : list byte) : regexp := One (fun r => negb (bool_decide (r ∈ map (fun c => [c]) cs))).
Definition one_of (cs : list byte) : regexp := One (fun r => bool_decide (r ∈ map (fun c => [c]) cs)).
(** [\s], [\d] and [.] *)
Definition space : regexp := one_of [x09; x0a; x0c; x0d; x20].
Definition digit : regexp := ascii_class (fun v => (48 <=? v) && (v <=? 57)).
Definition upper : regexp := ascii_class (fun v => (65 <=? v) && (v <=? 90)).
Definition any_but_newline : regexp := none_of [x0a].
Definition any : regexp := One (fun _ => true).
Definition opt (a : regexp) : regexp := Or a Empty.
Definition many1 (a : regexp) : regexp := Then a (Many true a).
Fixpoint seq_re (l : list regexp) : regexp :=
  match l with [] => Empty | [a] => a | a :: l => Then a (seq_re l) end.
Fixpoint alt_re (l : list regexp) : regexp :=
  match l with [] => One (fun _ => false) | [a] => a | a :: l => Or a (alt_re l) end.

(** [(?i)]: simple folding, by which s and k have a third form each. *)
Definition folds_to (c : byte) (r : rune) : bool :=
  let v := byte_val c in
  let lower := if (65 <=? v) && (v <=? 90) then v + 32 else v in
  let upper := if (97 <=? v) && (v <=? 122) then v - 32 else v in
  bool_decide (r = [byte_of lower]) || bool_decide (r = [byte_of upper])
  || (lower =? 115) && bool_decide (r = [xc5; xbf])
  || (lower =? 107) && bool_decide (r = [xe2; x84; xaa]).
Definition folded (c : byte) : regexp := One (folds_to c).
Definition folded_word (s : string) : regexp := seq_re (map folded (to_bytes s)).

(** ** Matching *)

(** The rune before, the runes to come, and the captures so far. *)
Record place := { pl_prev : option rune; pl_rest : list rune; pl_caps : gmap nat bytes }.
Definition step_over (r : rune) (rest : list rune) (p : place) : place :=
  {| pl_prev := Some r; pl_rest := rest; pl_caps := pl_caps p |}.
Definition is_word (r : option rune) : bool :=
  match r with
  | Some [c] => let v := byte_val c in
      (48 <=? v) && (v <=? 57) || (65 <=? v) && (v <=? 90) || (97 <=? v) && (v <=? 122) || (v =? 95)
  | _ => false
  end.
Definition holds_at (p : place) (r : regexp) : bool :=
  match r with
  | LineStart => match pl_prev p with None => true | Some r => bool_decide (r = [x0a]) end
  | LineEnd => match pl_rest p with [] => true | r :: _ => bool_decide (r = [x0a]) end
  | TextStart => bool_decide (pl_prev p = None)
  | TextEnd => bool_decide (pl_rest p = [])
  | WordBoundary => xorb (is_word (pl_prev p)) (is_word (head (pl_rest p)))
  | _ => false
  end.
Definition consumed (p q : place) : bytes := concat (take (length (pl_rest p) - length (pl_rest q)) (pl_rest p)).
Definition captured (n : nat) (p q : place) : place :=
  {| pl_prev := pl_prev q; pl_rest := pl_rest q; pl_caps := <[n := consumed p q]> (pl_caps q) |}.

Definition cont : Type := place -> option place.
Definition or_try (a b : option place) : option place := match a with Some _ => a | None => b end.

(** At most [n] more rounds, each of at least a rune. *)
Fixpoint rounds (greedy : bool) (body : cont -> cont) (n : nat) (k : cont) : cont := fun p =>
  match n with
  | O => k p
  | S n =>
      let more := body (fun q => if (length (pl_rest q) <? length (pl_rest p))%nat then rounds greedy body n k q else None) p in
      if greedy then or_try more (k p) else or_try (k p) more
  end.

Fixpoint attempt (r : regexp) (k : cont) : cont := fun p =>
  match r with
  | One f => match pl_rest p with x :: rest => if f x then k (step_over x rest p) else None | [] => None end
  | Empty => k p
  | Then a b => attempt a (attempt b k) p
  | Or a b => or_try (attempt a k p) (attempt b k p)
  | Many greedy a => rounds greedy (attempt a) (length (pl_rest p)) k p
  | Group n a => attempt a (fun q => k (captured n p q)) p
  | _ => if holds_at p r then k p else None
  end.

Definition match_here (r : regexp) (prev : option rune) (rest : list rune) : option place :=
  attempt r Some {| pl_prev := prev; pl_rest := rest; pl_caps := ∅ |}.

(** A match: its text, its captures, and where it ends; an empty match moves on
    by a rune. *)
Record found := { fd_text : bytes; fd_caps : gmap nat bytes }.
Definition capture (m : found) (n : nat) : bytes := default [] (fd_caps m !! n).

Fixpoint find_from (r : regexp) (prev : option rune) (rest : list rune) : option (found * (option rune * list rune)) :=
  match match_here r prev rest with
  | Some q => Some ({| fd_text := consumed {| pl_prev := prev; pl_rest := rest; pl_caps := ∅ |} q; fd_caps := pl_caps q |},
                    (pl_prev q, pl_rest q))
  | None => match rest with [] => None | x :: rest => find_from r (Some x) rest end
  end.
Definition FindSubmatch (r : regexp) (s : bytes) : option found := fst <$> find_from r None (runes s).
Definition MatchString (r : regexp) (s : bytes) : bool := bool_decide (is_Some (FindSubmatch r s)).

Fixpoint find_all (fuel : nat) (r : regexp) (prev : option rune) (rest : list rune) : list found :=
  match fuel with
  | O => []
  | S fuel =>
      match find_from r prev rest with
      | None => []
      | Some (m, (prev', rest')) =>
          m :: (if bool_decide (fd_text m = [])
                then match rest' with [] => [] | x :: rest' => find_all fuel r (Some x) rest' end
                else find_all fuel r prev' rest')
      end
  end.
Definition FindAllSubmatch (r : regexp) (s : bytes) : list found := find_all (S (length (runes s))) r None (runes s).

(** ** What is matched *)

(** The places a match of an expression leads to, without regard to which is
    tried first. *)
Definition spot : Type := option rune * list rune.
Definition spot_of (p : place) : spot := (pl_prev p, pl_rest p).
Definition assertion (r : regexp) : bool :=
  match r with LineStart | LineEnd | TextStart | TextEnd | WordBoundary => true | _ => false end.
Definition holds_in (s : spot) (r : regexp) : bool := holds_at {| pl_prev := s.1; pl_rest := s.2; pl_caps := ∅ |} r.
Inductive reads : regexp -> spot -> spot -> Prop :=
  | R_One f prev x rest : f x = true -> reads (One f) (prev, x :: rest) (Some x, rest)
  | R_Empty p : reads Empty p p
  | R_Then a b p q t : reads a p q -> reads b q t -> reads (Then a b) p t
  | R_OrL a b p q : reads a p q -> reads (Or a b) p q
  | R_OrR a b p q : reads b p q -> reads (Or a b) p q
  | R_ManyNone g a p : reads (Many g a) p p
  | R_ManyMore g a p q t : reads a p q -> reads (Many g a) q t -> reads (Many g a) p t
  | R_Group n a p q : reads a p q -> reads (Group n a) p q
  | R_Assert r p : assertion r = true -> holds_in p r = true -> reads r p p.

(** What is read is taken off the front; reading nothing stays put. *)
Lemma reads_on r p q : reads r p q -> exists w, p.2 = w ++ q.2 /\ q.1 = match last w with Some x => Some x | None => p.1 end.
Proof.
  induction 1 as [f prev x rest Hf| p | a b p q t _ (w & Hw & Hq) _ (u & Hu & Ht) | | | | g a p q t _ (w & Hw & Hq) _ (u & Hu & Ht) | | r p];
    try done; try (by exists []).
  1: by exists [x].
  all: exists (w ++ u); split; [by rewrite Hw, Hu, app_assoc|]; rewrite Ht, last_app, Hq; by destruct (last u).
Qed.
Lemma reads_shorter r p q : reads r p q -> p = q \/ (length q.2 < length p.2)%nat.
Proof.
  intros (w & Hw & Hq)%reads_on. destruct w as [|x w]; [left|right; rewrite Hw, length_app; cbn; lia].
  destruct p, q. cbn in *. congruence.
Qed.

(** A continuation that looks only at where it is. *)
Definition by_spot (k : cont) : Prop := forall p p', spot_of p = spot_of p' -> is_Some (k p) <-> is_Some (k p').
Definition accepts (k : cont) (s : spot) : Prop := is_Some (k {| pl_prev := s.1; pl_rest := s.2; pl_caps := ∅ |}).
Lemma accepts_at k p : by_spot k -> accepts k (spot_of p) <-> is_Some (k p).
Proof. intros Hk. by apply Hk. Qed.
Lemma or_try_some a b : is_Some (or_try a b) <-> is_Some a \/ is_Some b.
Proof. destruct a; cbn; [naive_solver|]. split; [by right|]. by intros [[? [=]]|]. Qed.

(** A matcher of [r]: it succeeds exactly when some reading leads to where its
    continuation does. *)
Definition finds (r : regexp) (m : cont -> cont) : Prop :=
  forall k, by_spot k -> forall p, is_Some (m k p) <-> exists q, reads r (spot_of p) q /\ accepts k q.
Lemma finds_by_spot r m k : finds r m -> by_spot k -> by_spot (m k).
Proof. intros Hm Hk p p' E. by rewrite !(Hm k Hk), E. Qed.

(** The rounds that read something are enough. *)
Lemma many_rounds g a p q :
  reads (Many g a) p q <-> p = q \/ exists t, reads a p t /\ (length t.2 < length p.2)%nat /\ reads (Many g a) t q.
Proof.
  split.
  - remember (Many g a) as r eqn:Er. induction 1 as [| | | | | | g' a' p q t Ha _ Hm IH| | r p Hr]; try discriminate; [by left| |by subst].
    injection Er as <- <-. destruct (reads_shorter _ _ _ Ha) as [<-|Hl]; [by apply IH|]. right. by exists q.
  - intros [<-|(t & Ha & _ & Hm)]; [constructor|by eapply R_ManyMore].
Qed.
Lemma rounds_find g a m n k p :
  finds a m -> by_spot k -> (length (pl_rest p) <= n)%nat ->
  is_Some (rounds g m n k p) <-> exists q, reads (Many g a) (spot_of p) q /\ accepts k q.
Proof.
  intros Hm Hk. revert p. induction n as [|n IH]; intros p Hn; cbn [rounds].
  { rewrite <- (accepts_at k p Hk). split; [intros H; exists (spot_of p); split; [constructor|done]|].
    intros (q & [<-|(t & _ & Hl & _)]%many_rounds & H); [done|]. cbn in Hl. lia. }
  set (k' := fun q => if (length (pl_rest q) <? length (pl_rest p))%nat then rounds g m n k q else None).
  assert (forall q, is_Some (k' q) <-> (length (pl_rest q) < length (pl_rest p))%nat /\ exists t, reads (Many g a) (spot_of q) t /\ accepts k t) as Hk'.
  { intros q. unfold k'. destruct (Nat.ltb_spec (length (pl_rest q)) (length (pl_rest p))) as [Hl|Hl].
    - rewrite IH by lia. tauto.
    - split; [by intros []|]. intros [? _]. lia. }
  assert (by_spot k') as Hby.
  { intros q q' E. rewrite !Hk', E. injection E as _ E. by rewrite E. }
  assert (is_Some (m k' p) <-> exists q, reads a (spot_of p) q /\ (length q.2 < length (pl_rest p))%nat /\ exists t, reads (Many g a) q t /\ accepts k t) as Hmore.
  { rewrite (Hm k' Hby). split; intros (q & Ha & H); exists q; (split; [done|]).
    - apply Hk' in H. cbn in H. by destruct q.
    - apply Hk'. cbn. by destruct q. }
  transitivity (is_Some (m k' p) \/ is_Some (k p)); [destruct g; rewrite or_try_some; tauto|].
  rewrite Hmore, <- (accepts_at k p Hk). setoid_rewrite many_rounds at 2. split.
  - intros [(q & Ha & Hl & t & Ht & H)|H]; [exists t|exists (spot_of p)]; eauto 8.
  - intros (q & [<-|(t & Ha & Hl & Ht)] & H); [by right|left]. eauto 8.
Qed.

Lemma attempt_finds r : finds r (attempt r).
Proof.
  assert (forall r, assertion r = true -> forall k, by_spot k -> forall p,
            is_Some (if holds_at p r then k p else None) <-> exists q, reads r (spot_of p) q /\ accepts k q) as Has.
  { intros r' Hr k Hk p. assert (holds_at p r' = holds_in (spot_of p) r') as -> by by destruct r'. split.
    - destruct (holds_in _ _) eqn:E; [|by intros []]. intros H%accepts_at; [|done]. exists (spot_of p). split; [by apply R_Assert|done].
    - intros (q & Hq & H). assert (spot_of p = q /\ holds_in (spot_of p) r' = true) as [<- ->] by (by destruct Hq).
      by apply accepts_at. }
  induction r as [f| |a IHa b IHb|a IHa b IHb|g a IHa|n a IHa| | | | |]; intros k Hk p; cbn [attempt]; 
    try match goal with |- context [holds_at p ?r] => exact (Has r eq_refl k Hk p) end.
  - destruct p as [prev [|x rest] caps]; cbn.
    { split; [by intros []|]. intros (q & Hq & _). by inversion Hq. }
    destruct (f x) eqn:E.
    + rewrite <- (accepts_at k (step_over x rest _) Hk). split; [intros H; eexists; split; [by apply R_One|done]|].
      intros (q & Hq & H). by inversion Hq; subst.
    + split; [by intros []|]. intros (q & Hq & _). inversion Hq; subst; [congruence|done].
  - rewrite <- (accepts_at k p Hk). split; [intros H; eexists; split; [by apply R_Empty|done]|]. intros (q & Hq & H). by inversion Hq; subst.
  - rewrite (IHa (attempt b k) (finds_by_spot b _ k IHb Hk)). split.
    + intros (q & Ha & H). unfold accepts in H. rewrite (IHb k Hk) in H. destruct H as (t & Hb & H). exists t. split; [|done].
      eapply R_Then; [exact Ha|]. by destruct q.
    + intros (t & Ht & H). inversion Ht as [| |a' b' p' q t' Ha Hb| | | | | |]; subst; [|done]. exists q. split; [done|].
      unfold accepts. rewrite (IHb k Hk). exists t. split; [by destruct q|done].
  - rewrite or_try_some, (IHa k Hk), (IHb k Hk). split.
    + intros [(q & Hq & H)|(q & Hq & H)]; exists q; (split; [|done]); [by apply R_OrL|by apply R_OrR].
    + intros (q & Hq & H). inversion Hq; subst; [left|right|done]; by exists q.
  - by apply rounds_find.
  - assert (by_spot (fun q => k (captured n p q))) as Hc by (intros q q' E; by apply Hk).
    rewrite (IHa _ Hc). split; intros (q & Hq & H); exists q.
    + split; [by apply R_Group|]. revert H. by apply Hk.
    + inversion Hq; subst; [|done]. split; [done|]. revert H. by apply Hk.
Qed.

(** The matcher is right: it finds a match exactly when somewhere in the text
    some reading of the expression starts. *)
Theorem MatchString_reads r s :
  MatchString r s = true <-> exists before rest q, runes s = before ++ rest /\ reads r (last before, rest) q.
Proof.
  assert (forall rest prev, is_Some (find_from r prev rest) <->
            exists before rest' q, rest = before ++ rest' /\ reads r (match last before with Some x => Some x | None => prev end, rest') q) as Hf.
  { assert (by_spot Some) as Hs by done. induction rest as [|x rest IH]; intros prev; cbn [find_from];
      (destruct (match_here r prev _) as [q|] eqn:E;
        [split; [intros _; destruct (proj1 (attempt_finds r Some Hs _) (ex_intro _ q E)) as (t & Ht & _); by eexists [], _, t|by eauto]|]).
    - split; [by intros []|]. intros (before & rest' & q & [-> ->]%eq_sym%app_nil & Hq). exfalso.
      assert (is_Some (match_here r prev [])) as [? ?]
        by (apply (proj2 (attempt_finds r Some Hs _)); exists q; split; [exact Hq|by eexists]). congruence.
    - rewrite IH. split; intros (before & rest' & q & Hb & Hq).
      + exists (x :: before), rest', q. split; [by rewrite Hb|]. rewrite last_cons. revert Hq. by destruct (last before).
      + destruct before as [|y before].
        * exfalso. assert (is_Some (match_here r prev (x :: rest))) as [? ?] 
            by (apply (proj2 (attempt_finds r Some Hs _)); exists q; cbn in Hb; subst; split; [exact Hq|by eexists]).
          congruence.
        * injection Hb as <- Hb. exists before, rest', q. split; [done|]. revert Hq. rewrite last_cons. by destruct (last before). }
  unfold MatchString, FindSubmatch. rewrite bool_decide_eq_true, fmap_is_Some, Hf.
  split; intros (before & rest & q & Hb & Hq); exists before, rest, q; (split; [done|]); revert Hq; by destruct (last before).
Qed.
