(* ===== verification/RegexpSyntax.v ===== *)
(** * The syntax of regular expressions

    [regexp.Compile] on the syntax the design lint's patterns are written in:
    leading flags, alternation, groups that do not capture, classes, the escapes
    they use, assertions and repetition, lazy or not.  Other syntax is not read. *)
From S2P Require Import Prelude GoBytes GoText Json GoRegexp.

Record flags := { fl_fold : bool; fl_lines : bool; fl_dot : bool }.

Definition rune_is (c : byte) (r : rune) : bool := bool_decide (r = [c]).
Definition in_ascii (lo hi : Z) (r : rune) : bool := match r with [c] => (lo <=? byte_val c) && (byte_val c <=? hi) | _ => false end.
Definition one_byte (r : rune) : option byte := match r with [c] => Some c | _ => None end.

(** A rune of a pattern and what it stands for; the folds of ASCII letters are
    the only ones the patterns need. *)
Definition literal (f : flags) (r : rune) : rune -> bool :=
  match r with [c] => if fl_fold f then folds_to c else rune_is c | _ => fun x => bool_decide (x = r) end.
(** [\s], [\d] and [\w], which folds with two letters outside ASCII. *)
Definition perl_class (f : flags) (c : byte) : option (rune -> bool) :=
  if bool_decide (c = x73) then Some (fun r => bool_decide (r ∈ map (fun c => [c]) [x09; x0a; x0c; x0d; x20]))
  else if bool_decide (c = x64) then Some (in_ascii 48 57)
  else if bool_decide (c = x77) then
    Some (fun r => is_word (Some r) || fl_fold f && (bool_decide (r = [xc5; xbf]) || bool_decide (r = [xe2; x84; xaa])))
  else None.
(** An escaped rune: a class, a newline, or punctuation that stands for itself. *)
Definition escaped (f : flags) (c : byte) : option (rune -> bool) :=
  match perl_class f c with
  | Some k => Some k
  | None => if bool_decide (c = x6e) then Some (rune_is x0a)
            else if is_word (Some [c]) then None else Some (rune_is c)
  end.

(** The inside of a class, up to its bracket. *)
Fixpoint class_items (fuel : nat) (f : flags) (s : list rune) : option ((rune -> bool) * list rune) :=
  match fuel, s with
  | S fuel, r :: s =>
      if rune_is x5d r then Some (fun _ => false, s)
      else if rune_is x5c r then
        match s with
        | [c] :: s => k ← escaped f c; '(ks, s) ← class_items fuel f s; Some (fun x => k x || ks x, s)
        | _ => None
        end
      else
        match s with
        | dash :: hi :: s' =>
            if rune_is x2d dash && negb (rune_is x5d hi) then
              lo ← one_byte r; hi ← one_byte hi;
              '(ks, s) ← class_items fuel f s';
              Some (fun x => existsb (fun v => literal f [byte_of v] x) (map Z.of_nat (seq (Z.to_nat (byte_val lo)) (S (Z.to_nat (byte_val hi - byte_val lo))))) || ks x, s)
            else '(ks, s) ← class_items fuel f s; Some (fun x => literal f r x || ks x, s)
        | _ => '(ks, s) ← class_items fuel f s; Some (fun x => literal f r x || ks x, s)
        end
  | _, _ => None
  end.
Definition class_of (f : flags) (s : list rune) : option (regexp * list rune) :=
  match s with
  | r :: s' =>
      if rune_is x5e r then '(k, s) ← class_items (length s) f s'; Some (One (fun x => negb (k x)), s)
      else '(k, s) ← class_items (length s) f s; Some (One k, s)
  | [] => None
  end.

Fixpoint copies (n : nat) (a : regexp) : regexp := match n with O => Empty | S n => Then a (copies n a) end.
Fixpoint up_to (greedy : bool) (n : nat) (a : regexp) : regexp :=
  match n with
  | O => Empty
  | S n => if greedy then Or (Then a (up_to greedy n a)) Empty else Or Empty (Then a (up_to greedy n a))
  end.
Fixpoint decimal (s : list rune) (acc : Z) : Z * list rune :=
  match s with
  | [c] :: s' => if is_digit c then decimal s' (acc * 10 + (byte_val c - 48)) else (acc, s)
  | _ => (acc, s)
  end.
(** [{n,m}] after its brace. *)
Definition counts (s : list rune) : option (nat * nat * list rune) :=
  let '(lo, s) := decimal s 0 in
  match s with
  | comma :: s =>
      if rune_is x2c comma then
        let '(hi, s) := decimal s 0 in
        match s with close :: s => if rune_is x7d close then Some (Z.to_nat lo, Z.to_nat hi, s) else None | [] => None end
      else None
  | [] => None
  end.
Definition laziness (s : list rune) : bool * list rune :=
  match s with r :: s' => if rune_is x3f r then (false, s') else (true, s) | [] => (true, s) end.
(** What follows an item: how often it is there. *)
Definition quantified (a : regexp) (s : list rune) : option (regexp * list rune) :=
  match s with
  | r :: s' =>
      if rune_is x2a r then let '(g, s) := laziness s' in Some (Many g a, s)
      else if rune_is x2b r then let '(g, s) := laziness s' in Some (Then a (Many g a), s)
      else if rune_is x3f r then let '(g, s) := laziness s' in Some (up_to g 1 a, s)
      else if rune_is x7b r then
        '(lo, hi, s) ← counts s';
        let '(g, s) := laziness s in Some (Then (copies lo a) (up_to g (hi - lo) a), s)
      else Some (a, s)
  | [] => Some (a, s)
  end.

Definition joined (alts cat : list regexp) : regexp := alt_re (alts ++ [seq_re cat]).
(** Alternatives so far and the items of this one; up to a closing parenthesis. *)
Fixpoint parse (fuel : nat) (f : flags) (alts cat : list regexp) (s : list rune) : option (regexp * list rune) :=
  match fuel, s with
  | _, [] => Some (joined alts cat, [])
  | S fuel, r :: s' =>
      let item a s := '(q, s) ← quantified a s; parse fuel f alts (cat ++ [q]) s in
      if rune_is x29 r then Some (joined alts cat, s)
      else if rune_is x7c r then parse fuel f (alts ++ [seq_re cat]) [] s'
      else if rune_is x28 r then
        match s' with
        | q :: colon :: s' =>
            if rune_is x3f q && rune_is x3a colon then
              '(a, s) ← parse fuel f [] [] s';
              match s with close :: s => if rune_is x29 close then item a s else None | [] => None end
            else None
        | _ => None
        end
      else if rune_is x5b r then '(a, s) ← class_of f s'; item a s
      else if rune_is x5c r then
        match s' with
        | [c] :: s =>
            if bool_decide (c = x62) then item WordBoundary s
            else if bool_decide (c = x7a) then item TextEnd s
            else k ← escaped f c; item (One k) s
        | _ => None
        end
      else if rune_is x5e r then item (if fl_lines f then LineStart else TextStart) s'
      else if rune_is x24 r then item (if fl_lines f then LineEnd else TextEnd) s'
      else if rune_is x2e r then item (if fl_dot f then any else any_but_newline) s'
      else if bool_decide (r ∈ map (fun c => [c]) [x2a; x2b; x3f; x7b]) then None
      else item (One (literal f r)) s'
  | O, _ => None
  end.

(** [(?flags)] at the start. *)
Fixpoint flag_letters (s : list rune) (f : flags) : option (flags * list rune) :=
  match s with
  | [c] :: s =>
      if bool_decide (c = x29) then Some (f, s)
      else if bool_decide (c = x69) then flag_letters s {| fl_fold := true; fl_lines := fl_lines f; fl_dot := fl_dot f |}
      else if bool_decide (c = x6d) then flag_letters s {| fl_fold := fl_fold f; fl_lines := true; fl_dot := fl_dot f |}
      else if bool_decide (c = x73) then flag_letters s {| fl_fold := fl_fold f; fl_lines := fl_lines f; fl_dot := true |}
      else None
  | _ => None
  end.
Definition Compile (pattern : string) : option regexp :=
  let s := runes (to_bytes pattern) in
  let zero := {| fl_fold := false; fl_lines := false; fl_dot := false |} in
  let '(f, body) := match s with
                    | p :: q :: s' => if rune_is x28 p && rune_is x3f q then default (zero, s) (flag_letters s' zero) else (zero, s)
                    | _ => (zero, s)
                    end in
  '(r, rest) ← parse (S (length body)) f [] [] body;
  if bool_decide (rest = []) then Some r else None.
(** [regexp.MustCompile] of a pattern of the program. *)
Definition MustCompile (pattern : string) : regexp := default (One (fun _ => false)) (Compile pattern).

Definition matches (pattern : string) (s : string) : option bool := (fun r => MatchString r (to_bytes s)) <$> Compile pattern.
Example compiled : map (fun ps => matches ps.1 ps.2)
  [("(?im)\bP10\b", "see p10."); ("(?im)\bP10\b", "P101"); ("a{0,2}b$", "xaaab"); ("^a{0,2}b$", "aaab"); ("^[^.;]{1,3}x", "a;x");
   ("(?:a|b)+?c", "abc"); ("(?i)K\w", (of_bytes [xe2; x84; xaa; xc5; xbf])); ("G\d\d c", "G33 c"); ("a(b", "ab"); ("(?m)^b", (of_bytes [x61; x0a; x62]));
   ("^b", (of_bytes [x61; x0a; x62])); ("[a-c-]", "-"); ("P10 — d", "P10 — d")]%string
  = [Some true; Some false; Some true; Some false; Some false; Some true; Some true; Some true; None; Some true; Some false; Some true; Some true].
Proof. vm_compute. done. Qed.
