(* ===== verification/Config.v ===== *)
(** * Configuration

    Models [internal/config]: where a binary looks for its file ([config.go]),
    and how the server's and the agent's files are read ([server.go],
    [agent.go]).  What a successful read returns is always a configuration the
    rest of the program can run with, and every such configuration can be
    written down and read back. *)
From S2P Require Import Prelude GoBytes GoTime GoText GoPath GoScan.

(** ** Where the file is ([config.go]) *)

Definition RoleOperator : string := "keystone".
Definition RoleServer : string := "keystone-server".
Definition RoleAgent : string := "keystone-agent".

Inductive config_err :=
  | ErrNotConfigured
  | ErrRelativePath (q v : string)
  | OpenFailed
  | ReadFailed
  | UnknownTable (line : Z) (table : string)
  | InvalidLine (line : Z)
  | DuplicateKey (line : Z) (q : string)
  | NotQuoted (q : string)
  | NotPositive (q : string)
  | ExceedsMaximum (q : string)
  | UnknownKey (q : string)
  | Required (q : string)
  | PartialEnrollment (present missing : list string)
  | NeedsRecordPath (q : string).

Definition absolute (varName v : string) : result config_err unit :=
  ensure (IsAbs v) (ErrRelativePath varName v).

Definition EnvOverride (r : string) : string :=
  if bool_decide (r = RoleOperator) then "KEYSTONE_CONFIG"
  else if bool_decide (r = RoleServer) then "KEYSTONE_SERVER_CONFIG"
  else if bool_decide (r = RoleAgent) then "KEYSTONE_AGENT_CONFIG"
  else "".

Definition is_empty (s : string) : bool := bool_decide (s = ""%string).

Definition SearchPath (r : string) (env : string -> string) : result config_err (list string) :=
  let v := env (EnvOverride r) in
  if negb (is_empty v) then
    _ ← absolute (EnvOverride r) v; Ok [v]
  else
    paths ← (if bool_decide (r = RoleOperator) then
               let x := env "XDG_CONFIG_HOME"%string in
               let h := env "HOME"%string in
               if negb (is_empty x) then
                 _ ← absolute "XDG_CONFIG_HOME" x; Ok [Join [x; "keystone"; "config.toml"]%string]
               else if negb (is_empty h) then
                 _ ← absolute "HOME" h; Ok [Join [h; ".config"; "keystone"; "config.toml"]%string]
               else Ok []
             else Ok []);
    Ok (paths ++ [Join ["/etc"; "keystone"; r +:+ ".toml"]%string]).

(** [stat] answers whether a path exists and is a directory. *)
Definition Locate (r : string) (env : string -> string) (stat : string -> option bool)
  : result config_err string :=
  candidates ← SearchPath r env;
  of_option (head (filter (fun p => stat p = Some false) candidates)) ErrNotConfigured.

(** ** A line *)

(** [stripComment]: from rune to rune, up to a [#] outside a quoted string. *)
Fixpoint strip_comment_from (fuel : nat) (quoted escaped : bool) (s : bytes) : bytes :=
  match fuel, s with
  | S fuel', c :: _ =>
      let n := default 1%nat (Json.rune_width s) in
      let go quoted escaped := take n s ++ strip_comment_from fuel' quoted escaped (drop n s) in
      if escaped then go quoted false
      else if quoted && bool_decide (c = backslash) then go quoted true
      else if bool_decide (c = dquote) then go (negb quoted) escaped
      else if bool_decide (c = x23) && negb quoted then []
      else go quoted escaped
  | _, _ => []
  end.
Definition stripComment (line : bytes) : bytes := strip_comment_from (length line) false false line.

Definition bracketed (raw : bytes) : bool := prefix_of [x5b] raw && prefix_of [x5d] (rev raw).

(** Where a value is kept: what a pointer into the configuration gives. *)
Record pointer (C A : Type) := { deref : C -> A; store : A -> C -> C }.
Arguments deref {C A} p c.
Arguments store {C A} p a c.

(** The entry of a table of cases, first match first. *)
Fixpoint case_of {A} (k : string) (l : list (string * A)) : option A :=
  match l with
  | [] => None
  | (k', a) :: l' => if bool_decide (k' = k) then Some a else case_of k l'
  end.

Record reading (C : Type) := Reading { rd_cfg : C; rd_seen : list string; rd_section : string }.
Arguments Reading {C} rd_cfg rd_seen rd_section.
Arguments rd_cfg {C} r.
Arguments rd_seen {C} r.
Arguments rd_section {C} r.

Section Lines.
Context {C : Type} (tables : list string) (set : string -> string -> string -> C -> result config_err C).

(** The body of the loop both readers are written around. *)
Definition read_line (line : Z) (text : bytes) (st : reading C) : result config_err (reading C) :=
  let raw := trim_space (stripComment text) in
  if bool_decide (raw = []) then Ok st
  else if bracketed raw then
    let section := of_bytes (trim_space (removelast (tail raw))) in
    _ ← ensure (bool_decide (section ∈ tables)) (UnknownTable line section);
    Ok (Reading (rd_cfg st) (rd_seen st) section)
  else
    match cut_at x3d raw with
    | None => Err (InvalidLine line)
    | Some (k, v) =>
        _ ← ensure (negb (is_empty (rd_section st))) (InvalidLine line);
        let key := of_bytes (trim_space k) in
        let value := of_bytes (trim_space v) in
        let q := (rd_section st +:+ "." +:+ key)%string in
        _ ← ensure (negb (bool_decide (q ∈ rd_seen st))) (DuplicateKey line q);
        c ← set (rd_section st) key value (rd_cfg st);
        Ok (Reading c (q :: rd_seen st) (rd_section st))
    end.

Fixpoint read_lines (line : Z) (ls : list bytes) (st : reading C) : result config_err (reading C) :=
  match ls with
  | [] => Ok st
  | l :: ls' => st ← read_line line l st; read_lines (line + 1) ls' st
  end.

(** The file's contents as far as they could be read, and whether that is all. *)
Definition read_file (file : option (bytes * bool)) (zero : C) : result config_err (reading C) :=
  '(contents, whole) ← of_option file OpenFailed;
  let '(lines, fit) := scan_lines contents in
  st ← read_lines 1 lines (Reading zero [] "");
  _ ← ensure (fit && whole) ReadFailed;
  Ok st.
End Lines.

(** A quoted, non-empty string. *)
Definition quoted_string (q value : string) : result config_err string :=
  v ← of_option (Unquote value) (NotQuoted q);
  _ ← ensure (negb (is_empty v)) (NotQuoted q);
  Ok v.

(** ** The server's file ([server.go]) *)

Definition DefaultMaxUnauthorizedConnections : Z := 32.
Definition DefaultAuthorizationTimeout : Duration := 5 * Second.
Definition DefaultMaxAuthorizedConnections : Z := 64.
Definition DefaultMaxFrameBytes : Z := 64 * 1024.
Definition MaxUnauthorizedConnections : Z := 1024.
Definition MaxAuthorizationTimeout : Duration := 5 * Minute.
Definition MaxAuthorizedConnections : Z := 4096.
Definition MaxFrameBytes : Z := 16 * 1024 * 1024.
Definition MaxFaultDelay : Duration := 5 * Minute.

Record Operator := {
  op_AdminGroup : string; op_MaxUnauthorizedConnections : Z; op_AuthorizationTimeout : Duration;
  op_MaxAuthorizedConnections : Z; op_MaxFrameBytes : Z }.
Record Faults := {
  OperatorHoldBeforeDecision : Duration; OperatorHoldBeforeResponse : Duration;
  EnrollmentHoldAfterActivation : Duration }.
Record NATS := {
  nt_URL : string; nt_CAFile : string; nt_ServerName : string; EnrollmentCredentials : string;
  PresenceCredentials : string; AccountSigningSeed : string }.
Record ServiceFiles := { SigningPrivateKeyFile : string; ResultEncryptionPublicKeyFile : string }.
Record Server := {
  sc_Operator : Operator; StorePath : string; sc_Faults : Faults; sc_NATS : NATS; sc_Service : ServiceFiles }.

#[export] Instance NATS_eq_dec : EqDecision NATS.
Proof. solve_decision. Defined.

Definition zero_NATS : NATS := Build_NATS "" "" "" "" "" "".
Definition Enrollment (c : Server) : bool := negb (bool_decide (sc_NATS c = zero_NATS)).

Definition enrollmentKeys : list string :=
  ["nats.url"; "nats.ca_file"; "nats.server_name"; "nats.enrollment_credentials";
   "nats.presence_credentials"; "nats.account_signing_seed"; "service.signing_private_key_file";
   "service.result_encryption_public_key_file"]%string.

Definition default_server : Server :=
  {| sc_Operator := Build_Operator "" DefaultMaxUnauthorizedConnections DefaultAuthorizationTimeout
       DefaultMaxAuthorizedConnections DefaultMaxFrameBytes;
     StorePath := ""; sc_Faults := Build_Faults 0 0 0; sc_NATS := zero_NATS;
     sc_Service := Build_ServiceFiles "" "" |}.

Definition on_operator (f : Operator -> Operator) (c : Server) : Server :=
  Build_Server (f (sc_Operator c)) (StorePath c) (sc_Faults c) (sc_NATS c) (sc_Service c).
Definition on_faults (f : Faults -> Faults) (c : Server) : Server :=
  Build_Server (sc_Operator c) (StorePath c) (f (sc_Faults c)) (sc_NATS c) (sc_Service c).
Definition on_nats (f : NATS -> NATS) (c : Server) : Server :=
  Build_Server (sc_Operator c) (StorePath c) (sc_Faults c) (f (sc_NATS c)) (sc_Service c).
Definition on_service (f : ServiceFiles -> ServiceFiles) (c : Server) : Server :=
  Build_Server (sc_Operator c) (StorePath c) (sc_Faults c) (sc_NATS c) (f (sc_Service c)).

(** [stringKey]: where each quoted-string key is kept. *)
Definition string_keys : list (string * pointer Server string) :=
  let nats get set := {| deref c := get (sc_NATS c); store v := on_nats (set v) |} in
  let service get set := {| deref c := get (sc_Service c); store v := on_service (set v) |} in
  [("operator.admin_group"%string,
     {| deref c := op_AdminGroup (sc_Operator c);
        store v := on_operator (fun o => Build_Operator v (op_MaxUnauthorizedConnections o) (op_AuthorizationTimeout o)
                                           (op_MaxAuthorizedConnections o) (op_MaxFrameBytes o)) |});
   ("store.path"%string,
     {| deref := StorePath;
        store v c := Build_Server (sc_Operator c) v (sc_Faults c) (sc_NATS c) (sc_Service c) |});
   ("nats.url"%string, nats nt_URL (fun v n =>
     Build_NATS v (nt_CAFile n) (nt_ServerName n) (EnrollmentCredentials n) (PresenceCredentials n) (AccountSigningSeed n)));
   ("nats.ca_file"%string, nats nt_CAFile (fun v n =>
     Build_NATS (nt_URL n) v (nt_ServerName n) (EnrollmentCredentials n) (PresenceCredentials n) (AccountSigningSeed n)));
   ("nats.server_name"%string, nats nt_ServerName (fun v n =>
     Build_NATS (nt_URL n) (nt_CAFile n) v (EnrollmentCredentials n) (PresenceCredentials n) (AccountSigningSeed n)));
   ("nats.enrollment_credentials"%string, nats EnrollmentCredentials (fun v n =>
     Build_NATS (nt_URL n) (nt_CAFile n) (nt_ServerName n) v (PresenceCredentials n) (AccountSigningSeed n)));
   ("nats.presence_credentials"%string, nats PresenceCredentials (fun v n =>
     Build_NATS (nt_URL n) (nt_CAFile n) (nt_ServerName n) (EnrollmentCredentials n) v (AccountSigningSeed n)));
   ("nats.account_signing_seed"%string, nats AccountSigningSeed (fun v n =>
     Build_NATS (nt_URL n) (nt_CAFile n) (nt_ServerName n) (EnrollmentCredentials n) (PresenceCredentials n) v));
   ("service.signing_private_key_file"%string, service SigningPrivateKeyFile (fun v s =>
     Build_ServiceFiles v (ResultEncryptionPublicKeyFile s)));
   ("service.result_encryption_public_key_file"%string, service ResultEncryptionPublicKeyFile (fun v s =>
     Build_ServiceFiles (SigningPrivateKeyFile s) v))].
Definition stringKey (q : string) : option (pointer Server string) := case_of q string_keys.

Definition pathKey (q : string) : bool :=
  negb (bool_decide (q ∈ ["operator.admin_group"; "nats.url"; "nats.server_name"]%string)).

Definition milliseconds (n : Z) : Duration := int64 (n * Millisecond).

(** The numeric keys, each with its maximum and what it sets. *)
Definition number_keys : list (string * (Z * (Z -> Server -> Server))) :=
  let fault set := (MaxFaultDelay / Millisecond, fun n => on_faults (set (milliseconds n))) in
  [("operator.max_unauthorized_connections"%string, (MaxUnauthorizedConnections, fun n =>
     on_operator (fun o => Build_Operator (op_AdminGroup o) n (op_AuthorizationTimeout o)
       (op_MaxAuthorizedConnections o) (op_MaxFrameBytes o))));
   ("operator.authorization_timeout_ms"%string, (MaxAuthorizationTimeout / Millisecond, fun n =>
     on_operator (fun o => Build_Operator (op_AdminGroup o) (op_MaxUnauthorizedConnections o) (milliseconds n)
       (op_MaxAuthorizedConnections o) (op_MaxFrameBytes o))));
   ("operator.max_authorized_connections"%string, (MaxAuthorizedConnections, fun n =>
     on_operator (fun o => Build_Operator (op_AdminGroup o) (op_MaxUnauthorizedConnections o)
       (op_AuthorizationTimeout o) n (op_MaxFrameBytes o))));
   ("operator.max_frame_bytes"%string, (MaxFrameBytes, fun n =>
     on_operator (fun o => Build_Operator (op_AdminGroup o) (op_MaxUnauthorizedConnections o)
       (op_AuthorizationTimeout o) (op_MaxAuthorizedConnections o) (uint32 n))));
   ("faults.operator_hold_before_decision_ms"%string, fault (fun d f =>
     Build_Faults d (OperatorHoldBeforeResponse f) (EnrollmentHoldAfterActivation f)));
   ("faults.operator_hold_before_response_ms"%string, fault (fun d f =>
     Build_Faults (OperatorHoldBeforeDecision f) d (EnrollmentHoldAfterActivation f)));
   ("faults.enrollment_server_hold_after_activation_commit_ms"%string, fault (fun d f =>
     Build_Faults (OperatorHoldBeforeDecision f) (OperatorHoldBeforeResponse f) d))].

Definition setServerValue (section key value : string) (c : Server) : result config_err Server :=
  let q := (section +:+ "." +:+ key)%string in
  match stringKey q with
  | Some target =>
      v ← quoted_string q value;
      _ ← ensure (negb (pathKey q && negb (IsAbs v))) (ErrRelativePath q v);
      Ok (store target v c)
  | None =>
      n ← of_option (ParseInt64 value) (NotPositive q);
      _ ← ensure (0 <? n) (NotPositive q);
      '(max, set) ← of_option (case_of q number_keys) (UnknownKey q);
      _ ← ensure (negb (max <? n)) (ExceedsMaximum q);
      Ok (set n c)
  end.

Definition server_tables : list string := ["operator"; "store"; "faults"; "nats"; "service"]%string.

Definition LoadServer (file : option (bytes * bool)) : result config_err Server :=
  st ← read_file server_tables setServerValue file default_server;
  let c := rd_cfg st in
  _ ← ensure (negb (is_empty (op_AdminGroup (sc_Operator c)))) (Required "operator.admin_group");
  _ ← ensure (negb (is_empty (StorePath c))) (Required "store.path");
  let present := filter (fun k => k ∈ rd_seen st) enrollmentKeys in
  let missing := filter (fun k => k ∉ rd_seen st) enrollmentKeys in
  _ ← ensure (negb (negb (bool_decide (present = [])) && negb (bool_decide (missing = []))))
        (PartialEnrollment present missing);
  Ok c.

(** ** The agent's file ([agent.go]) *)

Record AgentNATS := { an_URL : string; an_CAFile : string; an_ServerName : string }.
Record AgentPaths := { IdentityPath : string; PrivateKeysPath : string; LedgerPath : string }.
Record AgentFaults := {
  RecordPath : string; HoldBeforeRequest : Duration; HoldAfterCredentialReply : Duration;
  HoldAfterIdentityWrite : Duration; HoldAfterPermanentProof : Duration; HoldBeforeConfirmation : Duration }.
Record AgentConfig := { ac_NATS : AgentNATS; ac_Agent : AgentPaths; ac_Faults : AgentFaults }.

Definition AgentHolds (f : AgentFaults) : list (string * Duration) :=
  [("enrollment_agent_hold_before_request_ms"%string, HoldBeforeRequest f);
   ("enrollment_agent_hold_after_credential_reply_ms"%string, HoldAfterCredentialReply f);
   ("enrollment_agent_hold_after_identity_write_ms"%string, HoldAfterIdentityWrite f);
   ("enrollment_agent_hold_after_permanent_proof_ms"%string, HoldAfterPermanentProof f);
   ("enrollment_agent_hold_before_confirmation_ms"%string, HoldBeforeConfirmation f)].

Definition zero_agent : AgentConfig :=
  Build_AgentConfig (Build_AgentNATS "" "" "") (Build_AgentPaths "" "" "") (Build_AgentFaults "" 0 0 0 0 0).

Definition on_agent_nats (f : AgentNATS -> AgentNATS) (c : AgentConfig) : AgentConfig :=
  Build_AgentConfig (f (ac_NATS c)) (ac_Agent c) (ac_Faults c).
Definition on_agent_paths (f : AgentPaths -> AgentPaths) (c : AgentConfig) : AgentConfig :=
  Build_AgentConfig (ac_NATS c) (f (ac_Agent c)) (ac_Faults c).
Definition on_agent_faults (f : AgentFaults -> AgentFaults) (c : AgentConfig) : AgentConfig :=
  Build_AgentConfig (ac_NATS c) (ac_Agent c) (f (ac_Faults c)).

(** [targets] and [holds]: where each key is kept. *)
Definition targets : list (string * pointer AgentConfig string) :=
  let nats get set := {| deref c := get (ac_NATS c); store v := on_agent_nats (set v) |} in
  let path get set := {| deref c := get (ac_Agent c); store v := on_agent_paths (set v) |} in
  [("nats.url"%string, nats an_URL (fun v n => Build_AgentNATS v (an_CAFile n) (an_ServerName n)));
   ("nats.ca_file"%string, nats an_CAFile (fun v n => Build_AgentNATS (an_URL n) v (an_ServerName n)));
   ("nats.server_name"%string, nats an_ServerName (fun v n => Build_AgentNATS (an_URL n) (an_CAFile n) v));
   ("agent.identity_path"%string, path IdentityPath (fun v p => Build_AgentPaths v (PrivateKeysPath p) (LedgerPath p)));
   ("agent.private_keys_path"%string, path PrivateKeysPath (fun v p => Build_AgentPaths (IdentityPath p) v (LedgerPath p)));
   ("agent.ledger_path"%string, path LedgerPath (fun v p => Build_AgentPaths (IdentityPath p) (PrivateKeysPath p) v));
   ("faults.record_path"%string,
     {| deref c := RecordPath (ac_Faults c);
        store v := on_agent_faults (fun f => Build_AgentFaults v (HoldBeforeRequest f) (HoldAfterCredentialReply f)
          (HoldAfterIdentityWrite f) (HoldAfterPermanentProof f) (HoldBeforeConfirmation f)) |})].

Definition holds : list (string * pointer AgentConfig Duration) :=
  let hold get set := {| deref c := get (ac_Faults c); store d := on_agent_faults (set d) |} in
  [("faults.enrollment_agent_hold_before_request_ms"%string, hold HoldBeforeRequest (fun d f =>
     Build_AgentFaults (RecordPath f) d (HoldAfterCredentialReply f) (HoldAfterIdentityWrite f)
       (HoldAfterPermanentProof f) (HoldBeforeConfirmation f)));
   ("faults.enrollment_agent_hold_after_credential_reply_ms"%string, hold HoldAfterCredentialReply (fun d f =>
     Build_AgentFaults (RecordPath f) (HoldBeforeRequest f) d (HoldAfterIdentityWrite f)
       (HoldAfterPermanentProof f) (HoldBeforeConfirmation f)));
   ("faults.enrollment_agent_hold_after_identity_write_ms"%string, hold HoldAfterIdentityWrite (fun d f =>
     Build_AgentFaults (RecordPath f) (HoldBeforeRequest f) (HoldAfterCredentialReply f) d
       (HoldAfterPermanentProof f) (HoldBeforeConfirmation f)));
   ("faults.enrollment_agent_hold_after_permanent_proof_ms"%string, hold HoldAfterPermanentProof (fun d f =>
     Build_AgentFaults (RecordPath f) (HoldBeforeRequest f) (HoldAfterCredentialReply f) (HoldAfterIdentityWrite f)
       d (HoldBeforeConfirmation f)));
   ("faults.enrollment_agent_hold_before_confirmation_ms"%string, hold HoldBeforeConfirmation (fun d f =>
     Build_AgentFaults (RecordPath f) (HoldBeforeRequest f) (HoldAfterCredentialReply f) (HoldAfterIdentityWrite f)
       (HoldAfterPermanentProof f) d))].

Definition setAgentValue (section key value : string) (c : AgentConfig) : result config_err AgentConfig :=
  let q := (section +:+ "." +:+ key)%string in
  match case_of q holds with
  | Some hold =>
      n ← of_option (ParseInt64 value) (NotPositive q);
      _ ← ensure (negb ((n <=? 0) || (MaxFaultDelay / Millisecond <? n))) (NotPositive q);
      Ok (store hold (milliseconds n) c)
  | None =>
      target ← of_option (case_of q targets) (UnknownKey q);
      v ← quoted_string q value;
      _ ← ensure (negb (negb (bool_decide (q = "nats.url"%string)) && negb (bool_decide (q = "nats.server_name"%string))
                        && negb (IsAbs v))) (ErrRelativePath q v);
      Ok (store target v c)
  end.

Definition agent_tables : list string := ["nats"; "agent"; "faults"]%string.

(** The keys are asked for in no particular order: a map's. *)
Definition LoadAgent (file : option (bytes * bool)) : result config_err AgentConfig :=
  st ← read_file agent_tables setAgentValue file zero_agent;
  let c := rd_cfg st in
  _ ← match filter (fun q => (q ∉ rd_seen st) /\ q <> "faults.record_path"%string) (map fst targets) with
      | q :: _ => Err (Required q)
      | [] => Ok tt
      end;
  _ ← match filter (fun h => 0 < h.2) (AgentHolds (ac_Faults c)) with
      | h :: _ => ensure (negb (is_empty (RecordPath (ac_Faults c)))) (NeedsRecordPath h.1)
      | [] => Ok tt
      end;
  Ok c.
