(* ===== verification/ConfigText.v ===== *)
(** * Configuration files as text

    What the two configuration readers share: an invariant of what was read so
    far, pointers that do not overlap, and a way to write assignments down that
    the readers read back. *)
From S2P Require Import Prelude GoBytes GoTime GoText GoPath Json GoScan Config.

(** ** Reading line by line *)

Section Reading.
Context {C : Type} (tables : list string) (set : string -> string -> string -> C -> result config_err C).

(** What holds of the configuration and the keys seen so far, if every
    assignment keeps it. *)
Lemma read_lines_inv (I : C -> list string -> Prop) line ls st st' :
  (forall s k v c c' seen, set s k v c = Ok c' -> (s +:+ "." +:+ k)%string ∉ seen -> I c seen ->
    I c' ((s +:+ "." +:+ k)%string :: seen)) ->
  read_lines tables set line ls st = Ok st' -> I (rd_cfg st) (rd_seen st) -> I (rd_cfg st') (rd_seen st').
Proof.
  intros HI. revert line st. induction ls as [|l ls IH]; intros line st; cbn [read_lines].
  { by intros [= <-]. }
  intros (st1 & H1 & H2)%bind_ok_inv Hst. apply (IH _ _ H2). clear IH H2.
  unfold read_line in H1. case_bool_decide; [by injection H1 as <-|].
  destruct (bracketed _); [by res_inv|]. destruct (cut_at _ _) as [[k v]|]; [|done].
  res_inv. bool_to_prop. cbn [rd_cfg rd_seen]. by eapply HI.
Qed.

Lemma read_file_inv (I : C -> list string -> Prop) file zero st' :
  (forall s k v c c' seen, set s k v c = Ok c' -> (s +:+ "." +:+ k)%string ∉ seen -> I c seen ->
    I c' ((s +:+ "." +:+ k)%string :: seen)) ->
  I zero [] -> read_file tables set file zero = Ok st' -> I (rd_cfg st') (rd_seen st').
Proof.
  intros HI Hz. unfold read_file. intros ([contents whole] & _ & H)%bind_ok_inv.
  destruct (scan_lines contents) as [ls fit]. res_inv. eapply (read_lines_inv I); [exact HI | eassumption | done].
Qed.
End Reading.

(** ** Pointers that do not overlap *)

Lemma case_of_in {A} k (l : list (string * A)) a : case_of k l = Some a -> (k, a) ∈ l.
Proof.
  induction l as [|[k' a'] l IH]; [done|]. cbn [case_of]. case_bool_decide; [|right; auto].
  intros [= ->]. subst. by left.
Qed.

(** What a table of pointers is: each gives back what was stored through it and
    nothing else of the table changes. *)
Definition separate {C A} (l : list (string * pointer C A)) : Prop :=
  Forall (fun p => Forall (fun q => forall v c,
    deref q.2 (store p.2 v c) = if bool_decide (q.1 = p.1) then v else deref q.2 c) l) l.
Definition untouched {C A X} (f : X -> C -> C) (l : list (string * pointer C A)) : Prop :=
  Forall (fun q => forall x c, deref q.2 (f x c) = deref q.2 c) l.

Section Tracked.
Context {C : Type} (l : list (string * pointer C string)) (is_path : string -> bool).

(** The strings that are set are those whose keys were seen; paths are absolute. *)
Definition tracked (c : C) (seen : list string) : Prop :=
  Forall (fun q => (deref q.2 c <> ""%string <-> q.1 ∈ seen)
    /\ (is_path q.1 = true -> deref q.2 c <> ""%string -> IsAbs (deref q.2 c) = true)) l.

Lemma tracked_store q p v c seen :
  separate l -> (q, p) ∈ l -> v <> ""%string -> (is_path q = true -> IsAbs v = true) ->
  tracked c seen -> tracked (store p v c) (q :: seen).
Proof.
  unfold separate, tracked. rewrite !Forall_forall. intros Hs Hq Hv Hp Ht x Hx.
  pose proof (Hs _ Hq) as Hs'. rewrite Forall_forall in Hs'.
  specialize (Hs' x Hx v c). cbn [fst snd] in Hs'. rewrite Hs'.
  rewrite elem_of_cons. case_bool_decide as E; [rewrite E; naive_solver|].
  destruct (Ht x Hx) as [H1 H2]. naive_solver.
Qed.

Lemma tracked_other {X} (f : X -> C -> C) x q c seen :
  untouched f l -> q ∉ map fst l -> tracked c seen -> tracked (f x c) (q :: seen).
Proof.
  unfold untouched, tracked. rewrite !Forall_forall. intros Hf Hq Ht y Hy.
  rewrite (Hf y Hy). destruct (Ht y Hy) as [H1 H2]. split; [|done]. rewrite elem_of_cons, H1.
  split; [auto|]. intros [<-|]; [|done]. destruct Hq. apply list_elem_of_fmap. by exists y.
Qed.
End Tracked.

Lemma case_of_none {A} k (l : list (string * A)) : case_of k l = None -> k ∉ map fst l.
Proof.
  induction l as [|[k' a] l IH]; cbn [case_of map fst]; [set_solver|]. case_bool_decide; [done|].
  intros H2. rewrite not_elem_of_cons. auto.
Qed.

(** ** Durations and paths *)

(** A whole number of milliseconds in a range. *)
Definition millis (lo hi : Z) (d : Duration) : Prop := exists n, lo <= n <= hi / Millisecond /\ d = n * Millisecond.

Definition abs_path (p : string) : Prop := IsAbs p = true.

Lemma milliseconds_small n hi : 0 <= n <= hi / Millisecond -> hi <= max_int64 -> milliseconds n = n * Millisecond.
Proof.
  intros Hn Hhi. unfold milliseconds. apply int64_small. unfold min_int64.
  pose proof (Z.mul_div_le hi Millisecond). change Millisecond with 1000000 in *. lia.
Qed.

Lemma millis_of n hi : 0 < n <= hi / Millisecond -> hi <= max_int64 -> millis 1 hi (milliseconds n).
Proof. intros Hn Hh. exists n. rewrite (milliseconds_small n hi); lia || split; lia. Qed.
Lemma millis_weaken hi d : millis 1 hi d -> millis 0 hi d.
Proof. intros (n & ? & ?). exists n. split; [lia | done]. Qed.

Lemma quoted_string_ok q value v : quoted_string q value = Ok v -> v <> ""%string.
Proof. unfold quoted_string. intros H. res_inv. unfold is_empty in *. by bool_to_prop. Qed.

Lemma filter_nil_all {A} (P : A -> Prop) `{forall x, Decision (P x)} l : filter P l = [] -> Forall (fun x => ~ P x) l.
Proof.
  induction l as [|x l IH]; [constructor|]. rewrite filter_cons. case_decide; [done|]. intros H'. constructor; auto.
Qed.

(** ** Writing a file down *)

(** Names of tables and keys, and numbers: none of the characters that mean
    something to the reader. *)
Definition word_byte (c : byte) : bool :=
  plain_byte c && negb (bool_decide (c ∈ [x20; x23; x3d; x5b; x5d])).
Definition word (s : bytes) : bool := negb (bool_decide (s = [])) && forallb word_byte s.
Definition quoted (s : bytes) : bytes := dquote :: s ++ [dquote].
Definition value_text (v : bytes) : Prop := word v = true \/ exists s, plain s = true /\ v = quoted s.

Lemma word_byte_spec c :
  word_byte c = true ->
  plain_byte c = true /\ c <> x23 /\ c <> x3d /\ is_space_ascii c = false /\ c <> x5b /\ c <> x5d.
Proof.
  unfold word_byte. intros [Hp Hn]%andb_true_iff. split; [done|].
  apply negb_true_iff, bool_decide_eq_false in Hn. rewrite !not_elem_of_cons in Hn. repeat split; try tauto.
  apply plain_byte_spec in Hp as [Hr _]. apply bool_decide_eq_false. rewrite !not_elem_of_cons.
  repeat split; try tauto; try (intros ->; vm_compute in Hr; naive_solver); apply not_elem_of_nil.
Qed.

Lemma strip_step fuel quoted escaped c s :
  byte_val c < 128 ->
  strip_comment_from (S fuel) quoted escaped (c :: s) =
    (let go quoted escaped := c :: strip_comment_from fuel quoted escaped s in
     if escaped then go quoted false
     else if quoted && bool_decide (c = backslash) then go quoted true
     else if bool_decide (c = dquote) then go (negb quoted) escaped
     else if bool_decide (c = x23) && negb quoted then []
     else go quoted escaped).
Proof. intros Hc. cbn [strip_comment_from rune_width]. by rewrite (proj2 (Z.ltb_lt _ _)). Qed.

Lemma strip_plain q s fuel rest :
  plain s = true -> (q = false -> x23 ∉ s) ->
  strip_comment_from (length s + fuel) q false (s ++ rest) = s ++ strip_comment_from fuel q false rest.
Proof.
  induction s as [|c s IH]; [done|]. cbn [plain forallb]. intros [Hc Hs]%andb_true_iff Hq.
  apply plain_byte_spec in Hc as (Hr & Hd & Hb). cbn [length Nat.add app].
  rewrite strip_step by lia. cbv zeta. rewrite (bool_decide_eq_false_2 _ Hb), (bool_decide_eq_false_2 _ Hd), andb_false_r.
  rewrite IH by (done || (intros E; specialize (Hq E); set_solver)).
  destruct q; [by rewrite andb_false_r|].
  rewrite bool_decide_eq_false_2; [done|]. intros ->. apply Hq; [done | by left].
Qed.

Lemma word_plain s : word s = true -> plain s = true /\ (x23 ∉ s) /\ (x3d ∉ s).
Proof.
  unfold word. intros [_ Hs]%andb_true_iff. unfold plain. rewrite !forallb_forall in *.
  assert (forall c, c ∈ s -> word_byte c = true) as H by (intros c Hc%list_elem_of_In; auto).
  split; [intros c Hc%list_elem_of_In; by apply H, word_byte_spec in Hc as [? _]|].
  split; intros Hc; by apply H, word_byte_spec in Hc as (_ & ? & ? & _).
Qed.

(** What is read is written so that nothing is taken for a comment. *)
Lemma strip_value v fuel : value_text v -> strip_comment_from (length v + fuel) false false v = v.
Proof.
  intros [(Hp & Hc & _)%word_plain|(s & Hp & ->)].
  - rewrite <- (app_nil_r v) at 2. rewrite strip_plain by done. destruct fuel; apply app_nil_r.
  - unfold quoted. cbn [length Nat.add]. rewrite strip_step by done. cbn [andb negb bool_decide]. f_equal.
    rewrite length_app, <- Nat.add_assoc.
    transitivity (strip_comment_from (length s + (length [dquote] + fuel)) true false (s ++ [dquote])); [done|].
    rewrite strip_plain by done. f_equal. cbn [length Nat.add]. rewrite strip_step by done.
    by destruct fuel.
Qed.

Lemma stripComment_value v : value_text v -> stripComment v = v.
Proof. intros Hv. unfold stripComment. rewrite <- (Nat.add_0_r (length v)). by apply strip_value. Qed.

Lemma stripComment_entry k v : word k = true -> value_text v -> stripComment (k ++ x3d :: v) = k ++ x3d :: v.
Proof.
  intros (Hp & Hc & _)%word_plain Hv. unfold stripComment. rewrite length_app, strip_plain by done. f_equal.
  cbn [length]. rewrite strip_step by done. cbn [andb negb bool_decide]. rewrite <- (Nat.add_0_r (length v)).
  f_equal. by apply strip_value.
Qed.

(** ... and so that nothing is trimmed. *)
Lemma word_solid c : word_byte c = true -> solid c = true.
Proof.
  intros (Hp & _ & _ & Hs & _)%word_byte_spec. apply plain_byte_spec in Hp as [Hr _].
  unfold solid. rewrite Hs. apply andb_true_iff. split; [by apply Z.ltb_lt; lia | done].
Qed.

(** A word or a quoted text has solid ends. *)
Lemma word_ends s :
  word s = true -> (exists c t, s = c :: t /\ word_byte c = true) /\ (exists c t, s = t ++ [c] /\ word_byte c = true).
Proof.
  unfold word. intros [Hn Hs]%andb_true_iff. rewrite forallb_forall in Hs.
  destruct s as [|c t]; [done|]. split; [exists c, t; split; [done | by apply Hs; left]|].
  destruct (exists_last (l := c :: t)) as (u & d & E); [done|]. exists d, u. split; [done|].
  apply Hs. rewrite E. apply in_or_app. right. by left.
Qed.

Lemma value_ends v :
  value_text v -> (exists c t, v = c :: t /\ solid c = true) /\ (exists c t, v = t ++ [c] /\ solid c = true).
Proof.
  intros [[(c & t & -> & Hc) (d & u & E & Hd)]%word_ends|(s & _ & ->)].
  - split; [exists c, t | exists d, u]; auto using word_solid.
  - split; [by exists dquote, (s ++ [dquote]) | by exists dquote, (dquote :: s)].
Qed.

Lemma trim_value v : value_text v -> trim_space v = v.
Proof. intros [? ?]%value_ends. by apply trim_space_solid. Qed.

(** ** Reading it back *)

Section Writing.
Context {C : Type} (tables : list string) (set : string -> string -> string -> C -> result config_err C).

(** A table and its assignments, each a key and the text of its value. *)
Definition entry_text (a : string * bytes) : bytes := to_bytes a.1 ++ x3d :: a.2.
Definition table_text (t : string * list (string * bytes)) : list bytes :=
  (x5b :: to_bytes t.1 ++ [x5d]) :: map entry_text t.2.
Definition file_lines (ts : list (string * list (string * bytes))) : list bytes := concat (map table_text ts).
Definition file_text (ts : list (string * list (string * bytes))) : bytes :=
  concat (map (fun l => l ++ [newline]) (file_lines ts)).

Definition qualified (section : string) (a : string * bytes) : string := (section +:+ "." +:+ a.1)%string.

(** What the assignments come to. *)
Fixpoint assign (section : string) (l : list (string * bytes)) (c : C) : result config_err C :=
  match l with
  | [] => Ok c
  | (k, v) :: l' => c' ← set section k (of_bytes v) c; assign section l' c'
  end.
Fixpoint assign_all (ts : list (string * list (string * bytes))) (c : C) : result config_err C :=
  match ts with
  | [] => Ok c
  | (s, l) :: ts' => c' ← assign s l c; assign_all ts' c'
  end.
Definition all_keys (ts : list (string * list (string * bytes))) : list string :=
  concat (map (fun t => map (qualified t.1) t.2) ts).

Lemma bracketed_entry k v : word (to_bytes k) = true -> bracketed (entry_text (k, v)) = false.
Proof.
  intros [(c & t & E & (_ & _ & _ & _ & Hc & _)%word_byte_spec) _]%word_ends.
  unfold bracketed, entry_text. cbn [fst]. rewrite E. cbn [app prefix_of].
  by rewrite bool_decide_eq_false_2.
Qed.

Lemma cut_entry k v : word (to_bytes k) = true -> cut_at x3d (to_bytes k ++ x3d :: v) = Some (to_bytes k, v).
Proof.
  intros (_ & _ & Hk)%word_plain. induction (to_bytes k) as [|c t IH]; [done|].
  apply not_elem_of_cons in Hk as [Hc Ht]. cbn [app cut_at]. rewrite bool_decide_eq_false_2 by done.
  by rewrite IH.
Qed.

Lemma read_entry line k v c c' seen section :
  word (to_bytes k) = true -> value_text v -> section <> ""%string -> qualified section (k, v) ∉ seen ->
  set section k (of_bytes v) c = Ok c' ->
  read_line tables set line (entry_text (k, v)) (Reading c seen section)
  = Ok (Reading c' (qualified section (k, v) :: seen) section).
Proof.
  intros Hk Hv Hs Hq Hset. unfold read_line.
  assert (trim_space (stripComment (entry_text (k, v))) = to_bytes k ++ x3d :: v) as ->.
  { unfold entry_text. cbn [fst snd]. rewrite stripComment_entry by done.
    destruct (word_ends _ Hk) as [(c1 & t1 & E1 & Hc1) _]. destruct (value_ends _ Hv) as [_ (c2 & t2 & E2 & Hc2)].
    apply trim_space_solid; [exists c1, (t1 ++ x3d :: v) | exists c2, (to_bytes k ++ x3d :: t2)].
    - rewrite E1. auto using word_solid.
    - rewrite E2, <- app_assoc. auto. }
  rewrite bool_decide_eq_false_2 by (by destruct (to_bytes k)).
  pose proof (bracketed_entry k v Hk) as Hb. unfold entry_text in Hb. cbn [fst snd] in Hb. rewrite Hb.
  rewrite cut_entry by done. cbn [rd_section rd_seen rd_cfg].
  unfold is_empty. rewrite (bool_decide_eq_false_2 _ Hs). cbn [negb ensure].
  rewrite (trim_value v Hv), (trim_value (to_bytes k)) by (by left).
  rewrite of_to_bytes, ok_bind. fold (qualified section (k, v)). rewrite (bool_decide_eq_false_2 _ Hq).
  cbn [negb ensure]. by rewrite ok_bind, Hset.
Qed.

Lemma read_header line section c seen s0 :
  word (to_bytes section) = true -> section ∈ tables ->
  read_line tables set line (x5b :: to_bytes section ++ [x5d]) (Reading c seen s0) = Ok (Reading c seen section).
Proof.
  intros Hw Hin. pose proof (word_plain _ Hw) as (Hp & Hc & _). unfold read_line.
  assert (trim_space (stripComment (x5b :: to_bytes section ++ [x5d])) = x5b :: to_bytes section ++ [x5d]) as ->.
  { assert (stripComment (x5b :: to_bytes section ++ [x5d]) = x5b :: to_bytes section ++ [x5d]) as ->.
    { unfold stripComment. rewrite <- (Nat.add_0_r (length _)). rewrite <- (app_nil_r (x5b :: _)) at 2.
      rewrite strip_plain; [by rewrite app_nil_r | |].
      - cbn [plain forallb]. apply andb_true_iff. split; [done|]. unfold plain in Hp |- *. by rewrite forallb_app, Hp.
      - intros _. set_solver. }
    apply trim_space_solid; [by exists x5b, (to_bytes section ++ [x5d]) | by exists x5d, (x5b :: to_bytes section)]. }
  rewrite bool_decide_eq_false_2 by done.
  assert (bracketed (x5b :: to_bytes section ++ [x5d]) = true) as ->.
  { unfold bracketed. cbn [prefix_of rev]. rewrite rev_app_distr. by cbn. }
  cbn [tail]. rewrite removelast_last. rewrite trim_value by (by left). rewrite of_to_bytes, bool_decide_eq_true_2 by done. done.
Qed.

(** Every name a word, every value readable, no key twice. *)
Definition entry_ok (a : string * bytes) : Prop :=
  word (to_bytes a.1) = true /\ value_text a.2 /\ slen a.1 + zlen a.2 < MaxScanTokenSize - 1.
Definition table_ok (t : string * list (string * bytes)) : Prop :=
  word (to_bytes t.1) = true /\ slen t.1 < MaxScanTokenSize - 2 /\ t.1 ∈ tables /\ Forall entry_ok t.2.

Lemma read_entries line section l c c' seen rest :
  section <> ""%string -> Forall entry_ok l -> assign section l c = Ok c' ->
  NoDup (rev (map (qualified section) l) ++ seen) ->
  read_lines tables set line (map entry_text l ++ rest) (Reading c seen section)
  = read_lines tables set (line + zlen l) rest (Reading c' (rev (map (qualified section) l) ++ seen) section).
Proof.
  intros Hs Hl. revert line c seen. induction Hl as [|[k v] l (Hk & Hv & _) Hl IH]; intros line c seen; cbn [assign map app rev].
  { intros [= ->] _. cbn. by rewrite zlen_nil, Z.add_0_r. }
  intros (c1 & Hc1 & Ha)%bind_ok_inv Hd. rewrite <- app_assoc in Hd. cbn [read_lines app] in Hd |- *.
  rewrite (read_entry line k v c c1 seen section); [|done..| |done].
  - rewrite ok_bind, IH by done. by rewrite zlen_cons, Z.add_assoc, <- app_assoc.
  - apply NoDup_app in Hd as (_ & _ & Hd). by apply NoDup_cons in Hd as [? _].
Qed.

Lemma read_tables line ts c c' seen s0 :
  Forall table_ok ts -> assign_all ts c = Ok c' -> NoDup (rev (all_keys ts) ++ seen) ->
  exists s1, read_lines tables set line (file_lines ts) (Reading c seen s0)
    = Ok (Reading c' (rev (all_keys ts) ++ seen) s1).
Proof.
  intros Ht. revert line c seen s0.
  induction Ht as [|[s l] ts (Hw & _ & Hin & Hl) Ht IH]; intros line c seen s0; cbn [assign_all].
  { intros [= ->] _. by eexists. }
  intros (c1 & Hc1 & Ha)%bind_ok_inv. unfold all_keys, file_lines. cbn [map concat fst snd].
  fold (all_keys ts) (file_lines ts). rewrite rev_app_distr, <- app_assoc. intros Hd.
  unfold table_text. cbn [fst snd app read_lines]. rewrite read_header, ok_bind by done.
  assert (s <> ""%string) by (by intros ->).
  rewrite read_entries with (c' := c1); [by apply IH | done..|]. by apply NoDup_app in Hd as (_ & _ & Hd).
Qed.

Lemma word_no_newline s : plain s = true -> newline ∉ s.
Proof.
  unfold plain. rewrite forallb_forall. intros H Hn%list_elem_of_In%H. by vm_compute in Hn.
Qed.

Lemma last_snoc_ne (s : bytes) c : c <> x0d -> last (s ++ [c]) <> Some x0d.
Proof. intros Hc. rewrite last_snoc. congruence. Qed.

Lemma value_fits v : value_text v -> (newline ∉ v) /\ last v <> Some x0d.
Proof.
  intros [Hw|(s & Hs & ->)].
  - pose proof (word_plain _ Hw) as (Hp & _ & _). split; [by apply word_no_newline|].
    destruct (word_ends _ Hw) as [_ (c & t & -> & Hc)]. apply last_snoc_ne. intros ->. by vm_compute in Hc.
  - split; [|by apply (last_snoc_ne (dquote :: s))]. unfold quoted.
    apply word_no_newline in Hs. set_solver.
Qed.

Lemma file_lines_fit ts : Forall table_ok ts -> Forall fits_line (file_lines ts).
Proof.
  intros Ht. apply Forall_concat, Forall_map. eapply Forall_impl; [exact Ht|]. intros [s l] (Hw & Hz & _ & Hl).
  cbn [fst snd] in *. unfold table_text. constructor.
  - pose proof (word_plain _ Hw) as (Hp & _ & _). cbn [fst]. split; [|split].
    + apply word_no_newline in Hp. set_solver.
    + rewrite zlen_cons, zlen_app, zlen_cons, zlen_nil. unfold slen in Hz. lia.
    + by apply (last_snoc_ne (x5b :: to_bytes s)).
  - apply Forall_map. eapply Forall_impl; [exact Hl|]. intros [k v] (Hk & Hv & Hlen). cbn [fst snd] in *.
    destruct (value_fits _ Hv) as [Hn Hlast]. pose proof (word_plain _ Hk) as (Hp & _ & _). unfold entry_text. cbn [fst snd].
    split; [|split].
    + apply word_no_newline in Hp. set_solver.
    + rewrite zlen_app, zlen_cons. unfold slen in Hlen. lia.
    + destruct (value_ends _ Hv) as [_ (c & t & -> & _)]. rewrite last_snoc in Hlast.
      rewrite app_comm_cons, app_assoc, last_snoc. done.
Qed.

Lemma read_file_text ts c c' :
  Forall table_ok ts -> assign_all ts c = Ok c' -> NoDup (all_keys ts) ->
  exists s, read_file tables set (Some (file_text ts, true)) c = Ok (Reading c' (rev (all_keys ts)) s).
Proof.
  intros Ht Ha Hd. unfold read_file, file_text. cbn [of_option]. rewrite ok_bind.
  rewrite scan_lines_text by (by apply file_lines_fit).
  destruct (read_tables 1 ts c c' [] "" Ht Ha) as [s Hs].
  { rewrite app_nil_r, <- (Permutation_rev (all_keys ts)). done. }
  exists s. rewrite Hs, app_nil_r. done.
Qed.
End Writing.

(** ** Numbers, strings and holds as text *)

Definition num (n : Z) : bytes := to_bytes (FormatUint n).
Definition text (s : string) : bytes := quoted (to_bytes s).
(** A hold is written when there is one. *)
Definition hold_entry (k : string) (d : Duration) : list (string * bytes) :=
  if 0 <? d then [(k, num (d / Millisecond))] else [].

(** A string that fits on a line as it is. *)
Definition plain_text (s : string) : Prop := plain (to_bytes s) = true /\ slen s < 65000.

Lemma digits_word n : 0 <= n < 10 ^ 20 -> word (num n) = true /\ zlen (num n) <= 20.
Proof.
  intros Hn. unfold num, FormatUint. rewrite to_of_bytes.
  destruct (format_digits_shape 20 n) as (c & ds & [(E & Hc & Hds & _)|]); [lia| |done]. split.
  - rewrite E. unfold word. cbn [negb bool_decide andb]. apply forallb_forall. intros d Hd.
    assert (is_digit d = true) as H by (destruct Hd as [<-|Hd]; [done | rewrite forallb_forall in Hds; auto]).
    clear -H. unfold is_digit in H. res_inv. bool_to_prop. unfold word_byte, plain_byte.
    rewrite !andb_true_iff, !negb_true_iff, !bool_decide_eq_false, !Z.leb_le, !Z.ltb_lt.
    repeat split; try lia; try (intros ->; vm_compute in *; naive_solver).
    rewrite !not_elem_of_cons. repeat split; try (intros ->; vm_compute in *; naive_solver). apply not_elem_of_nil.
  - clear. unfold zlen. enough (forall k m, (length (format_digits k m) <= k)%nat) as H by (specialize (H 20%nat n); lia).
    intros k. induction k as [|k IH]; intros m; [done|]. cbn [format_digits]. case_match; [cbn; lia|].
    rewrite length_app. cbn. specialize (IH (m / 10)). lia.
Qed.

Lemma num_entry k n : word (to_bytes k) = true -> slen k < 1000 -> 0 <= n < 10 ^ 20 -> entry_ok (k, num n).
Proof.
  intros Hk Hl [Hw Hz]%digits_word. split; [done|]. split; [by left|]. cbn [fst snd].
  unfold MaxScanTokenSize. lia.
Qed.
Lemma text_entry k s : word (to_bytes k) = true -> slen k < 400 -> plain_text s -> entry_ok (k, text s).
Proof.
  intros Hk Hl [Hp Hz]. split; [done|]. split; [right; by exists (to_bytes s)|]. cbn [fst snd]. unfold text, quoted.
  rewrite zlen_cons, zlen_app, zlen_cons, zlen_nil. unfold slen in *. unfold MaxScanTokenSize. lia.
Qed.
Lemma hold_entries k d hi :
  word (to_bytes k) = true -> slen k < 1000 -> millis 0 hi d -> hi <= max_int64 -> Forall entry_ok (hold_entry k d).
Proof.
  intros Hk Hl (n & Hn & ->) Hh. unfold hold_entry. case_match; [|constructor]. constructor; [|constructor].
  rewrite Z.div_mul by done. apply num_entry; [done..|]. split; [lia|]. eapply Z.le_lt_trans; [apply Hn|].
  eapply Z.le_lt_trans; [apply (Z.div_le_mono _ max_int64 Millisecond); [done | done]|]. by vm_compute.
Qed.

Lemma quoted_string_text q s : plain_text s -> s <> ""%string -> quoted_string q (of_bytes (text s)) = Ok s.
Proof.
  intros [Hp _] Hs. unfold quoted_string, Unquote. rewrite to_of_bytes. unfold text, quoted. rewrite Unquote_plain by done.
  cbn [fmap option_fmap option_map of_option]. rewrite ok_bind, of_to_bytes. unfold is_empty.
  by rewrite bool_decide_eq_false_2.
Qed.
Lemma ParseInt64_num n : 0 <= n < 2 ^ 63 -> ParseInt64 (of_bytes (num n)) = Some n.
Proof. intros Hn. unfold num. rewrite of_to_bytes. by apply ParseInt64_FormatUint. Qed.

Lemma assign_app {C} set section l1 l2 (c : C) :
  assign set section (l1 ++ l2) c = c1 ← assign set section l1 c; assign set section l2 c1.
Proof.
  revert c. induction l1 as [|[k v] l1 IH]; intros c; [done|]. cbn [app assign].
  destruct (set _ _ _ _); [|done]. by rewrite !ok_bind, IH.
Qed.

Lemma assign_nil {C} set section (c : C) : assign set section [] c = Ok c.
Proof. done. Qed.
Lemma abs_nonempty p : abs_path p -> p <> ""%string.
Proof. by intros H ->. Qed.

Lemma millis_back lo hi d : millis lo hi d -> 0 <= lo -> hi <= max_int64 -> milliseconds (d / Millisecond) = d.
Proof. intros (n & Hn & ->) Hl Hh. rewrite Z.div_mul by done. eapply milliseconds_small; [|done]. lia. Qed.

(** A file whose names are literal. *)
Ltac write_entries :=
  repeat match goal with
  | |- Forall entry_ok (_ ++ _) => apply Forall_app; split
  | |- Forall entry_ok (hold_entry _ _) => eapply hold_entries; [by vm_compute | by vm_compute | eassumption | by vm_compute]
  | |- Forall entry_ok (_ :: _) => apply List.Forall_cons
  | |- Forall entry_ok [] => apply List.Forall_nil
  | |- entry_ok (_, text _) => apply text_entry; [by vm_compute | by vm_compute | assumption]
  | |- entry_ok (_, num _) => apply num_entry; [by vm_compute | by vm_compute | lia]
  end.
Ltac write_tables :=
  repeat match goal with
  | |- Forall (table_ok _) (_ :: _) => apply List.Forall_cons
  | |- Forall (table_ok _) [] => apply List.Forall_nil
  | |- table_ok _ (_, _) => split; [by vm_compute | split; [by vm_compute | split; [by apply (bool_decide_unpack _) | cbn [snd]; write_entries]]]
  end.
