(* ===== verification/ServerConfig.v ===== *)
(** * What a server's configuration is worth

    Every configuration [LoadServer] returns is well formed, and every
    well-formed one can be written down and read back. *)
From S2P Require Import Prelude GoBytes GoTime GoText GoPath Json GoScan Config ConfigText.

Lemma string_keys_separate : separate string_keys.
Proof. repeat constructor. Qed.
Lemma number_keys_untouched : Forall (fun k => untouched k.2.2 string_keys) number_keys.
Proof. repeat constructor. Qed.

(** ** What is read is well formed *)

Definition numbers_ok (c : Server) : Prop :=
  1 <= op_MaxUnauthorizedConnections (sc_Operator c) <= MaxUnauthorizedConnections
  /\ millis 1 MaxAuthorizationTimeout (op_AuthorizationTimeout (sc_Operator c))
  /\ 1 <= op_MaxAuthorizedConnections (sc_Operator c) <= MaxAuthorizedConnections
  /\ 1 <= op_MaxFrameBytes (sc_Operator c) <= MaxFrameBytes
  /\ millis 0 MaxFaultDelay (OperatorHoldBeforeDecision (sc_Faults c))
  /\ millis 0 MaxFaultDelay (OperatorHoldBeforeResponse (sc_Faults c))
  /\ millis 0 MaxFaultDelay (EnrollmentHoldAfterActivation (sc_Faults c)).

(** The enrollment half is there whole, its paths absolute, or not at all. *)
Definition enrollment_ok (c : Server) : Prop :=
  if Enrollment c then
    nt_URL (sc_NATS c) <> ""%string /\ abs_path (nt_CAFile (sc_NATS c)) /\ nt_ServerName (sc_NATS c) <> ""%string
    /\ abs_path (EnrollmentCredentials (sc_NATS c)) /\ abs_path (PresenceCredentials (sc_NATS c))
    /\ abs_path (AccountSigningSeed (sc_NATS c)) /\ abs_path (SigningPrivateKeyFile (sc_Service c))
    /\ abs_path (ResultEncryptionPublicKeyFile (sc_Service c))
  else sc_NATS c = zero_NATS /\ sc_Service c = Build_ServiceFiles "" "".

Record server_ok (c : Server) : Prop := {
  so_group : op_AdminGroup (sc_Operator c) <> ""%string;
  so_store : abs_path (StorePath c);
  so_numbers : numbers_ok c;
  so_enrollment : enrollment_ok c }.

Lemma strings_keep_numbers : Forall (fun k => forall v c, numbers_ok c -> numbers_ok (store k.2 v c)) string_keys.
Proof. unfold string_keys. repeat (apply List.Forall_cons; [by intros v c H|]). apply List.Forall_nil. Qed.

Lemma numbers_keep_numbers :
  Forall (fun k => forall n c, 0 < n <= k.2.1 -> numbers_ok c -> numbers_ok (k.2.2 n c)) number_keys.
Proof.
  unfold number_keys, numbers_ok.
  repeat (apply List.Forall_cons; [intros n c Hn (?&?&?&?&?&?&?); cbn in Hn |- *|]); [..|apply List.Forall_nil];
    repeat split; try done; try lia;
    try (apply millis_weaken); try (apply millis_of; [done | by vm_compute]);
    rewrite uint32_small; unfold MaxFrameBytes in *; lia.
Qed.

Definition server_inv (c : Server) (seen : list string) : Prop := tracked string_keys pathKey c seen /\ numbers_ok c.

Lemma server_inv_start : server_inv default_server [].
Proof.
  split.
  - repeat constructor; cbn; intros; try done; set_solver.
  - repeat split; cbn; try done; [exists 5000 | exists 0 ..]; by split.
Qed.

Lemma server_inv_set s k v c c' seen :
  setServerValue s k v c = Ok c' -> server_inv c seen -> server_inv c' ((s +:+ "." +:+ k)%string :: seen).
Proof.
  unfold setServerValue. generalize (s +:+ "." +:+ k)%string as q. intros q HS [Ht Hn].
  destruct (stringKey q) as [p|] eqn:Hq.
  - apply case_of_in in Hq. apply bind_ok_inv in HS as (x & Hx%quoted_string_ok & HS). res_inv. split.
    + eapply tracked_store; eauto using string_keys_separate.
      intros Hp. rewrite Hp in *. by destruct (IsAbs x).
    + by apply (Forall_in _ _ _ strings_keep_numbers Hq).
  - apply case_of_none in Hq. res_inv. destruct x1 as [max set].
    match goal with H : case_of q _ = Some _ |- _ => rename H into Hc end. apply case_of_in in Hc. res_inv. bool_to_prop. split.
    + apply tracked_other; [exact (Forall_in _ _ _ number_keys_untouched Hc) | done..].
    + apply (Forall_in _ _ _ numbers_keep_numbers Hc); cbn; [lia | done].
Qed.

Lemma server_inv_ok c seen :
  server_inv c seen -> op_AdminGroup (sc_Operator c) <> ""%string -> StorePath c <> ""%string ->
  (Forall (fun k => k ∈ seen) enrollmentKeys \/ Forall (fun k => k ∉ seen) enrollmentKeys) -> server_ok c.
Proof.
  intros [Ht Hn] Hg Hs He. unfold tracked in Ht.
  repeat (apply Forall_cons in Ht as [? Ht]). clear Ht. cbn [fst snd deref] in *. unfold pathKey in *.
  repeat match goal with H : context [negb (bool_decide (?k ∈ ?l))] |- _ =>
    let b := eval vm_compute in (negb (bool_decide (k ∈ l))) in
    change (negb (bool_decide (k ∈ l))) with b in H end.
  split; [done | match goal with H : _ /\ (_ -> StorePath c <> _ -> _) |- _ => by apply H end | done |].
  unfold enrollment_ok, Enrollment, abs_path.
  destruct c as [op sp fl [n1 n2 n3 n4 n5 n6] [s1 s2]]. cbn in *.
  destruct He as [He|He]; unfold enrollmentKeys in He; rewrite !Forall_cons in He;
    destruct He as (K1 & K2 & K3 & K4 & K5 & K6 & K7 & K8 & _).
  - rewrite bool_decide_eq_false_2 by (unfold zero_NATS; intros [=]; subst; cbn in *;
      match goal with H : (""%string <> ""%string <-> _) /\ _, K : _ |- _ => by apply (proj2 (proj1 H) K) end).
    cbn [negb]. repeat match goal with H : (_ <> ""%string <-> _) /\ _, K : _ ∈ seen |- _ =>
      let HN := fresh in pose proof (proj2 (proj1 H) K) as HN; apply proj2 in H; clear K end.
    repeat split; auto.
  - assert (Hz : forall x k (P : Prop), (x <> ""%string <-> k ∈ seen) /\ P -> k ∉ seen -> x = ""%string).
    { intros x k P [Hx _] Hk. destruct (decide (x = ""%string)); naive_solver. }
    repeat match goal with H : (?x <> ""%string <-> _) /\ _, K : _ ∉ seen |- _ =>
      pose proof (Hz _ _ _ H K); clear K; subst x end.
    by rewrite bool_decide_eq_true_2.
Qed.

Lemma LoadServer_wellformed file c : LoadServer file = Ok c -> server_ok c.
Proof.
  unfold LoadServer. intros (st & Hst & H)%bind_ok_inv.
  pose proof (read_file_inv _ _ server_inv _ _ _ (fun s k v c c' seen Hset _ => server_inv_set s k v c c' seen Hset)
    server_inv_start Hst) as Hi.
  res_inv. unfold is_empty in *. bool_to_prop. apply (server_inv_ok _ (rd_seen st)); [done..|].
  match goal with H : negb _ = false \/ _ |- _ => destruct H as [H|H]; apply negb_false_iff, bool_decide_eq_true in H;
    apply filter_nil_all in H end.
  - by right.
  - left. eapply Forall_impl; [eassumption|]. cbn. intros k Hk. by apply dec_stable.
Qed.

(** ** What is well formed can be read *)

Section Server.
Implicit Types c : Server.

Definition server_text (c : Server) : list (string * list (string * bytes)) :=
  let o := sc_Operator c in let f := sc_Faults c in let n := sc_NATS c in let s := sc_Service c in
  [("operator"%string, [("admin_group"%string, text (op_AdminGroup o));
      ("max_unauthorized_connections"%string, num (op_MaxUnauthorizedConnections o));
      ("authorization_timeout_ms"%string, num (op_AuthorizationTimeout o / Millisecond));
      ("max_authorized_connections"%string, num (op_MaxAuthorizedConnections o));
      ("max_frame_bytes"%string, num (op_MaxFrameBytes o))]);
   ("store"%string, [("path"%string, text (StorePath c))]);
   ("faults"%string, hold_entry "operator_hold_before_decision_ms" (OperatorHoldBeforeDecision f)
      ++ hold_entry "operator_hold_before_response_ms" (OperatorHoldBeforeResponse f)
      ++ hold_entry "enrollment_server_hold_after_activation_commit_ms" (EnrollmentHoldAfterActivation f))]
  ++ if Enrollment c then
       [("nats"%string, [("url"%string, text (nt_URL n)); ("ca_file"%string, text (nt_CAFile n));
          ("server_name"%string, text (nt_ServerName n));
          ("enrollment_credentials"%string, text (EnrollmentCredentials n));
          ("presence_credentials"%string, text (PresenceCredentials n));
          ("account_signing_seed"%string, text (AccountSigningSeed n))]);
        ("service"%string, [("signing_private_key_file"%string, text (SigningPrivateKeyFile s));
          ("result_encryption_public_key_file"%string, text (ResultEncryptionPublicKeyFile s))])]
     else [].

Definition plain_server (c : Server) : Prop := Forall (fun k => plain_text (deref k.2 c)) string_keys.

Lemma set_string section k p v c :
  stringKey (qualified section (k, text v)) = Some p -> plain_text v -> v <> ""%string ->
  (pathKey (qualified section (k, text v)) = true -> IsAbs v = true) ->
  setServerValue section k (of_bytes (text v)) c = Ok (store p v c).
Proof.
  unfold qualified. cbn [fst]. intros Hq Hp Hv Ha. unfold setServerValue. rewrite Hq.
  rewrite quoted_string_text, ok_bind by done. destruct (pathKey _); [rewrite Ha by done|]; done.
Qed.
Lemma set_number section k n max set c :
  stringKey (qualified section (k, num n)) = None -> case_of (qualified section (k, num n)) number_keys = Some (max, set) ->
  0 < n <= max -> max < 2 ^ 63 -> setServerValue section k (of_bytes (num n)) c = Ok (set n c).
Proof.
  unfold qualified. cbn [fst]. intros Hq Hc Hn Hm. unfold setServerValue. rewrite Hq.
  rewrite ParseInt64_num by lia. cbn [of_option]. rewrite ok_bind. rewrite (proj2 (Z.ltb_lt 0 n)) by lia.
  cbn [ensure]. rewrite ok_bind, Hc. cbn [of_option]. rewrite ok_bind. rewrite (proj2 (Z.ltb_ge max n)) by lia. done.
Qed.

Lemma assign_hold k d max set c :
  stringKey (qualified "faults" (k, [])) = None -> case_of (qualified "faults" (k, [])) number_keys = Some (max, set) ->
  millis 0 MaxFaultDelay d -> max = MaxFaultDelay / Millisecond ->
  assign setServerValue "faults" (hold_entry k d) c = Ok (if 0 <? d then set (d / Millisecond) c else c).
Proof.
  intros Hq Hc (n & Hn & ->) ->. unfold hold_entry. destruct (Z.ltb_spec 0 (n * Millisecond)); [|done].
  cbn [assign]. rewrite Z.div_mul by done. rewrite (set_number _ _ _ _ _ _ Hq Hc); [done | | by vm_compute].
  unfold Millisecond in *. lia.
Qed.

Lemma server_text_ok c : server_ok c -> plain_server c -> Forall (table_ok server_tables) (server_text c).
Proof.
  intros [_ _ Hn _] Hp. destruct Hn as (H1 & (t & Ht & E) & H2 & H3 & H4 & H5 & H6).
  unfold plain_server, string_keys in Hp. rewrite !Forall_cons in Hp. cbn [snd deref] in Hp.
  destruct Hp as (? & ? & ? & ? & ? & ? & ? & ? & ? & ? & _).
  unfold MaxUnauthorizedConnections, MaxAuthorizedConnections, MaxFrameBytes in *.
  assert (0 <= op_AuthorizationTimeout (sc_Operator c) / Millisecond < 10 ^ 20).
  { rewrite E, Z.div_mul by done. change (MaxAuthorizationTimeout / Millisecond) with 300000 in Ht. lia. }
  unfold server_text. apply Forall_app. split; [|destruct (Enrollment c); [|constructor]]; write_tables.
Qed.

Lemma server_text_keys c : NoDup (all_keys (server_text c)).
Proof.
  unfold server_text, hold_entry, all_keys. destruct (Enrollment c), (0 <? _), (0 <? _), (0 <? _); cbn [map concat app fst snd];
    unfold qualified; cbn [fst]; apply (bool_decide_unpack _); by vm_compute.
Qed.

Lemma text_assign section k p v c l :
  stringKey (qualified section (k, [])) = Some p -> plain_text v -> v <> ""%string ->
  (pathKey (qualified section (k, [])) = true -> IsAbs v = true) ->
  assign setServerValue section ((k, text v) :: l) c = assign setServerValue section l (store p v c).
Proof. intros Hq Hp Hv Ha. cbn [assign]. by rewrite (set_string _ _ _ _ _ Hq), ok_bind. Qed.
Lemma num_assign section k n max set c l :
  stringKey (qualified section (k, [])) = None -> case_of (qualified section (k, [])) number_keys = Some (max, set) ->
  0 < n <= max -> max < 2 ^ 63 ->
  assign setServerValue section ((k, num n) :: l) c = assign setServerValue section l (set n c).
Proof. intros Hq Hc Hn Hm. cbn [assign]. by rewrite (set_number _ _ _ _ _ _ Hq Hc), ok_bind. Qed.

Lemma server_text_assigns c :
  server_ok c -> plain_server c -> assign_all setServerValue (server_text c) default_server = Ok c.
Proof.
  intros [Hg Hs Hn He] Hp. pose proof Hn as (H1 & Hto & H2 & H3 & H4 & H5 & H6).
  unfold plain_server, string_keys in Hp. rewrite !Forall_cons in Hp. cbn [snd deref] in Hp.
  destruct Hp as (? & ? & ? & ? & ? & ? & ? & ? & ? & ? & _).
  pose proof Hto as (t & Ht & Et).
  assert (0 < op_AuthorizationTimeout (sc_Operator c) / Millisecond <= MaxAuthorizationTimeout / Millisecond).
  { rewrite Et, Z.div_mul by done. lia. }
  unfold server_text. cbn [app assign_all].
  erewrite text_assign; [|reflexivity|done..]. do 4 (erewrite num_assign; [|reflexivity|reflexivity|lia|by vm_compute]).
  rewrite assign_nil, ok_bind. erewrite text_assign; [|reflexivity|done|by apply abs_nonempty|done]. rewrite assign_nil, ok_bind.
  rewrite assign_app. erewrite assign_hold; [|reflexivity|reflexivity|done|done]. rewrite ok_bind.
  rewrite assign_app. erewrite assign_hold; [|reflexivity|reflexivity|done|done]. rewrite ok_bind.
  erewrite assign_hold; [|reflexivity|reflexivity|done|done]. rewrite ok_bind.
  pose proof (millis_back _ _ _ Hto ltac:(done) ltac:(done)) as Mto.
  pose proof (millis_back _ _ _ H4 ltac:(done) ltac:(done)) as M4. pose proof (millis_back _ _ _ H5 ltac:(done) ltac:(done)) as M5.
  pose proof (millis_back _ _ _ H6 ltac:(done) ltac:(done)) as M6.
  assert (Hz : forall d, millis 0 MaxFaultDelay d -> (if 0 <? d then d else 0) = d).
  { intros d (n & Hd & ->). destruct (Z.ltb_spec 0 (n * Millisecond)); unfold Millisecond in *; lia. }
  pose proof (Hz _ H4) as Z4. pose proof (Hz _ H5) as Z5. pose proof (Hz _ H6) as Z6.
  assert (uint32 (op_MaxFrameBytes (sc_Operator c)) = op_MaxFrameBytes (sc_Operator c)) as Hu
    by (apply uint32_small; unfold MaxFrameBytes in H3; lia).
  unfold enrollment_ok in He. clear Hz Hn H1 H2 H3 H4 H5 H6.
  destruct c as [[g mu to ma mf] sp [f1 f2 f3] [n1 n2' n3 n4' n5' n6'] [s1 s2]]. cbn in *.
  destruct (Enrollment _) in He |- *; cbn [assign_all].
  - destruct He as (E1 & A2 & E3 & A4 & A5 & A6 & A7 & A8).
    repeat (erewrite text_assign; [|reflexivity|done|by first [done | apply abs_nonempty]|done]).
    rewrite assign_nil, ok_bind.
    repeat (erewrite text_assign; [|reflexivity|done|by first [done | apply abs_nonempty]|done]).
    rewrite assign_nil, ok_bind. f_equal.
    cbv -[milliseconds uint32 Z.div Z.ltb Millisecond].
    rewrite ?Mto, ?M4, ?M5, ?M6, Hu.
    destruct (0 <? f1) in Z4 |- *, (0 <? f2) in Z5 |- *, (0 <? f3) in Z6 |- *; rewrite ?Mto, ?M4, ?M5, ?M6, ?Hu; congruence.
  - destruct He as [-> ->]. f_equal.
    cbv -[milliseconds uint32 Z.div Z.ltb Millisecond].
    rewrite ?Mto, ?M4, ?M5, ?M6, Hu.
    destruct (0 <? f1) in Z4 |- *, (0 <? f2) in Z5 |- *, (0 <? f3) in Z6 |- *; rewrite ?Mto, ?M4, ?M5, ?M6, ?Hu; congruence.
Qed.

Lemma LoadServer_reads c :
  server_ok c -> plain_server c -> LoadServer (Some (file_text (server_text c), true)) = Ok c.
Proof.
  intros Hok Hp. unfold LoadServer.
  destruct (read_file_text server_tables setServerValue (server_text c) default_server c
    (server_text_ok c Hok Hp) (server_text_assigns c Hok Hp) (server_text_keys c)) as [s Hs].
  rewrite Hs, ok_bind. cbn [rd_cfg rd_seen]. destruct Hok as [Hg Hst _ _].
  unfold is_empty. rewrite (bool_decide_eq_false_2 _ Hg), (bool_decide_eq_false_2 _ (abs_nonempty _ Hst)).
  cbn [negb ensure]. rewrite !ok_bind.
  assert (negb (negb (bool_decide (filter (fun k => k ∈ rev (all_keys (server_text c))) enrollmentKeys = []))
    && negb (bool_decide (filter (fun k => k ∉ rev (all_keys (server_text c))) enrollmentKeys = []))) = true) as ->; [|done].
  clear. unfold server_text, hold_entry, all_keys. destruct (Enrollment c), (0 <? _), (0 <? _), (0 <? _);
    cbn [map concat app fst snd]; unfold qualified; cbn [fst]; by vm_compute.
Qed.
End Server.

(** C38. Whatever a server's file says, a configuration read from it is one the
    server can run with: a group and an absolute store path are named, every
    bound is positive and within its maximum, durations are whole milliseconds,
    and the broker and the service keys are configured completely, every path
    absolute, or not at all.  And every such configuration, its strings plain
    text, can be written down so that [LoadServer] reads exactly it. *)
Theorem LoadServer_exact c :
  (forall file, LoadServer file = Ok c -> server_ok c)
  /\ (server_ok c -> plain_server c -> LoadServer (Some (file_text (server_text c), true)) = Ok c).
Proof. split; [intros file; apply LoadServer_wellformed | apply LoadServer_reads]. Qed.

Definition sample_server : Server :=
  {| sc_Operator := Build_Operator "ops" 32 (5 * Second) 64 65536; StorePath := "/var/lib/keystone/#1.db";
     sc_Faults := Build_Faults 0 (20 * Millisecond) 0;
     sc_NATS := Build_NATS "tls://localhost:4222" "/e/ca.pem" "nats" "/e/e.creds" "/e/p.creds" "/e/seed";
     sc_Service := Build_ServiceFiles "/e/sign" "/e/enc" |}.

Lemma sample_server_plain : plain_server sample_server.
Proof. unfold plain_server, string_keys. repeat (apply List.Forall_cons; [split; by vm_compute|]). apply List.Forall_nil. Qed.

Lemma sample_server_ok : server_ok sample_server.
Proof.
  split; [done | done | | by repeat split].
  split; [by cbn|]. split; [by exists 5000|]. split; [by cbn|]. split; [by cbn|].
  split; [by exists 0|]. split; [by exists 20 | by exists 0].
Qed.

Lemma LoadServer_exact_witness :
  LoadServer (Some (file_text (server_text sample_server), true)) = Ok sample_server.
Proof.
  apply (proj2 (LoadServer_exact sample_server)).
  - exact sample_server_ok.
  - exact sample_server_plain.
Defined.

(** What an operator writes, with a comment, a default and a hold. *)
Example LoadServer_file :
  LoadServer (Some (to_bytes "# the server" ++ newline :: to_bytes "[operator]" ++ newline :: to_bytes "admin_group = `ops`  # who"
    ++ newline :: to_bytes "[ store ]" ++ newline :: to_bytes "path='/'", true))
  = Ok (on_operator (fun o => Build_Operator "ops" 32 (5 * Second) 64 65536)
      (Build_Server (sc_Operator default_server) "/" (Build_Faults 0 0 0) zero_NATS (Build_ServiceFiles "" ""))).
Proof. by vm_compute. Qed.
