(* ===== verification/AgentConfig.v ===== *)
(** * What an agent's configuration is worth

    The agent's file, read by [LoadAgent]: the same statement as for the
    server's, with the agent's own rules, and where each binary's file is
    looked for. *)
From S2P Require Import Prelude GoBytes GoTime GoText GoPath Json GoScan Config ConfigText.

Lemma targets_separate : separate targets.
Proof. repeat constructor. Qed.
Lemma holds_untouched : Forall (fun k => untouched (store k.2) targets) holds.
Proof. repeat constructor. Qed.

(** ** What is read is well formed *)

Definition holds_ok (c : AgentConfig) : Prop := Forall (fun h => millis 0 MaxFaultDelay h.2) (AgentHolds (ac_Faults c)).

Record agent_ok (c : AgentConfig) : Prop := {
  ao_broker : an_URL (ac_NATS c) <> ""%string /\ abs_path (an_CAFile (ac_NATS c)) /\ an_ServerName (ac_NATS c) <> ""%string;
  ao_paths : abs_path (IdentityPath (ac_Agent c)) /\ abs_path (PrivateKeysPath (ac_Agent c)) /\ abs_path (LedgerPath (ac_Agent c));
  ao_holds : holds_ok c;
  ao_journal : RecordPath (ac_Faults c) <> ""%string -> abs_path (RecordPath (ac_Faults c));
  ao_recorded : Exists (fun h => 0 < h.2) (AgentHolds (ac_Faults c)) -> RecordPath (ac_Faults c) <> ""%string }.

Lemma targets_keep_holds : Forall (fun k => forall v c, holds_ok c -> holds_ok (store k.2 v c)) targets.
Proof. unfold targets. repeat (apply List.Forall_cons; [by intros v c H|]). apply List.Forall_nil. Qed.
Lemma holds_ok_iff c :
  holds_ok c <->
  let f := ac_Faults c in
  millis 0 MaxFaultDelay (HoldBeforeRequest f) /\ millis 0 MaxFaultDelay (HoldAfterCredentialReply f)
  /\ millis 0 MaxFaultDelay (HoldAfterIdentityWrite f) /\ millis 0 MaxFaultDelay (HoldAfterPermanentProof f)
  /\ millis 0 MaxFaultDelay (HoldBeforeConfirmation f).
Proof. unfold holds_ok, AgentHolds. rewrite !Forall_cons, Forall_nil. cbn [snd]. generalize MaxFaultDelay. tauto. Qed.

Lemma holds_keep_holds :
  Forall (fun k => forall d c, millis 0 MaxFaultDelay d -> holds_ok c -> holds_ok (store k.2 d c)) holds.
Proof.
  assert (forall p : pointer AgentConfig Duration,
    (forall d c, millis 0 MaxFaultDelay d -> holds_ok c -> holds_ok (store p d c)) ->
    forall k : string, (fun k : string * pointer AgentConfig Duration =>
      forall d c, millis 0 MaxFaultDelay d -> holds_ok c -> holds_ok (store k.2 d c)) (k, p)) as H by done.
  unfold holds. repeat (apply List.Forall_cons; [apply H; intros d c Hd (?&?&?&?&?)%holds_ok_iff; apply holds_ok_iff;
    cbn [store on_agent_faults ac_Faults HoldBeforeRequest HoldAfterCredentialReply HoldAfterIdentityWrite
      HoldAfterPermanentProof HoldBeforeConfirmation]; auto 10|]).
  apply List.Forall_nil.
Qed.

Definition is_path (q : string) : bool := negb (bool_decide (q = "nats.url"%string)) && negb (bool_decide (q = "nats.server_name"%string)).
Definition agent_inv (c : AgentConfig) (seen : list string) : Prop := tracked targets is_path c seen /\ holds_ok c.

Lemma agent_inv_start : agent_inv zero_agent [].
Proof.
  split.
  - repeat constructor; cbn; intros; try done; set_solver.
  - unfold holds_ok, AgentHolds. rewrite !Forall_cons. repeat split; try apply Forall_nil; try done; exists 0; by split.
Qed.

Lemma holds_not_targets : Forall (fun h => h.1 ∉ map fst targets) holds.
Proof.
  unfold holds. repeat (apply List.Forall_cons; [apply (bool_decide_unpack _); by vm_compute|]). apply List.Forall_nil.
Qed.

Lemma agent_inv_set s k v c c' seen :
  setAgentValue s k v c = Ok c' -> agent_inv c seen -> agent_inv c' ((s +:+ "." +:+ k)%string :: seen).
Proof.
  unfold setAgentValue. generalize (s +:+ "." +:+ k)%string as q. intros q HS [Ht Hn].
  destruct (case_of q holds) as [p|] eqn:Hq.
  - apply case_of_in in Hq. res_inv. bool_to_prop. split.
    + apply tracked_other; [exact (Forall_in _ _ _ holds_untouched Hq) | exact (Forall_in _ _ _ holds_not_targets Hq) | done].
    + apply (Forall_in _ _ _ holds_keep_holds Hq); [|done]. apply millis_weaken, millis_of; [lia | by vm_compute].
  - apply bind_ok_inv in HS as (p & Hp%of_option_ok_inv%case_of_in & HS).
    apply bind_ok_inv in HS as (x & Hx%quoted_string_ok & HS). res_inv. split.
    + eapply tracked_store; eauto using targets_separate.
      unfold is_path. intros [Hu Hsn]%andb_true_iff. rewrite Hu, Hsn in *. by destruct (IsAbs x).
    + by apply (Forall_in _ _ _ targets_keep_holds Hp).
Qed.

Lemma LoadAgent_wellformed file c : LoadAgent file = Ok c -> agent_ok c.
Proof.
  unfold LoadAgent. intros (st & Hst & H)%bind_ok_inv.
  pose proof (read_file_inv _ _ agent_inv _ _ _ (fun s k v c c' seen Hset _ => agent_inv_set s k v c c' seen Hset)
    agent_inv_start Hst) as [Ht Hh].
  apply bind_ok_inv in H as (u1 & H1 & H). apply bind_ok_inv in H as (u2 & H2 & H). injection H as <-.
  unfold tracked, targets in Ht. rewrite !Forall_cons in Ht. cbn [fst snd deref] in Ht.
  destruct Ht as (T1 & T2 & T3 & T4 & T5 & T6 & T7 & _).
  destruct (filter (fun q => (q ∉ rd_seen st) /\ _) _) eqn:E in H1; [|done]. apply filter_nil_all in E.
  unfold targets in E. cbn [map fst] in E. rewrite !Forall_cons in E.
  destruct E as (E1 & E2 & E3 & E4 & E5 & E6 & _).
  assert (Hin : forall x : string, ~ ((x ∉ rd_seen st) /\ x <> "faults.record_path"%string) ->
    x <> "faults.record_path"%string -> x ∈ rd_seen st).
  { intros x Hx Hne. destruct (decide (x ∈ rd_seen st)); [done | tauto]. }
  apply Hin in E1; [|done]. apply Hin in E2; [|done]. apply Hin in E3; [|done].
  apply Hin in E4; [|done]. apply Hin in E5; [|done]. apply Hin in E6; [|done].
  unfold abs_path. split.
  - split; [by apply T1|]. split; [by apply T2; [|apply T2] | by apply T3].
  - split; [by apply T4; [|apply T4]|]. split; [by apply T5; [|apply T5] | by apply T6; [|apply T6]].
  - done.
  - by apply T7.
  - intros Hex Hempty. destruct (filter _ _) as [|h l] eqn:E in H2.
    + apply filter_nil_all in E. apply Exists_exists in Hex as (h & Hh1 & Hh2).
      rewrite Forall_forall in E. by apply (E h).
    + unfold is_empty in H2. rewrite Hempty in H2. done.
Qed.

(** ** What is well formed can be read *)

Definition agent_text (c : AgentConfig) : list (string * list (string * bytes)) :=
  let n := ac_NATS c in let p := ac_Agent c in let f := ac_Faults c in
  [("nats"%string, [("url"%string, text (an_URL n)); ("ca_file"%string, text (an_CAFile n));
      ("server_name"%string, text (an_ServerName n))]);
   ("agent"%string, [("identity_path"%string, text (IdentityPath p)); ("private_keys_path"%string, text (PrivateKeysPath p));
      ("ledger_path"%string, text (LedgerPath p))]);
   ("faults"%string, (if is_empty (RecordPath f) then [] else [("record_path"%string, text (RecordPath f))])
      ++ hold_entry "enrollment_agent_hold_before_request_ms" (HoldBeforeRequest f)
      ++ hold_entry "enrollment_agent_hold_after_credential_reply_ms" (HoldAfterCredentialReply f)
      ++ hold_entry "enrollment_agent_hold_after_identity_write_ms" (HoldAfterIdentityWrite f)
      ++ hold_entry "enrollment_agent_hold_after_permanent_proof_ms" (HoldAfterPermanentProof f)
      ++ hold_entry "enrollment_agent_hold_before_confirmation_ms" (HoldBeforeConfirmation f))].

Definition plain_agent (c : AgentConfig) : Prop := Forall (fun k => plain_text (deref k.2 c)) targets.

Lemma agent_assign section k p v c l :
  case_of (qualified section (k, [])) holds = None -> case_of (qualified section (k, [])) targets = Some p ->
  plain_text v -> v <> ""%string -> (is_path (qualified section (k, [])) = true -> IsAbs v = true) ->
  assign setAgentValue section ((k, text v) :: l) c = assign setAgentValue section l (store p v c).
Proof.
  unfold qualified. cbn [fst]. intros Hh Hq Hp Hv Ha. cbn [assign].
  enough (setAgentValue section k (of_bytes (text v)) c = Ok (store p v c)) as -> by done.
  unfold setAgentValue. rewrite Hh, Hq. cbn [of_option]. rewrite ok_bind, quoted_string_text, ok_bind by done.
  fold (is_path (section +:+ "." +:+ k)%string).
  destruct (is_path _); [rewrite Ha by done|]; done.
Qed.

Lemma agent_hold k p d c :
  case_of (qualified "faults" (k, [])) holds = Some p -> millis 0 MaxFaultDelay d ->
  assign setAgentValue "faults" (hold_entry k d) c = Ok (if 0 <? d then store p d c else c).
Proof.
  unfold qualified. cbn [fst]. intros Hq Hd. pose proof (millis_back _ _ _ Hd ltac:(done) ltac:(done)) as Hb.
  destruct Hd as (n & Hn & ->). unfold hold_entry. destruct (Z.ltb_spec 0 (n * Millisecond)); [|done].
  cbn [assign]. unfold setAgentValue. rewrite Hq. rewrite Z.div_mul in * by done.
  change (MaxFaultDelay / Millisecond) with 300000 in *.
  rewrite ParseInt64_num by lia. cbn [of_option]. rewrite ok_bind.
  assert ((n <=? 0) = false) as -> by (unfold Millisecond in *; apply Z.leb_gt; lia).
  rewrite (proj2 (Z.ltb_ge 300000 n)) by lia. cbn [negb orb ensure]. by rewrite ok_bind, Hb.
Qed.

Lemma agent_text_ok c : agent_ok c -> plain_agent c -> Forall (table_ok agent_tables) (agent_text c).
Proof.
  intros [_ _ Hh _ _] Hp. unfold holds_ok, AgentHolds in Hh. rewrite !Forall_cons in Hh. cbn [snd] in Hh.
  destruct Hh as (? & ? & ? & ? & ? & _).
  unfold plain_agent, targets in Hp. rewrite !Forall_cons in Hp. cbn [snd deref] in Hp.
  destruct Hp as (? & ? & ? & ? & ? & ? & ? & _).
  unfold agent_text. destruct (is_empty _); write_tables.
Qed.

Lemma agent_text_keys c : NoDup (all_keys (agent_text c)).
Proof.
  unfold agent_text, hold_entry, all_keys. destruct (is_empty _), (0 <? _), (0 <? _), (0 <? _), (0 <? _), (0 <? _);
    cbn [map concat app fst snd]; unfold qualified; cbn [fst]; apply (bool_decide_unpack _); by vm_compute.
Qed.

Lemma agent_text_assigns c :
  agent_ok c -> plain_agent c -> assign_all setAgentValue (agent_text c) zero_agent = Ok c.
Proof.
  intros [(Hu & Hca & Hsn) (Hi & Hk & Hl) Hh Hj _] Hp. unfold holds_ok, AgentHolds in Hh. rewrite !Forall_cons in Hh. cbn [snd] in Hh.
  destruct Hh as (H1 & H2 & H3 & H4 & H5 & _).
  unfold plain_agent, targets in Hp. rewrite !Forall_cons in Hp. cbn [snd deref] in Hp.
  destruct Hp as (? & ? & ? & ? & ? & ? & ? & _).
  unfold agent_text. cbn [app assign_all].
  do 3 (erewrite agent_assign; [|reflexivity|reflexivity|done|by first [done | apply abs_nonempty]|done]). rewrite assign_nil, ok_bind.
  do 3 (erewrite agent_assign; [|reflexivity|reflexivity|done|by first [done | apply abs_nonempty]|done]). rewrite assign_nil, ok_bind.
  rewrite assign_app.
  match goal with |- context [assign setAgentValue "faults" (if is_empty ?r then [] else _) ?x] =>
    assert (assign setAgentValue "faults" (if is_empty r then [] else [("record_path"%string, text r)]) x
      = Ok (on_agent_faults (fun f => Build_AgentFaults r (HoldBeforeRequest f) (HoldAfterCredentialReply f)
          (HoldAfterIdentityWrite f) (HoldAfterPermanentProof f) (HoldBeforeConfirmation f)) x)) as -> end.
  { unfold is_empty. case_bool_decide as E; [rewrite E; done|].
    erewrite agent_assign; [|reflexivity|reflexivity|done|done|by intros _; apply Hj]. done. }
  rewrite ok_bind. do 4 (rewrite assign_app; erewrite agent_hold; [|reflexivity|done]; rewrite ok_bind).
  erewrite agent_hold; [|reflexivity|done]. rewrite ok_bind.
  assert (Hz : forall d, millis 0 MaxFaultDelay d -> (if 0 <? d then d else 0) = d).
  { intros d (n & Hd & ->). destruct (Z.ltb_spec 0 (n * Millisecond)); unfold Millisecond in *; lia. }
  apply Hz in H1, H2, H3, H4, H5. f_equal. clear Hz Hu Hca Hsn Hi Hk Hl Hj.
  destruct c as [[n1 n2 n3] [p1 p2 p3] [r f1 f2 f3 f4 f5]]. cbn in H1, H2, H3, H4, H5. cbv -[Z.ltb].
  destruct (0 <? f1) in H1 |- *, (0 <? f2) in H2 |- *, (0 <? f3) in H3 |- *, (0 <? f4) in H4 |- *, (0 <? f5) in H5 |- *; congruence.
Qed.

Lemma LoadAgent_reads c :
  agent_ok c -> plain_agent c -> LoadAgent (Some (file_text (agent_text c), true)) = Ok c.
Proof.
  intros Hok Hp. unfold LoadAgent.
  destruct (read_file_text agent_tables setAgentValue (agent_text c) zero_agent c
    (agent_text_ok c Hok Hp) (agent_text_assigns c Hok Hp) (agent_text_keys c)) as [s Hs].
  rewrite Hs, ok_bind. cbn [rd_cfg rd_seen]. destruct Hok as [_ _ _ _ Hr].
  assert (filter (fun q => (q ∉ rev (all_keys (agent_text c))) /\ q <> "faults.record_path"%string) (map fst targets) = []) as ->.
  { clear. unfold agent_text, hold_entry, all_keys. destruct (is_empty _), (0 <? _), (0 <? _), (0 <? _), (0 <? _), (0 <? _);
      cbn [map concat app fst snd]; unfold qualified; cbn [fst]; by vm_compute. }
  rewrite ok_bind. destruct (filter _ _) as [|h l] eqn:E; [done|]. unfold is_empty.
  rewrite bool_decide_eq_false_2; [done|]. apply Hr, Exists_exists. exists h.
  assert (h ∈ filter (fun h => 0 < h.2) (AgentHolds (ac_Faults c))) as [? ?]%list_elem_of_filter by (rewrite E; by left).
  done.
Qed.

(** Whatever an agent's file says, a configuration read from it names the
    broker, three absolute paths for the agent's state, and a journal for any
    hold it sets; every hold is at most five minutes.  And every such
    configuration of plain text can be written down so that [LoadAgent] reads
    exactly it. *)
Theorem LoadAgent_exact c :
  (forall file, LoadAgent file = Ok c -> agent_ok c)
  /\ (agent_ok c -> plain_agent c -> LoadAgent (Some (file_text (agent_text c), true)) = Ok c).
Proof. split; [intros file; apply LoadAgent_wellformed | apply LoadAgent_reads]. Qed.

Definition sample_agent : AgentConfig :=
  {| ac_NATS := Build_AgentNATS "tls://localhost:4222" "/e/ca.pem" "nats";
     ac_Agent := Build_AgentPaths "/a/identity.json" "/a/keys.json" "/a/ledger.db";
     ac_Faults := Build_AgentFaults "/a/journal" 0 (3 * Second) 0 0 0 |}.

Lemma sample_agent_plain : plain_agent sample_agent.
Proof. unfold plain_agent, targets. repeat (apply List.Forall_cons; [split; by vm_compute|]). apply List.Forall_nil. Qed.

Lemma LoadAgent_exact_witness : LoadAgent (Some (file_text (agent_text sample_agent), true)) = Ok sample_agent.
Proof.
  apply (proj2 (LoadAgent_exact sample_agent)).
  - split; [done | done | | done | done].
    apply List.Forall_cons; [by exists 0|]. apply List.Forall_cons; [by exists 3000|].
    repeat (apply List.Forall_cons; [by exists 0|]). apply List.Forall_nil.
  - exact sample_agent_plain.
Defined.

(** ** Where the file is *)

Lemma SearchPath_absolute r env ps : SearchPath r env = Ok ps -> Forall (fun p => IsAbs p = true) ps.
Proof.
  unfold SearchPath, absolute. destruct (is_empty (env (EnvOverride r))); cbn [negb].
  - intros (xs & Hxs & H)%bind_ok_inv. injection H as <-. apply Forall_app. split.
    + destruct (bool_decide (r = RoleOperator)); [|by injection Hxs as <-].
      destruct (is_empty (env "XDG_CONFIG_HOME"%string)); cbn [negb] in Hxs;
        [destruct (is_empty (env "HOME"%string)); cbn [negb] in Hxs; [by injection Hxs as <-|]|];
        res_inv; (constructor; [by apply Join_abs | constructor]).
    + constructor; [by apply Join_abs | constructor].
  - intros H. res_inv. by constructor.
Qed.

Lemma head_filter {A} (P : A -> Prop) `{forall x, Decision (P x)} l x :
  head (filter P l) = Some x -> P x /\ exists before after, l = before ++ x :: after /\ Forall (fun y => ~ P y) before.
Proof.
  induction l as [|y l IH]; [done|]. rewrite filter_cons. case_decide as Hy.
  - intros [= ->]. split; [done|]. by exists [], l.
  - intros (Hx & b & a & -> & Hb)%IH. split; [done|]. exists (y :: b), a. auto.
Qed.

(** A binary only ever reads a configuration file by an absolute path,
    whatever its environment says: the one its own variable names, if that is
    set, and otherwise the first of its places where a file is. *)
Theorem Locate_absolute r env stat p :
  Locate r env stat = Ok p ->
  IsAbs p = true /\ stat p = Some false
  /\ (env (EnvOverride r) <> ""%string -> p = env (EnvOverride r))
  /\ exists before after, SearchPath r env = Ok (before ++ p :: after)
     /\ Forall (fun q => stat q <> Some false) before.
Proof.
  unfold Locate. intros (ps & Hps & [Hst (b & a & -> & Hb)]%of_option_ok_inv%head_filter)%bind_ok_inv.
  pose proof (SearchPath_absolute _ _ _ Hps) as Ha. apply Forall_app in Ha as [_ [Ha _]%Forall_cons].
  split; [done|]. split; [done|]. split; [|by exists b, a].
  intros Hne. unfold SearchPath, is_empty in Hps. rewrite (bool_decide_eq_false_2 _ Hne) in Hps. cbn [negb] in Hps.
  apply bind_ok_inv in Hps as (u & _ & Hps). destruct b as [|b0 b]; [by injection Hps|].
  by destruct b.
Qed.

Lemma Locate_absolute_witness :
  Locate RoleAgent (fun _ => ""%string) (fun _ => Some false) = Ok "/etc/keystone/keystone-agent.toml"%string
  /\ IsAbs "/etc/keystone/keystone-agent.toml" = true.
Proof.
  assert (H : Locate RoleAgent (fun _ => ""%string) (fun _ => Some false) = Ok "/etc/keystone/keystone-agent.toml"%string)
    by (by vm_compute).
  split; [exact H | exact (proj1 (Locate_absolute _ _ _ _ H))].
Defined.
