(* ===== verification/Vectors.v ===== *)
(** * Cross-process vectors: the producer, the file, the verifier

    Models [internal/protocol/vector.go], [cmd/keystone-vector-producer] and
    [cmd/keystone-vector-verifier], the composition of the whole protocol
    package: generate, seal, sign, encode, serialize; then parse, decode, check
    headers, verify, open. *)
From S2P Require Import Prelude GoBytes GoTime GoText GoFlag Vocabulary Primitives Framing Keys Envelope.
From S2P Require Import Signature Encryption Headers Toy Json.

Record Vector := {
  VerifyingKeyHex : string;
  RecipientKeyHex : string;
  DecryptionHex : string;
  EnvelopeHex : string;
  VectorHeaders : gmap string string;
}.
Definition zero_Vector : Vector := {|
  VerifyingKeyHex := ""; RecipientKeyHex := ""; DecryptionHex := ""; EnvelopeHex := "";
  VectorHeaders := ∅ |}.

(** ** [map[string]string] in JSON: written in key order, read key by key *)

Fixpoint bytes_leb (a b : bytes) : bool :=
  match a, b with
  | [], _ => true
  | _ :: _, [] => false
  | x :: a', y :: b' =>
      (byte_val x <? byte_val y) || ((byte_val x =? byte_val y) && bytes_leb a' b')
  end.
Definition key_le (a b : string * string) : Prop := bytes_leb (to_bytes a.1) (to_bytes b.1) = true.
#[export] Instance key_le_dec : RelDecision key_le.
Proof. intros a b. unfold key_le. apply _. Defined.

Definition json_of_map (h : gmap string string) : json :=
  JObj (map (fun kv => (to_bytes kv.1, jstring kv.2)) (merge_sort key_le (map_to_list h))).

Definition set_entry (h : option (gmap string string)) (m : bytes * json)
  : option (gmap string string) :=
  h ← h;
  match m.2 with
  | JStr s => Some (<[of_bytes m.1 := of_bytes s]> h)
  | JNull => Some (<[of_bytes m.1 := ""%string]> h)
  | _ => None
  end.

Definition set_map {T} (get : T -> gmap string string) (upd : gmap string string -> T -> T)
  : setter T := fun v t =>
  match v with
  | JNull => Some (upd ∅ t)
  | JObj ms => h ← foldl set_entry (Some (get t)) ms; Some (upd h t)
  | _ => None
  end.

(** ** [vector.go] *)

Definition with_verifying s v := {| VerifyingKeyHex := s; RecipientKeyHex := RecipientKeyHex v;
  DecryptionHex := DecryptionHex v; EnvelopeHex := EnvelopeHex v; VectorHeaders := VectorHeaders v |}.
Definition with_recipient s v := {| VerifyingKeyHex := VerifyingKeyHex v; RecipientKeyHex := s;
  DecryptionHex := DecryptionHex v; EnvelopeHex := EnvelopeHex v; VectorHeaders := VectorHeaders v |}.
Definition with_decryption s v := {| VerifyingKeyHex := VerifyingKeyHex v;
  RecipientKeyHex := RecipientKeyHex v; DecryptionHex := s; EnvelopeHex := EnvelopeHex v;
  VectorHeaders := VectorHeaders v |}.
Definition with_envelope s v := {| VerifyingKeyHex := VerifyingKeyHex v;
  RecipientKeyHex := RecipientKeyHex v; DecryptionHex := DecryptionHex v; EnvelopeHex := s;
  VectorHeaders := VectorHeaders v |}.
Definition with_headers h v := {| VerifyingKeyHex := VerifyingKeyHex v;
  RecipientKeyHex := RecipientKeyHex v; DecryptionHex := DecryptionHex v;
  EnvelopeHex := EnvelopeHex v; VectorHeaders := h |}.

Definition vector_fields : struct_fields Vector :=
  [("verifying_key_hex"%string, set_string with_verifying);
   ("recipient_key_hex"%string, set_string with_recipient);
   ("decryption_key_hex"%string, set_string with_decryption);
   ("envelope_hex"%string, set_string with_envelope);
   ("headers"%string, set_map VectorHeaders with_headers)].

Definition json_of_vector (v : Vector) : json :=
  JObj (member "verifying_key_hex" (jstring (VerifyingKeyHex v))
        ++ member_omitempty "recipient_key_hex" (RecipientKeyHex v)
        ++ member_omitempty "decryption_key_hex" (DecryptionHex v)
        ++ member "envelope_hex" (jstring (EnvelopeHex v))
        ++ (if bool_decide (VectorHeaders v = ∅) then []
            else member "headers" (json_of_map (VectorHeaders v)))).

Definition WriteVector (v : Vector) : bytes := json_Encode_indented (json_of_vector v).

Definition ReadVector (b : bytes) : option Vector :=
  '(j, _) ← json_Decode b; decode_struct false vector_fields j zero_Vector.

Definition Hex (b : bytes) : string := hex_encode_string b.
Definition Unhex (s : string) : option bytes := hex_decode_string s.

Section Vectors.
Context `{SS : SignatureScheme} `{ES : EncryptionScheme}.

(** What one run of the producer draws from the system. *)
Record randomness := {
  rnd_ed : entropy; rnd_ml : entropy; rnd_sign : entropy;
  rnd_nonce : Z -> option bytes;
  rnd_x : e_entropy; rnd_kem : e_entropy; rnd_eph : e_entropy; rnd_encaps : e_entropy;
}.

(** [None] stands for every error of the producer: it exits 1 either way. *)
Definition vector (r : randomness) (now : Time) (class : string) (payload : bytes)
    (jobID sender : string) : option Vector :=
  signing ← GenerateSigningKey (rnd_ed r) (rnd_ml r);
  nonce ← NewNonce (rnd_nonce r);
  let e := {| Version_ := Version; Class := class; JobID := jobID; CorrelationID := "";
              Sender := sender; Timestamp := time_UnixMilli (UnixMilli_of now);
              Nonce := nonce; Payload := payload; Envelope.Signature := [] |} in
  let v := with_verifying (Hex (VerifyingKey_Bytes (Verifying signing))) zero_Vector in
  '(e, v) ← (if Encrypted class then
      recipient ← GenerateDecryptionKey (rnd_x r) (rnd_kem r);
      match SealEnvelope (rnd_eph r) (rnd_encaps r) (Recipient recipient) e with
      | Err _ => None
      | Ok e' =>
          Some (e', with_decryption (Hex (MarshalDecryptionKey recipient))
                      (with_recipient (Hex (RecipientKey_Bytes (Recipient recipient))) v))
      end
    else Some (e, v));
  match SignEnvelope (rnd_sign r) signing e with
  | Err _ => None
  | Ok signed =>
      wire ← Encode signed;
      Some (with_headers (Headers signed "") (with_envelope (Hex wire) v))
  end.

Definition produce r now class payload jobID sender : option bytes :=
  v ← vector r now class payload jobID sender; Some (WriteVector v).

(** The process: its exit status and standard output, on the words of its
    command line; arguments left over are ignored. *)
Definition producer_set : FlagSet :=
  [("class", VString ClassCommand); ("payload", VString "argv"); ("job", VString "job-01hx9yq");
   ("sender", VString SenderCommandPublisher)]%string.
Definition producer_main (r : randomness) (now : Time) (args : list string) : Z * bytes :=
  match Parse producer_set args with
  | Err e => (exit_on_error e, [])
  | Ok (fs, _) =>
      match produce r now (get_string fs "class") (to_bytes (get_string fs "payload")) (get_string fs "job") (get_string fs "sender") with
      | None => (1, [])
      | Some file => (0, file)
      end
  end.

(** The verifier's chain; every refusal is one of the seven codes. *)
Definition verify_chain (b : bytes) : result Refusal unit :=
  v ← of_option (ReadVector b) MalformedEnvelope;
  wire ← of_option (Unhex (EnvelopeHex v)) MalformedEnvelope;
  keyBytes ← of_option (Unhex (VerifyingKeyHex v)) SignatureInvalid;
  envelope ← Decode wire DefaultMaxEnvelope;
  _ ← CheckHeaders envelope (VectorHeaders v);
  verifying ← ParseVerifyingKey keyBytes;
  _ ← VerifyEnvelope verifying envelope;
  if Encrypted (Class envelope) && negb (bool_decide (DecryptionHex v = ""%string)) then
    secret ← of_option (Unhex (DecryptionHex v)) DecryptionFailed;
    decryption ← ParseDecryptionKey secret;
    _ ← OpenEnvelope decryption envelope;
    Ok tt
  else Ok tt.

Definition verify (b : bytes) : string * bool :=
  match verify_chain b with
  | Ok _ => ("accepted"%string, true)
  | Err r => (refusalText r, false)
  end.

(** The process: the line on standard output and the exit status. *)
Definition verifier_main (b : bytes) : string * Z :=
  let '(line, ok) := verify b in (line, if ok then 0 else 1).
End Vectors.

(** ** The file round trip *)

Lemma foldl_insert {V} (m : gmap string V) l :
  NoDup l.*1 -> foldl (fun m kv => <[kv.1 := kv.2]> m) m l = list_to_map l ∪ m.
Proof.
  revert m. induction l as [|[k v] l IH]; intros m Hnd; cbn; [by rewrite (left_id_L ∅ (∪))|].
  cbn in Hnd. apply NoDup_cons in Hnd as [Hk Hnd].
  rewrite IH by done. rewrite <- insert_union_r by (by apply not_elem_of_list_to_map_1).
  by rewrite insert_union_l.
Qed.

Lemma set_entries l m :
  foldl set_entry (Some m) (map (fun kv => (to_bytes kv.1, jstring kv.2)) l) =
  Some (foldl (fun m kv => <[kv.1 := kv.2]> m) m l).
Proof.
  revert m. induction l as [|[k v] l IH]; intros m; cbn; [done|].
  by rewrite !of_to_bytes, IH.
Qed.

Lemma set_map_json {T} (get : T -> gmap string string) upd h t :
  get t = ∅ -> set_map get upd (json_of_map h) t = Some (upd h t).
Proof.
  intros Hg. unfold set_map, json_of_map. rewrite Hg, set_entries. cbn. do 2 f_equal.
  pose proof (merge_sort_Permutation key_le (map_to_list h)) as Hp.
  rewrite foldl_insert, (right_id_L ∅ (∪)).
  - rewrite (list_to_map_proper _ (map_to_list h)); [apply list_to_map_to_list | | done].
    rewrite Hp. apply NoDup_fst_map_to_list.
  - rewrite Hp. apply NoDup_fst_map_to_list.
Qed.

(** Every string of the vector is ASCII. *)
Definition ascii_vector (v : Vector) : Prop :=
  ascii (to_bytes (VerifyingKeyHex v)) /\ ascii (to_bytes (RecipientKeyHex v)) /\
  ascii (to_bytes (DecryptionHex v)) /\ ascii (to_bytes (EnvelopeHex v)) /\
  map_Forall (fun k x => ascii (to_bytes k) /\ ascii (to_bytes x)) (VectorHeaders v).

Lemma clean_map h :
  map_Forall (fun k x => ascii (to_bytes k) /\ ascii (to_bytes x)) h ->
  clean (json_of_map h) /\ height (json_of_map h) = 1.
Proof.
  intros Hh. split.
  - apply clean_obj. apply Forall_forall. intros m Hm.
    apply list_elem_of_In, in_map_iff in Hm as ([k x] & <- & Hin). apply list_elem_of_In in Hin.
    rewrite merge_sort_Permutation in Hin. apply elem_of_map_to_list in Hin.
    cbn. by apply (Hh k x).
  - unfold json_of_map. cbn [height]. generalize (merge_sort key_le (map_to_list h)).
    intros l. enough (foldr Z.max 0 (map (fun m : bytes * json => height m.2)
      (map (fun kv : string * string => (to_bytes kv.1, jstring kv.2)) l)) = 0) by lia.
    induction l as [|kv l IH]; cbn; lia.
Qed.

Lemma clean_vector v :
  ascii_vector v -> clean (json_of_vector v) /\ height (json_of_vector v) <= maxNestingDepth.
Proof.
  intros (H1 & H2 & H3 & H4 & H5). apply clean_map in H5 as [Hc Hh].
  unfold json_of_vector, member_omitempty. split.
  - apply clean_obj. repeat case_bool_decide; cbn [app member];
      repeat constructor; cbn [fst snd]; try (by apply ascii_forallb); try done.
  - unfold maxNestingDepth.
    repeat case_bool_decide; cbn [app member height map foldr snd jstring]; rewrite ?Hh; lia.
Qed.

Lemma decode_vector v : decode_struct false vector_fields (json_of_vector v) zero_Vector = Some v.
Proof.
  destruct v as [a b c d h]. unfold json_of_vector, member_omitempty, decode_struct.
  cbn [VerifyingKeyHex RecipientKeyHex DecryptionHex EnvelopeHex VectorHeaders].
  assert (Hset : forall k (s : string) f ms (t : Vector),
    find_field vector_fields (to_bytes k) = Some f ->
    set_members false vector_fields (member k (jstring s) ++ ms) t =
    f (jstring s) t ≫= set_members false vector_fields ms).
  { intros k s f ms t Hf. cbn [member app set_members]. by rewrite Hf. }
  rewrite (Hset _ _ (set_string with_verifying)) by reflexivity.
  rewrite set_string_jstring. cbn [mbind option_bind].
  case_bool_decide as Hb; [subst b; cbn [app]|
    rewrite (Hset _ _ (set_string with_recipient)) by reflexivity;
    rewrite set_string_jstring; cbn [mbind option_bind]];
  (case_bool_decide as Hc; [subst c; cbn [app]|
    rewrite (Hset _ _ (set_string with_decryption)) by reflexivity;
    rewrite set_string_jstring; cbn [mbind option_bind]]);
  rewrite (Hset _ _ (set_string with_envelope)) by reflexivity;
  rewrite set_string_jstring; cbn [mbind option_bind];
  (case_bool_decide as Hh; [subst h; reflexivity|]);
  cbn [member set_members];
  change (find_field vector_fields (to_bytes "headers")) with (Some (set_map VectorHeaders with_headers));
  cbv iota beta; rewrite set_map_json by reflexivity; reflexivity.
Qed.

Lemma ReadVector_WriteVector v : ascii_vector v -> ReadVector (WriteVector v) = Some v.
Proof.
  intros [Hc Hh]%clean_vector. unfold ReadVector, WriteVector.
  rewrite json_Decode_Encode_indented by done. cbn [mbind option_bind]. apply decode_vector.
Qed.

(** ** Producer and verifier agree *)

Section Agreement.
Context `{SS : SignatureScheme} `{ES : EncryptionScheme}.
Context `{SL : !SignatureLaws SS} `{EL : !EncryptionLaws ES}.

(** What the verifier's ["accepted"] asserts of its input. *)
Definition acceptable (b : bytes) : Prop :=
  exists v wire keyBytes e vk input,
    ReadVector b = Some v /\
    Unhex (EnvelopeHex v) = Some wire /\ Unhex (VerifyingKeyHex v) = Some keyBytes /\
    Decode wire DefaultMaxEnvelope = Ok e /\
    headers_agree e (VectorHeaders v) /\
    ParseVerifyingKey keyBytes = Ok vk /\
    Envelope_SignedInput e = Some input /\ both_verify vk input (Envelope.Signature e) /\
    (Encrypted (Class e) = true -> DecryptionHex v <> ""%string ->
     exists secret dk plaintext, Unhex (DecryptionHex v) = Some secret /\
       ParseDecryptionKey secret = Ok dk /\ opens dk (Payload e) plaintext).

Lemma VerifyEnvelope_iff vk e :
  VerifyEnvelope vk e = Ok tt <->
  Known (Class e) = true /\
  exists input, Envelope_SignedInput e = Some input /\ both_verify vk input (Envelope.Signature e).
Proof.
  unfold VerifyEnvelope. destruct (Known _); cbn [negb]; [|naive_solver].
  destruct (Envelope_SignedInput e) as [input|]; [|naive_solver].
  rewrite Verify_spec. naive_solver.
Qed.

Lemma OpenEnvelope_iff dk e p :
  envelope_ok e -> Encrypted (Class e) = true ->
  OpenEnvelope dk e = Ok p <-> opens dk (Payload e) p.
Proof.
  intros Hok HE. unfold OpenEnvelope, no_correlation, ensure.
  rewrite (ok_class _ Hok), HE, (ok_encrypted _ Hok HE). cbn [mbind result_bind].
  apply Open_iff.
Qed.

Lemma Decode_ok_envelope b e : Decode b DefaultMaxEnvelope = Ok e -> envelope_ok e.
Proof.
  rewrite Decode_fields. intros (fs & HS & Hd)%bind_ok_inv.
  unfold decode_fields in Hd. apply (decode_fields_ok fs) in Hd as [? _]; [done|].
  unfold Split in HS. clear Hd. revert HS.
  assert (Hlen : forall k bud rest acc fs, split_loop k bud rest acc = Ok fs ->
    length fs = (length acc + k)%nat).
  { clear. induction k as [|k IH]; cbn [split_loop]; intros bud rest acc fs.
    - case_match; [|done]. intros [= <-]. lia.
    - repeat (case_match; [done|]). intros Hsp%IH. rewrite length_app in Hsp. cbn in Hsp. lia. }
  intros Hsp%Hlen. exact Hsp.
Qed.

Lemma verify_chain_iff b : verify_chain b = Ok tt <-> acceptable b.
Proof.
  unfold verify_chain, acceptable. split.
  - intros H. apply bind_ok_inv in H as (v & Hv & H). apply bind_ok_inv in H as (wire & Hw & H).
    apply bind_ok_inv in H as (kb & Hk & H). apply bind_ok_inv in H as (e & He & H).
    apply bind_ok_inv in H as ([] & Hh & H). apply bind_ok_inv in H as (vk & Hvk & H).
    apply bind_ok_inv in H as ([] & Hver & H). res_inv.
    apply VerifyEnvelope_iff in Hver as (_ & input & Hi & Hb).
    exists v, wire, kb, e, vk, input. rewrite CheckHeaders_iff in Hh.
    repeat split; auto; [apply Hh..|].
    intros HE Hd. rewrite HE, bool_decide_eq_false_2 in H by done. cbn [andb negb] in H.
    apply bind_ok_inv in H as (sec & Hs & H). apply bind_ok_inv in H as (dk & Hdk & H).
    apply bind_ok_inv in H as (p & Hp & _). res_inv.
    apply OpenEnvelope_iff in Hp; eauto 6 using Decode_ok_envelope.
  - intros (v & wire & kb & e & vk & input & Hv & Hw & Hk & He & Hh & Hvk & Hi & Hb & Hopen).
    rewrite Hv. cbn [of_option mbind result_bind]. rewrite Hw. cbn [of_option mbind result_bind].
    rewrite Hk. cbn [of_option mbind result_bind]. rewrite He. cbn [mbind result_bind].
    rewrite (proj2 (CheckHeaders_iff _ _) Hh). cbn [mbind result_bind].
    rewrite Hvk. cbn [mbind result_bind].
    pose proof (Decode_ok_envelope _ _ He) as Hok.
    rewrite (proj2 (VerifyEnvelope_iff _ _)); [|split; [apply Hok | eauto]].
    cbn [mbind result_bind]. destruct (Encrypted (Class e)) eqn:HE; [|done].
    case_bool_decide as Hd; cbn [andb negb]; [done|].
    destruct (Hopen eq_refl Hd) as (sec & dk & p & -> & Hdk & Hp).
    cbn [of_option mbind result_bind]. rewrite Hdk. cbn [mbind result_bind].
    by rewrite (proj2 (OpenEnvelope_iff _ _ _ Hok HE) Hp).
Qed.

(** The verifier's verdict is exact: it prints ["accepted"] and exits 0
    exactly when the vector parses, the envelope decodes, its headers agree,
    both signatures verify under the carried key and, when it carries a
    decryption key for an encrypted class, the payload opens.  Otherwise it
    exits 1 and prints one of the seven refusal codes and nothing else. *)
Theorem verifier_exact b :
  (verifier_main b = ("accepted"%string, 0) <-> acceptable b) /\
  (~ acceptable b -> exists r, verifier_main b = (refusalText r, 1)).
Proof.
  rewrite <- verify_chain_iff. unfold verifier_main, verify.
  destruct (verify_chain b) as [[]|r]; cbn.
  - split; [done|]. by intros [].
  - split; [split; [done|discriminate] | eauto].
Qed.

(** The system gives the producer what it asks for. *)
Record primitives_work (r : randomness) : Prop := {
  pw_ed : is_Some (ed_GenerateKey (rnd_ed r));
  pw_ml : is_Some (ml_GenerateKey (rnd_ml r));
  pw_sign k m : is_Some (ml_Sign (rnd_sign r) k m SignatureContext);
  pw_nonce : exists n, rnd_nonce r NonceBytes = Some n /\ zlen n = NonceBytes;
  pw_x : is_Some (x_GenerateKey (rnd_x r));
  pw_kem : is_Some (kem_GenerateKey (rnd_kem r));
  pw_eph : is_Some (x_GenerateKey (rnd_eph r));
  pw_ecdh a b : is_Some (x_ECDH a b);
  pw_hkdf t i : is_Some (hkdf_Key t i 32);
  pw_aes k : is_Some (aes_gcm k);
}.

(** What the caller of the producer chooses. *)
Record choices_ok (class : string) (payload : bytes) (jobID sender : string) : Prop := {
  co_class : Known class = true;
  co_payload : zlen payload <= DefaultMaxEnvelope - 8192;
  co_job : id_ok jobID;
  co_sender : ValidIdentifier sender = true;
}.

Lemma slen_bound s : id_ok s -> zlen (to_bytes s) <= 64.
Proof. intros [->|(_ & H & _)%ValidIdentifier_spec]; [by vm_compute | exact H]. Qed.

Lemma slen_class c : Known c = true -> zlen (to_bytes c) <= 64.
Proof.
  intros H%Known_spec. unfold classes in H.
  repeat (apply elem_of_cons in H as [->|H]; [by vm_compute|]). by apply elem_of_nil in H.
Qed.

Lemma ascii_class c : Known c = true -> ascii (to_bytes c).
Proof.
  intros H%Known_spec. unfold classes in H.
  repeat (apply elem_of_cons in H as [->|H]; [by apply ascii_forallb|]). by apply elem_of_nil in H.
Qed.

Definition draft (now : Time) (class jobID sender : string) (nonce payload sig : bytes) : Envelope :=
  {| Version_ := Version; Class := class; JobID := jobID; CorrelationID := "";
     Sender := sender; Timestamp := time_UnixMilli (UnixMilli_of now);
     Nonce := nonce; Payload := payload; Envelope.Signature := sig |}.

Section Draft.
Context (now : Time) (class jobID sender : string) (nonce payload : bytes).
Hypothesis Hc : choices_ok class [] jobID sender.
Hypothesis Hn : zlen nonce = NonceBytes.
Hypothesis Hp : zlen payload <= DefaultMaxEnvelope - 7000.

Lemma draft_length sig :
  zlen sig <= SignatureBytes ->
  Forall short (fieldValues (draft now class jobID sender nonce payload sig)) /\
  framed_length (fieldValues (draft now class jobID sender nonce payload sig)) <= DefaultMaxEnvelope.
Proof.
  destruct Hc as [Hk _ Hj Hs]. intros Hsig.
  pose proof (slen_class _ Hk). pose proof (slen_bound _ Hj).
  pose proof (slen_bound _ (or_intror Hs)).
  change DefaultMaxEnvelope with 1048576 in *. change SignatureBytes with 3373 in *.
  change NonceBytes with 16 in *. unfold draft. split.
  - unfold short. repeat constructor; cbn [Version_ Class JobID CorrelationID Sender Timestamp
      Nonce Payload Envelope.Signature]; rewrite ?zlen_put_uint32, ?zlen_put_uint64; try lia; done.
  - cbn [fieldValues framed_length Version_ Class JobID CorrelationID Sender Timestamp
      Nonce Payload Envelope.Signature]. rewrite zlen_put_uint32, zlen_put_uint64, Hn.
    change (zlen (to_bytes "")) with 0. lia.
Qed.

Lemma draft_ok sig :
  zlen sig = SignatureBytes -> envelope_ok (draft now class jobID sender nonce payload sig).
Proof.
  destruct Hc as [Hk _ Hj Hs]. intros Hsig.
  split; cbn; auto; [by left|].
  exists (UnixMilli_of now). split; [apply int64_range | done].
Qed.
End Draft.

Lemma vector_shape r now class payload jobID sender :
  primitives_work r -> choices_ok class payload jobID sender ->
  exists signing nonce field8 sig v dk,
    vector r now class payload jobID sender = Some v /\
    zlen nonce = NonceBytes /\ zlen field8 <= DefaultMaxEnvelope - 7000 /\
    zlen sig = SignatureBytes /\
    let e := draft now class jobID sender nonce field8 sig in
    VerifyEnvelope (Verifying signing) e = Ok tt /\
    VerifyingKeyHex v = Hex (VerifyingKey_Bytes (Verifying signing)) /\
    (exists wire, Encode e = Some wire /\ EnvelopeHex v = Hex wire) /\
    VectorHeaders v = Headers e "" /\
    (RecipientKeyHex v = ""%string \/ RecipientKeyHex v = Hex (RecipientKey_Bytes (Recipient dk))) /\
    (Encrypted class = false /\ DecryptionHex v = ""%string \/
     Encrypted class = true /\ DecryptionHex v = Hex (MarshalDecryptionKey dk) /\
     exists p, opens dk field8 p).
Proof.
  intros [Hed Hml Hsign (nonce & Hnonce & Hn16) Hx Hkem Heph Hecdh Hh Ha] Hc.
  destruct Hed as [ed Hed]. destruct Hml as [ml Hml].
  destruct Hx as [x Hx]. destruct Hkem as [kem Hkem].
  set (signing := {| sk_ed := ed; sk_ml := ml |}).
  set (dk := {| dk_x := x; dk_ml := kem |}).
  unfold vector, GenerateSigningKey, NewNonce, GenerateDecryptionKey.
  rewrite Hed, Hml, Hnonce. cbn [mbind option_bind].
  fold signing.
  assert (Hc0 : choices_ok class [] jobID sender) by (destruct Hc; split; auto; by vm_compute).
  fold (draft now class jobID sender nonce payload []).
  assert (Hfin : forall field8, zlen field8 <= DefaultMaxEnvelope - 7000 ->
    exists sig wire, SignEnvelope (rnd_sign r) signing (draft now class jobID sender nonce field8 []) =
        Ok (draft now class jobID sender nonce field8 sig) /\ zlen sig = SignatureBytes /\
      Encode (draft now class jobID sender nonce field8 sig) = Some wire /\
      VerifyEnvelope (Verifying signing) (draft now class jobID sender nonce field8 sig) = Ok tt).
  { intros field8 H8.
    destruct (draft_length now class jobID sender nonce field8 Hc0 Hn16 H8 []) as [Hsh _]; [by vm_compute|].
    destruct (SignEnvelope_total (rnd_sign r) signing
      (draft now class jobID sender nonce field8 []) (fun m => Hsign _ m) (co_class _ _ _ _ Hc) Hsh)
      as [e' He'].
    assert (Hso := He'). apply SignEnvelope_ok in Hso; [|done]. destruct Hso as (sig & -> & Hz & Hv).
    destruct (draft_length now class jobID sender nonce field8 Hc0 Hn16 H8 sig) as [Hsh' _]; [lia|].
    destruct (Encode_some _ Hsh') as (wire & Hw & _). exists sig, wire. auto. }
  destruct (Encrypted class) eqn:HE.
  - rewrite Hx, Hkem. cbn [mbind option_bind]. fold dk.
    destruct (Seal_total (rnd_eph r) (rnd_encaps r) (Recipient dk) payload Heph Hecdh Hh Ha) as [c HS].
    destruct (sealed_opens _ _ _ _ _ HS) as [Hzc Ho].
    assert (H8 : zlen c <= DefaultMaxEnvelope - 7000).
    { destruct Hc as [_ Hp _ _]. change SealOverheadBytes with 1136 in Hzc. lia. }
    destruct (Hfin c H8) as (sig & wire & Hsg & Hz & Hw & Hv).
    unfold SealEnvelope. cbn [draft Class CorrelationID Payload].
    rewrite (co_class _ _ _ _ Hc), HE. cbn [ensure mbind result_bind no_correlation CorrelationID].
    change (no_correlation (draft now class jobID sender nonce payload [])) with true.
    cbn [ensure mbind result_bind]. rewrite HS.
    cbn [mbind result_bind option_bind].
    change (with_payload c _) with (draft now class jobID sender nonce c []).
    rewrite Hsg, Hw. cbn [mbind option_bind].
    exists signing, nonce, c, sig. do 2 eexists. split; [reflexivity|].
    do 3 (split; [done|]). split; [done|]. cbn. split; [done|]. split; [eauto|].
    split; [done|]. split; [by right|]. right. split; [done|]. split; [reflexivity|].
    exists payload. by apply Open_iff.
  - assert (H8 : zlen payload <= DefaultMaxEnvelope - 7000) by (destruct Hc; lia).
    destruct (Hfin payload H8) as (sig & wire & Hsg & Hz & Hw & Hv).
    cbn [mbind option_bind]. rewrite Hsg, Hw. cbn [mbind option_bind].
    exists signing, nonce, payload, sig. eexists. exists dk. split; [reflexivity|].
    do 3 (split; [done|]). split; [done|]. cbn. split; [done|]. split; [eauto|].
    split; [done|]. split; [by left|]. by left.
Qed.

Lemma ascii_Hex b : ascii (to_bytes (Hex b)).
Proof. unfold Hex, hex_encode_string. rewrite to_of_bytes. apply ascii_hex. Qed.

Lemma ascii_id_ok s : id_ok s -> ascii (to_bytes s).
Proof. intros [->|H]; [by apply ascii_forallb | by apply ascii_identifier]. Qed.

Lemma ascii_Headers now class jobID sender nonce payload sig :
  choices_ok class [] jobID sender ->
  map_Forall (fun k x => ascii (to_bytes k) /\ ascii (to_bytes x))
    (Headers (draft now class jobID sender nonce payload sig) "").
Proof.
  intros [Hk _ Hj _] k x. rewrite Headers_lookup. cbn [draft Version_ Class JobID].
  repeat case_decide; subst; try destruct_and?; try done; [| |destruct (carries_job class); [|done]..];
    try (by destruct (carries_job class)); intros [= <-].
  - split; [by apply ascii_forallb | by apply ascii_FormatUint].
  - split; [by apply ascii_forallb | by apply ascii_class].
  - split; [by apply ascii_forallb | by apply ascii_id_ok].
Qed.

Lemma Unhex_Hex b : Unhex (Hex b) = Some b.
Proof. apply hex_decode_encode_string. Qed.

(** The two processes agree: with a working system and an envelope the
    protocol admits, the producer always emits a vector, and a separate
    verifier that reads the bytes it wrote always prints ["accepted"] and
    exits 0, whatever the class, encrypted or not. *)
Theorem producer_verifier r now class payload jobID sender :
  primitives_work r -> choices_ok class payload jobID sender ->
  exists file, produce r now class payload jobID sender = Some file /\
    verifier_main file = ("accepted"%string, 0).
Proof.
  intros Hr Hc. assert (Hc0 : choices_ok class [] jobID sender)
    by (destruct Hc; split; auto; by vm_compute).
  destruct (vector_shape r now class payload jobID sender Hr Hc)
    as (sg & nonce & f8 & sig & v & dk & Hv & Hn & H8 & Hsig & Hver & Hk & (wire & Hw & He) & Hh & Hrk & Hd).
  pose proof (draft_ok now class jobID sender nonce f8 Hc0 Hn sig Hsig) as Hok.
  destruct (draft_length now class jobID sender nonce f8 Hc0 Hn H8 sig ltac:(lia)) as [Hsh Hlen].
  exists (WriteVector v). unfold produce. rewrite Hv. split; [done|].
  unfold verifier_main, verify. rewrite (proj2 (verify_chain_iff _)); [done|].
  assert (Hascii : ascii_vector v).
  { unfold ascii_vector. rewrite Hk, He, Hh. split_and!; auto using ascii_Hex, ascii_Headers.
    - destruct Hrk as [-> | ->]; [by apply ascii_forallb | apply ascii_Hex].
    - destruct Hd as [[_ ->]|(_ & -> & _)]; [by apply ascii_forallb | apply ascii_Hex]. }
  apply VerifyEnvelope_iff in Hver as (_ & input & Hi & Hb).
  exists v, wire, (VerifyingKey_Bytes (Verifying sg)), (draft now class jobID sender nonce f8 sig),
    (Verifying sg), input.
  rewrite ReadVector_WriteVector by done. rewrite He, Hk, Hh, !Unhex_Hex.
  split_and!; [done..| | | | | |].
  - destruct (Encode_some _ Hsh) as (wire' & Hw' & Hz). rewrite Hw in Hw'. injection Hw' as <-.
    apply Decode_iff; [unfold go_slice; rewrite Hz; eapply Z.le_trans; [exact Hlen | done] | done |].
    split; [done|]. split; [done|]. by rewrite Hz.
  - apply (Headers_agree _ ""); auto. by vm_compute.
  - apply ParseVerifyingKey_Bytes, Verifying_ok.
  - done.
  - done.
  - intros HE Hne. destruct Hd as [[Hd _]|(_ & -> & p & Hp)]; [cbn in HE; congruence|].
    exists (MarshalDecryptionKey dk), dk, p. rewrite Unhex_Hex, ParseDecryptionKey_Marshal. done.
Qed.

(** The two commands agree, whatever the producer is told to produce, as long as
    it is something the protocol admits; told nothing, it produces a command. *)
Theorem producer_command r now args fs rest :
  Parse producer_set args = Ok (fs, rest) -> primitives_work r ->
  choices_ok (get_string fs "class") (to_bytes (get_string fs "payload")) (get_string fs "job") (get_string fs "sender") ->
  exists file, producer_main r now args = (0, file) /\ verifier_main file = ("accepted"%string, 0).
Proof.
  intros HP Hr Hc. destruct (producer_verifier r now _ _ _ _ Hr Hc) as (file & Hf & Hv).
  exists file. unfold producer_main. by rewrite HP, Hf.
Qed.
End Agreement.

(** ** Witnesses, over the concrete primitives *)

Abbreviation toy_main := (verifier_main (SS := ToySignature) (ES := ToyEncryption)).

Definition toy_randomness : @randomness ToySignature ToyEncryption := {|
  rnd_ed := x01 : @entropy ToySignature; rnd_ml := x02; rnd_sign := x03;
  rnd_nonce n := Some (rep n x04);
  rnd_x := x05 : @e_entropy ToyEncryption; rnd_kem := x06; rnd_eph := x07; rnd_encaps := x08 |}.

Lemma producer_verifier_witness :
  exists file, produce toy_randomness 1700000000000000000 ClassCommand (to_bytes "argv")
      "job-01hx9yq" "command-publisher" = Some file /\
    toy_main file = ("accepted"%string, 0).
Proof.
  apply (producer_verifier (SL := ToySignatureLaws) (EL := ToyEncryptionLaws) toy_randomness).
  - split; intros; eexists; try reflexivity. split; reflexivity.
  - split; try reflexivity; [by vm_compute | by right].
Defined.

Lemma toy_primitives_work : primitives_work toy_randomness.
Proof. split; intros; eexists; try reflexivity. split; reflexivity. Qed.

Lemma producer_command_witness :
  exists file, producer_main toy_randomness 1700000000000000000 ["-class"; ClassPresence; "--job="; "rest"]%string = (0, file)
    /\ toy_main file = ("accepted"%string, 0).
Proof.
  eapply (producer_command (SL := ToySignatureLaws) (EL := ToyEncryptionLaws) toy_randomness);
    [reflexivity | exact toy_primitives_work |].
  split; try reflexivity; [by vm_compute | by left].
Defined.

Lemma verifier_exact_witness :
  exists r, toy_main (to_bytes "{}") = (refusalText r, 1).
Proof.
  apply (proj2 (verifier_exact (EL := ToyEncryptionLaws) (SS := ToySignature) (to_bytes "{}"))).
  intros H%(proj2 (proj1 (verifier_exact (EL := ToyEncryptionLaws) (SS := ToySignature) (to_bytes "{}")))).
  discriminate H.
Defined.
