(* ===== verification/Sql.v ===== *)
(** * Database calls: faults, statements and transactions

    What the store and the ledger share of [database/sql] over SQLite.  Every
    call may fail for a reason of the engine's own (a lock, the disk): the
    session carries an oracle that says which of the coming calls do.  A
    statement is atomic; a transaction commits its whole body or leaves the
    tables as they were, because every error path runs the deferred
    [Rollback]. *)
From S2P Require Import Prelude.

(** The committed tables as this connection sees them (the program opens one
    connection per database), and the fate of the calls to come. *)
Record session (DB : Type) := Session { tables : DB; fates : list bool }.
Arguments Session {DB} tables fates.
Arguments tables {DB} s.
Arguments fates {DB} s.

Definition sql (E DB A : Type) : Type := session DB -> result E A * session DB.

#[export] Instance sql_ret E DB : MRet (sql E DB) := fun A a s => (Ok a, s).
#[export] Instance sql_bind E DB : MBind (sql E DB) :=
  fun A B k m s => match m s with
                   | (Ok a, s') => k a s'
                   | (Err e, s') => (Err e, s')
                   end.

Definition sql_err {E DB A} (e : E) : sql E DB A := fun s => (Err e, s).

(** The next fate: an exhausted oracle lets every later call through. *)
Definition next_fate {DB} (s : session DB) : bool * session DB :=
  match fates s with
  | f :: fs => (f, Session (tables s) fs)
  | [] => (false, s)
  end.

(** A call that reaches the engine: a query, or one statement outside the
    control of [BeginTx]; [stmt] is its effect, failing on a constraint. *)
Definition call {E DB A} (fault : E) (stmt : DB -> result E (A * DB)) : sql E DB A :=
  fun s =>
    let '(failed, s) := next_fate s in
    if failed then (Err fault, s)
    else match stmt (tables s) with
         | Ok (a, db) => (Ok a, Session db (fates s))
         | Err e => (Err e, s)
         end.

Definition query {E DB A} (fault : E) (f : DB -> result E A) : sql E DB A :=
  call fault (fun db => a ← f db; Ok (a, db)).
Definition exec {E DB} (fault : E) (f : DB -> result E DB) : sql E DB unit :=
  call fault (fun db => db' ← f db; Ok (tt, db')).

(** [BeginTx], [defer tx.Rollback()], the body, [Commit]. *)
Definition in_tx {E DB A} (fault : E) (body : sql E DB A) : sql E DB A :=
  fun s =>
    let '(failed, s0) := next_fate s in
    if failed then (Err fault, s0)
    else match body s0 with
         | (Err e, s1) => (Err e, Session (tables s) (fates s1))
         | (Ok a, s1) =>
             let '(failed, s2) := next_fate s1 in
             if failed then (Err fault, Session (tables s) (fates s2))
             else (Ok a, s2)
         end.

(** ** Reasoning *)

Section Sql.
Context {E DB : Type}.
Implicit Types (s : session DB).

Lemma next_fate_spec s failed s' :
  next_fate s = (failed, s') ->
  tables s' = tables s /\ fates s' `suffix_of` fates s /\ (failed = true -> true ∈ fates s).
Proof.
  unfold next_fate. destruct s as [db [|f fs]]; cbn; intros [= <- <-]; cbn.
  - split; [done|]. split; [apply suffix_nil | done].
  - split; [done|]. split; [by apply suffix_cons_r | intros ->; set_solver].
Qed.

(** The call reached no conclusion: an engine fault that was pending. *)
Definition faulted {A} (fault : E) (s : session DB) (r : result E A) : Prop :=
  true ∈ fates s /\ r = Err fault.

(** The sequence of calls refines one atomic effect: an engine fault changes
    nothing, and otherwise the result and the tables are the effect's. *)
Definition refines {A} (fault : E) (m : sql E DB A) (effect : DB -> result E (A * DB)) : Prop :=
  forall s r s', m s = (r, s') ->
    fates s' `suffix_of` fates s /\
    ((faulted fault s r /\ tables s' = tables s) \/
     match effect (tables s) with
     | Ok (a, db) => r = Ok a /\ tables s' = db
     | Err e => r = Err e /\ tables s' = tables s
     end).

(** Inside a transaction the tables matter on success only: on an error they
    are the transaction's to restore. *)
Definition tx_refines {A} (fault : E) (m : sql E DB A) (effect : DB -> result E (A * DB)) : Prop :=
  forall s r s', m s = (r, s') ->
    fates s' `suffix_of` fates s /\
    (faulted fault s r \/
     match effect (tables s) with
     | Ok (a, db) => r = Ok a /\ tables s' = db
     | Err e => r = Err e
     end).

Lemma call_refines {A} fault (stmt : DB -> result E (A * DB)) : refines fault (call fault stmt) stmt.
Proof.
  intros s r s'. unfold call.
  destruct (next_fate s) as [failed s0] eqn:Hn. apply next_fate_spec in Hn as (Ht & Hs & Hf).
  destruct failed; [intros [= <- <-]; split; [done|]; left; split; [split; auto | done]|].
  rewrite Ht. destruct (stmt (tables s)) as [[a db]|e]; intros [= <- <-]; auto.
Qed.

Lemma refines_tx {A} fault (m : sql E DB A) effect : refines fault m effect -> tx_refines fault m effect.
Proof.
  intros H s r s' Hm. destruct (H s r s' Hm) as [Hs [[Hf _]|Hr]]; split; auto. right.
  destruct (effect (tables s)) as [[a db]|e]; naive_solver.
Qed.

Lemma ret_tx {A} fault (a : A) : tx_refines fault (mret a) (fun db => Ok (a, db)).
Proof. intros s r s' [= <- <-]. auto. Qed.

Lemma err_tx {A} fault e : tx_refines (A := A) fault (sql_err e) (fun _ => Err e).
Proof. intros s r s' [= <- <-]. auto. Qed.

Lemma faulted_suffix {A B} fault s s1 e (r : result E A) :
  fates s1 `suffix_of` fates s -> faulted fault s1 r -> r = Err e -> faulted (A := B) fault s (Err e).
Proof.
  intros [l Hl] [Hin ->] [= ->]. split; [|done]. rewrite Hl. set_solver.
Qed.

Lemma bind_tx {A B} fault (m : sql E DB A) f (k : A -> sql E DB B) g :
  tx_refines fault m f -> (forall a, tx_refines fault (k a) (g a)) ->
  tx_refines fault (m ≫= k) (fun db => '(a, db') ← f db; g a db').
Proof.
  intros Hm Hk s r s'. unfold mbind at 1, sql_bind.
  destruct (m s) as [[a|e] s1] eqn:E1; pose proof (Hm _ _ _ E1) as [Hs1 H1].
  - destruct H1 as [[_ [=]]|H1].
    destruct (f (tables s)) as [[a' db]|]; [|done]. destruct H1 as [[= <-] <-].
    intros H2. destruct (Hk a _ _ _ H2) as [Hs2 H2']. split; [by etrans|].
    destruct H2' as [[Hin ->]|H2']; [left | by right].
    by apply (faulted_suffix (A := B) fault s s1 fault (Err fault)).
  - intros [= <- <-]. split; [done|]. destruct H1 as [[Hin Hr]|H1].
    + left. injection Hr as ->. by split.
    + right. destruct (f (tables s)) as [[a' db]|e']; [by destruct H1|]. cbn. congruence.
Qed.

Lemma in_tx_refines {A} fault (body : sql E DB A) effect :
  tx_refines fault body effect -> refines fault (in_tx fault body) effect.
Proof.
  intros Hb s r s'. unfold in_tx.
  destruct (next_fate s) as [failed s0] eqn:Hn. apply next_fate_spec in Hn as (Ht & Hs & Hf).
  destruct failed; [intros [= <- <-]; split; [done|]; left; split; [split; auto | done]|].
  destruct (body s0) as [[a|e] s1] eqn:E1; pose proof (Hb _ _ _ E1) as [Hs1 H1]; rewrite Ht in H1.
  - destruct H1 as [[_ [=]]|H1].
    destruct (next_fate s1) as [failed s2] eqn:Hn1. apply next_fate_spec in Hn1 as (Ht1 & Hs2 & Hf1).
    destruct failed; intros [= <- <-].
    + split; [by do 2 (etrans; [done|])|]. left. split; [|done]. split; [|done].
      destruct Hs as [l Hl], Hs1 as [l1 Hl1]. rewrite Hl, Hl1. specialize (Hf1 eq_refl). set_solver.
    + split; [by do 2 (etrans; [done|])|]. right.
      destruct (effect (tables s)) as [[a' db]|e']; [|done]. rewrite Ht1. naive_solver.
  - intros [= <- <-]. cbn. split; [by etrans|]. destruct H1 as [H1|H1].
    + left. split; [|done]. by apply (faulted_suffix fault s s0 e (A := A) (Err e)).
    + right. destruct (effect (tables s)) as [[a' db]|e']; naive_solver.
Qed.

(** Whatever the fates, the tables move along any reflexive relation that the
    atomic effect respects. *)
Lemma refines_preserves {A} fault (m : sql E DB A) effect (R : DB -> DB -> Prop) s r s' :
  refines fault m effect -> m s = (r, s') ->
  R (tables s) (tables s) ->
  (forall a db, effect (tables s) = Ok (a, db) -> R (tables s) db) ->
  R (tables s) (tables s').
Proof.
  intros Hm E1 Hrefl Heff. destruct (Hm _ _ _ E1) as [_ [[_ ->]|H1]]; [done|].
  destruct (effect (tables s)) as [[a db]|e] eqn:E2; destruct H1 as [_ ->]; eauto.
Qed.

(** With no fault pending the effect is what happens. *)
Lemma refines_fault_free {A} fault (m : sql E DB A) effect db :
  refines fault m effect ->
  m (Session db []) =
    match effect db with
    | Ok (a, db') => (Ok a, Session db' [])
    | Err e => (Err e, Session db [])
    end.
Proof.
  intros Hm. destruct (m (Session db [])) as [r [t f]] eqn:E1.
  destruct (Hm _ _ _ E1) as [Hs H]. cbn in *. apply suffix_nil_inv in Hs as ->.
  destruct H as [[[Hin _] _]|H]; [set_solver|].
  destruct (effect db) as [[a db']|e]; by destruct H as [-> ->].
Qed.

End Sql.
