(* ===== verification/Store.v ===== *)
(** * The server's store

    Models [internal/store/store.go]: the five tables the program writes, with
    the constraints of the schema, each statement as a function of the tables,
    and each operation as the calls the code makes, transactions included.
    Every operation refines one atomic effect; on those effects rest the
    store's invariant and the order in which its records may change. *)
From S2P Require Import Prelude GoBytes GoTime GoText Json Sql.

(** ** Rows *)

Record job_row := {
  jb_correlation_id : string; jb_target : string; jb_argv_json : bytes;
  jb_execution_user : string; jb_state : string; jb_accepted_at : Z;
}.
Record result_row := {
  rs_state : string; rs_exit_status : Z; rs_stdout : bytes; rs_stderr : bytes;
  rs_truncated : Z; rs_discarded_bytes : Z; rs_recorded_at : Z;
}.
Record audit_row := {
  au_id : Z; au_timestamp : Z; au_job_id : option string; au_correlation_id : option string;
  au_actor : option string; au_actor_uid : option Z; au_actor_username_snapshot : option string;
  au_target : option string; au_action : string; au_result : string;
}.
Record enrollment_row := {
  en_agent_id : string; en_agent_name : string; en_bootstrap_public_key : string;
  en_state : string; en_issued_at : Z; en_expires_at : Z; en_issued_by_uid : Z;
  en_nats_public_key : option string; en_signing_public_key : option bytes;
  en_encryption_public_key : option bytes; en_permanent_jwt : option string;
  en_credential_issued_at : option Z; en_spent_at : option Z;
}.
Record agent_row := {
  ag_signing_public_key : bytes; ag_encryption_public_key : bytes; ag_state : string;
  ag_created_at : Z; ag_nats_public_key : option string; ag_agent_name : option string;
}.

(** Tables with a text primary key are maps; [audit] is a list in insertion
    order, with SQLite's [AUTOINCREMENT] counter. *)
Record db := {
  jobs : gmap string job_row;
  results : gmap string result_row;
  audit : list audit_row;
  audit_seq : Z;
  enrollment : gmap string enrollment_row;
  agents : gmap string agent_row;
}.
Definition empty_db : db :=
  {| jobs := ∅; results := ∅; audit := []; audit_seq := 0; enrollment := ∅; agents := ∅ |}.

Definition with_jobs j d := {| jobs := j; results := results d; audit := audit d;
  audit_seq := audit_seq d; enrollment := enrollment d; agents := agents d |}.
Definition with_results r d := {| jobs := jobs d; results := r; audit := audit d;
  audit_seq := audit_seq d; enrollment := enrollment d; agents := agents d |}.
Definition with_audit a n d := {| jobs := jobs d; results := results d; audit := a;
  audit_seq := n; enrollment := enrollment d; agents := agents d |}.
Definition with_enrollment e d := {| jobs := jobs d; results := results d; audit := audit d;
  audit_seq := audit_seq d; enrollment := e; agents := agents d |}.
Definition with_agents a d := {| jobs := jobs d; results := results d; audit := audit d;
  audit_seq := audit_seq d; enrollment := enrollment d; agents := a |}.

(** ** Arguments and errors *)

(** [DbFault] is any error of the engine's own, [Constraint] a refused row. *)
Inductive store_err :=
  | DbFault
  | Constraint
  | NoSuchJob (job_id : string)
  | ErrDuplicateEnrollment
  | ErrNoEnrollment
  | ErrAlreadyRecorded
  | ErrNotActivatable.
#[export] Instance store_err_eq_dec : EqDecision store_err.
Proof. solve_decision. Defined.

Abbreviation store_op := (sql store_err db).

(** A Go slice that can be nil is an option. *)
Record AcceptedRequest := {
  ar_JobID : string; ar_CorrelationID : string; ar_Target : string;
  ar_Argv : option (list string); ar_ExecutionUser : string; ar_State : string;
  ar_AcceptedAt : Time;
}.
Record Result := {
  re_JobID : string; re_State : string; re_ExitStatus : Z; re_Stdout : option bytes;
  re_Stderr : option bytes; re_Truncated : bool; re_DiscardedBytes : Z; re_RecordedAt : Time;
}.
Record AuditRecord := {
  JobID : option string; CorrelationID : option string; Actor : option string;
  ActorUID : option Z; ActorUsernameSnapshot : option string; Target : option string;
  Action : string; AResult : string; At : Time;
}.
Record EnrollmentToken := {
  TokenID : string; AgentID : string; AgentName : string; BootstrapPublicKey : string;
  IssuedAt : Time; ExpiresAt : Time; IssuedByUID : Z;
}.
Record EnrollmentRecord := {
  er_token : EnrollmentToken; State : string; NATSPublicKey : string;
  SigningPublicKey : option bytes; EncryptionPublicKey : option bytes;
  PermanentJWT : string; SpentAt : Time;
}.
Record Credential := {
  cr_NATSPublicKey : string; cr_SigningPublicKey : option bytes;
  cr_EncryptionPublicKey : option bytes; cr_PermanentJWT : string; cr_At : Time;
}.

Definition TokenIssued : string := "issued".
Definition TokenSpent : string := "spent".

Definition boolInt (v : bool) : Z := if v then 1 else 0.

(** ** Statements *)

Definition insert_job (r : AcceptedRequest) (argv : bytes) (d : db) : result store_err db :=
  match jobs d !! ar_JobID r with
  | Some _ => Err Constraint
  | None => Ok (with_jobs (<[ar_JobID r :=
      {| jb_correlation_id := ar_CorrelationID r; jb_target := ar_Target r; jb_argv_json := argv;
         jb_execution_user := ar_ExecutionUser r; jb_state := ar_State r;
         jb_accepted_at := UnixMilli_of (ar_AcceptedAt r) |}]> (jobs d)) d)
  end.

Definition job_with_state (s : string) (j : job_row) : job_row :=
  {| jb_correlation_id := jb_correlation_id j; jb_target := jb_target j;
     jb_argv_json := jb_argv_json j; jb_execution_user := jb_execution_user j; jb_state := s;
     jb_accepted_at := jb_accepted_at j |}.

(** Statements that report how many rows they changed return it. *)
Definition update_job_state (id s : string) (d : db) : result store_err (Z * db) :=
  match jobs d !! id with
  | Some j => Ok (1, with_jobs (<[id := job_with_state s j]> (jobs d)) d)
  | None => Ok (0, d)
  end.

Definition insert_result (r : Result) (stdout stderr : bytes) (d : db) : result store_err db :=
  match results d !! re_JobID r, jobs d !! re_JobID r with
  | None, Some _ => Ok (with_results (<[re_JobID r :=
      {| rs_state := re_State r; rs_exit_status := re_ExitStatus r; rs_stdout := stdout;
         rs_stderr := stderr; rs_truncated := boolInt (re_Truncated r);
         rs_discarded_bytes := re_DiscardedBytes r;
         rs_recorded_at := UnixMilli_of (re_RecordedAt r) |}]> (results d)) d)
  | _, _ => Err Constraint
  end.

Definition audit_row_of (id : Z) (r : AuditRecord) : audit_row :=
  {| au_id := id; au_timestamp := UnixMilli_of (At r); au_job_id := JobID r;
     au_correlation_id := CorrelationID r; au_actor := Actor r; au_actor_uid := ActorUID r;
     au_actor_username_snapshot := ActorUsernameSnapshot r; au_target := Target r;
     au_action := Action r; au_result := AResult r |}.

Definition append_audit (r : AuditRecord) (d : db) : db :=
  with_audit (audit d ++ [audit_row_of (audit_seq d + 1) r]) (audit_seq d + 1) d.

Definition delete_audit_before (ms : Z) (d : db) : db :=
  with_audit (filter (fun r => ~ (au_timestamp r < ms)) (audit d)) (audit_seq d) d.

Definition by_agent (agent : string) (d : db) : gmap string enrollment_row :=
  filter (fun kv => en_agent_id kv.2 = agent) (enrollment d).
Definition by_bootstrap (key : string) (d : db) : gmap string enrollment_row :=
  filter (fun kv => en_bootstrap_public_key kv.2 = key) (enrollment d).

Definition count_token_or_agent (token agent : string) (d : db) : Z :=
  Z.of_nat (size (filter (fun kv : string * enrollment_row =>
    kv.1 = token \/ en_agent_id kv.2 = agent) (enrollment d))).

(** The table's [CHECK]s. *)
Definition row_checks (r : enrollment_row) : bool :=
  bool_decide (en_state r ∈ [TokenIssued; TokenSpent])
  && Bool.eqb (bool_decide (en_nats_public_key r = None)) (bool_decide (en_permanent_jwt r = None))
  && Bool.eqb (bool_decide (en_state r = TokenSpent)) (bool_decide (en_spent_at r <> None)).

Definition issued_row (tok : EnrollmentToken) : enrollment_row :=
  {| en_agent_id := AgentID tok; en_agent_name := AgentName tok;
     en_bootstrap_public_key := BootstrapPublicKey tok; en_state := TokenIssued;
     en_issued_at := UnixMilli_of (IssuedAt tok); en_expires_at := UnixMilli_of (ExpiresAt tok);
     en_issued_by_uid := IssuedByUID tok; en_nats_public_key := None;
     en_signing_public_key := None; en_encryption_public_key := None; en_permanent_jwt := None;
     en_credential_issued_at := None; en_spent_at := None |}.

Definition insert_enrollment (tok : EnrollmentToken) (d : db) : result store_err db :=
  if bool_decide (enrollment d !! TokenID tok = None)
     && bool_decide (by_agent (AgentID tok) d = ∅)
     && bool_decide (by_bootstrap (BootstrapPublicKey tok) d = ∅)
     && row_checks (issued_row tok)
  then Ok (with_enrollment (<[TokenID tok := issued_row tok]> (enrollment d)) d)
  else Err Constraint.

Definition credential_row (c : Credential) (r : enrollment_row) : enrollment_row :=
  {| en_agent_id := en_agent_id r; en_agent_name := en_agent_name r;
     en_bootstrap_public_key := en_bootstrap_public_key r; en_state := en_state r;
     en_issued_at := en_issued_at r; en_expires_at := en_expires_at r;
     en_issued_by_uid := en_issued_by_uid r; en_nats_public_key := Some (cr_NATSPublicKey c);
     en_signing_public_key := cr_SigningPublicKey c;
     en_encryption_public_key := cr_EncryptionPublicKey c;
     en_permanent_jwt := Some (cr_PermanentJWT c);
     en_credential_issued_at := Some (UnixMilli_of (cr_At c)); en_spent_at := en_spent_at r |}.

(** [WHERE token_id = ? AND state = 'issued' AND nats_public_key IS NULL]. *)
Definition update_credential (token : string) (c : Credential) (d : db)
  : result store_err (Z * db) :=
  match enrollment d !! token with
  | Some r =>
      if bool_decide (en_state r = TokenIssued) && bool_decide (en_nats_public_key r = None) then
        if row_checks (credential_row c r)
        then Ok (1, with_enrollment (<[token := credential_row c r]> (enrollment d)) d)
        else Err Constraint
      else Ok (0, d)
  | None => Ok (0, d)
  end.

Definition insert_agent (agent : string) (signing encryption : option bytes) (created : Z)
    (nats name : string) (d : db) : result store_err db :=
  match agents d !! agent, signing, encryption with
  | None, Some s, Some e =>
      Ok (with_agents (<[agent := {| ag_signing_public_key := s; ag_encryption_public_key := e;
        ag_state := "active"; ag_created_at := created; ag_nats_public_key := Some nats;
        ag_agent_name := Some name |}]> (agents d)) d)
  | _, _, _ => Err Constraint
  end.

Definition spent_row (at_ : Z) (r : enrollment_row) : enrollment_row :=
  {| en_agent_id := en_agent_id r; en_agent_name := en_agent_name r;
     en_bootstrap_public_key := en_bootstrap_public_key r; en_state := TokenSpent;
     en_issued_at := en_issued_at r; en_expires_at := en_expires_at r;
     en_issued_by_uid := en_issued_by_uid r; en_nats_public_key := en_nats_public_key r;
     en_signing_public_key := en_signing_public_key r;
     en_encryption_public_key := en_encryption_public_key r;
     en_permanent_jwt := en_permanent_jwt r;
     en_credential_issued_at := en_credential_issued_at r; en_spent_at := Some at_ |}.

Definition update_spent (token : string) (at_ : Z) (d : db) : result store_err db :=
  match enrollment d !! token with
  | Some r =>
      if row_checks (spent_row at_ r)
      then Ok (with_enrollment (<[token := spent_row at_ r]> (enrollment d)) d)
      else Err Constraint
  | None => Ok d
  end.

(** [scanEnrollment]: a row as the program reads it; NULL text reads as empty. *)
Definition zero_time : Time := t_zero.
Definition scanEnrollment (token : string) (r : enrollment_row) : EnrollmentRecord :=
  {| er_token := {| TokenID := token; AgentID := en_agent_id r; AgentName := en_agent_name r;
       BootstrapPublicKey := en_bootstrap_public_key r;
       IssuedAt := time_UnixMilli (en_issued_at r); ExpiresAt := time_UnixMilli (en_expires_at r);
       IssuedByUID := en_issued_by_uid r |};
     State := en_state r; NATSPublicKey := default ""%string (en_nats_public_key r);
     SigningPublicKey := en_signing_public_key r;
     EncryptionPublicKey := en_encryption_public_key r;
     PermanentJWT := default ""%string (en_permanent_jwt r);
     SpentAt := match en_spent_at r with Some ms => time_UnixMilli ms | None => zero_time end |}.

Definition select_enrollment (token : string) (d : db) : result store_err EnrollmentRecord :=
  match enrollment d !! token with
  | Some r => Ok (scanEnrollment token r)
  | None => Err ErrNoEnrollment
  end.

(** [agent_id] is unique: the query yields the one row there is. *)
Definition select_by_agent (agent : string) (d : db) : result store_err EnrollmentRecord :=
  match map_to_list (by_agent agent d) with
  | (token, r) :: _ => Ok (scanEnrollment token r)
  | [] => Err ErrNoEnrollment
  end.

(** ** Operations *)

Definition argv_json (argv : option (list string)) : bytes :=
  json_Marshal (match argv with Some l => JArr (map jstring l) | None => JNull end).

Definition RecordAcceptedRequest (r : AcceptedRequest) : store_op unit :=
  exec DbFault (insert_job r (argv_json (ar_Argv r))).

Definition RecordResult (r : Result) : store_op unit :=
  let stdout := default [] (re_Stdout r) in
  let stderr := default [] (re_Stderr r) in
  in_tx DbFault (
    n ← call DbFault (update_job_state (re_JobID r) (re_State r));
    if negb (n =? 1) then sql_err (NoSuchJob (re_JobID r))
    else exec DbFault (insert_result r stdout stderr)).

Definition insertAudit (r : AuditRecord) : store_op unit :=
  exec DbFault (fun d => Ok (append_audit r d)).

Definition AppendAuditRecord (r : AuditRecord) : store_op unit :=
  exec DbFault (fun d => Ok (append_audit r d)).

Definition AppendAudit (jobID correlationID actor target action res : string) (at_ : Time)
  : store_op unit :=
  AppendAuditRecord {| JobID := Some jobID; CorrelationID := Some correlationID;
    Actor := Some actor; ActorUID := None; ActorUsernameSnapshot := None; Target := Some target;
    Action := action; AResult := res; At := at_ |}.

Definition IssueEnrollment (tok : EnrollmentToken) (a : AuditRecord) : store_op unit :=
  in_tx DbFault (
    exists_ ← query DbFault (fun d => Ok (count_token_or_agent (TokenID tok) (AgentID tok) d));
    if negb (exists_ =? 0) then sql_err ErrDuplicateEnrollment
    else
      _ ← exec DbFault (insert_enrollment tok);
      insertAudit a).

Definition Enrollment (tokenID : string) : store_op EnrollmentRecord :=
  query DbFault (select_enrollment tokenID).

Definition EnrollmentByAgent (agentID : string) : store_op EnrollmentRecord :=
  query DbFault (select_by_agent agentID).

Definition RecordCredential (tokenID : string) (c : Credential) (a : AuditRecord) : store_op unit :=
  in_tx DbFault (
    n ← call DbFault (update_credential tokenID c);
    if negb (n =? 1) then sql_err ErrAlreadyRecorded
    else insertAudit a).

Definition Activate (tokenID : string) (at_ : Time) (a : AuditRecord) : store_op unit :=
  in_tx DbFault (
    r ← query DbFault (select_enrollment tokenID);
    if negb (bool_decide (State r = TokenIssued)) || bool_decide (PermanentJWT r = ""%string)
    then sql_err ErrNotActivatable
    else
      _ ← exec DbFault (insert_agent (AgentID (er_token r)) (SigningPublicKey r)
            (EncryptionPublicKey r) (UnixMilli_of at_) (NATSPublicKey r) (AgentName (er_token r)));
      _ ← exec DbFault (update_spent tokenID (UnixMilli_of at_));
      insertAudit a).

Definition RetainAudit (before : Time) : store_op unit :=
  exec DbFault (fun d => Ok (delete_audit_before (UnixMilli_of before) d)).

(** [validate]: what the engine's integrity check answered. *)
Definition validate (integrity : result unit string) : bool :=
  match integrity with
  | Ok text => bool_decide (text = "ok"%string)
  | Err _ => false
  end.

(** ** The operations as one type, and their atomic effects *)

Inductive mutation :=
  | MAccepted (r : AcceptedRequest)
  | MResult (r : Result)
  | MAudit (r : AuditRecord)
  | MIssue (tok : EnrollmentToken) (a : AuditRecord)
  | MCredential (token : string) (c : Credential) (a : AuditRecord)
  | MActivate (token : string) (at_ : Time) (a : AuditRecord)
  | MRetain (before : Time).

Definition run_mutation (m : mutation) : store_op unit :=
  match m with
  | MAccepted r => RecordAcceptedRequest r
  | MResult r => RecordResult r
  | MAudit r => AppendAuditRecord r
  | MIssue tok a => IssueEnrollment tok a
  | MCredential t c a => RecordCredential t c a
  | MActivate t at_ a => Activate t at_ a
  | MRetain b => RetainAudit b
  end.

(** What an operation promises: all of it, or an error and nothing. *)
Definition effect (m : mutation) (d : db) : result store_err db :=
  match m with
  | MAccepted r => insert_job r (argv_json (ar_Argv r)) d
  | MResult r =>
      match jobs d !! re_JobID r with
      | None => Err (NoSuchJob (re_JobID r))
      | Some j =>
          insert_result r (default [] (re_Stdout r)) (default [] (re_Stderr r))
            (with_jobs (<[re_JobID r := job_with_state (re_State r) j]> (jobs d)) d)
      end
  | MAudit a => Ok (append_audit a d)
  | MIssue tok a =>
      if negb (count_token_or_agent (TokenID tok) (AgentID tok) d =? 0) then Err ErrDuplicateEnrollment
      else append_audit a <$> insert_enrollment tok d
  | MCredential t c a =>
      match enrollment d !! t with
      | Some r =>
          if bool_decide (en_state r = TokenIssued) && bool_decide (en_nats_public_key r = None)
          then append_audit a <$>
            (if row_checks (credential_row c r)
             then Ok (with_enrollment (<[t := credential_row c r]> (enrollment d)) d)
             else Err Constraint)
          else Err ErrAlreadyRecorded
      | None => Err ErrAlreadyRecorded
      end
  | MActivate t at_ a =>
      r ← select_enrollment t d;
      if negb (bool_decide (State r = TokenIssued)) || bool_decide (PermanentJWT r = ""%string)
      then Err ErrNotActivatable
      else
        d1 ← insert_agent (AgentID (er_token r)) (SigningPublicKey r) (EncryptionPublicKey r)
               (UnixMilli_of at_) (NATSPublicKey r) (AgentName (er_token r)) d;
        append_audit a <$> update_spent t (UnixMilli_of at_) d1
  | MRetain b => Ok (delete_audit_before (UnixMilli_of b) d)
  end.

Definition unit_effect (f : db -> result store_err db) (d : db) : result store_err (unit * db) :=
  d' ← f d; Ok (tt, d').

Lemma tx_refines_ext {A} (m : store_op A) f g :
  (forall d, f d = g d) -> tx_refines DbFault m f -> tx_refines DbFault m g.
Proof. intros H Hm s r s' E. rewrite <- H. by apply Hm. Qed.

Lemma tx_ite {A} (b : bool) (m n : store_op A) f g :
  tx_refines DbFault m f -> tx_refines DbFault n g ->
  tx_refines DbFault (if b then m else n) (fun d => if b then f d else g d).
Proof. by destruct b. Qed.

Lemma exec_refines f : refines DbFault (exec DbFault f) (unit_effect f).
Proof. apply call_refines. Qed.

Lemma query_refines {A} (f : db -> result store_err A) :
  refines DbFault (query DbFault f) (fun d => a ← f d; Ok (a, d)).
Proof. apply call_refines. Qed.

Lemma then_tx {A} (m : store_op unit) (k : store_op A) f g :
  tx_refines DbFault m f -> tx_refines DbFault k g ->
  tx_refines DbFault (_ ← m; k) (fun d => '(_, d') ← f d; g d').
Proof. intros Hm Hk. exact (bind_tx DbFault m f (fun _ => k) (fun _ => g) Hm (fun _ => Hk)). Qed.

Lemma insertAudit_tx a : tx_refines DbFault (insertAudit a) (fun d => Ok (tt, append_audit a d)).
Proof. apply refines_tx, exec_refines. Qed.

#[local] Hint Resolve insertAudit_tx then_tx : core.
#[local] Hint Resolve refines_tx call_refines exec_refines query_refines err_tx ret_tx : core.

Lemma mutation_refines m : refines DbFault (run_mutation m) (unit_effect (effect m)).
Proof.
  destruct m as [r|r|a|tok a|t c a|t at_ a|b]; cbn [run_mutation].
  - apply exec_refines.
  - apply in_tx_refines. eapply tx_refines_ext;
      [|eapply bind_tx; [auto | intros n; apply tx_ite; auto]].
    intros d. unfold update_job_state, unit_effect. cbn [effect].
    destruct (jobs d !! re_JobID r); reflexivity.
  - apply exec_refines.
  - apply in_tx_refines. eapply tx_refines_ext;
      [|eapply bind_tx; [auto | intros n; apply tx_ite; [auto | apply then_tx; auto]]].
    intros d. unfold unit_effect. cbn [effect mbind result_bind].
    destruct (negb _); [done|]. by destruct (insert_enrollment tok d).
  - apply in_tx_refines. eapply tx_refines_ext;
      [|eapply bind_tx; [auto | intros n; apply tx_ite; auto]].
    intros d. unfold update_credential, unit_effect. cbn [effect].
    destruct (enrollment d !! t) as [r|]; [|done].
    destruct (_ && _); [|done]. by destruct (row_checks _).
  - apply in_tx_refines. eapply tx_refines_ext;
      [|eapply bind_tx; [auto | intros r; apply tx_ite;
          [auto | apply then_tx; [auto | apply then_tx; auto]]]].
    intros d. unfold unit_effect. cbn [effect].
    destruct (select_enrollment t d) as [r|]; [|done]. cbn [mbind result_bind].
    destruct (_ || _); [done|]. destruct (insert_agent _ _ _ _ _ _ d) as [d1|]; [|done].
    cbn [mbind result_bind]. by destruct (update_spent _ _ d1).
  - apply exec_refines.
Qed.

(** ** The invariant *)

Record db_ok (d : db) : Prop := {
  ok_checks t r : enrollment d !! t = Some r -> row_checks r = true;
  ok_agent_unique t1 t2 r1 r2 :
    enrollment d !! t1 = Some r1 -> enrollment d !! t2 = Some r2 ->
    en_agent_id r1 = en_agent_id r2 -> t1 = t2;
  ok_bootstrap_unique t1 t2 r1 r2 :
    enrollment d !! t1 = Some r1 -> enrollment d !! t2 = Some r2 ->
    en_bootstrap_public_key r1 = en_bootstrap_public_key r2 -> t1 = t2;
  (** a spent token's agent is active under the halves the token recorded *)
  ok_spent t r :
    enrollment d !! t = Some r -> en_state r = TokenSpent ->
    exists a, agents d !! en_agent_id r = Some a /\ en_permanent_jwt r <> None /\
      en_signing_public_key r = Some (ag_signing_public_key a) /\
      en_encryption_public_key r = Some (ag_encryption_public_key a) /\
      en_nats_public_key r = ag_nats_public_key a;
  (** and no agent is active any other way *)
  ok_agents i a : agents d !! i = Some a ->
    exists t r, enrollment d !! t = Some r /\ en_agent_id r = i /\ en_state r = TokenSpent;
  ok_results j r : results d !! j = Some r ->
    exists b, jobs d !! j = Some b /\ jb_state b = rs_state r;
  ok_audit_ids : StronglySorted Z.lt (map au_id (audit d));
  ok_audit_seq : Forall (fun r => au_id r <= audit_seq d) (audit d);
}.

Lemma empty_db_ok : db_ok empty_db.
Proof. split; try (intros; set_solver); constructor. Qed.

Lemma append_audit_ok a d : db_ok d -> db_ok (append_audit a d).
Proof.
  intros [H1 H2 H3 H4 H5 H6 H7 H8]. split; cbn; auto.
  - rewrite map_app. cbn. clear -H7 H8.
    induction (audit d) as [|r l IH]; cbn in *; [repeat constructor|].
    apply StronglySorted_inv in H7 as [Hs Hf]. apply Forall_cons in H8 as [Hr Hl].
    constructor; [by apply IH|]. apply Forall_app. split; [done|]. repeat constructor. lia.
  - apply Forall_app. split; [|repeat constructor; cbn; lia].
    eapply Forall_impl; [exact H8|]. cbn. lia.
Qed.

Lemma filter_sorted {A} (f : A -> Z) (P : A -> Prop) `{!forall x, Decision (P x)} l :
  StronglySorted Z.lt (map f l) -> StronglySorted Z.lt (map f (filter P l)).
Proof.
  induction l as [|x l IH]; [done|]. cbn [map]. intros [Hs Hf]%StronglySorted_inv.
  rewrite filter_cons. case_decide; [|by apply IH]. cbn [map]. constructor; [by apply IH|].
  apply Forall_forall. intros y (z & -> & [_ Hz]%list_elem_of_filter)%list_elem_of_fmap.
  rewrite Forall_forall in Hf. apply Hf. apply list_elem_of_fmap. eauto.
Qed.

Lemma delete_audit_ok ms d : db_ok d -> db_ok (delete_audit_before ms d).
Proof.
  intros [H1 H2 H3 H4 H5 H6 H7 H8]. split; cbn; auto.
  - by apply filter_sorted.
  - apply Forall_forall. intros r [_ Hr]%list_elem_of_filter.
    rewrite Forall_forall in H8. auto.
Qed.

Lemma by_agent_empty a d t r :
  by_agent a d = ∅ -> enrollment d !! t = Some r -> en_agent_id r <> a.
Proof.
  intros He Ht Ha. assert (Hin : by_agent a d !! t = Some r) by (by apply map_lookup_filter_Some_2).
  rewrite He in Hin. by apply lookup_empty_Some in Hin.
Qed.

Lemma by_bootstrap_empty a d t r :
  by_bootstrap a d = ∅ -> enrollment d !! t = Some r -> en_bootstrap_public_key r <> a.
Proof.
  intros He Ht Ha. assert (Hin : by_bootstrap a d !! t = Some r) by (by apply map_lookup_filter_Some_2).
  rewrite He in Hin. by apply lookup_empty_Some in Hin.
Qed.

Lemma insert_enrollment_ok tok d d' : db_ok d -> insert_enrollment tok d = Ok d' -> db_ok d'.
Proof.
  intros [H1 H2 H3 H4 H5 H6 H7 H8]. unfold insert_enrollment.
  destruct (_ && _) eqn:E; [|done]. res_inv. bool_to_prop. intros [= <-].
  split; cbn; auto.
  - intros t r. rewrite lookup_insert_Some. naive_solver.
  - intros t1 t2 r1 r2. rewrite !lookup_insert_Some.
    intros [[<- <-]|[? Ht1]] [[<- <-]|[? Ht2]] Heq; try done; cbn in *.
    + eapply by_agent_empty in Ht2; [|eassumption]. congruence.
    + eapply by_agent_empty in Ht1; [|eassumption]. congruence.
    + eauto.
  - intros t1 t2 r1 r2. rewrite !lookup_insert_Some.
    intros [[<- <-]|[? Ht1]] [[<- <-]|[? Ht2]] Heq; try done; cbn in *.
    + eapply by_bootstrap_empty in Ht2; [|eassumption]. congruence.
    + eapply by_bootstrap_empty in Ht1; [|eassumption]. congruence.
    + eauto.
  - intros t r. rewrite lookup_insert_Some. intros [[<- <-]|[? Ht]]; [done | eauto].
  - intros i a Hi. destruct (H5 i a Hi) as (t & r & Ht & Hr). exists t, r.
    rewrite lookup_insert_ne; [done | congruence].
Qed.

(** Replacing one row by another with the same identity keeps the keys unique. *)
Lemma replace_row_unique {B} (f : enrollment_row -> B) (m : gmap string enrollment_row) t r r' :
  m !! t = Some r -> f r' = f r ->
  (forall t1 t2 r1 r2, m !! t1 = Some r1 -> m !! t2 = Some r2 -> f r1 = f r2 -> t1 = t2) ->
  forall t1 t2 r1 r2, <[t:=r']> m !! t1 = Some r1 -> <[t:=r']> m !! t2 = Some r2 ->
    f r1 = f r2 -> t1 = t2.
Proof.
  intros Ht Hf Hu t1 t2 r1 r2. rewrite !lookup_insert_Some.
  intros [[<- <-]|[? Ht1]] [[<- <-]|[? Ht2]] Heq; try done; rewrite ?Hf in Heq; eauto.
Qed.

Lemma credential_ok t c r d :
  db_ok d -> enrollment d !! t = Some r -> en_state r = TokenIssued ->
  row_checks (credential_row c r) = true ->
  db_ok (with_enrollment (<[t := credential_row c r]> (enrollment d)) d).
Proof.
  intros [H1 H2 H3 H4 H5 H6 H7 H8] Ht Hs Hc. split; cbn; auto.
  - intros t' r'. rewrite lookup_insert_Some. naive_solver.
  - by eapply (replace_row_unique en_agent_id).
  - by eapply (replace_row_unique en_bootstrap_public_key).
  - intros t' r'. rewrite lookup_insert_Some. intros [[<- <-]|[? Ht']]; [|eauto].
    cbn. rewrite Hs. done.
  - intros i a Hi. destruct (H5 i a Hi) as (t' & r' & Ht' & Hr & Hst). exists t', r'.
    rewrite lookup_insert_ne; [done|]. intros <-. rewrite Ht in Ht'. injection Ht' as <-.
    rewrite Hs in Hst. done.
Qed.

(** S4's one write: the token spent and its agent active. *)
Lemma activate_ok t at_ r s e d :
  db_ok d -> enrollment d !! t = Some r -> en_state r = TokenIssued ->
  en_permanent_jwt r <> None -> en_nats_public_key r <> None ->
  en_signing_public_key r = Some s -> en_encryption_public_key r = Some e ->
  row_checks (spent_row at_ r) = true ->
  db_ok (with_enrollment (<[t := spent_row at_ r]> (enrollment d))
    (with_agents (<[en_agent_id r := {| ag_signing_public_key := s;
       ag_encryption_public_key := e; ag_state := "active"; ag_created_at := at_;
       ag_nats_public_key := Some (default ""%string (en_nats_public_key r));
       ag_agent_name := Some (en_agent_name r) |}]> (agents d)) d)).
Proof.
  intros [H1 H2 H3 H4 H5 H6 H7 H8] Ht Hs Hj Hn Hsg He Hc. split; cbn; auto.
  - intros t' r'. rewrite lookup_insert_Some. naive_solver.
  - by eapply (replace_row_unique en_agent_id).
  - by eapply (replace_row_unique en_bootstrap_public_key).
  - intros t' r'. rewrite lookup_insert_Some. intros [[<- <-]|[Hne Ht']] Hst; cbn.
    + eexists. rewrite lookup_insert_eq. split; [done|]. cbn.
      destruct (en_nats_public_key r); naive_solver.
    + rewrite lookup_insert_ne; [by eapply H4|].
      intros Heq. apply Hne. by eapply H2.
  - intros i a. rewrite lookup_insert_Some. intros [[<- _]|[Hne Hi]].
    + exists t, (spent_row at_ r). by rewrite lookup_insert_eq.
    + destruct (H5 i a Hi) as (t' & r' & Ht' & Hr & Hst).
      destruct (decide (t = t')) as [<-|Htt].
      * rewrite Ht in Ht'. injection Ht' as <-. done.
      * exists t', r'. by rewrite lookup_insert_ne.
Qed.

Lemma insert_result_ok r o e d j d' :
  db_ok d -> jobs d !! re_JobID r = Some j ->
  insert_result r o e (with_jobs (<[re_JobID r := job_with_state (re_State r) j]> (jobs d)) d) = Ok d' ->
  db_ok d'.
Proof.
  intros [H1 H2 H3 H4 H5 H6 H7 H8] Hj. unfold insert_result. cbn [results jobs with_jobs].
  rewrite lookup_insert_eq. destruct (results d !! re_JobID r) eqn:Hr; [done|]. intros [= <-].
  split; cbn; auto. intros k x. rewrite lookup_insert_Some. intros [[<- <-]|[Hne Hx]].
  - eexists. by rewrite lookup_insert_eq.
  - destruct (H6 k x Hx) as (b & Hb & Hbs). exists b. by rewrite lookup_insert_ne.
Qed.

Lemma insert_job_ok r v d d' : db_ok d -> insert_job r v d = Ok d' -> db_ok d'.
Proof.
  intros [H1 H2 H3 H4 H5 H6 H7 H8]. unfold insert_job.
  destruct (jobs d !! ar_JobID r) eqn:Hr; [done|]. intros [= <-].
  split; cbn; auto. intros k x Hx. destruct (H6 k x Hx) as (b & Hb & Hbs). exists b.
  rewrite lookup_insert_ne; [done | congruence].
Qed.

Lemma row_checks_spec r :
  row_checks r = true <->
  (en_state r = TokenIssued \/ en_state r = TokenSpent) /\
  (en_nats_public_key r = None <-> en_permanent_jwt r = None) /\
  (en_state r = TokenSpent <-> en_spent_at r <> None).
Proof.
  unfold row_checks. rewrite !andb_true_iff, bool_decide_eq_true, !eqb_true_iff.
  rewrite !elem_of_cons, elem_of_nil.
  do 4 case_bool_decide; naive_solver.
Qed.

Lemma spent_row_checks at_ r : row_checks r = true -> row_checks (spent_row at_ r) = true.
Proof. rewrite !row_checks_spec. intros (_ & Hn & _). cbn. split_and!; [by right | done | done]. Qed.

Lemma credential_row_checks c r : row_checks r = true -> row_checks (credential_row c r) = true.
Proof. rewrite !row_checks_spec. intros (Hs & _ & Hp). cbn. split_and!; [done..|done]. Qed.

(** An agent whose token is unspent is not active yet. *)
Lemma issued_no_agent d t r :
  db_ok d -> enrollment d !! t = Some r -> en_state r = TokenIssued ->
  agents d !! en_agent_id r = None.
Proof.
  intros Hok Ht Hs. destruct (agents d !! en_agent_id r) eqn:E; [|done]. exfalso.
  destruct (ok_agents d Hok _ _ E) as (t' & r' & Ht' & Hr & Hst).
  assert (t' = t) as -> by (by eapply (ok_agent_unique d Hok)).
  rewrite Ht in Ht'. injection Ht' as <-. by rewrite Hs in Hst.
Qed.

(** Past its guard, S4's statements all succeed: nothing in the schema can
    refuse them when the halves were recorded. *)
Lemma activate_effect t at_ a d r j s e :
  db_ok d -> enrollment d !! t = Some r -> en_state r = TokenIssued ->
  en_permanent_jwt r = Some j -> j <> ""%string ->
  en_signing_public_key r = Some s -> en_encryption_public_key r = Some e ->
  effect (MActivate t at_ a) d = Ok (append_audit a
    (with_enrollment (<[t := spent_row (UnixMilli_of at_) r]> (enrollment d))
      (with_agents (<[en_agent_id r := {| ag_signing_public_key := s;
         ag_encryption_public_key := e; ag_state := "active";
         ag_created_at := UnixMilli_of at_;
         ag_nats_public_key := Some (default ""%string (en_nats_public_key r));
         ag_agent_name := Some (en_agent_name r) |}]> (agents d)) d))).
Proof.
  intros Hok Ht Hs Hj Hne Hsg He. cbn [effect]. unfold select_enrollment. rewrite Ht.
  cbn [mbind result_bind scanEnrollment State PermanentJWT].
  rewrite Hs, Hj. cbn [default]. rewrite bool_decide_eq_true_2, bool_decide_eq_false_2 by done.
  cbn [negb orb]. unfold insert_agent. cbn [scanEnrollment er_token AgentID SigningPublicKey EncryptionPublicKey].
  rewrite (issued_no_agent d t r), Hsg, He by done. cbn [mbind result_bind scanEnrollment er_token NATSPublicKey AgentName].
  unfold update_spent. cbn [enrollment with_agents]. rewrite Ht.
  by rewrite spent_row_checks by apply (ok_checks d Hok t r Ht).
Qed.

Lemma credential_effect t c a d r :
  db_ok d -> enrollment d !! t = Some r -> en_state r = TokenIssued ->
  en_nats_public_key r = None ->
  row_checks (credential_row c r) = true /\
  effect (MCredential t c a) d =
    Ok (append_audit a (with_enrollment (<[t := credential_row c r]> (enrollment d)) d)).
Proof.
  intros Hok Ht Hs Hn. cbn [effect]. rewrite Ht, Hs, Hn.
  rewrite !bool_decide_eq_true_2 by done. cbn [andb].
  assert (Hc : row_checks (credential_row c r) = true)
    by apply credential_row_checks, (ok_checks d Hok t r Ht).
  by rewrite Hc.
Qed.

(** What an activation that happened says of the row it found. *)
Lemma activate_inv t at_ a d d' :
  effect (MActivate t at_ a) d = Ok d' ->
  exists r j s e, enrollment d !! t = Some r /\ en_state r = TokenIssued /\
    en_permanent_jwt r = Some j /\ j <> ""%string /\ 
    en_signing_public_key r = Some s /\ en_encryption_public_key r = Some e.
Proof.
  cbn [effect]. unfold select_enrollment. destruct (enrollment d !! t) as [r|] eqn:Ht; [|done].
  cbn [mbind result_bind scanEnrollment State PermanentJWT SigningPublicKey EncryptionPublicKey].
  case_bool_decide as Hs; cbn [negb orb]; [|done]. case_bool_decide as Hj; [done|].
  unfold insert_agent. destruct (agents d !! _); [done|].
  destruct (en_signing_public_key r) as [s|] eqn:Hsg; [|done].
  destruct (en_encryption_public_key r) as [e|] eqn:He; [|done]. intros _.
  destruct (en_permanent_jwt r) as [j|] eqn:Hjw; [|done]. exists r, j, s, e. done.
Qed.

Lemma fmap_ok_inv {A B} (f : A -> B) (x : result store_err A) b :
  f <$> x = Ok b -> exists a, x = Ok a /\ b = f a.
Proof. destruct x; cbn; naive_solver. Qed.

Lemma effect_ok m d d' : db_ok d -> effect m d = Ok d' -> db_ok d'.
Proof.
  intros Hok. destruct m as [r|r|a|tok a|t c a|t at_ a|b].
  - by apply insert_job_ok.
  - cbn [effect]. destruct (jobs d !! re_JobID r) eqn:Hj; [|done]. by eapply insert_result_ok.
  - intros [= <-]. by apply append_audit_ok.
  - cbn [effect]. destruct (negb _); [done|]. intros (d1 & H1 & ->)%fmap_ok_inv.
    by apply append_audit_ok, (insert_enrollment_ok tok d).
  - intros HE. pose proof HE as HE'. cbn [effect] in HE.
    destruct (enrollment d !! t) as [r|] eqn:Ht; [|done].
    destruct (_ && _) eqn:Hg; [|done]. res_inv. bool_to_prop.
    destruct (credential_effect t c a d r) as [Hc Heq]; [done..|].
    rewrite Heq in HE'. injection HE' as <-. by apply append_audit_ok, credential_ok.
  - intros HE. destruct (activate_inv _ _ _ _ _ HE) as (r & j & s & e & Ht & Hs & Hj & Hne & Hsg & He).
    rewrite (activate_effect t at_ a d r j s e) in HE by done. injection HE as <-.
    pose proof (ok_checks d Hok t r Ht) as Hc.
    apply append_audit_ok, (activate_ok t (UnixMilli_of at_) r s e d); auto; try congruence.
    + apply row_checks_spec in Hc as (_ & Hc & _). naive_solver.
    + by apply spent_row_checks.
  - intros [= <-]. by apply delete_audit_ok.
Qed.

(** ** How the records may change *)

(** A token's row only gains: its identity never changes, its halves and JWT
    never change once recorded, and nothing changes once it is spent. *)
Record row_evolves (r r' : enrollment_row) : Prop := {
  ev_agent : en_agent_id r' = en_agent_id r;
  ev_name : en_agent_name r' = en_agent_name r;
  ev_bootstrap : en_bootstrap_public_key r' = en_bootstrap_public_key r;
  ev_expires : en_expires_at r' = en_expires_at r;
  ev_halves : en_nats_public_key r <> None ->
    en_nats_public_key r' = en_nats_public_key r /\
    en_signing_public_key r' = en_signing_public_key r /\
    en_encryption_public_key r' = en_encryption_public_key r /\
    en_permanent_jwt r' = en_permanent_jwt r;
  ev_spent : en_state r = TokenSpent -> r' = r;
}.

Record evolves (d d' : db) : Prop := {
  ev_tokens t r : enrollment d !! t = Some r ->
    exists r', enrollment d' !! t = Some r' /\ row_evolves r r';
  ev_agents i a : agents d !! i = Some a -> agents d' !! i = Some a;
  ev_results j r : results d !! j = Some r -> results d' !! j = Some r;
  ev_jobs j r : jobs d !! j = Some r ->
    exists r', jobs d' !! j = Some r' /\ r' = job_with_state (jb_state r') r;
  ev_seq : audit_seq d <= audit_seq d';
}.

Lemma row_evolves_refl r : row_evolves r r.
Proof. by split. Qed.

Lemma row_evolves_trans r1 r2 r3 : row_evolves r1 r2 -> row_evolves r2 r3 -> row_evolves r1 r3.
Proof.
  intros [A1 A2 A3 A4 A5 A6] [B1 B2 B3 B4 B5 B6]. split; try congruence.
  - intros Hn. destruct (A5 Hn) as (E1 & E2 & E3 & E4).
    destruct B5 as (F1 & F2 & F3 & F4); [congruence|]. split_and!; congruence.
  - intros Hs. specialize (A6 Hs). subst r2. auto.
Qed.

#[export] Instance evolves_preorder : PreOrder evolves.
Proof.
  split.
  - intros d. split; eauto using row_evolves_refl; [|lia].
    intros j r Hj. exists r. split; [done|]. by destruct r.
  - intros d1 d2 d3 [A1 A2 A3 A4 A5] [B1 B2 B3 B4 B5]. split; eauto; [| |lia].
    + intros t r Ht. destruct (A1 t r Ht) as (r2 & H2 & E2). destruct (B1 t r2 H2) as (r3 & H3 & E3).
      eauto using row_evolves_trans.
    + intros j r Hj. destruct (A4 j r Hj) as (r2 & H2 & E2). destruct (B4 j _ H2) as (r3 & H3 & E3).
      exists r3. split; [done|]. rewrite E3 at 1. by rewrite E2.
Qed.

Lemma evolves_append_audit a d d' : evolves d d' -> evolves d (append_audit a d').
Proof. intros [H1 H2 H3 H4 H5]. split; cbn; auto. lia. Qed.

Lemma evolves_row t r r' d :
  enrollment d !! t = Some r -> row_evolves r r' ->
  evolves d (with_enrollment (<[t := r']> (enrollment d)) d).
Proof.
  intros Ht Hr. destruct (evolves_preorder) as [Hrefl _]. destruct (Hrefl d) as [H1 H2 H3 H4 H5].
  split; cbn; auto. intros t0 r0 Ht0. destruct (decide (t = t0)) as [<-|Hne].
  - rewrite lookup_insert_eq. rewrite Ht in Ht0. injection Ht0 as <-. eauto.
  - rewrite lookup_insert_ne by done. eauto using row_evolves_refl.
Qed.

Lemma spent_row_evolves at_ r : en_state r = TokenIssued -> row_evolves r (spent_row at_ r).
Proof. intros Hs. split; cbn; auto. rewrite Hs. done. Qed.

Lemma credential_row_evolves c r :
  en_state r = TokenIssued -> en_nats_public_key r = None -> row_evolves r (credential_row c r).
Proof. intros Hs Hn. split; cbn; auto; [done|]. rewrite Hs. done. Qed.

Lemma effect_evolves m d d' : db_ok d -> effect m d = Ok d' -> evolves d d'.
Proof.
  intros Hok. destruct m as [r|r|a|tok a|t c a|t at_ a|b].
  - cbn [effect]. unfold insert_job. destruct (jobs d !! ar_JobID r) eqn:Hr; [done|]. intros [= <-].
    destruct (reflexivity (R := evolves) d) as [E1 E2 E3 E4 E5]. split; cbn; auto.
    intros j x Hj. rewrite lookup_insert_ne by congruence. eauto.
  - cbn [effect]. destruct (jobs d !! re_JobID r) as [b|] eqn:Hj; [|done].
    unfold insert_result. cbn [results with_jobs jobs]. rewrite lookup_insert_eq.
    destruct (results d !! re_JobID r) eqn:Hr; [done|]. intros [= <-].
    destruct (reflexivity (R := evolves) d) as [E1 E2 E3 E4 E5]. split; cbn; auto.
    + intros k x Hk. rewrite lookup_insert_ne by congruence. eauto.
    + intros k x Hk. destruct (decide (re_JobID r = k)) as [<-|Hne].
      * rewrite lookup_insert_eq. rewrite Hj in Hk. injection Hk as <-.
        eexists. split; [done|]. by destruct b.
      * rewrite lookup_insert_ne by done. eauto.
  - intros [= <-]. apply evolves_append_audit. reflexivity.
  - cbn [effect]. destruct (negb _); [done|]. intros (d1 & Hd1 & ->)%fmap_ok_inv.
    apply evolves_append_audit. unfold insert_enrollment in Hd1.
    destruct (_ && _) eqn:E; [|done]. injection Hd1 as <-. res_inv. bool_to_prop.
    destruct (reflexivity (R := evolves) d) as [E1 E2 E3 E4 E5]. split; cbn; auto.
    intros t0 r0 Ht0. rewrite lookup_insert_ne by congruence. eauto.
  - cbn [effect]. destruct (enrollment d !! t) as [r|] eqn:Ht; [|done].
    destruct (_ && _) eqn:E; [|done]. res_inv. bool_to_prop.
    intros (d1 & Hd1 & ->)%fmap_ok_inv. destruct (row_checks _); [|done]. injection Hd1 as <-.
    apply evolves_append_audit, (evolves_row t r); [done | by apply credential_row_evolves].
  - intros HE. destruct (activate_inv _ _ _ _ _ HE) as (r & j & s & e & Ht & Hs & Hj & Hne & Hsg & He).
    rewrite (activate_effect t at_ a d r j s e) in HE by done. injection HE as <-.
    apply evolves_append_audit. etrans.
    2: { match goal with |- context [with_agents ?m d] =>
           by apply (evolves_row t r _ (with_agents m d)), spent_row_evolves end. }
    destruct (reflexivity (R := evolves) d) as [E1 E2 E3 E4 E5]. split; cbn; auto.
    intros i x Hi. rewrite lookup_insert_ne; [done|]. intros <-.
    by rewrite (issued_no_agent d t r) in Hi.
  - intros [= <-]. destruct (reflexivity (R := evolves) d) as [E1 E2 E3 E4 E5]. split; cbn; auto.
Qed.

(** ** What the store promises *)

Lemma mutation_step m s r s' :
  db_ok (tables s) -> run_mutation m s = (r, s') ->
  db_ok (tables s') /\ evolves (tables s) (tables s').
Proof.
  intros Hok HE. split.
  - apply (refines_preserves _ _ _ (fun _ d => db_ok d) _ _ _ (mutation_refines m) HE); [done|].
    unfold unit_effect. intros [] d Hd. apply bind_ok_inv in Hd as (d1 & Hd1 & [= <-]).
    by apply (effect_ok m (tables s)).
  - apply (refines_preserves _ _ _ evolves _ _ _ (mutation_refines m) HE); [reflexivity|].
    unfold unit_effect. intros [] d Hd. apply bind_ok_inv in Hd as (d1 & Hd1 & [= <-]).
    by apply (effect_evolves m (tables s)).
Qed.

(** A run of the program against one database: operations in order, each with
    whatever the engine does to it, their errors reported and survived. *)
Fixpoint history (ms : list mutation) (s : session db) : session db :=
  match ms with
  | [] => s
  | m :: ms' => history ms' (run_mutation m s).2
  end.

Lemma history_app ms1 ms2 s : history (ms1 ++ ms2) s = history ms2 (history ms1 s).
Proof. revert s. induction ms1; cbn; auto. Qed.

Lemma history_step ms s :
  db_ok (tables s) -> db_ok (tables (history ms s)) /\ evolves (tables s) (tables (history ms s)).
Proof.
  revert s. induction ms as [|m ms IH]; intros s Hok; cbn [history]; [by split|].
  destruct (run_mutation m s) as [r s1] eqn:E. cbn [snd].
  destruct (mutation_step m s r s1 Hok E) as [H1 H2]. destruct (IH s1 H1) as [H3 H4].
  split; [done | by etrans].
Qed.

(** C19. Every mutating operation of the store is atomic under engine faults.
    Whichever of its calls fail, it either reports the fault and leaves every
    table as it was, or behaves as its one-step effect: all its rows and its
    audit record together, or the refusal and none of them. *)
Theorem mutation_atomic m s r s' :
  run_mutation m s = (r, s') ->
  (true ∈ fates s /\ r = Err DbFault /\ tables s' = tables s) \/
  match effect m (tables s) with
  | Ok d => r = Ok tt /\ tables s' = d
  | Err e => r = Err e /\ tables s' = tables s
  end.
Proof.
  intros HE. destruct (mutation_refines m s r s' HE) as [_ [[[Hf ->] ->]|H]]; [by left|right].
  unfold unit_effect in H. by destruct (effect m (tables s)).
Qed.

(** C20. The store's invariant holds after any history of operations and engine
    faults from an empty database, and history only moves one way: identifiers
    and bootstrap keys stay unique, an agent is active exactly when its token
    is spent and under the halves that token recorded, a job's state is its
    result's, audit identifiers increase; and from any point on, tokens, agents
    and results persist, recorded halves and JWTs never change and a spent
    token never changes at all. *)
Theorem history_invariant ms1 ms2 fs :
  let s1 := history ms1 (Session empty_db fs) in
  let s2 := history (ms1 ++ ms2) (Session empty_db fs) in
  db_ok (tables s1) /\ db_ok (tables s2) /\ evolves (tables s1) (tables s2).
Proof.
  cbv zeta. rewrite history_app.
  destruct (history_step ms1 (Session empty_db fs) empty_db_ok) as [H1 _].
  destruct (history_step ms2 _ H1). auto.
Qed.

Lemma mutation_fault_free m d :
  run_mutation m (Session d []) =
  match effect m d with
  | Ok d' => (Ok tt, Session d' [])
  | Err e => (Err e, Session d [])
  end.
Proof.
  rewrite (refines_fault_free DbFault _ _ d (mutation_refines m)). unfold unit_effect.
  by destruct (effect m d).
Qed.

Lemma count_zero t a d :
  count_token_or_agent t a d = 0 <-> enrollment d !! t = None /\ by_agent a d = ∅.
Proof.
  unfold count_token_or_agent, by_agent.
  transitivity (filter (fun kv : string * enrollment_row =>
    kv.1 = t \/ en_agent_id kv.2 = a) (enrollment d) = ∅).
  - rewrite <- map_size_empty_iff. lia.
  - rewrite !map_empty_filter. unfold map_Forall. cbn. split.
    + intros H. split; [|intros i x Hi Ha; apply (H i x Hi); auto].
      destruct (enrollment d !! t) as [r|] eqn:E; [|done]. exfalso. apply (H t r E); auto.
    + intros [H1 H2] i x Hi [-> |Ha]; [congruence | by apply (H2 i x Hi)].
Qed.


(** ** Concrete inputs *)

Definition sample_token : EnrollmentToken := {|
  TokenID := "aa"; AgentID := "bb"; AgentName := "web"; BootstrapPublicKey := "UA";
  IssuedAt := 5 * Second; ExpiresAt := 900 * Second; IssuedByUID := 0 |}.
Definition sample_audit (action : string) : AuditRecord := {|
  JobID := None; CorrelationID := None; Actor := None; ActorUID := Some 0;
  ActorUsernameSnapshot := None; Target := Some "bb"%string; Action := action;
  AResult := "ok"; At := 5 * Second |}.
Definition sample_credential : Credential := {|
  cr_NATSPublicKey := "UB"; cr_SigningPublicKey := Some [x01];
  cr_EncryptionPublicKey := Some [x02]; cr_PermanentJWT := "jwt"; cr_At := 6 * Second |}.
Definition sample_life : list mutation :=
  [MIssue sample_token (sample_audit "issued");
   MCredential "aa" sample_credential (sample_audit "credential")].
Definition sample_db : db := tables (history sample_life (Session empty_db [])).

(** The fourth call, the audit insert, fails: the token is not recorded either. *)
Lemma mutation_atomic_witness :
  IssueEnrollment sample_token (sample_audit "issued") (Session empty_db [false; false; false; true])
    = (Err DbFault, Session empty_db []) /\
  tables (IssueEnrollment sample_token (sample_audit "issued")
    (Session empty_db [false; false; false; true])).2 = empty_db.
Proof.
  split; [reflexivity|].
  destruct (mutation_atomic (MIssue sample_token (sample_audit "issued"))
    (Session empty_db [false; false; false; true]) _ _ eq_refl) as [(_ & _ & H)|H].
  - exact H.
  - vm_compute in H. destruct H as [[=] _].
Defined.

