(* ===== verification/Migrations.v ===== *)
(** * Schema migrations and opening the store

    Models [internal/store/migrations.go] and the [open] of [store.go].  The
    four migrations are their statements over tables and indexes; [migrate]
    applies each version at most once, in its own transaction.  A database is
    therefore always at exactly one of five levels. *)
From S2P Require Import Prelude GoBytes GoTime Sql Store.

(** ** Tables, indexes and the statements that change them *)

Inductive value := VNull | VInt (z : Z) | VText (s : string) | VBlob (b : bytes).
#[export] Instance value_eq_dec : EqDecision value.
Proof. solve_decision. Defined.

(** A column and whether it is [NOT NULL]; a row maps columns to values, an
    absent one reading as NULL. *)
Definition column : Type := string * bool.
Abbreviation row := (gmap string value).
Record table := { t_cols : list column; t_rows : list row }.
Record schema := { s_tables : gmap string table; s_indexes : gmap string string }.

Definition with_tables t s := {| s_tables := t; s_indexes := s_indexes s |}.

Inductive ddl :=
  | CREATE_TABLE (name : string) (cols : list column)
  | CREATE_INDEX (name on_table : string) (cols : list string)
  | RENAME_TABLE (old new : string)
  | INSERT_SELECT (into : string) (cols : list string) (from : string)
  | DROP_TABLE (name : string)
  | ADD_COLUMN (tbl col : string).

Definition name_free (n : string) (s : schema) : bool :=
  bool_decide (s_tables s !! n = None) && bool_decide (s_indexes s !! n = None).
Definition has_cols (cols : list string) (t : table) : bool :=
  forallb (fun c => bool_decide (c ∈ (t_cols t).*1)) cols.

Definition read (r : row) (c : string) : value := default VNull (r !! c).

(** The row [INSERT ... SELECT] writes: the named columns, the rest NULL. *)
Definition select_row (cols : list string) (r : row) : row :=
  list_to_map (map (fun c => (c, read r c)) cols).

Definition not_null_ok (cols : list column) (r : row) : bool :=
  forallb (fun c => negb c.2 || negb (bool_decide (read r c.1 = VNull))) cols.

Definition exec_ddl (x : ddl) (s : schema) : option schema :=
  match x with
  | CREATE_TABLE n cols =>
      if name_free n s
      then Some (with_tables (<[n := {| t_cols := cols; t_rows := [] |}]> (s_tables s)) s)
      else None
  | CREATE_INDEX n t cols =>
      tb ← s_tables s !! t;
      if name_free n s && has_cols cols tb
      then Some {| s_tables := s_tables s; s_indexes := <[n := t]> (s_indexes s) |}
      else None
  | RENAME_TABLE old new =>
      tb ← s_tables s !! old;
      if name_free new s
      then Some {| s_tables := <[new := tb]> (delete old (s_tables s));
                   s_indexes := (fun t => if bool_decide (t = old) then new else t) <$> s_indexes s |}
      else None
  | INSERT_SELECT into cols from =>
      src ← s_tables s !! from; dst ← s_tables s !! into;
      let rows := map (select_row cols) (t_rows src) in
      if has_cols cols src && has_cols cols dst && forallb (not_null_ok (t_cols dst)) rows
      then Some (with_tables (<[into := {| t_cols := t_cols dst; t_rows := t_rows dst ++ rows |}]>
                   (s_tables s)) s)
      else None
  | DROP_TABLE n =>
      _ ← s_tables s !! n;
      Some {| s_tables := delete n (s_tables s);
              s_indexes := filter (fun kv => kv.2 <> n) (s_indexes s) |}
  | ADD_COLUMN t c =>
      tb ← s_tables s !! t;
      if bool_decide (c ∈ (t_cols tb).*1) then None
      else Some (with_tables (<[t := {| t_cols := t_cols tb ++ [(c, false)];
                   t_rows := t_rows tb |}]> (s_tables s)) s)
  end.

Fixpoint exec_all (xs : list ddl) (s : schema) : option schema :=
  match xs with
  | [] => Some s
  | x :: xs' => s' ← exec_ddl x s; exec_all xs' s'
  end.

(** ** The four migrations *)

Abbreviation NN c := (c%string, true) (only parsing).
Abbreviation NU c := (c%string, false) (only parsing).

Definition audit_copied : list string :=
  ["id"; "timestamp"; "job_id"; "correlation_id"; "actor"; "target"; "action"; "result"]%string.

(** A [TEXT PRIMARY KEY] admits NULL in SQLite; an [INTEGER PRIMARY KEY] does not. *)
Definition migrations : list (Z * list ddl) :=
  [(1,
    [CREATE_TABLE "agents"
       [NU "agent_id"; NN "signing_public_key"; NN "encryption_public_key"; NN "state"; NN "created_at"];
     CREATE_TABLE "enrollment"
       [NU "token_id"; NU "agent_id"; NN "status"; NN "issued_at"; NU "denied_at"];
     CREATE_TABLE "jobs"
       [NU "job_id"; NN "correlation_id"; NN "target"; NN "argv_json"; NN "execution_user";
        NN "state"; NN "accepted_at"];
     CREATE_TABLE "results"
       [NU "job_id"; NN "state"; NN "exit_status"; NN "stdout"; NN "stderr"; NN "truncated";
        NN "discarded_bytes"; NN "recorded_at"];
     CREATE_TABLE "audit"
       [NN "id"; NN "timestamp"; NN "job_id"; NN "correlation_id"; NN "actor"; NN "target";
        NN "action"; NN "result"]]);
   (2,
    [CREATE_INDEX "audit_job_time" "audit" ["job_id"; "timestamp"]%string;
     CREATE_INDEX "jobs_state" "jobs" ["state"]%string]);
   (3,
    [RENAME_TABLE "audit" "audit_v2";
     CREATE_TABLE "audit"
       [NN "id"; NN "timestamp"; NU "job_id"; NU "correlation_id"; NU "actor"; NU "actor_uid";
        NU "actor_username_snapshot"; NU "target"; NN "action"; NN "result"];
     INSERT_SELECT "audit" audit_copied "audit_v2";
     DROP_TABLE "audit_v2";
     CREATE_INDEX "audit_job_time" "audit" ["job_id"; "timestamp"]%string]);
   (4,
    [DROP_TABLE "enrollment";
     CREATE_TABLE "enrollment"
       [NU "token_id"; NN "agent_id"; NN "agent_name"; NN "bootstrap_public_key"; NN "state";
        NN "issued_at"; NN "expires_at"; NN "issued_by_uid"; NU "nats_public_key";
        NU "signing_public_key"; NU "encryption_public_key"; NU "permanent_jwt";
        NU "credential_issued_at"; NU "spent_at"];
     ADD_COLUMN "agents" "nats_public_key";
     ADD_COLUMN "agents" "agent_name"])].

(** ** [migrate] *)

(** The file: its versions table, if any, and the rest of the schema. *)
Record file_db := { versions : option (list Z); content : schema }.
Definition fresh_file : file_db := {| versions := None; content := {| s_tables := ∅; s_indexes := ∅ |} |}.

Inductive migrate_err := MigFault | Injected (version : Z) | Refused_ddl.

Definition create_versions (d : file_db) : result migrate_err file_db :=
  Ok {| versions := Some (default [] (versions d)); content := content d |}.
Definition count_version (v : Z) (d : file_db) : result migrate_err Z :=
  match versions d with
  | Some vs => Ok (Z.of_nat (length (filter (fun w => w = v) vs)))
  | None => Err Refused_ddl
  end.
Definition run_script (xs : list ddl) (d : file_db) : result migrate_err file_db :=
  s ← of_option (exec_all xs (content d)) Refused_ddl;
  Ok {| versions := versions d; content := s |}.
Definition insert_version (v : Z) (d : file_db) : result migrate_err file_db :=
  match versions d with
  | Some vs => if bool_decide (v ∈ vs) || negb (0 <? v) then Err Refused_ddl
               else Ok {| versions := Some (vs ++ [v]); content := content d |}
  | None => Err Refused_ddl
  end.

Fixpoint migrate_loop (failAt : Z) (ms : list (Z * list ddl)) : sql migrate_err file_db unit :=
  match ms with
  | [] => mret tt
  | (v, script) :: ms' =>
      applied ← query MigFault (count_version v);
      if negb (applied =? 0) then migrate_loop failAt ms'
      else if failAt =? v then sql_err (Injected v)
      else
        _ ← in_tx MigFault (
              _ ← exec MigFault (run_script script);
              exec MigFault (insert_version v));
        migrate_loop failAt ms'
  end.

Definition migrate (failAt : Z) : sql migrate_err file_db unit :=
  _ ← exec MigFault create_versions;
  migrate_loop failAt migrations.

(** ** [open] *)

(** What the file system and the engine answer on the way. *)
Record open_env := {
  env_path_empty : bool;
  env_stat_dir : bool;
  env_chmod_existing : bool;   (** succeeded, or failed because there is no file *)
  env_sql_open : bool;
  env_size : option Z;         (** [os.Stat] of the file after a failed migration *)
  env_integrity : result unit string;
  env_chmod_final : bool;
}.

Inductive open_err := BadPath | ErrCorrupt | OpenFailed | MigrateFailed (e : migrate_err).

Definition preparePath (env : open_env) : bool :=
  negb (env_path_empty env) && env_stat_dir env && env_chmod_existing env.

Definition open (env : open_env) (failAt : Z) (s : session file_db)
  : result open_err unit * session file_db :=
  if negb (preparePath env) then (Err BadPath, s)
  else if negb (env_sql_open env) then (Err OpenFailed, s)
  else match migrate failAt s with
       | (Err e, s') =>
           let sized := match env_size env with Some n => 0 <? n | None => false end in
           (Err (if (failAt =? 0) && sized then ErrCorrupt else MigrateFailed e), s')
       | (Ok _, s') =>
           if negb (validate (env_integrity env)) then (Err ErrCorrupt, s')
           else if negb (env_chmod_final env) then (Err OpenFailed, s')
           else (Ok tt, s')
       end.

(** ** Shapes: a schema without its rows *)

Definition strip_table (t : table) : table := {| t_cols := t_cols t; t_rows := [] |}.
Definition strip (s : schema) : schema :=
  {| s_tables := strip_table <$> s_tables s; s_indexes := s_indexes s |}.

Definition rows_ok (s : schema) : Prop :=
  forall n t, s_tables s !! n = Some t ->
    Forall (fun r => not_null_ok (t_cols t) r = true) (t_rows t).

(** An [INSERT ... SELECT] that fills every [NOT NULL] column from a [NOT NULL]
    one cannot fail on its rows. *)
Definition insert_safe (x : ddl) (s : schema) : bool :=
  match x with
  | INSERT_SELECT into cols from =>
      match s_tables s !! from, s_tables s !! into with
      | Some src, Some dst =>
          forallb (fun c : column => negb c.2 || (bool_decide (c.1 ∈ cols)
                     && bool_decide ((c.1, true) ∈ t_cols src))) (t_cols dst)
      | _, _ => true
      end
  | _ => true
  end.

Lemma read_select cols r c : read (select_row cols r) c = if decide (c ∈ cols) then read r c else VNull.
Proof.
  enough (H : select_row cols r !! c = if decide (c ∈ cols) then Some (read r c) else None).
  { unfold read at 1. rewrite H. by case_decide. }
  unfold select_row. induction cols as [|d cols IH]; cbn [map].
  - rewrite decide_False by apply not_elem_of_nil. done.
  - rewrite list_to_map_cons. destruct (decide (d = c)) as [->|Hne].
    + rewrite lookup_insert_eq, decide_True by set_solver. done.
    + rewrite lookup_insert_ne, IH by done.
      destruct (decide (c ∈ cols)); [rewrite decide_True by set_solver | rewrite decide_False by set_solver]; done.
Qed.

Lemma name_free_strip n s : name_free n (strip s) = name_free n s.
Proof.
  unfold name_free. cbn. rewrite lookup_fmap. f_equal.
  apply bool_decide_ext. by destruct (s_tables s !! n).
Qed.

Lemma has_cols_strip cols t : has_cols cols (strip_table t) = has_cols cols t.
Proof. done. Qed.

Lemma strip_with_tables m s : strip (with_tables m s) = with_tables (strip_table <$> m) (strip s).
Proof. done. Qed.

Lemma insert_rows_ok src dst cols rows :
  Forall (fun r => not_null_ok (t_cols src) r = true) rows ->
  forallb (fun c : column => negb c.2 || (bool_decide (c.1 ∈ cols)
             && bool_decide ((c.1, true) ∈ t_cols src))) (t_cols dst) = true ->
  Forall (fun r => not_null_ok (t_cols dst) r = true) (map (select_row cols) rows).
Proof.
  intros Hr Hs. apply Forall_forall. intros r' (r & -> & Hin)%list_elem_of_fmap.
  rewrite Forall_forall in Hr. specialize (Hr r Hin). unfold not_null_ok in *.
  rewrite forallb_forall in *. intros [c b] Hc. specialize (Hs _ Hc). cbn in *.
  destruct b; cbn in *; [|done]. res_inv. bool_to_prop.
  rewrite read_select, decide_True by done.
  assert (Hsrc : In (c, true) (t_cols src)) by (by apply list_elem_of_In).
  specialize (Hr _ Hsrc). exact Hr.
Qed.

Lemma exec_ddl_strip x s t :
  rows_ok s -> insert_safe x (strip s) = true -> exec_ddl x (strip s) = Some t ->
  exists s', exec_ddl x s = Some s' /\ strip s' = t /\ rows_ok s'.
Proof.
  intros Hok Hsafe.
  destruct x as [n cols|n tb cols|old new|into cols from|n|tb c]; cbn [exec_ddl].
  - rewrite name_free_strip. destruct (name_free n s); [|done]. intros [= <-].
    eexists. split; [done|]. rewrite strip_with_tables, fmap_insert. split; [done|].
    intros m u. cbn. rewrite lookup_insert_Some. intros [[_ <-]|[_ Hu]]; [constructor | by eapply Hok].
  - cbn. rewrite lookup_fmap. destruct (s_tables s !! tb) as [u|]; [|done]. cbn.
    rewrite name_free_strip, has_cols_strip. destruct (_ && _); [|done]. intros [= <-].
    eexists. split; [done|]. split; [done | exact Hok].
  - cbn. rewrite lookup_fmap. destruct (s_tables s !! old) as [u|] eqn:Hu; [|done]. cbn.
    rewrite name_free_strip. destruct (name_free new s); [|done]. intros [= <-].
    eexists. split; [done|]. unfold strip; cbn. rewrite fmap_insert, fmap_delete. split; [done|].
    intros m v. cbn. rewrite lookup_insert_Some. intros [[_ <-]|[_ Hv]]; [by eapply Hok|].
    apply lookup_delete_Some in Hv as [_ Hv]. by eapply Hok.
  - cbn in *. rewrite !lookup_fmap in *. destruct (s_tables s !! from) as [src|] eqn:Hsrc; [|done].
    destruct (s_tables s !! into) as [dst|] eqn:Hdst; [|done]. cbn in *.
    rewrite !has_cols_strip. destruct (has_cols cols src), (has_cols cols dst); try done. cbn.
    intros [= <-]. pose proof (insert_rows_ok src dst cols (t_rows src) (Hok _ _ Hsrc) Hsafe) as Hrows.
    assert (Hb : forallb (not_null_ok (t_cols dst)) (map (select_row cols) (t_rows src)) = true).
    { apply forallb_forall. rewrite Forall_forall in Hrows. intros r Hr.
      apply Hrows. by apply list_elem_of_In. }
    rewrite Hb. eexists. split; [done|]. rewrite strip_with_tables, fmap_insert. split; [done|].
    intros m u. cbn. rewrite lookup_insert_Some. intros [[_ <-]|[_ Hu]]; [|by eapply Hok].
    cbn. apply Forall_app. split; [by eapply Hok | done].
  - cbn. rewrite lookup_fmap. destruct (s_tables s !! n) as [u|] eqn:Hu; [|done]. cbn.
    intros [= <-]. eexists. split; [done|]. unfold strip; cbn. rewrite fmap_delete. split; [done|].
    intros m v. cbn. intros [_ Hv]%lookup_delete_Some. by eapply Hok.
  - cbn. rewrite lookup_fmap. destruct (s_tables s !! tb) as [u|] eqn:Hu; [|done]. cbn.
    case_bool_decide; [done|]. intros [= <-].
    eexists. split; [done|]. rewrite strip_with_tables, fmap_insert. split; [done|].
    intros m v. cbn. rewrite lookup_insert_Some. intros [[_ <-]|[_ Hv]]; [|by eapply Hok]. cbn.
    eapply Forall_impl; [by eapply Hok|]. intros r Hr. cbn in Hr |- *. unfold not_null_ok in *.
    rewrite forallb_app. apply andb_true_iff. by split.
Qed.

Fixpoint script_safe (xs : list ddl) (s : schema) : bool :=
  match xs with
  | [] => true
  | x :: xs' => insert_safe x s &&
      match exec_ddl x s with Some s' => script_safe xs' s' | None => true end
  end.

Lemma exec_all_strip xs s t :
  rows_ok s -> script_safe xs (strip s) = true -> exec_all xs (strip s) = Some t ->
  exists s', exec_all xs s = Some s' /\ strip s' = t /\ rows_ok s'.
Proof.
  revert s. induction xs as [|x xs IH]; intros s Hok; cbn [script_safe exec_all].
  { intros _ [= <-]. eauto. }
  intros [Hx Hxs]%andb_true_iff. destruct (exec_ddl x (strip s)) as [s1|] eqn:E; [|done].
  cbn [mbind option_bind].
  destruct (exec_ddl_strip x s s1 Hok Hx E) as (s' & -> & <- & Hok'). cbn. by apply IH.
Qed.

(** ** Levels *)

Definition script (k : nat) : list ddl := match nth_error migrations k with Some m => m.2 | None => [] end.

Fixpoint shape (k : nat) : schema :=
  match k with
  | O => {| s_tables := ∅; s_indexes := ∅ |}
  | S k' => default {| s_tables := ∅; s_indexes := ∅ |} (exec_all (script k') (shape k'))
  end.

(** The state of the file after the first [k] migrations, whatever its rows. *)
Definition at_level (k : nat) (d : file_db) : Prop :=
  default [] (versions d) = map Z.of_nat (seq 1 k) /\
  strip (content d) = shape k /\ rows_ok (content d).

Lemma fresh_level : at_level 0 fresh_file.
Proof. split; [done|]. split; [done|]. intros n t Ht. cbn in Ht. by apply lookup_empty_Some in Ht. Qed.

(** What the audit table holds, in the columns it has had from the start. *)
Definition audit_view (s : schema) : list (list value) :=
  match s_tables s !! "audit"%string with
  | Some t => map (fun r => map (read r) audit_copied) (t_rows t)
  | None => []
  end.

Lemma script_runs k : (k < 4)%nat -> exec_all (script k) (shape k) = Some (shape (S k)).
Proof.
  intros Hk. destruct k as [|[|[|[|]]]]; [..|lia]; vm_compute; reflexivity.
Qed.
Lemma script_is_safe k : (k < 4)%nat -> script_safe (script k) (shape k) = true.
Proof.
  intros Hk. destruct k as [|[|[|[|]]]]; [..|lia]; vm_compute; reflexivity.
Qed.

(** No migration loses or alters an audit record. *)
Ltac run_ddl :=
  repeat match goal with
  | H : (_ ≫= _) = Some _ |- _ => apply bind_Some in H as (? & ? & ?)
  | H : (if ?b then _ else _) = Some _ |- _ => destruct b eqn:?; [|discriminate H]
  | H : (if ?b then None else _) = Some _ |- _ => destruct b eqn:?; [discriminate H|]
  | H : Some _ = Some _ |- _ => injection H as <-
  | H : exec_all _ _ = Some _ |- _ => progress cbn [exec_all] in H
  | H : exec_ddl _ _ = Some _ |- _ => progress cbn [exec_ddl] in H
  end.

Lemma view_select rows :
  map (fun r => map (read r) audit_copied) (map (select_row audit_copied) rows) =
  map (fun r => map (read r) audit_copied) rows.
Proof.
  rewrite map_map. apply map_ext. intros r. apply map_ext_in. intros c Hc.
  rewrite read_select, decide_True; [done|]. by apply list_elem_of_In.
Qed.

Lemma script_audit k s s' :
  (k < 4)%nat -> strip s = shape k -> exec_all (script k) s = Some s' -> audit_view s' = audit_view s.
Proof.
  intros Hk Hs HE. destruct k as [|[|[|[|]]]]; [..|lia]; cbn [script nth_error migrations snd] in HE.
  - assert (Ht : s_tables s = ∅).
    { apply (f_equal s_tables) in Hs. cbn in Hs. by apply fmap_empty_inv in Hs. }
    run_ddl. unfold audit_view. cbn [s_tables with_tables].
    rewrite Ht. by rewrite lookup_insert_eq, lookup_empty.
  - run_ddl. done.
  - run_ddl. unfold audit_view. cbn [s_tables with_tables].
    repeat match goal with H : _ && _ = true |- _ => clear H end.
    cbn [s_tables with_tables] in *. simplify_map_eq. by rewrite view_select.
  - run_ddl. unfold audit_view. cbn [s_tables with_tables s_indexes].
    rewrite !lookup_insert_ne, lookup_delete_ne by done. done.
Qed.

Lemma script_step k d :
  (k < 4)%nat -> at_level k d ->
  exists s', exec_all (script k) (content d) = Some s' /\ strip s' = shape (S k) /\ rows_ok s' /\
    audit_view s' = audit_view (content d).
Proof.
  intros Hk (_ & Hs & Hr).
  destruct (exec_all_strip (script k) (content d) (shape (S k)) Hr) as (s' & He & Hs' & Hr').
  - rewrite Hs. by apply script_is_safe.
  - rewrite Hs. by apply script_runs.
  - exists s'. repeat split; auto. by eapply script_audit.
Qed.

(** ** What [migrate] does from a level *)

Lemma count_level k d v :
  at_level k d -> versions d <> None -> 1 <= v ->
  count_version v d = Ok (if v <=? Z.of_nat k then 1 else 0).
Proof.
  intros (Hv & _) Hsome Hpos. unfold count_version.
  destruct (versions d) as [vs|]; [|done]. cbn in Hv. subst vs. f_equal. clear -Hpos.
  induction k as [|k IH]; [destruct (Z.leb_spec v (Z.of_nat 0)); [lia | done]|].
  rewrite seq_S, map_app, filter_app, length_app. cbn [map].
  rewrite filter_cons. replace (1 + k)%nat with (S k) by lia.
  case_decide as Hk; destruct (Z.leb_spec v (Z.of_nat k)), (Z.leb_spec v (Z.of_nat (S k))); try lia;
    rewrite filter_nil; cbn [length]; lia.
Qed.

(** One version's turn of the loop from the level below it. *)
Definition step_effect (k : nat) (d : file_db) : result migrate_err (unit * file_db) :=
  d1 ← run_script (script k) d; d2 ← insert_version (Z.of_nat (S k)) d1; Ok (tt, d2).

Lemma step_refines k :
  refines MigFault
    (in_tx MigFault (_ ← exec MigFault (run_script (script k));
                     exec MigFault (insert_version (Z.of_nat (S k)))))
    (step_effect k).
Proof.
  apply in_tx_refines. intros s r s' HE.
  assert (Hb : tx_refines MigFault (_ ← exec MigFault (run_script (script k));
                     exec MigFault (insert_version (Z.of_nat (S k))))
    (fun d => '(_, d') ← (d1 ← run_script (script k) d; Ok (tt, d1));
              d2 ← insert_version (Z.of_nat (S k)) d'; Ok (tt, d2))).
  { apply (bind_tx MigFault _ _ _ (fun _ d' => d2 ← insert_version (Z.of_nat (S k)) d'; Ok (tt, d2)));
      [|intros _]; apply refines_tx, call_refines. }
  destruct (Hb s r s' HE) as [Hs H]. split; [done|]. unfold step_effect.
  destruct (run_script (script k) (tables s)); exact H.
Qed.

Lemma step_effect_level k d :
  (k < 4)%nat -> at_level k d -> versions d <> None ->
  exists d', step_effect k d = Ok (tt, d') /\ at_level (S k) d' /\ versions d' <> None /\
    audit_view (content d') = audit_view (content d).
Proof.
  intros Hk Hl Hv. destruct (script_step k d Hk Hl) as (s' & He & Hs & Hr & Ha).
  unfold step_effect, run_script. rewrite He. cbn [of_option mbind result_bind].
  unfold insert_version. cbn [versions]. destruct Hl as (Hvs & _).
  destruct (versions d) as [vs|]; [|done]. cbn in Hvs. subst vs.
  rewrite bool_decide_eq_false_2.
  2: { intros (x & Hx & Hin)%list_elem_of_fmap. apply elem_of_seq in Hin. lia. }
  rewrite (proj2 (Z.ltb_lt _ _)) by lia. cbn. eexists. split; [reflexivity|].
  split; [|done]. split; [|done]. cbn [versions default id].
  by rewrite seq_S, map_app.
Qed.

(** What one run of the loop can end in, started at level [k]. *)
Record loop_outcome (failAt : Z) (k : nat) (s : session file_db) (r : result migrate_err unit)
    (s' : session file_db) (j : nat) : Prop := {
  lo_range : (k <= j <= 4)%nat;
  lo_level : at_level j (tables s');
  lo_versions : versions (tables s') <> None;
  lo_audit : audit_view (content (tables s')) = audit_view (content (tables s));
  lo_ok : r = Ok tt -> j = 4%nat;
  lo_injected v : r = Err (Injected v) -> v = failAt /\ Z.of_nat j = v - 1;
  lo_refused : r <> Err Refused_ddl;
  lo_quiet : fates s = [] ->
    r = if (Z.of_nat k <? failAt) && (failAt <=? 4) then Err (Injected failAt) else Ok tt;
}.

Lemma loop_stop failAt k s s' r :
  (k <= 4)%nat -> at_level k (tables s) -> versions (tables s) <> None -> tables s' = tables s ->
  fates s <> [] -> r = Err MigFault -> loop_outcome failAt k s r s' k.
Proof. intros Hk Hl Hv Ht Hf ->. split; try done; try (by rewrite Ht); lia. Qed.

Lemma faulted_fates {A} (s : session file_db) (r : result migrate_err A) : faulted MigFault s r -> fates s <> [].
Proof. intros [H _] E. rewrite E in H. set_solver. Qed.

Lemma migrations_at i :
  (i < 4)%nat -> drop i migrations = (Z.of_nat (S i), script i) :: drop (S i) migrations.
Proof. intros Hi. destruct i as [|[|[|[|]]]]; [reflexivity..|lia]. Qed.

Lemma migrate_loop_level failAt n i k s r s' :
  (i + n = 4)%nat -> (i <= k <= 4)%nat -> at_level k (tables s) -> versions (tables s) <> None ->
  migrate_loop failAt (drop i migrations) s = (r, s') ->
  exists j, loop_outcome failAt k s r s' j.
Proof.
  revert i k s. induction n as [|n IH]; intros i k s Hin Hik Hl Hv.
  { replace i with 4%nat by lia. assert (k = 4%nat) as -> by lia.
    cbn [migrations drop migrate_loop]. intros [= <- <-]. exists 4%nat. split; try done.
    intros _. destruct (Z.ltb_spec (Z.of_nat 4) failAt), (Z.leb_spec failAt 4); try done. lia. }
  rewrite migrations_at by lia. cbn [migrate_loop]. intros HE.
  unfold mbind, sql_bind in HE.
  destruct (query MigFault (count_version (Z.of_nat (S i))) s) as [q s1] eqn:Eq.
  destruct (call_refines MigFault _ s q s1 Eq) as [Hsuf [[Hf Ht]|Hq]].
  { destruct Hf as [Hin' ->]. injection HE as <- <-. exists k. apply loop_stop; auto; [lia|].
    intros E. rewrite E in Hin'. set_solver. }
  rewrite (count_level k) in Hq by (done || lia). cbn [mbind result_bind] in Hq.
  destruct Hq as [-> Ht1].
  assert (Hq0 : fates s = [] -> fates s1 = []).
  { intros E. rewrite E in Hsuf. by apply suffix_nil_inv in Hsuf. }
  destruct (Z.leb_spec (Z.of_nat (S i)) (Z.of_nat k)) as [Hle|Hgt]; cbn [Z.eqb negb] in HE.
  - destruct (IH (S i) k s1) as (j & [H1 H2 H3 H4 H5 H6 H7 H8]);
      rewrite ?Ht1; try lia; auto.
    exists j. split; auto; by rewrite H4, Ht1.
  - assert (i = k) as -> by lia.
    destruct (Z.eqb_spec failAt (Z.of_nat (S k))) as [Hfa|Hfa].
    { injection HE as <- <-. exists k. split; rewrite ?Ht1; try done.
      - intros v [= <-]. split; [done | lia].
      - intros _. destruct (Z.ltb_spec (Z.of_nat k) failAt), (Z.leb_spec failAt 4); try lia.
        by rewrite Hfa. }
    destruct (in_tx MigFault _ s1) as [t s2] eqn:Etx.
    destruct (step_refines k s1 t s2 Etx) as [Hsuf2 [[Hf Ht2]|Hstep]].
    + destruct Hf as [Hin' ->]. injection HE as <- <-. exists k.
      apply loop_stop; auto; [lia | congruence |].
      intros E. rewrite (Hq0 E) in Hin'. set_solver.
    + rewrite <- Ht1 in Hl, Hv.
      destruct (step_effect_level k (tables s1)) as (d' & Hd & Hl' & Hv' & Ha'); [lia | done..|].
      rewrite Hd in Hstep. destruct Hstep as [-> Ht2].
      destruct (IH (S k) (S k) s2) as (j & [H1 H2 H3 H4 H5 H6 H7 H8]);
        rewrite ?Ht2; try lia; auto.
      exists j. split; auto; [lia | by rewrite H4, Ht2, Ha', Ht1 |].
      intros E. rewrite H8.
      * destruct (Z.ltb_spec (Z.of_nat (S k)) failAt), (Z.ltb_spec (Z.of_nat k) failAt); try lia; done.
      * specialize (Hq0 E). rewrite Hq0 in Hsuf2. by apply suffix_nil_inv in Hsuf2.
Qed.

Lemma migrate_level failAt k s r s' :
  (k <= 4)%nat -> at_level k (tables s) -> migrate failAt s = (r, s') ->
  exists j, (k <= j <= 4)%nat /\ at_level j (tables s') /\
    audit_view (content (tables s')) = audit_view (content (tables s)) /\
    (r = Ok tt -> j = 4%nat) /\
    (forall v, r = Err (Injected v) -> v = failAt /\ Z.of_nat j = v - 1) /\
    r <> Err Refused_ddl /\
    (fates s = [] ->
     r = if (Z.of_nat k <? failAt) && (failAt <=? 4) then Err (Injected failAt) else Ok tt).
Proof.
  intros Hk Hl. unfold migrate, mbind, sql_bind.
  destruct (exec MigFault create_versions s) as [q s1] eqn:Eq.
  destruct (call_refines MigFault _ s q s1 Eq) as [Hsuf [[[Hin ->] Ht]|Hq]].
  - intros [= <- <-]. exists k. rewrite Ht. split_and!; try done; try lia.
    intros E. rewrite E in Hin. set_solver.
  - cbn [mbind result_bind create_versions] in Hq. destruct Hq as [-> Ht]. intros HE.
    apply (migrate_loop_level failAt 4 0 k) in HE as (j & [H1 H2 H3 H4 H5 H6 H7 H8]);
      [|lia..| by rewrite Ht | by rewrite Ht].
    exists j. rewrite H4, Ht. split_and!; auto; [apply H1..|].
    intros E. apply H8. rewrite E in Hsuf. by apply suffix_nil_inv in Hsuf.
Qed.

(** C22. The schema moves through its five levels one committed step at a time.
    Started at any level, whatever the engine does, [migrate] leaves the file at
    a level no lower and never between two; it succeeds only at the last one;
    an injected failure at version [v] stops exactly below [v] and a later run
    resumes from there; no statement of a migration can itself be refused; and
    every audit record survives with the columns it had. *)
Theorem migrate_levels failAt k s r s' :
  (k <= 4)%nat -> at_level k (tables s) -> migrate failAt s = (r, s') ->
  exists j, (k <= j <= 4)%nat /\ at_level j (tables s') /\
    audit_view (content (tables s')) = audit_view (content (tables s)) /\
    (r = Ok tt -> j = 4%nat) /\
    (forall v, r = Err (Injected v) -> v = failAt /\ Z.of_nat j = v - 1) /\
    r <> Err Refused_ddl /\
    (fates s = [] ->
     r = if (Z.of_nat k <? failAt) && (failAt <=? 4) then Err (Injected failAt) else Ok tt).
Proof. apply migrate_level. Qed.

(** A store is handed out only in order: [open] succeeds exactly when the
    path was usable, the file is now at the last level, the integrity check
    answered ["ok"] and the mode was set.  It reports corruption for a failed
    integrity check and, outside failure injection, for a migration that failed
    on a non-empty file; an injected failure is reported as itself. *)
Theorem open_outcome env failAt k s r s' :
  (k <= 4)%nat -> at_level k (tables s) -> open env failAt s = (r, s') ->
  audit_view (content (tables s')) = audit_view (content (tables s)) /\
  match r with
  | Ok _ => at_level 4 (tables s') /\ preparePath env = true /\
            env_integrity env = Ok "ok"%string /\ env_chmod_final env = true
  | Err ErrCorrupt =>
      (at_level 4 (tables s') /\ env_integrity env <> Ok "ok"%string) \/
      (failAt = 0 /\ exists n, env_size env = Some n /\ 0 < n)
  | Err (MigrateFailed e) => e <> Refused_ddl /\
      (failAt <> 0 \/ env_size env = None \/ exists n, env_size env = Some n /\ n <= 0) /\
      (forall v, e = Injected v -> v = failAt /\ at_level (Z.to_nat (v - 1)) (tables s'))
  | Err BadPath => preparePath env = false /\ tables s' = tables s
  | Err OpenFailed => env_sql_open env = false \/
      at_level 4 (tables s') /\ env_chmod_final env = false
  end.
Proof.
  intros Hk Hl. unfold open. destruct (preparePath env) eqn:Hp; cbn [negb].
  2: { intros [= <- <-]. auto. }
  destruct (env_sql_open env) eqn:Ho; cbn [negb]; [|intros [= <- <-]; auto].
  destruct (migrate failAt s) as [[[]|e] s1] eqn:EM;
    destruct (migrate_level failAt k s _ s1 Hk Hl EM) as (j & Hj & Hl' & Ha & Hok & Hinj & Href & _).
  - rewrite (Hok eq_refl) in Hl'. unfold validate.
    destruct (env_integrity env) as [txt|] eqn:Hi.
    + case_bool_decide as Ht; cbn [negb].
      * subst txt. destruct (env_chmod_final env) eqn:Hc; cbn [negb]; intros [= <- <-]; auto.
      * intros [= <- <-]. split; [done|]. left. split; [done|]. congruence.
    + cbn [negb]. intros [= <- <-]. split; [done|]. by left.
  - intros [= <- <-]. split; [done|].
    destruct (Z.eqb_spec failAt 0) as [H0|H0]; cbn [andb].
    + destruct (env_size env) as [n|] eqn:Hn; [destruct (Z.ltb_spec 0 n)|].
      * right. eauto.
      * split_and!; [congruence | right; right; eauto|].
        intros v ->. destruct (Hinj v eq_refl) as [-> Hjv]. split; [done|]. lia.
      * split_and!; [congruence | auto|].
        intros v ->. destruct (Hinj v eq_refl) as [-> Hjv]. split; [done|]. lia.
    + split_and!; [congruence | auto|].
      intros v ->. destruct (Hinj v eq_refl) as [-> Hjv]. split; [done|].
      by replace (Z.to_nat (failAt - 1)) with j by lia.
Qed.

(** ** Concrete inputs *)

Definition level_of (d : file_db) : nat := length (default [] (versions d)).

(** A first run stopped before version 3, and a second one that finishes. *)
Lemma migrate_levels_witness :
  let s1 := (migrate 3 (Session fresh_file [])).2 in
  (migrate 3 (Session fresh_file [])).1 = Err (Injected 3) /\
  level_of (tables s1) = 2%nat /\
  exists j, at_level j (tables (migrate 0 s1).2) /\ j = 4%nat.
Proof.
  cbv zeta. split; [vm_compute; reflexivity|]. split; [vm_compute; reflexivity|].
  destruct (migrate_levels 3 0 (Session fresh_file []) _ _ ltac:(lia) fresh_level
    (surjective_pairing _)) as (j & Hj & Hl & _).
  destruct (migrate_levels 0 j _ _ _ ltac:(lia) Hl (surjective_pairing _)) as (i & Hi & Hli & _ & Hok & _).
  exists i. split; [exact Hli|]. apply Hok. vm_compute. reflexivity.
Defined.

Definition sample_env : open_env := {|
  env_path_empty := false; env_stat_dir := true; env_chmod_existing := true;
  env_sql_open := true; env_size := Some 4096; env_integrity := Ok "ok"%string;
  env_chmod_final := true |}.

Lemma open_outcome_witness :
  (open sample_env 0 (Session fresh_file [])).1 = Ok tt /\
  at_level 4 (tables (open sample_env 0 (Session fresh_file [])).2).
Proof.
  assert (H1 : (open sample_env 0 (Session fresh_file [])).1 = Ok tt) by (vm_compute; reflexivity).
  split; [exact H1|].
  pose proof (open_outcome sample_env 0 0 (Session fresh_file []) _ _ ltac:(lia) fresh_level
    (surjective_pairing _)) as [_ H].
  rewrite H1 in H. apply H.
Defined.
