(* ===== verification/Ledger.v ===== *)
(** * The agent's ledger

    Models [internal/ledger/ledger.go] and the crash harness
    [cmd/keystone-ledger-crash]: four tables chained by foreign keys, so that a
    start needs its receipt, a terminal result its receipt and an
    acknowledgement its result, each at most once per job.  What retention may
    delete is decided by the same keys. *)
From S2P Require Import Prelude GoBytes GoTime GoText GoFlag Sql.

Record receipt_row := { rc_metadata : bytes; rc_state : string; rc_received_at : Z }.
Record terminal_row := {
  tr_state : string; tr_exit_status : Z; tr_output : bytes; tr_truncated : Z;
  tr_discarded_bytes : Z; tr_recorded_at : Z;
}.
Record puback_row := { pa_pub_ack : bytes; pa_acked_at : Z }.

Record ledger := {
  receipts : gmap string receipt_row;
  starts : gmap string Z;
  terminal_results : gmap string terminal_row;
  result_pubacks : gmap string puback_row;
}.
Definition empty_ledger : ledger :=
  {| receipts := ∅; starts := ∅; terminal_results := ∅; result_pubacks := ∅ |}.

Record Receipt := { r_JobID : string; r_Metadata : option bytes; r_State : string; r_ReceivedAt : Time }.
Record Start := { s_JobID : string; s_StartedAt : Time }.
Record TerminalResult := {
  t_JobID : string; t_State : string; t_ExitStatus : Z; t_Output : option bytes;
  t_Truncated : bool; t_DiscardedBytes : Z; t_RecordedAt : Time;
}.

Inductive ledger_err := LFault | LConstraint | InvalidTable.
#[export] Instance ledger_err_eq_dec : EqDecision ledger_err.
Proof. solve_decision. Defined.

Abbreviation ledger_op := (sql ledger_err ledger).

Definition boolInt (v : bool) : Z := if v then 1 else 0.

(** ** Statements *)

Definition present {V} (m : gmap string V) (k : string) : bool := bool_decide (m !! k <> None).

Definition insert_receipt (r : Receipt) (l : ledger) : result ledger_err ledger :=
  match r_Metadata r with
  | Some b =>
      if present (receipts l) (r_JobID r) then Err LConstraint
      else Ok {| receipts := <[r_JobID r := {| rc_metadata := b; rc_state := r_State r;
                   rc_received_at := UnixMilli_of (r_ReceivedAt r) |}]> (receipts l);
                 starts := starts l; terminal_results := terminal_results l;
                 result_pubacks := result_pubacks l |}
  | None => Err LConstraint
  end.

Definition insert_start (s : Start) (l : ledger) : result ledger_err ledger :=
  if present (starts l) (s_JobID s) || negb (present (receipts l) (s_JobID s)) then Err LConstraint
  else Ok {| receipts := receipts l;
             starts := <[s_JobID s := UnixMilli_of (s_StartedAt s)]> (starts l);
             terminal_results := terminal_results l; result_pubacks := result_pubacks l |}.

Definition insert_terminal (t : TerminalResult) (l : ledger) : result ledger_err ledger :=
  match t_Output t with
  | Some b =>
      if present (terminal_results l) (t_JobID t) || negb (present (receipts l) (t_JobID t))
      then Err LConstraint
      else Ok {| receipts := receipts l; starts := starts l;
                 terminal_results := <[t_JobID t := {| tr_state := t_State t;
                   tr_exit_status := t_ExitStatus t; tr_output := b;
                   tr_truncated := boolInt (t_Truncated t);
                   tr_discarded_bytes := t_DiscardedBytes t;
                   tr_recorded_at := UnixMilli_of (t_RecordedAt t) |}]> (terminal_results l);
                 result_pubacks := result_pubacks l |}
  | None => Err LConstraint
  end.

Definition insert_puback (job : string) (ack : option bytes) (at_ : Time) (l : ledger)
  : result ledger_err ledger :=
  match ack with
  | Some b =>
      if present (result_pubacks l) job || negb (present (terminal_results l) job)
      then Err LConstraint
      else Ok {| receipts := receipts l; starts := starts l;
                 terminal_results := terminal_results l;
                 result_pubacks := <[job := {| pa_pub_ack := b; pa_acked_at := UnixMilli_of at_ |}]>
                   (result_pubacks l) |}
  | None => Err LConstraint
  end.

(** [DELETE FROM receipts WHERE received_at < ?]: one statement, refused whole
    when a row it would delete is referenced. *)
Definition expired (ms : Z) (kv : string * receipt_row) : Prop := rc_received_at kv.2 < ms.
#[export] Instance expired_dec ms kv : Decision (expired ms kv).
Proof. unfold expired. apply _. Defined.

Definition referenced (l : ledger) (job : string) : bool :=
  present (starts l) job || present (terminal_results l) job.

Definition delete_receipts (ms : Z) (l : ledger) : result ledger_err ledger :=
  if forallb (fun kv => negb (referenced l kv.1)) (map_to_list (filter (expired ms) (receipts l)))
  then Ok {| receipts := filter (fun kv => ~ expired ms kv) (receipts l); starts := starts l;
             terminal_results := terminal_results l; result_pubacks := result_pubacks l |}
  else Err LConstraint.

(** ** Operations *)

Definition RecordReceipt (r : Receipt) : ledger_op unit := exec LFault (insert_receipt r).
Definition RecordStart (s : Start) : ledger_op unit := exec LFault (insert_start s).
Definition RecordTerminalResult (t : TerminalResult) : ledger_op unit :=
  exec LFault (insert_terminal t).
Definition RecordResultPubAck (jobID : string) (ack : option bytes) (at_ : Time) : ledger_op unit :=
  exec LFault (insert_puback jobID ack at_).
Definition RetainReceipts (before : Time) : ledger_op unit :=
  exec LFault (delete_receipts (UnixMilli_of before)).

Definition table_count (table : string) (l : ledger) : option Z :=
  if bool_decide (table = "receipts"%string) then Some (Z.of_nat (size (receipts l)))
  else if bool_decide (table = "starts"%string) then Some (Z.of_nat (size (starts l)))
  else if bool_decide (table = "terminal_results"%string) then Some (Z.of_nat (size (terminal_results l)))
  else if bool_decide (table = "result_pubacks"%string) then Some (Z.of_nat (size (result_pubacks l)))
  else if bool_decide (table = "schema_migrations"%string) then Some 1
  else None.

Definition Count (table : string) : ledger_op Z :=
  fun s => match table_count table (tables s) with
           | None => (Err InvalidTable, s)
           | Some _ => query LFault (fun l => of_option (table_count table l) InvalidTable) s
           end.

(** ** The crash harness *)

Inductive step := StopNone | StopReceipt | StopStart.
Definition parse_step (s : string) : option step :=
  if bool_decide (s = "none"%string) then Some StopNone
  else if bool_decide (s = "receipt"%string) then Some StopReceipt
  else if bool_decide (s = "start"%string) then Some StopStart
  else None.

Definition harness_set : FlagSet := [("ledger", VString ""); ("stop-after", VString "none"); ("job", VString "job-c02")]%string.

(** The harness on a ledger it could open: its exit status and what is
    committed when it dies.  [opened] is [ledger.Open]'s success. *)
Definition harness (path stop job : string) (now1 now2 : Time) (opened : bool) (s : session ledger)
  : Z * session ledger :=
  match parse_step stop with
  | Some st =>
      if bool_decide (path = ""%string) then (1, s)
      else if negb opened then (1, s)
      else
        let '(ok, s) :=
          match st with
          | StopNone => (true, s)
          | _ => let '(r, s') := RecordReceipt {| r_JobID := job;
                   r_Metadata := Some (to_bytes "authenticated-envelope");
                   r_State := "Received"; r_ReceivedAt := now1 |} s in (is_ok r, s')
          end in
        if negb ok then (1, s)
        else
          let '(ok, s) :=
            match st with
            | StopStart => let '(r, s') := RecordStart {| s_JobID := job; s_StartedAt := now2 |} s in
                           (is_ok r, s')
            | _ => (true, s)
            end in
          if negb ok then (1, s) else (0, s)
  | None => (1, s)
  end.
Definition harness_main (args : list string) (now1 now2 : Time) (opened : bool) (s : session ledger) : Z * session ledger :=
  match Parse harness_set args with
  | Err e => (exit_on_error e, s)
  | Ok (fs, _) => harness (get_string fs "ledger") (get_string fs "stop-after") (get_string fs "job") now1 now2 opened s
  end.

(** ** The invariant *)

Record ledger_ok (l : ledger) : Prop := {
  lk_start j : is_Some (starts l !! j) -> is_Some (receipts l !! j);
  lk_terminal j : is_Some (terminal_results l !! j) -> is_Some (receipts l !! j);
  lk_puback j : is_Some (result_pubacks l !! j) -> is_Some (terminal_results l !! j);
}.

Inductive ledger_mutation :=
  | LReceipt (r : Receipt)
  | LStart (s : Start)
  | LTerminal (t : TerminalResult)
  | LPubAck (job : string) (ack : option bytes) (at_ : Time)
  | LRetain (before : Time).

Definition run_ledger (m : ledger_mutation) : ledger_op unit :=
  match m with
  | LReceipt r => RecordReceipt r
  | LStart s => RecordStart s
  | LTerminal t => RecordTerminalResult t
  | LPubAck j a t => RecordResultPubAck j a t
  | LRetain b => RetainReceipts b
  end.

Definition ledger_effect (m : ledger_mutation) (l : ledger) : result ledger_err ledger :=
  match m with
  | LReceipt r => insert_receipt r l
  | LStart s => insert_start s l
  | LTerminal t => insert_terminal t l
  | LPubAck j a t => insert_puback j a t l
  | LRetain b => delete_receipts (UnixMilli_of b) l
  end.

Lemma ledger_refines m s r s' :
  run_ledger m s = (r, s') ->
  (true ∈ fates s /\ r = Err LFault /\ tables s' = tables s) \/
  match ledger_effect m (tables s) with
  | Ok l => r = Ok tt /\ tables s' = l
  | Err e => r = Err e /\ tables s' = tables s
  end.
Proof.
  intros HE. assert (Hr : refines LFault (run_ledger m)
    (fun l => l' ← ledger_effect m l; Ok (tt, l'))) by (destruct m; exact (call_refines LFault _)).
  destruct (Hr s r s' HE) as [_ [[[Hf ->] ->]|H]]; [by left|right].
  by destruct (ledger_effect m (tables s)).
Qed.

Lemma present_true {V} (m : gmap string V) k : present m k = true <-> is_Some (m !! k).
Proof. unfold present. rewrite bool_decide_eq_true. apply not_eq_None_Some. Qed.
Lemma present_false {V} (m : gmap string V) k : present m k = false <-> m !! k = None.
Proof.
  unfold present. rewrite bool_decide_eq_false. split; [|intros -> H; by apply H].
  intros H. destruct (m !! k); [exfalso; by apply H | done].
Qed.

Lemma is_Some_insert {V} (m : gmap string V) k v j :
  is_Some (<[k := v]> m !! j) <-> j = k \/ is_Some (m !! j).
Proof.
  destruct (decide (k = j)) as [->|Hne].
  - rewrite lookup_insert_eq. split; eauto.
  - rewrite lookup_insert_ne by done. naive_solver.
Qed.

Lemma delete_receipts_spec ms l :
  match delete_receipts ms l with
  | Ok l' => (forall j r, receipts l !! j = Some r -> rc_received_at r < ms -> referenced l j = false) /\
             receipts l' = filter (fun kv => ~ expired ms kv) (receipts l) /\
             starts l' = starts l /\ terminal_results l' = terminal_results l /\
             result_pubacks l' = result_pubacks l
  | Err e => e = LConstraint /\
      exists j r, receipts l !! j = Some r /\ rc_received_at r < ms /\ referenced l j = true
  end.
Proof.
  unfold delete_receipts. destruct (forallb _ _) eqn:E.
  - split; [|done]. intros j r Hj Hr. rewrite forallb_forall in E.
    apply negb_true_iff. apply (E (j, r)). apply list_elem_of_In, elem_of_map_to_list.
    by apply map_lookup_filter_Some_2.
  - split; [done|]. apply forallb_false in E as ([j r] & Hin & Hr).
    apply list_elem_of_In, elem_of_map_to_list, map_lookup_filter_Some in Hin as [Hj He].
    apply negb_false_iff in Hr. exists j, r. auto.
Qed.

Lemma ledger_effect_ok m l l' : ledger_ok l -> ledger_effect m l = Ok l' -> ledger_ok l'.
Proof.
  intros [H1 H2 H3]. destruct m as [r|s|t|j a at_|b]; cbn [ledger_effect].
  - unfold insert_receipt. destruct (r_Metadata r); [|done].
    destruct (present _ _); [done|]. intros [= <-].
    split; cbn; intros j Hj; rewrite ?is_Some_insert; auto.
  - unfold insert_start. destruct (_ || _) eqn:E; [done|]. res_inv. intros [= <-].
    match goal with H : present (receipts l) _ = true |- _ => apply present_true in H end.
    split; cbn; intros j Hj; rewrite ?is_Some_insert in *; naive_solver.
  - unfold insert_terminal. destruct (t_Output t); [|done].
    destruct (_ || _) eqn:E; [done|]. res_inv. intros [= <-].
    match goal with H : present (receipts l) _ = true |- _ => apply present_true in H end.
    split; cbn; intros j Hj; rewrite ?is_Some_insert in *; naive_solver.
  - unfold insert_puback. destruct a; [|done].
    destruct (_ || _) eqn:E; [done|]. res_inv. intros [= <-].
    match goal with H : present (terminal_results l) _ = true |- _ => apply present_true in H end.
    split; cbn; intros i Hi; rewrite ?is_Some_insert in *; naive_solver.
  - intros HE. pose proof (delete_receipts_spec (UnixMilli_of b) l) as Hs. rewrite HE in Hs.
    destruct Hs as (Hun & Hr & Hst & Hte & Hpa). split; rewrite ?Hst, ?Hte, ?Hpa; auto;
      intros j Hj; rewrite Hr.
    + destruct (H1 j Hj) as [r Hrj]. exists r. apply map_lookup_filter_Some_2; [done|].
      intros He. specialize (Hun j r Hrj He). unfold referenced in Hun.
      apply orb_false_iff in Hun as [Hun _]. apply present_false in Hun. rewrite Hun in Hj.
      by destruct Hj.
    + destruct (H2 j Hj) as [r Hrj]. exists r. apply map_lookup_filter_Some_2; [done|].
      intros He. specialize (Hun j r Hrj He). unfold referenced in Hun.
      apply orb_false_iff in Hun as [_ Hun]. apply present_false in Hun. rewrite Hun in Hj.
      by destruct Hj.
Qed.

Fixpoint ledger_history (ms : list ledger_mutation) (s : session ledger) : session ledger :=
  match ms with
  | [] => s
  | m :: ms' => ledger_history ms' (run_ledger m s).2
  end.

Lemma ledger_history_ok ms s : ledger_ok (tables s) -> ledger_ok (tables (ledger_history ms s)).
Proof.
  revert s. induction ms as [|m ms IH]; intros s Hok; cbn [ledger_history]; [done|].
  apply IH. destruct (run_ledger m s) as [r s1] eqn:E. cbn [snd].
  destruct (ledger_refines m s r s1 E) as [(_ & _ & ->)|H]; [done|].
  destruct (ledger_effect m (tables s)) as [l|] eqn:El; destruct H as [_ ->]; [|done].
  by eapply ledger_effect_ok.
Qed.

Lemma empty_ledger_ok : ledger_ok empty_ledger.
Proof. split; intros j [x Hx]; cbn in Hx; by apply lookup_empty_Some in Hx. Qed.

(** C35. The chain of records holds after any history of operations, retention
    and engine faults: a start or a terminal result has its receipt, an
    acknowledgement its result.  A start, in particular, is refused without a
    receipt and is recorded at most once per job, which is what at-most-once
    execution rests on: on such a ledger [RecordStart] succeeds exactly when
    the receipt is there and the start is not. *)
Theorem ledger_chain ms fs job started :
  let l := tables (ledger_history ms (Session empty_ledger fs)) in
  ledger_ok l /\
  (RecordStart {| s_JobID := job; s_StartedAt := started |} (Session l [])).1 =
    if present (receipts l) job && negb (present (starts l) job) then Ok tt else Err LConstraint.
Proof.
  cbv zeta. set (l := tables _). split; [apply ledger_history_ok, empty_ledger_ok|].
  unfold RecordStart, exec, call. cbn [next_fate fates tables]. unfold insert_start.
  cbn [s_JobID]. by destruct (present (receipts l) job), (present (starts l) job).
Qed.

(** C36. What retention deletes, and when it cannot: the statement is one, so
    [RetainReceipts] removes exactly the receipts older than the horizon when
    none of them has been started or finished; and as soon as one has, it fails
    and removes nothing at all, however many others have expired. *)
Theorem RetainReceipts_all_or_nothing before l :
  let ms := UnixMilli_of before in
  ((forall j r, receipts l !! j = Some r -> rc_received_at r < ms -> referenced l j = false) ->
   exists l', RetainReceipts before (Session l []) = (Ok tt, Session l' []) /\
     receipts l' = filter (fun kv => ~ expired ms kv) (receipts l) /\
     starts l' = starts l /\ terminal_results l' = terminal_results l) /\
  ((exists j r, receipts l !! j = Some r /\ rc_received_at r < ms /\ referenced l j = true) ->
   RetainReceipts before (Session l []) = (Err LConstraint, Session l [])).
Proof.
  cbv zeta. unfold RetainReceipts, exec, call. cbn [next_fate fates tables].
  pose proof (delete_receipts_spec (UnixMilli_of before) l) as Hs.
  destruct (delete_receipts _ l) as [l'|e]; cbn [mbind result_bind].
  - destruct Hs as (Hun & Hr & Hst & Hte & _). split; [eauto 6|].
    intros (j & r & Hj & Hlt & Href). by rewrite (Hun j r Hj Hlt) in Href.
  - destruct Hs as (-> & j & r & Hj & Hlt & Href). split; [|done].
    intros Hun. by rewrite (Hun j r Hj Hlt) in Href.
Qed.

(** A mutation's two possible outcomes when its effect is known. *)
Lemma run_ledger_cases m l fs r s' :
  run_ledger m (Session l fs) = (r, s') ->
  (is_ok r = false /\ tables s' = l) \/
  (is_ok r = true /\ exists l', ledger_effect m l = Ok l' /\ tables s' = l').
Proof.
  intros HE. destruct (ledger_refines _ _ _ _ HE) as [(_ & -> & ->)|H]; [by left|].
  cbn [tables] in H. destruct (ledger_effect m l) as [l'|e]; destruct H as [-> ->]; [right|left]; eauto.
Qed.

Lemma insert_receipt_inv r l l' :
  insert_receipt r l = Ok l' ->
  present (receipts l') (r_JobID r) = true /\ starts l' = starts l.
Proof.
  unfold insert_receipt. destruct (r_Metadata r); [|done]. destruct (present _ _); [done|].
  intros [= <-]. split; [|done]. apply present_true, is_Some_insert. by left.
Qed.

Lemma insert_start_inv s l l' :
  insert_start s l = Ok l' ->
  present (starts l') (s_JobID s) = true /\ receipts l' = receipts l.
Proof.
  unfold insert_start. destruct (_ || _); [done|].
  intros [= <-]. split; [|done]. apply present_true, is_Some_insert. by left.
Qed.

(** The crash harness dies with exactly its boundary committed: on a fresh
    ledger it opened, exit status 0 means the receipt is durable exactly when a
    stop after the receipt or the start was asked for, and the start exactly in
    the latter case; any other status is a usage error, a ledger it could not
    open or an engine fault, and no start is ever committed without its
    receipt. *)
Theorem harness_boundary path stop job now1 now2 opened fs code s' :
  harness path stop job now1 now2 opened (Session empty_ledger fs) = (code, s') ->
  ledger_ok (tables s') /\
  (code = 0 <-> opened = true /\ path <> ""%string /\ exists st, parse_step stop = Some st /\
     present (receipts (tables s')) job = negb (bool_decide (stop = "none"%string)) /\
     present (starts (tables s')) job = bool_decide (stop = "start"%string)) /\
  (code = 0 \/ code = 1).
Proof.
  assert (He : ledger_ok empty_ledger) by apply empty_ledger_ok.
  unfold harness. destruct (parse_step stop) as [st|] eqn:Hst.
  2: { intros [= <- <-]. split; [done|]. split; [|by right]. split; [done|].
       by intros (_ & _ & ? & [=] & _). }
  case_bool_decide as Hp; [intros [= <- <-]; split; [done|]; split; [naive_solver | by right]|].
  destruct opened; cbn [negb]; [|intros [= <- <-]; split; [done|]; split; [naive_solver | by right]].
  assert (Hname : stop = match st with StopNone => "none" | StopReceipt => "receipt" | StopStart => "start" end%string).
  { revert Hst. unfold parse_step. repeat (case_bool_decide; [by intros [= <-]|]). done. }
  destruct st; subst stop.
  - intros [= <- <-]. split; [done|]. split; [|by left]. split; [|done]. intros _.
    split; [done|]. split; [done|]. exists StopNone. by repeat split.
  - destruct (RecordReceipt _ _) as [r s1] eqn:E1.
    apply (run_ledger_cases (LReceipt _)) in E1 as [[-> Ht]|[-> (l1 & Hl1 & Ht)]]; cbn [negb];
      intros [= <- <-]; rewrite Ht.
    + split; [done|]. split; [|by right]. split; [done|].
      intros (_ & _ & st & _ & Hr & _). by vm_compute in Hr.
    + split; [by eapply (ledger_effect_ok (LReceipt _))|]. split; [|by left]. split; [|done].
      intros _. split; [done|]. split; [done|]. exists StopReceipt. split; [done|].
      apply insert_receipt_inv in Hl1 as [Hr Hs]. cbn in Hr. rewrite Hr, Hs. by split.
  - destruct (RecordReceipt _ _) as [r s1] eqn:E1.
    apply (run_ledger_cases (LReceipt _)) in E1 as [[-> Ht]|[-> (l1 & Hl1 & Ht)]]; cbn [negb].
    { intros [= <- <-]. rewrite Ht. split; [done|]. split; [|by right]. split; [done|].
      intros (_ & _ & st & _ & Hr & _). by vm_compute in Hr. }
    assert (Hok1 : ledger_ok l1) by (by eapply (ledger_effect_ok (LReceipt _))).
    destruct (RecordStart _ s1) as [r2 s2] eqn:E2. destruct s1 as [l1' fs1]. cbn in Ht. subst l1'.
    apply insert_receipt_inv in Hl1 as [Hr Hs]. cbn in Hr.
    apply (run_ledger_cases (LStart _)) in E2 as [[-> Ht2]|[-> (l2 & Hl2 & Ht2)]]; cbn [negb];
      intros [= <- <-]; rewrite Ht2.
    + split; [done|]. split; [|by right]. split; [done|].
      intros (_ & _ & st & _ & _ & Hst'). rewrite Hs in Hst'. by vm_compute in Hst'.
    + split; [by eapply (ledger_effect_ok (LStart _))|]. split; [|by left]. split; [|done].
      intros _. split; [done|]. split; [done|]. exists StopStart. split; [done|].
      apply insert_start_inv in Hl2 as [Hs2 Hr2]. cbn in Hs2. rewrite Hs2, Hr2, Hr. by split.
Qed.

(** ** Concrete inputs *)

Definition sample_receipt (job : string) : Receipt :=
  {| r_JobID := job; r_Metadata := Some [x01]; r_State := "Received"; r_ReceivedAt := 5 * Second |}.
Definition sample_ledger : ledger := tables (ledger_history
  [LReceipt (sample_receipt "a"); LReceipt (sample_receipt "b");
   LStart {| s_JobID := "a"; s_StartedAt := 6 * Second |}] (Session empty_ledger [])).

(** Both receipts are an hour past the horizon; the one that was started keeps
    the other. *)
Lemma RetainReceipts_all_or_nothing_witness :
  RetainReceipts (3605 * Second) (Session sample_ledger []) = (Err LConstraint, Session sample_ledger []) /\
  size (receipts sample_ledger) = 2%nat.
Proof.
  split; [|vm_compute; reflexivity].
  apply RetainReceipts_all_or_nothing. exists "a"%string. eexists.
  split; [vm_compute; reflexivity | split; vm_compute; reflexivity].
Defined.

Lemma harness_boundary_witness :
  let s' := (harness "l.db" "start" "job-1" Second (2 * Second) true (Session empty_ledger [])).2 in
  present (starts (tables s')) "job-1" = true /\ ledger_ok (tables s').
Proof.
  cbv zeta. split; [vm_compute; reflexivity|].
  exact (proj1 (harness_boundary "l.db" "start" "job-1" Second (2 * Second) true [] _ _
    (surjective_pairing _))).
Defined.
