(* ===== verification/LedgerOpen.v ===== *)
(** * Opening the agent's ledger

    Models [Open], [migrate] and [validate] of [internal/ledger/ledger.go].
    [migrate] creates what is missing, statement by statement and outside any
    transaction, so an open cut off or failed half-way leaves a part of the
    schema; the next one completes it and touches no row. *)
From S2P Require Import Prelude GoTime Sql Ledger.

(** The file: which tables it has, its versions, and the rows of the ledger. *)
Record ledger_file := { lf_tables : list string; lf_versions : gmap Z Z; lf_rows : ledger }.
Definition new_ledger_file : ledger_file := {| lf_tables := []; lf_versions := ∅; lf_rows := empty_ledger |}.

Inductive ledger_open_err := LEmptyPath | LNoDirectory | LOpenFailed | LCorrupt | LMigrateFailed | LChmodFailed.

Definition schema_tables : list string :=
  ["schema_migrations"; "receipts"; "starts"; "terminal_results"; "result_pubacks"]%string.

(** [CREATE TABLE IF NOT EXISTS] *)
Definition created (name : string) (f : ledger_file) : ledger_file :=
  if bool_decide (name ∈ lf_tables f) then f
  else {| lf_tables := lf_tables f ++ [name]; lf_versions := lf_versions f; lf_rows := lf_rows f |}.
Definition create_if_missing (name : string) (f : ledger_file) : result ledger_err ledger_file :=
  Ok (created name f).
(** [INSERT OR IGNORE] of version 1, at the engine's time *)
Definition insert_first_version (now : Z) (f : ledger_file) : result ledger_err ledger_file :=
  if bool_decide ("schema_migrations"%string ∈ lf_tables f) then
    Ok (match lf_versions f !! 1 with
        | Some _ => f
        | None => {| lf_tables := lf_tables f; lf_versions := <[1 := now]> (lf_versions f); lf_rows := lf_rows f |}
        end)
  else Err LConstraint.

Fixpoint create_each (names : list string) : sql ledger_err ledger_file unit :=
  match names with
  | [] => mret tt
  | name :: names => _ ← exec LFault (create_if_missing name); create_each names
  end.
Definition ledger_migrate (now : Z) : sql ledger_err ledger_file unit :=
  _ ← create_each schema_tables; exec LFault (insert_first_version now).

(** What the file system and the engine answer on the way. *)
Record ledger_env := {
  le_path : string; le_stat_dir : bool; le_sql_open : bool;
  le_size : option Z;              (** [os.Stat] of the file after a failed migration *)
  le_integrity : option string;    (** [PRAGMA integrity_check] *)
  le_chmod : bool }.

Definition ledger_validate (integrity : option string) : bool := bool_decide (integrity = Some "ok"%string).

Definition ledger_Open (env : ledger_env) (now : Z) (s : session ledger_file)
  : result ledger_open_err unit * session ledger_file :=
  if bool_decide (le_path env = ""%string) then (Err LEmptyPath, s)
  else if negb (le_stat_dir env) then (Err LNoDirectory, s)
  else if negb (le_sql_open env) then (Err LOpenFailed, s)
  else match ledger_migrate now s with
       | (Err _, s') => (Err (if match le_size env with Some n => 0 <? n | None => false end then LCorrupt else LMigrateFailed), s')
       | (Ok _, s') =>
           if negb (ledger_validate (le_integrity env)) then (Err LCorrupt, s')
           else if negb (le_chmod env) then (Err LChmodFailed, s')
           else (Ok tt, s')
       end.

(** ** The schema grows, the rows stay *)

(** A file some opens have left: the first of the tables, and no version but
    the first, which comes last. *)
Definition half_made (f : ledger_file) : Prop :=
  lf_tables f `prefix_of` schema_tables
  /\ (forall v, is_Some (lf_versions f !! v) -> v = 1 /\ lf_tables f = schema_tables).
Definition whole (f : ledger_file) : Prop := lf_tables f = schema_tables /\ is_Some (lf_versions f !! 1).
(** What opening may change. *)
Definition grows (f f' : ledger_file) : Prop :=
  lf_rows f' = lf_rows f /\ lf_tables f `prefix_of` lf_tables f'
  /\ (lf_versions f' = lf_versions f \/ lf_versions f = ∅).

Lemma schema_tables_nodup : NoDup schema_tables.
Proof. apply (bool_decide_unpack _). by vm_compute. Qed.

(** One table more, of those there are to be. *)
Lemma created_spec before name names f :
  before ++ name :: names = schema_tables -> before `prefix_of` lf_tables f -> half_made f ->
  half_made (created name f) /\ (before ++ [name]) `prefix_of` lf_tables (created name f) /\ grows f (created name f).
Proof.
  intros Hs [later Hb] Hf. pose proof Hf as [[rest Hp] Hv].
  rewrite Hb, <- Hs, <- app_assoc in Hp. apply app_inv_head in Hp. unfold created. case_bool_decide as Hin.
  - split; [done|]. split; [|split; [done|]; split; [done | by left]].
    destruct later as [|x later]; cbn in Hp.
    + exfalso. rewrite Hb, app_nil_r in Hin. pose proof schema_tables_nodup as Hnd. rewrite <- Hs in Hnd.
      apply NoDup_app in Hnd as (_ & Hnd & _). apply (Hnd name Hin). by left.
    + injection Hp as <- _. exists later. by rewrite Hb, <- app_assoc.
  - destruct later as [|x later]; cbn in Hp.
    2: { exfalso. injection Hp as <- _. apply Hin. rewrite Hb. apply elem_of_app. right. by left. }
    rewrite app_nil_r in Hb. split; [split|split; [|split; [done|]; split; [by exists [name] | by left]]]; cbn [lf_tables lf_versions].
    + rewrite Hb, <- Hs. exists names. by rewrite <- app_assoc.
    + intros v Hv'. apply Hv in Hv' as [-> E]. exfalso. apply Hin. rewrite E, <- Hs. apply elem_of_app. right. by left.
    + by rewrite Hb.
Qed.

(** Creating the tables that follow [before], from a file that has these at least. *)
Lemma create_each_spec before names f fs r s' :
  before ++ names = schema_tables -> before `prefix_of` lf_tables f -> half_made f ->
  create_each names (Session f fs) = (r, s') ->
  half_made (tables s') /\ grows f (tables s') /\ fates s' `suffix_of` fs
  /\ (r = Ok tt -> lf_tables (tables s') = schema_tables) /\ (forall e, r = Err e -> true ∈ fs).
Proof.
  revert before f fs. induction names as [|name names IH]; intros before f fs Hs Hb Hf.
  - intros [= <- <-]. rewrite app_nil_r in Hs. subst before. cbn [tables fates]. split; [done|]. split; [|split; [done|split; [|done]]].
    + split; [done|]. split; [done | by left].
    + intros _. destruct Hf as [Hp _]. by apply (anti_symm prefix).
  - cbn [create_each]. unfold mbind, sql_bind, exec, call. destruct (next_fate (Session f fs)) as [failed s1] eqn:Hn.
    apply next_fate_spec in Hn as (Ht & Hfs & Htrue). cbn [tables fates] in *. destruct s1 as [f1 fs1]. cbn [tables fates] in *. subst f1.
    destruct failed.
    { intros [= <- <-]. cbn [tables fates]. split; [done|]. split; [split; [done|]; split; [done | by left]|]. split; [done|].
      split; [done|]. intros e _. by apply Htrue. }
    cbn [mbind result_bind create_if_missing tables fates].
    destruct (created_spec before name names f Hs Hb Hf) as (Hf1 & Hb1 & Hg1). set (f1 := created name f) in *. intros Hr.
    destruct (IH (before ++ [name]) f1 fs1) as (H1 & H2 & H3 & H4 & H5); [by rewrite <- app_assoc | done | done | exact Hr|].
    split; [done|]. split; [|split; [by etrans|]; split; [done|]].
    + destruct Hg1 as (R1 & P1 & V1), H2 as (R2 & P2 & V2). split; [congruence|]. split; [by etrans|].
      destruct V1 as [<-|?]; auto.
    + intros e He. apply H5 in He. destruct Hfs as [pre ->]. apply elem_of_app. by right.
Qed.

Lemma ledger_migrate_spec now s r s' :
  half_made (tables s) -> ledger_migrate now s = (r, s') ->
  half_made (tables s') /\ grows (tables s) (tables s') /\ (r = Ok tt -> whole (tables s')) /\ (forall e, r = Err e -> true ∈ fates s).
Proof.
  intros Hf. destruct s as [f fs]. cbn [tables fates] in *. unfold ledger_migrate, mbind, sql_bind.
  destruct (create_each schema_tables (Session f fs)) as [[[]|e] s1] eqn:Hc;
    apply (create_each_spec []) in Hc as (H1 & H2 & H3 & H4 & H5); try done; try apply prefix_nil.
  2: { intros [= <- <-]. split; [done|]. split; [done|]. split; [done|]. intros e' _. by eapply H5. }
  specialize (H4 eq_refl). unfold exec, call. destruct (next_fate s1) as [failed s2] eqn:Hn.
  apply next_fate_spec in Hn as (Ht & _ & Htrue). destruct failed.
  { intros [= <- <-]. rewrite Ht. split; [done|]. split; [done|]. split; [done|]. intros e _.
    destruct H3 as [pre ->]. apply elem_of_app. right. by apply Htrue. }
  rewrite Ht. unfold insert_first_version, mbind, result_bind.
  rewrite bool_decide_eq_true_2 by (rewrite H4; by left). intros [= <- <-]. cbn [tables].
  destruct (lf_versions (tables s1) !! 1) as [v|] eqn:Hv.
  - split; [done|]. split; [done|]. split; [|done]. intros _. split; [done | by rewrite Hv].
  - destruct H1 as [P1 V1]. destruct H2 as (R2 & P2 & V2).
    assert (lf_versions (tables s1) = ∅) as He.
    { apply map_empty. intros v. destruct (lf_versions (tables s1) !! v) as [t|] eqn:E; [|done].
      destruct (V1 v) as [-> _]; [by rewrite E | congruence]. }
    split; [|split; [|split; [|done]]].
    + split; [done|]. cbn. intros v Hv'. split; [|done]. destruct (decide (v = 1)) as [|Hne]; [done|].
      rewrite lookup_insert_ne in Hv' by done. by apply V1.
    + split; [done|]. split; [done|]. right. destruct V2 as [V2|V2]; [by rewrite <- V2 | done].
    + intros _. split; [done|]. cbn. by rewrite lookup_insert_eq.
Qed.

(** Opening, however often and however it ended before: the schema on the file
    is always a first part of the five tables, the version is the last thing
    written, and no row of the ledger is touched.  A nil [Open] leaves the whole
    schema; without an engine fault [Open] fails only for the path, the engine,
    the integrity check or the mode, and corruption is reported exactly for a
    failed integrity check or for a failed migration of a file with something
    in it. *)
Theorem ledger_Open_outcome env now s r s' :
  half_made (tables s) -> ledger_Open env now s = (r, s') ->
  half_made (tables s') /\ grows (tables s) (tables s')
  /\ (r = Ok tt -> whole (tables s') /\ le_integrity env = Some "ok"%string /\ le_chmod env = true)
  /\ (r = Err LMigrateFailed -> true ∈ fates s)
  /\ (r = Err LCorrupt -> le_integrity env <> Some "ok"%string \/ true ∈ fates s /\ exists n, le_size env = Some n /\ 0 < n).
Proof.
  intros Hf. unfold ledger_Open.
  assert (Hg : grows (tables s) (tables s)) by (split; [done|]; split; [done | by left]).
  case_bool_decide; [by intros [= <- <-]|]. destruct (le_stat_dir env); cbn [negb]; [|by intros [= <- <-]].
  destruct (le_sql_open env); cbn [negb]; [|by intros [= <- <-]].
  destruct (ledger_migrate now s) as [[[]|e] s1] eqn:Hm; apply ledger_migrate_spec in Hm as (H1 & H2 & H3 & H4); try done.
  - specialize (H3 eq_refl). unfold ledger_validate. case_bool_decide; cbn [negb].
    + destruct (le_chmod env); cbn [negb]; intros [= <- <-]; by repeat (split; [done|]).
    + intros [= <- <-]. repeat (split; [done|]). by left.
  - specialize (H4 e eq_refl). intros [= <- <-]. split; [done|]. split; [done|]. split; [done|].
    destruct (le_size env) as [n|]; [|split; [done|]; done]. destruct (0 <? n) eqn:Hn; (split; [done|]); [|done].
    bool_to_prop. intros _. right. eauto.
Qed.

Definition demo_ledger_env : ledger_env := {|
  le_path := "/l/ledger.db"; le_stat_dir := true; le_sql_open := true; le_size := Some 0; le_integrity := Some "ok"%string; le_chmod := true |}.
(** The engine fails at the third statement; the next open completes the schema. *)
Definition first_open := ledger_Open demo_ledger_env 5 (Session new_ledger_file [false; false; true]).
Definition second_open := ledger_Open demo_ledger_env 9 (Session (tables first_open.2) []).
Lemma half_made_new : half_made new_ledger_file.
Proof. split; [apply prefix_nil|]. cbn. intros v [t Ht]. by rewrite lookup_empty in Ht. Qed.

Lemma ledger_Open_outcome_witness : lf_tables (tables first_open.2) = ["schema_migrations"; "receipts"]%string /\ whole (tables second_open.2).
Proof.
  split; [vm_compute; reflexivity|].
  destruct (ledger_Open_outcome demo_ledger_env 5 (Session new_ledger_file [false; false; true]) first_open.1 first_open.2
    half_made_new (surjective_pairing _)) as (H1 & _).
  destruct (ledger_Open_outcome demo_ledger_env 9 (Session (tables first_open.2) []) second_open.1 second_open.2
    H1 (surjective_pairing _)) as (_ & _ & H & _).
  exact (proj1 (H ltac:(vm_compute; reflexivity))).
Defined.
