(* ===== verification/Subjects.v ===== *)
(** * Subjects and grants

    Models [internal/natsauth/subjects.go], [grants.go] and the permission
    rendering of [generate.go].  The broker is not this program's: it is an
    interface, [Broker], with the reading of a permission its documentation and
    ADR-0004 give.  The theorems say what the generated permissions let each
    principal reach: nothing of another agent's, the enrollment plane only
    through one token, and commands only from the command publisher. *)
From S2P Require Import Prelude GoBytes GoText Vocabulary.

(** ** [subjects.go] *)

Definition CommandPublisher : string := "command-publisher".
Definition EnrollmentService : string := "enrollment-service".
Definition ResultConsumer : string := "result-consumer".
Definition PresenceConsumer : string := "presence-consumer".
Definition MonitoringRole : string := "monitoring-role".

Definition Services : list string :=
  [CommandPublisher; EnrollmentService; ResultConsumer; PresenceConsumer; MonitoringRole].

Definition CommandStream : string := "KS_CMD".
Definition ResultStream : string := "KS_RES".

Definition agentCommandPrefix (id : string) : string := "ks.job." +:+ id +:+ ".>".
Definition agentResult (id : string) : string := "ks.out." +:+ id +:+ ".result".
Definition agentEvent (id : string) : string := "ks.out." +:+ id +:+ ".event".
Definition agentPresence (id : string) : string := "ks.out." +:+ id +:+ ".presence".
Definition anyAgentCommand : string := "ks.job.*.cmd".
Definition anyAgentCancellation : string := "ks.job.*.cancel".
Definition anyAgentOut (class : string) : string := "ks.out.*." +:+ class.
Definition tokenEnrollment (token class : string) : string :=
  "ks.enroll." +:+ token +:+ "." +:+ class.
Definition anyEnrollment (class : string) : string := "ks.enroll.*." +:+ class.
Definition EnrollmentPlane : string := "ks.enroll.>".
Definition InboxPrefix (name : string) : string := "_KSINBOX." +:+ name.
Definition inboxSubtree (name : string) : string := InboxPrefix name +:+ ".>".
Definition CommandConsumer (id : string) : string := "ks-cmd-" +:+ id.
Definition ResultConsumerName : string := "ks-res".
Definition consumerNext (stream consumer : string) : string :=
  "$JS.API.CONSUMER.MSG.NEXT." +:+ stream +:+ "." +:+ consumer.
Definition consumerAck (stream consumer : string) : string :=
  "$JS.ACK." +:+ stream +:+ "." +:+ consumer +:+ ".>".
Definition advisorySubjects : list string :=
  ["$JS.EVENT.ADVISORY.CONSUMER.MAX_DELIVERIES." +:+ CommandStream +:+ ".*";
   "$JS.EVENT.ADVISORY.CONSUMER.MSG_TERMINATED." +:+ CommandStream +:+ ".*";
   "$JS.EVENT.ADVISORY.API.LIMIT_REACHED"%string].

(** ** [grants.go] *)

Record grants := { g_pub : list string; g_sub : list string }.

Definition serviceGrants (p : string) : grants :=
  if bool_decide (p = CommandPublisher) then
    {| g_pub := [anyAgentCommand; anyAgentCancellation]; g_sub := [inboxSubtree CommandPublisher] |}
  else if bool_decide (p = EnrollmentService) then
    {| g_pub := [anyEnrollment "reply"]; g_sub := [anyEnrollment "request"] |}
  else if bool_decide (p = ResultConsumer) then
    {| g_pub := [consumerNext ResultStream ResultConsumerName;
                 consumerAck ResultStream ResultConsumerName];
       g_sub := [inboxSubtree ResultConsumer] |}
  else if bool_decide (p = PresenceConsumer) then
    {| g_pub := []; g_sub := [anyAgentOut "presence"] |}
  else if bool_decide (p = MonitoringRole) then
    {| g_pub := []; g_sub := anyAgentOut "event" :: advisorySubjects |}
  else {| g_pub := []; g_sub := [] |}.

Definition agentGrants (id : string) : grants :=
  let consumer := CommandConsumer id in
  {| g_pub := [agentResult id; agentEvent id; agentPresence id;
               consumerNext CommandStream consumer; consumerAck CommandStream consumer];
     g_sub := [agentCommandPrefix id; inboxSubtree id] |}.

Definition bootstrapGrants (token : string) : grants :=
  {| g_pub := [tokenEnrollment token "request"]; g_sub := [tokenEnrollment token "reply"] |}.

(** ** Permissions ([generate.go]) *)

Record Permission := { Allow : list string; Deny : list string }.
#[export] Instance Permission_eq_dec : EqDecision Permission.
Proof. solve_decision. Defined.

Definition permissionFor (allow : list string) : Permission :=
  match allow with
  | [] => {| Allow := []; Deny := [">"%string] |}
  | _ => {| Allow := allow; Deny := [] |}
  end.

(** [ValidateAgentIdentifier]; the two refusals share one error. *)
Definition ValidateAgentIdentifier (id : string) : bool :=
  ValidIdentifier id && negb (ReservedSender id).

(** ** Subject matching

    A subject is its tokens between dots; [*] stands for one token and a final
    [>] for one or more. *)
Definition dot : byte := x2e.
Definition star : string := "*".
Definition gt : string := ">".

Definition tokens (s : string) : list string := Split_string s dot.

Fixpoint match_tokens (p s : list string) : bool :=
  match p, s with
  | [], [] => true
  | a :: p', t :: s' =>
      if bool_decide (a = gt) && bool_decide (p' = []) then true
      else (bool_decide (a = star) || bool_decide (a = t)) && match_tokens p' s'
  | _, _ => false
  end.
Definition subject_matches (pattern subject : string) : bool :=
  match_tokens (tokens pattern) (tokens subject).

(** ** The broker's reading of a permission *)

Class Broker := broker_allows : Permission -> string -> bool.

Class BrokerLaws (B : Broker) : Prop := {
  (** a denial of the whole space denies everything *)
  deny_everything p s : ">"%string ∈ Deny p -> broker_allows p s = false;
  (** with nothing denied, a non-empty allow list is exhaustive *)
  allow_listed p s : Deny p = [] -> Allow p <> [] ->
    broker_allows p s = existsb (fun pat => subject_matches pat s) (Allow p);
  (** and an absent one is no restriction at all *)
  unrestricted p s : Deny p = [] -> Allow p = [] -> broker_allows p s = true;
}.

(** The documented reading, as a function. *)
Definition nats_reading : Broker := fun p s =>
  negb (existsb (fun pat => subject_matches pat s) (Deny p))
  && (bool_decide (Allow p = []) || existsb (fun pat => subject_matches pat s) (Allow p)).

Lemma tokens_nonempty s : tokens s <> [].
Proof.
  unfold tokens, Split_string. pose proof (split_on_nonempty dot (to_bytes s)).
  by destruct (split_on dot _).
Qed.

Lemma matches_gt s : subject_matches ">" s = true.
Proof.
  unfold subject_matches. change (tokens ">") with [gt]. pose proof (tokens_nonempty s).
  by destruct (tokens s).
Qed.

Lemma nats_reading_laws : BrokerLaws nats_reading.
Proof.
  split; intros p s; unfold broker_allows, nats_reading.
  - intros Hin. apply andb_false_iff. left. apply negb_false_iff, existsb_exists.
    exists ">"%string. split; [by apply list_elem_of_In | apply matches_gt].
  - intros -> Ha. cbn. by rewrite bool_decide_eq_false_2.
  - intros -> ->. reflexivity.
Qed.

(** ** Tokens of the subjects the program composes *)

Lemma tokens_single s : dot ∉ to_bytes s -> tokens s = [s].
Proof. intros H. unfold tokens, Split_string. rewrite split_on_none by done. cbn. by rewrite of_to_bytes. Qed.

Lemma tokens_app t s : dot ∉ to_bytes t -> tokens (t +:+ "." +:+ s) = t :: tokens s.
Proof.
  intros H. unfold tokens, Split_string. rewrite !to_bytes_app.
  change (to_bytes "." ++ to_bytes s) with (dot :: to_bytes s).
  rewrite split_on_app by done. cbn. by rewrite of_to_bytes.
Qed.

Lemma id_no_dot id : ValidIdentifier id = true -> dot ∉ to_bytes id.
Proof. intros H. by apply (ValidIdentifier_no_byte id). Qed.

Lemma id_plain id :
  ValidIdentifier id = true -> id <> star /\ id <> gt.
Proof.
  intros H. split; intros ->; discriminate H.
Qed.

(** ** Principals and what they reach *)

Inductive principal :=
  | PService (p : string)
  | PAgent (id : string)
  | PBootstrap (token : string).

Definition principal_grants (p : principal) : grants :=
  match p with
  | PService p => serviceGrants p
  | PAgent id => agentGrants id
  | PBootstrap token => bootstrapGrants token
  end.

(** The principals the minter and the generator issue. *)
Definition issuable (p : principal) : bool :=
  match p with
  | PService p => bool_decide (p ∈ Services)
  | PAgent id => ValidateAgentIdentifier id
  | PBootstrap token => ValidateAgentIdentifier token
  end.

Inductive direction := Publish | Subscribe.

Definition granted (p : principal) (d : direction) : list string :=
  match d with
  | Publish => g_pub (principal_grants p)
  | Subscribe => g_sub (principal_grants p)
  end.

(** What the broker lets a connection do with the permissions rendered for it. *)
Definition reaches `{B : Broker} (p : principal) (d : direction) (s : string) : Prop :=
  broker_allows (permissionFor (granted p d)) s = true.

(** The tokens of what an agent and a bootstrap identity are granted. *)
Definition agent_tokens (d : direction) (id : string) : list (list string) :=
  match d with
  | Publish =>
      [ ["ks"; "out"; id; "result"]; ["ks"; "out"; id; "event"]; ["ks"; "out"; id; "presence"];
        ["$JS"; "API"; "CONSUMER"; "MSG"; "NEXT"; "KS_CMD"; "ks-cmd-" +:+ id];
        ["$JS"; "ACK"; "KS_CMD"; "ks-cmd-" +:+ id; gt] ]%string
  | Subscribe => [ ["ks"; "job"; id; gt]; ["_KSINBOX"; id; gt] ]%string
  end.
Definition bootstrap_tokens (d : direction) (t : string) : list (list string) :=
  [["ks"; "enroll"; t; match d with Publish => "request" | Subscribe => "reply" end]]%string.

(** A composed subject, token by token: each is a literal or an identifier. *)
Ltac no_dot :=
  solve [ refine (bool_decide_unpack _ _); vm_compute; exact I | by apply id_no_dot
        | rewrite to_bytes_app; apply not_elem_of_app; split; no_dot ].

Ltac split_subject := rewrite ?tokens_app, ?tokens_single by no_dot.

Lemma inboxSubtree_eq n : inboxSubtree n = ("_KSINBOX" +:+ "." +:+ n +:+ "." +:+ ">")%string.
Proof. apply to_bytes_inj. unfold inboxSubtree, InboxPrefix. by rewrite !to_bytes_app, <- !app_assoc. Qed.

Lemma agent_tokens_eq d id :
  ValidIdentifier id = true -> map tokens (granted (PAgent id) d) = agent_tokens d id.
Proof.
  intros H. destruct d; cbn [granted principal_grants agentGrants g_pub g_sub map agent_tokens].
  - change (agentResult id) with ("ks" +:+ "." +:+ "out" +:+ "." +:+ id +:+ "." +:+ "result")%string.
    change (agentEvent id) with ("ks" +:+ "." +:+ "out" +:+ "." +:+ id +:+ "." +:+ "event")%string.
    change (agentPresence id) with ("ks" +:+ "." +:+ "out" +:+ "." +:+ id +:+ "." +:+ "presence")%string.
    change (consumerNext CommandStream (CommandConsumer id)) with
      ("$JS" +:+ "." +:+ "API" +:+ "." +:+ "CONSUMER" +:+ "." +:+ "MSG" +:+ "." +:+ "NEXT" +:+ "."
        +:+ "KS_CMD" +:+ "." +:+ ("ks-cmd-" +:+ id))%string.
    change (consumerAck CommandStream (CommandConsumer id)) with
      ("$JS" +:+ "." +:+ "ACK" +:+ "." +:+ "KS_CMD" +:+ "." +:+ ("ks-cmd-" +:+ id) +:+ "." +:+ ">")%string.
    by split_subject.
  - change (agentCommandPrefix id) with ("ks" +:+ "." +:+ "job" +:+ "." +:+ id +:+ "." +:+ ">")%string.
    rewrite inboxSubtree_eq. by split_subject.
Qed.

Lemma bootstrap_tokens_eq d t :
  ValidIdentifier t = true -> map tokens (granted (PBootstrap t) d) = bootstrap_tokens d t.
Proof.
  intros H. destruct d; cbn [granted principal_grants bootstrapGrants g_pub g_sub map bootstrap_tokens].
  - change (tokenEnrollment t "request") with
      ("ks" +:+ "." +:+ "enroll" +:+ "." +:+ t +:+ "." +:+ "request")%string. by split_subject.
  - change (tokenEnrollment t "reply") with
      ("ks" +:+ "." +:+ "enroll" +:+ "." +:+ t +:+ "." +:+ "reply")%string. by split_subject.
Qed.

(** ** What a rendered permission lets through *)

Section Reach.
Context `{B : Broker} {HB : BrokerLaws B}.

(** An empty direction reaches nothing, any other exactly what it lists. *)
Lemma permissionFor_exact allow s :
  broker_allows (permissionFor allow) s = existsb (fun pat => subject_matches pat s) allow.
Proof.
  destruct allow as [|a l]; cbn [permissionFor].
  - apply deny_everything. by constructor.
  - by rewrite allow_listed.
Qed.

Lemma reaches_iff p d s :
  reaches p d s <-> exists pat, In pat (map tokens (granted p d)) /\ match_tokens pat (tokens s) = true.
Proof.
  unfold reaches. rewrite permissionFor_exact, existsb_exists. split.
  - intros (pat & Hin & Hm). exists (tokens pat). split; [by apply in_map | done].
  - intros (? & (pat & <- & Hin)%in_map_iff & Hm). eauto.
Qed.
End Reach.

(** A literal token of a pattern is matched by itself only. *)
Lemma match_literal a p s :
  a <> star -> a <> gt ->
  match_tokens (a :: p) s = true -> exists s', s = a :: s' /\ match_tokens p s' = true.
Proof.
  intros Hs Hg. destruct s as [|t s]; [done|]. cbn [match_tokens].
  rewrite (bool_decide_eq_false_2 (a = gt)), (bool_decide_eq_false_2 (a = star)) by done. cbn.
  intros [->%bool_decide_eq_true Hm]%andb_true_iff. eauto.
Qed.
Lemma match_star p s :
  match_tokens (star :: p) s = true -> exists t s', s = t :: s' /\ match_tokens p s' = true.
Proof. destruct s as [|t s]; [done|]. cbn. eauto. Qed.
Lemma match_rest s : match_tokens [gt] s = true <-> s <> [].
Proof. by destruct s. Qed.
Lemma match_end s : match_tokens [] s = true -> s = [].
Proof. by destruct s. Qed.

Lemma match_same a p s : match_tokens p s = true -> match_tokens (a :: p) (a :: s) = true.
Proof. intros H. cbn [match_tokens]. case_match; [done|]. by rewrite H, (bool_decide_eq_true_2 (a = a)), orb_true_r. Qed.
Lemma match_any t p s : match_tokens p s = true -> match_tokens (star :: p) (t :: s) = true.
Proof. done. Qed.
Lemma match_tail t s : match_tokens [gt] (t :: s) = true.
Proof. done. Qed.
Lemma match_nil : match_tokens [] [] = true.
Proof. done. Qed.

Lemma cmd_plain id : "ks-cmd-" +:+ id <> star /\ "ks-cmd-" +:+ id <> gt.
Proof. by split. Qed.

(** [match_inv H] reads a subject off a pattern it matches. *)
Ltac plain_token :=
  solve [ discriminate | apply cmd_plain
        | match goal with H : ValidIdentifier _ = true |- _ => apply (id_plain _ H) end ].
Ltac match_inv H :=
  repeat match type of H with
  | match_tokens [] _ = true => apply match_end in H
  | match_tokens [gt] _ = true => apply match_rest in H
  | match_tokens [">"%string] _ = true => apply match_rest in H
  | match_tokens ("*"%string :: _) _ = true => apply match_star in H as (? & ? & ? & H); subst
  | match_tokens (_ :: _) _ = true =>
      apply match_literal in H as (? & ? & H); [subst | plain_token | plain_token]
  end.

(** ** Whose subject it is

    Read off the tokens alone: in each direction a subject belongs to at most
    one principal, and [owner] says which. *)

Definition service_tokens (d : direction) (p : string) : list (list string) :=
  map tokens (granted (PService p) d).

Definition principal_tokens (d : direction) (p : principal) : list (list string) :=
  match p with
  | PService p => service_tokens d p
  | PAgent id => agent_tokens d id
  | PBootstrap t => bootstrap_tokens d t
  end.

(** The agent a durable consumer's name carries. *)
Definition consumer_agent (name : string) : string := of_bytes (drop 7 (to_bytes name)).

Definition owner (d : direction) (ts : list string) : option principal :=
  match ts with
  | a :: b :: c :: rest =>
      if bool_decide (a = "ks"%string) then
        if bool_decide (b = "job"%string) then
          Some match d with Publish => PService CommandPublisher | Subscribe => PAgent c end
        else if bool_decide (b = "out"%string) then
          Some match d with
               | Publish => PAgent c
               | Subscribe => PService (if bool_decide (rest = ["presence"%string])
                                        then PresenceConsumer else MonitoringRole)
               end
        else Some match d, bool_decide (rest = ["request"%string]) with
                  | Publish, true | Subscribe, false => PBootstrap c
                  | _, _ => PService EnrollmentService
                  end
      else if bool_decide (a = "_KSINBOX"%string) then
        match d with
        | Publish => None
        | Subscribe => Some (if bool_decide (b ∈ Services) then PService b else PAgent b)
        end
      else match d with
           | Publish =>
               let k := if bool_decide (b = "ACK"%string) then 2%nat else 5%nat in
               if bool_decide (ts !! k = Some CommandStream)
               then PAgent ∘ consumer_agent <$> ts !! S k else Some (PService ResultConsumer)
           | Subscribe => if bool_decide (b = "EVENT"%string)
                          then Some (PService MonitoringRole) else None
           end
  | _ => None
  end.

Lemma principal_tokens_eq p d :
  issuable p = true -> map tokens (granted p d) = principal_tokens d p.
Proof.
  destruct p as [p|id|t]; cbn [issuable].
  - done.
  - intros [Hv _]%andb_true_iff. by apply agent_tokens_eq.
  - intros [Hv _]%andb_true_iff. by apply bootstrap_tokens_eq.
Qed.

Lemma consumer_agent_eq id : consumer_agent ("ks-cmd-" +:+ id) = id.
Proof.
  unfold consumer_agent. rewrite to_bytes_app.
  change 7%nat with (length (to_bytes "ks-cmd-")). rewrite drop_app_length. apply of_to_bytes.
Qed.

Lemma issuable_id p id :
  p = PAgent id \/ p = PBootstrap id -> issuable p = true ->
  ValidIdentifier id = true /\ id ∉ Services.
Proof.
  intros [-> | ->] [Hv Hr]%andb_true_iff; (split; [done|]);
    by apply negb_true_iff, bool_decide_eq_false in Hr.
Qed.

(** [owner_cases H]: one case per pattern of the list [H] ranges over. *)
Ltac pattern_cases H := repeat (destruct H as [<-|H]); [..|destruct H].

Lemma owner_spec p d pat ts :
  issuable p = true -> In pat (principal_tokens d p) -> match_tokens pat ts = true ->
  owner d ts = Some p.
Proof.
  intros Hp Hin Hm. destruct p as [p|id|t].
  - apply bool_decide_eq_true in Hp.
    repeat (apply elem_of_cons in Hp as [->|Hp]); [..|by apply not_elem_of_nil in Hp];
    destruct d; vm_compute in Hin; pattern_cases Hin; match_inv Hm; subst; try done;
    match goal with H : ?l <> [] |- _ => by destruct l end.
  - apply (issuable_id _ id) in Hp as [Hv Hs]; [|by left].
    destruct d; cbn [principal_tokens agent_tokens] in Hin; pattern_cases Hin; match_inv Hm; subst;
    try reflexivity;
    try (transitivity (Some (PAgent (consumer_agent ("ks-cmd-" +:+ id))));
         [reflexivity | by rewrite consumer_agent_eq]).
    destruct x0; [done|]. cbn. by rewrite (bool_decide_eq_false_2 (id ∈ Services)).
  - apply (issuable_id _ t) in Hp as [Hv Hs]; [|by right].
    destruct d; cbn [principal_tokens bootstrap_tokens] in Hin; pattern_cases Hin; match_inv Hm; by subst.
Qed.

(** ** What the grants add up to *)

Section Topology.
Context `{B : Broker} {HB : BrokerLaws B}.

Lemma reaches_owner p d s :
  issuable p = true -> reaches p d s -> owner d (tokens s) = Some p.
Proof.
  intros Hp (pat & Hin & Hm)%reaches_iff. rewrite principal_tokens_eq in Hin by done.
  by eapply owner_spec.
Qed.

(** C11. Every subject, in each direction, belongs to at most one principal: two
    issued principals that the broker lets publish (or subscribe) on the same
    subject are the same principal.  In particular no agent reads another's
    commands or replies or writes as it, a bootstrap identity reaches only its
    own token's pair, and the service roles' wildcards overlap with nobody. *)
Theorem one_principal_per_subject p q d s :
  issuable p = true -> issuable q = true ->
  reaches p d s -> reaches q d s -> p = q.
Proof.
  intros Hp Hq H1%reaches_owner H2%reaches_owner; try done. congruence.
Qed.

(** Who can be heard by whom. *)
Inductive flow : principal -> principal -> Prop :=
  | flow_command id : flow (PService CommandPublisher) (PAgent id)
  | flow_presence id : flow (PAgent id) (PService PresenceConsumer)
  | flow_event id : flow (PAgent id) (PService MonitoringRole)
  | flow_request t : flow (PBootstrap t) (PService EnrollmentService)
  | flow_reply t : flow (PService EnrollmentService) (PBootstrap t).

Lemma heard_flow p q s :
  issuable p = true -> issuable q = true ->
  reaches p Publish s -> reaches q Subscribe s -> flow p q.
Proof.
  intros Hp Hq (pat & Hin & Hm)%reaches_iff Hs%reaches_owner; [|done].
  rewrite principal_tokens_eq in Hin by done. revert Hm Hs. generalize (tokens s) as ts. intros ts Hm Hs.
  destruct p as [p|id|t].
  - apply bool_decide_eq_true in Hp.
    repeat (apply elem_of_cons in Hp as [->|Hp]); [..|by apply not_elem_of_nil in Hp];
    vm_compute in Hin; pattern_cases Hin; match_inv Hm; subst; try done;
    vm_compute in Hs; injection Hs as <-; constructor.
  - apply (issuable_id _ id) in Hp as [Hv _]; [|by left].
    cbn [principal_tokens agent_tokens] in Hin; pattern_cases Hin; match_inv Hm; subst;
      vm_compute in Hs; try discriminate; injection Hs as <-; constructor.
  - apply (issuable_id _ t) in Hp as [Hv _]; [|by right].
    cbn [principal_tokens bootstrap_tokens] in Hin; pattern_cases Hin; match_inv Hm; subst;
      vm_compute in Hs; injection Hs as <-; constructor.
Qed.

(** Each flow has a subject that carries it. *)
Definition channel (p q : principal) : list string :=
  match p, q with
  | PService _, PAgent id => ["ks"; "job"; id; "cmd"]
  | PAgent id, PService r =>
      ["ks"; "out"; id; if bool_decide (r = PresenceConsumer) then "presence" else "event"]
  | PBootstrap t, _ => ["ks"; "enroll"; t; "request"]
  | _, PBootstrap t => ["ks"; "enroll"; t; "reply"]
  | _, _ => []
  end%string.
Definition join_tokens (ts : list string) : string := of_bytes (join_with dot (map to_bytes ts)).

Lemma tokens_join_tokens ts :
  ts <> [] -> Forall (fun t => dot ∉ to_bytes t) ts -> tokens (join_tokens ts) = ts.
Proof.
  intros Hne Hd. unfold tokens, join_tokens, Split_string. rewrite to_of_bytes.
  rewrite split_join, map_map; [| by destruct ts | ].
  - rewrite <- (map_id ts) at 2. apply map_ext. intros. apply of_to_bytes.
  - apply Forall_forall. intros b (t & -> & Ht)%list_elem_of_fmap.
    rewrite Forall_forall in Hd. auto.
Qed.

Ltac in_list := (left; reflexivity) + (right; in_list).

Lemma flow_heard p q :
  issuable p = true -> issuable q = true -> flow p q ->
  reaches p Publish (join_tokens (channel p q)) /\ reaches q Subscribe (join_tokens (channel p q)).
Proof.
  intros Hp Hq Hf. rewrite !reaches_iff.
  assert (Ht : tokens (join_tokens (channel p q)) = channel p q).
  { apply tokens_join_tokens; [by destruct Hf|]. 
    destruct Hf as [id|id|id|t|t]; (eapply (issuable_id _ id) in Hq as [? _]; [|by eauto])
     || (eapply (issuable_id _ id) in Hp as [? _]; [|by eauto])
     || (eapply (issuable_id _ t) in Hq as [? _]; [|by eauto])
     || (eapply (issuable_id _ t) in Hp as [? _]; [|by eauto]);
    repeat (constructor; [no_dot|]); constructor. }
  rewrite Ht, !principal_tokens_eq by done.
  destruct Hf; split; eexists; (split; [cbn; in_list|]);
    solve [repeat first [apply match_tail | apply match_nil | apply match_same | apply match_any]].
Qed.

(** C31. The flows of information are exactly the designed ones: one issued
    principal can be heard by another, on some subject, exactly for commands
    from the command publisher to an agent, presence and events from an agent
    to their two consumers, and a bootstrap identity's request to the enrollment
    service and the reply back.  Nobody can publish into anybody's reply inbox,
    and no agent can reach another agent at all. *)
Theorem flows_are_designed p q :
  issuable p = true -> issuable q = true ->
  (exists s, reaches p Publish s /\ reaches q Subscribe s) <-> flow p q.
Proof.
  intros Hp Hq. split.
  - intros (s & Hpub & Hsub). by eapply heard_flow.
  - intros Hf. exists (join_tokens (channel p q)). by apply flow_heard.
Qed.

(** The whole enrollment plane is out of an agent's reach, as publisher and as
    subscriber. *)
Lemma enrollment_plane_unreachable id d s :
    issuable (PAgent id) = true -> subject_matches EnrollmentPlane s = true ->
    ~ reaches (PAgent id) d s.
Proof.
    intros Hp Hm Hr%reaches_owner; [|done]. unfold subject_matches in Hm.
    change (tokens EnrollmentPlane) with ["ks"; "enroll"; ">"]%string in Hm.
    revert Hm Hr. generalize (tokens s). intros ts Hm Hr. match_inv Hm. destruct x0 as [|t ts]; [done|].
    cbn in Hr. by destruct d, (bool_decide (ts = ["request"%string])).
Qed.

(** A direction with no grants is a direction the broker refuses outright,
    and one with grants lets through exactly the subjects some grant matches:
    the rendering never turns "none" into "unrestricted". *)
Theorem permissions_exact p d s :
  reaches p d s <-> exists g, g ∈ granted p d /\ subject_matches g s = true.
Proof.
  unfold reaches. rewrite permissionFor_exact, existsb_exists.
  split; intros (g & Hin & Hm); exists g; (split; [by apply list_elem_of_In | done]).
Qed.
End Topology.

Lemma one_principal_witness :
  reaches (B := nats_reading) (PAgent "edge-1") Subscribe "ks.job.edge-1.cmd"
  /\ PAgent "edge-1" = PAgent "edge-1".
Proof.
  assert (H : reaches (B := nats_reading) (PAgent "edge-1") Subscribe "ks.job.edge-1.cmd")
    by (vm_compute; reflexivity).
  split; [exact H|].
  by apply (one_principal_per_subject (HB := nats_reading_laws) _ _ Subscribe "ks.job.edge-1.cmd").
Defined.

Lemma flows_witness :
  exists s, reaches (B := nats_reading) (PService CommandPublisher) Publish s
    /\ reaches (B := nats_reading) (PAgent "edge-1") Subscribe s.
Proof.
  apply (flows_are_designed (HB := nats_reading_laws) (PService CommandPublisher) (PAgent "edge-1"));
    [reflexivity | reflexivity | constructor].
Defined.

Lemma permissions_witness :
  ~ reaches (B := nats_reading) (PService PresenceConsumer) Publish "ks.job.edge-1.cmd".
Proof.
  intros H. apply (permissions_exact (HB := nats_reading_laws)) in H as (g & Hg & _).
  by apply not_elem_of_nil in Hg.
Defined.
