(* ===== verification/Limits.v ===== *)
(** * Limits

    Models [internal/natsauth/limits.go] and the account limits of
    [generate.go]: the limit set, its defaults in Go's wrapping [int64], and
    [Validate], which walks a value by reflection.  A reflected value is a tree;
    the walk is the source's, and the theorems say which limit sets it passes
    and for which fleets the defaults are among them. *)
From S2P Require Import Prelude GoBytes GoText Subjects.

Record AccountLimits := {
  FleetSize : Z; MaxConnections : Z; MaxSubscriptions : Z;
  MaxPayloadBytes : Z; MaxJetStreamDiskByte : Z }.
Record StreamLimits := {
  MaxAgeSeconds : Z; MaxMessages : Z; MaxBytes : Z; MaxMessagesPerSubject : Z }.
Record ConsumerLimits := {
  MaxAckPending : Z; MaxDeliver : Z; BackOffSeconds : list Z; AckWaitSeconds : Z }.
Record Limits := {
  Account : AccountLimits; Command : StreamLimits; Result : StreamLimits;
  Consumer : ConsumerLimits }.

Definition DefaultLimits (fleetSize : Z) : Limits :=
  let fleetSize := if fleetSize <? 1 then 1 else fleetSize in
  {| Account := {| FleetSize := fleetSize;
                   MaxConnections := int64 (int64 (fleetSize + zlen Services) + 8);
                   MaxSubscriptions := 32;
                   MaxPayloadBytes := Z.shiftl 1 20;
                   MaxJetStreamDiskByte := Z.shiftl 1 30 |};
     Command := {| MaxAgeSeconds := 6 * 3600;
                   MaxMessages := int64 (fleetSize * 1024);
                   MaxBytes := Z.shiftl 256 20;
                   MaxMessagesPerSubject := 64 |};
     Result := {| MaxAgeSeconds := 24 * 3600;
                  MaxMessages := int64 (fleetSize * 4096);
                  MaxBytes := Z.shiftl 512 20;
                  MaxMessagesPerSubject := 256 |};
     Consumer := {| MaxAckPending := 1; MaxDeliver := 5;
                    BackOffSeconds := [1; 5; 15; 60]; AckWaitSeconds := 30 |} |}.

(** ** Reflection

    What [reflect.Value] shows of a value: the kinds the walk tells apart. *)
Inductive rvalue :=
  | RStruct (fields : list (string * rvalue))
  | RSlice (items : list rvalue)
  | RInt (n : Z)
  | ROther (kind : string).

Definition reflect_account (a : AccountLimits) : rvalue :=
  RStruct [("FleetSize", RInt (FleetSize a)); ("MaxConnections", RInt (MaxConnections a));
           ("MaxSubscriptions", RInt (MaxSubscriptions a));
           ("MaxPayloadBytes", RInt (MaxPayloadBytes a));
           ("MaxJetStreamDiskByte", RInt (MaxJetStreamDiskByte a))]%string.
Definition reflect_stream (s : StreamLimits) : rvalue :=
  RStruct [("MaxAgeSeconds", RInt (MaxAgeSeconds s)); ("MaxMessages", RInt (MaxMessages s));
           ("MaxBytes", RInt (MaxBytes s));
           ("MaxMessagesPerSubject", RInt (MaxMessagesPerSubject s))]%string.
Definition reflect_consumer (c : ConsumerLimits) : rvalue :=
  RStruct [("MaxAckPending", RInt (MaxAckPending c)); ("MaxDeliver", RInt (MaxDeliver c));
           ("BackOffSeconds", RSlice (map RInt (BackOffSeconds c)));
           ("AckWaitSeconds", RInt (AckWaitSeconds c))]%string.
Definition reflect_limits (l : Limits) : rvalue :=
  RStruct [("Account", reflect_account (Account l)); ("Command", reflect_stream (Command l));
           ("Result", reflect_stream (Result l)); ("Consumer", reflect_consumer (Consumer l))]%string.

(** The problems the walk appends, in its order. *)
Fixpoint walk (path : string) (v : rvalue) : list string :=
  match v with
  | RStruct fields =>
      (fix each (fs : list (string * rvalue)) :=
         match fs with
         | [] => []
         | (n, w) :: fs' => walk (path +:+ "." +:+ n) w ++ each fs'
         end) fields
  | RSlice [] => [path +:+ " is empty"]
  | RSlice items =>
      (fix each (i : Z) (ws : list rvalue) :=
         match ws with
         | [] => []
         | w :: ws' => walk (path +:+ "[" +:+ FormatInt i +:+ "]") w ++ each (i + 1) ws'
         end) 0 items
  | RInt n => if n <=? 0 then [path +:+ " is " +:+ FormatInt n] else []
  | ROther kind => [path +:+ " has kind " +:+ kind +:+ ", which this check cannot judge"]
  end.

(** [ErrLimits] with the problems it wraps. *)
Inductive limits_err := ErrLimits (problems : list string).

Definition Validate (l : Limits) : result limits_err unit :=
  let problems := walk "Limits" (reflect_limits l) in
  if 0 <? zlen problems then Err (ErrLimits problems) else Ok tt.

(** ** The account's limits ([applyAccountLimits]) *)

(** The limits of an account claim that the generator sets. *)
Record account_claim_limits := {
  Conn : Z; Subs : Z; Payload : Z; DiskStorage : Z; MemoryStorage : Z; Data : Z }.

Definition applyAccountLimits (l : Limits) : account_claim_limits :=
  {| Conn := MaxConnections (Account l); Subs := MaxSubscriptions (Account l);
     Payload := MaxPayloadBytes (Account l);
     DiskStorage := MaxJetStreamDiskByte (Account l);
     MemoryStorage := 0;
     Data := MaxJetStreamDiskByte (Account l) |}.

(** ** What the walk finds *)

(** Every integer a reflected value holds. *)
Fixpoint leaves (v : rvalue) : list Z :=
  match v with
  | RStruct fields => (fix each fs := match fs with [] => [] | (_, w) :: fs' => leaves w ++ each fs' end) fields
  | RSlice items => (fix each ws := match ws with [] => [] | w :: ws' => leaves w ++ each ws' end) items
  | RInt n => [n]
  | ROther _ => []
  end.

Definition limit_values (l : Limits) : list Z := leaves (reflect_limits l).

Lemma walk_int path n : walk path (RInt n) = [] <-> 0 < n.
Proof. cbn. destruct (Z.leb_spec n 0); split; done || lia. Qed.

Lemma walk_ints path ns :
  walk path (RSlice (map RInt ns)) = [] <-> ns <> [] /\ Forall (fun n => 0 < n) ns.
Proof.
  cbn. destruct ns as [|n ns]; [naive_solver|]. cbn [map].
  assert (H : forall i, (fix each (i : Z) (ws : list rvalue) :=
         match ws with
         | [] => []
         | w :: ws' => walk (path +:+ "[" +:+ FormatInt i +:+ "]") w ++ each (i + 1) ws'
         end) i (map RInt (n :: ns)) = [] <-> Forall (fun n => 0 < n) (n :: ns)).
  { generalize (n :: ns). clear. intros l. induction l as [|n l IH]; intros i; cbn [map].
    - split; auto.
    - rewrite app_nil, walk_int, IH, Forall_cons. tauto. }
  rewrite (H 0). naive_solver.
Qed.

Lemma walk_nil path : walk path (RStruct []) = [] <-> True.
Proof. done. Qed.
Lemma walk_cons path n w fs :
  walk path (RStruct ((n, w) :: fs)) = [] <->
  walk (path +:+ "." +:+ n) w = [] /\ walk path (RStruct fs) = [].
Proof. exact (app_nil _ _). Qed.

Lemma Validate_ok l : Validate l = Ok tt <-> walk "Limits" (reflect_limits l) = [].
Proof.
  unfold Validate. destruct (walk "Limits" _) as [|p ps]; [done|]. rewrite zlen_cons.
  pose proof (zlen_nonneg ps). ztests. done.
Qed.

(** No limit absent or infinite: every integer of the set positive, and a
    backoff schedule there. *)
Definition bounded (l : Limits) : Prop :=
  Forall (fun n => 0 < n) (limit_values l) /\ BackOffSeconds (Consumer l) <> [].

Lemma leaves_ints ns : leaves (RSlice (map RInt ns)) = ns.
Proof. induction ns as [|n ns IH]; [done|]. cbn in *. by f_equal. Qed.

Lemma leaves_cons n w fs : leaves (RStruct ((n, w) :: fs)) = leaves w ++ leaves (RStruct fs).
Proof. done. Qed.

Lemma Validate_bounded l : Validate l = Ok tt <-> bounded l.
Proof.
  rewrite Validate_ok. unfold bounded, limit_values, reflect_limits, reflect_account,
    reflect_stream, reflect_consumer.
  rewrite !walk_cons, !walk_int, !walk_ints, !leaves_cons, leaves_ints, !Forall_app.
  cbn [leaves]. rewrite !Forall_singleton, !Forall_nil. naive_solver.
Qed.

(** [Validate] passes exactly the limit sets in which every limit, at any
    depth, is positive and the backoff schedule is not empty: zero (absent) and
    -1 (no limit) are refused wherever they stand, and a refusal names at least
    one problem.  The limits then written to an account claim are all finite,
    with memory storage off. *)
Theorem Validate_exact l :
  (Validate l = Ok tt <-> bounded l)
  /\ (forall ps, Validate l = Err (ErrLimits ps) -> ps <> [])
  /\ (Validate l = Ok tt ->
      let a := applyAccountLimits l in
      Forall (fun n => 0 < n) [Conn a; Subs a; Payload a; DiskStorage a; Data a]
      /\ MemoryStorage a = 0).
Proof.
  split; [apply Validate_bounded | split].
  - intros ps. unfold Validate. generalize (walk "Limits" (reflect_limits l)) as qs.
    intros qs. destruct qs as [|q qs]; [done|]. case_match; [by intros [= <-] | done].
  - intros [H _]%Validate_bounded. unfold limit_values, reflect_limits, reflect_account in H.
    rewrite !leaves_cons, !Forall_app in H. cbn [leaves] in H. rewrite !Forall_singleton in H.
    cbn. repeat constructor; tauto.
Qed.

Lemma Validate_exact_witness : bounded (DefaultLimits 100).
Proof. apply Validate_exact. vm_compute. reflexivity. Defined.

(** The largest fleet whose per-fleet limits are computed without overflow. *)
Definition max_fleet : Z := max_int64 / 4096.

Lemma DefaultLimits_fields f :
  min_int64 <= f <= max_fleet ->
  limit_values (DefaultLimits f) =
    let g := Z.max 1 f in
    [g; g + 13; 32; 1048576; 1073741824; 21600; g * 1024; 268435456; 64;
     86400; g * 4096; 536870912; 256; 1; 5; 1; 5; 15; 60; 30].
Proof.
  intros Hf. unfold max_fleet, max_int64, min_int64 in *.
  assert (Hg : (if f <? 1 then 1 else f) = Z.max 1 f) by ztests.
  unfold DefaultLimits. rewrite Hg. change (zlen Services) with 5.
  change ((2 ^ 63 - 1) / 4096) with 2251799813685247 in Hf.
  assert (1 <= Z.max 1 f <= 2251799813685247) by lia. generalize dependent (Z.max 1 f). intros g _ Hg.
  rewrite (int64_small (g + 5)) by (unfold min_int64, max_int64; lia).
  rewrite !int64_small by (unfold min_int64, max_int64; lia).
  rewrite <- (Z.add_assoc g 5 8). reflexivity.
Qed.

(** C37. The default limits pass [Validate] and hold the documented amounts for
    every fleet up to [max_fleet] (a fleet below one counts as one).  Beyond
    it the multiplication wraps silently: there is a fleet size for which the
    defaults still pass [Validate] and bound the whole fleet's results by what
    a single agent is given. *)
Theorem DefaultLimits_bounds :
  (forall f, min_int64 <= f <= max_fleet ->
     Validate (DefaultLimits f) = Ok tt
     /\ FleetSize (Account (DefaultLimits f)) = Z.max 1 f
     /\ MaxConnections (Account (DefaultLimits f)) = Z.max 1 f + 13
     /\ MaxMessages (Command (DefaultLimits f)) = Z.max 1 f * 1024
     /\ MaxMessages (Result (DefaultLimits f)) = Z.max 1 f * 4096)
  /\ exists f, max_fleet < f <= max_int64
     /\ Validate (DefaultLimits f) = Ok tt
     /\ MaxMessages (Result (DefaultLimits f)) = MaxMessages (Result (DefaultLimits 1)).
Proof.
  split.
  - intros f Hf. pose proof (DefaultLimits_fields f Hf) as E. split.
    + apply Validate_bounded. split; [|done]. rewrite E. cbn. repeat constructor; lia.
    + cbn in E. injection E. auto.
  - exists (2 ^ 52 + 1). split; [by vm_compute|]. split; vm_compute; reflexivity.
Qed.

Lemma DefaultLimits_bounds_witness : MaxConnections (Account (DefaultLimits 250)) = 263.
Proof.
  destruct DefaultLimits_bounds as [H _]. destruct (H 250) as (_ & _ & Hc & _).
  - split; vm_compute; discriminate.
  - exact Hc.
Defined.
