(* ===== verification/Nats.v ===== *)
(** * The NATS libraries as interfaces

    The program calls [nkeys] for key pairs and [jwt] for tokens; neither is its
    own code.  [Nkeys] and [Jwt] are the operations it uses of them, [NkeysLaws]
    and [JwtLaws] what it relies on, and the instances at the end show the laws
    can hold.  A source of randomness is the bytes it hands out, a clock the
    instant it reads. *)
From S2P Require Import Prelude GoBytes GoTime GoText Json Subjects Limits.

Class Nkeys := {
  KeyPair : Type;
  (** [CreateUser] and its siblings, from what the random source gives *)
  CreateUser : bytes -> option KeyPair;
  CreateAccount : bytes -> option KeyPair;
  CreateOperator : bytes -> option KeyPair;
  FromSeed : bytes -> option KeyPair;
  PublicKey : KeyPair -> option string;
  Seed : KeyPair -> option bytes;
  IsValidPublicUserKey : string -> bool;
  IsValidPublicAccountKey : string -> bool;
}.

Class NkeysLaws (K : Nkeys) : Prop := {
  created_user r kp : CreateUser r = Some kp -> exists pub seed,
    PublicKey kp = Some pub /\ Seed kp = Some seed /\ seed <> [] /\ ascii seed
    /\ IsValidPublicUserKey pub = true /\ FromSeed seed = Some kp;
  created_account r kp : CreateAccount r = Some kp -> exists pub seed,
    PublicKey kp = Some pub /\ Seed kp = Some seed /\ seed <> []
    /\ IsValidPublicAccountKey pub = true /\ FromSeed seed = Some kp;
  created_operator r kp : CreateOperator r = Some kp -> exists pub seed,
    PublicKey kp = Some pub /\ Seed kp = Some seed /\ seed <> [];
  roles_disjoint pub : IsValidPublicUserKey pub = true -> IsValidPublicAccountKey pub = false;
  (** keys and seeds are spelled in base32 *)
  public_ascii kp pub : PublicKey kp = Some pub -> ascii (to_bytes pub);
  seed_ascii kp seed : Seed kp = Some seed -> ascii seed;
  account_seed_solid r kp seed : CreateAccount r = Some kp -> Seed kp = Some seed -> trim_space seed = seed;
  account_key_nonempty pub : IsValidPublicAccountKey pub = true -> pub <> ""%string;
}.

(** The claims the program writes and reads. *)
Record UserClaims := {
  Subject : string; Issuer : string; uc_Name : string; IssuerAccount : string;
  perm_Pub : Permission; perm_Sub : Permission; Expires : Z }.
Record AccountClaims := {
  ac_Subject : string; ac_Issuer : string; ac_Name : string; SigningKeys : list string;
  ac_Limits : account_claim_limits; Revocations : gmap string Z }.
Record OperatorClaims := {
  oc_Subject : string; oc_Issuer : string; oc_Name : string; SystemAccount : string }.

Definition no_permission : Permission := {| Allow := []; Deny := [] |}.

(** [jwt.NewUserClaims]: a subject and nothing else. *)
Definition NewUserClaims (subject : string) : UserClaims :=
  {| Subject := subject; Issuer := ""; uc_Name := ""; IssuerAccount := "";
     perm_Pub := no_permission; perm_Sub := no_permission; Expires := 0 |}.

Definition issued_user (c : UserClaims) (issuer : string) : UserClaims :=
  {| Subject := Subject c; Issuer := issuer; uc_Name := uc_Name c;
     IssuerAccount := IssuerAccount c; perm_Pub := perm_Pub c; perm_Sub := perm_Sub c;
     Expires := Expires c |}.
Definition issued_account (c : AccountClaims) (issuer : string) : AccountClaims :=
  {| ac_Subject := ac_Subject c; ac_Issuer := issuer; ac_Name := ac_Name c;
     SigningKeys := SigningKeys c; ac_Limits := ac_Limits c; Revocations := Revocations c |}.

Class Jwt (K : Nkeys) := {
  (** [claims.Encode(kp)] at an instant: the issue time is part of a token *)
  encode_user : Time -> UserClaims -> KeyPair -> option string;
  DecodeUserClaims : string -> option UserClaims;
  encode_account : Time -> AccountClaims -> KeyPair -> option string;
  DecodeAccountClaims : string -> option AccountClaims;
  encode_operator : Time -> OperatorClaims -> KeyPair -> option string;
  (** the limits [NewAccountClaims] starts from *)
  default_account_limits : account_claim_limits;
  (** the decorated credentials file *)
  FormatUserConfig : string -> bytes -> option bytes;
  ParseDecoratedJWT : bytes -> option string;
  ParseDecoratedNKey : bytes -> option KeyPair;
}.

Class JwtLaws (K : Nkeys) (J : Jwt K) : Prop := {
  user_roundtrip now c kp pub t :
    encode_user now c kp = Some t -> PublicKey kp = Some pub ->
    DecodeUserClaims t = Some (issued_user c pub);
  (** a token is base64 between dots *)
  user_ascii now c kp t : encode_user now c kp = Some t -> ascii (to_bytes t);
  account_roundtrip now c kp pub t :
    encode_account now c kp = Some t -> PublicKey kp = Some pub ->
    DecodeAccountClaims t = Some (issued_account c pub);
  format_roundtrip t seed f :
    FormatUserConfig t seed = Some f ->
    ParseDecoratedJWT f = Some t /\ ParseDecoratedNKey f = FromSeed seed;
  (** the file is text, whatever the token, when the seed is *)
  format_ascii t seed f : FormatUserConfig t seed = Some f -> ascii seed -> ascii f;
}.

(** ** A concrete pair of libraries

    Keys are their own seeds under a role letter, and a token spells its claims
    out in bits; nothing is hidden, which is what makes it a model of the laws
    and not of the cryptography. *)

Definition toy_key (role : byte) (r : bytes) : option bytes := Some (role :: hex_encode r).
Definition has_role (role : byte) (s : string) : bool :=
  match to_bytes s with c :: _ => bool_decide (c = role) | [] => false end.

Definition ToyNkeys : Nkeys := {|
  KeyPair := bytes;
  CreateUser := toy_key x55; CreateAccount := toy_key x41; CreateOperator := toy_key x4f;
  FromSeed s := match s with _ :: kp => Some kp | [] => None end;
  PublicKey kp := if decide (ascii kp) then Some (of_bytes kp) else None;
  Seed kp := if decide (ascii kp) then Some (x53 :: kp) else None;
  IsValidPublicUserKey := has_role x55;
  IsValidPublicAccountKey := has_role x41 |}.

Lemma ToyNkeysLaws : NkeysLaws ToyNkeys.
Proof.
  assert (Hr : forall c r, byte_val c < 128 -> ascii (c :: hex_encode r))
    by (intros; constructor; [done | apply ascii_hex]).
  split; cbn; unfold toy_key.
  - intros r kp [= <-]. rewrite !decide_True by by apply Hr. do 2 eexists. repeat split; try done.
    repeat (constructor; [done|]). apply ascii_hex.
  - intros r kp [= <-]. rewrite !decide_True by by apply Hr. do 2 eexists. by repeat split.
  - intros r kp [= <-]. rewrite !decide_True by by apply Hr. by do 2 eexists.
  - intros pub. unfold has_role. destruct (to_bytes pub); [done|]. by intros ->%bool_decide_eq_true.
  - intros kp pub. destruct (decide _); [|done]. intros [= <-]. by rewrite to_of_bytes.
  - intros kp seed. destruct (decide _); [|done]. intros [= <-]. by constructor.
  - intros r kp seed [= <-]. rewrite decide_True by by apply Hr. intros [= <-]. apply trim_space_solid.
    + by exists x53, (x41 :: hex_encode r).
    + pose proof (hex_encode_lower r) as Hh. destruct (hex_encode r) as [|c l _] using rev_ind; [by exists x41, [x53]|].
      exists c, (x53 :: x41 :: l). split; [done|]. apply Forall_app in Hh as [_ Hh]. apply Forall_singleton in Hh as (k & Hk & ->).
      assert (forallb (fun k => solid (hex_digit (Z.of_nat k))) (seq 0 16) = true) as Hall by by vm_compute.
      rewrite forallb_forall in Hall. rewrite <- (Z2Nat.id k) by lia. apply Hall, in_seq. lia.
  - by intros pub H ->.
Qed.

(** Text in text: a string in hexadecimal behind a mark, a list of them between
    commas, a list of lists between semicolons. *)
Definition spell_string (s : string) : bytes := x78 :: hex_encode (to_bytes s).
Definition unspell_string (b : bytes) : option string :=
  match b with
  | c :: b' => if bool_decide (c = x78) then of_bytes <$> hex_decode b' else None
  | [] => None
  end.
Definition spell_list (l : list string) : bytes := join_with x2c (map spell_string l).
Definition unspell_list (b : bytes) : option (list string) :=
  match b with [] => Some [] | _ => mapM unspell_string (split_on x2c b) end.
Definition spell_lists (ll : list (list string)) : bytes := join_with x3b (map spell_list ll).
Definition unspell_lists (b : bytes) : option (list (list string)) := mapM unspell_list (split_on x3b b).

Lemma unspell_spell_string s : unspell_string (spell_string s) = Some s.
Proof. cbn. rewrite hex_decode_encode. cbn. by rewrite of_to_bytes. Qed.

(** The characters a spelling is made of. *)
Definition spelled (c : byte) : Prop := byte_val c < 128 /\ c <> x0a.

Lemma spell_string_chars s : Forall (fun c => spelled c /\ c <> x2c /\ c <> x3b) (spell_string s).
Proof.
  constructor; [done|]. apply List.Forall_forall. intros c Hc.
  pose proof (hex_encode_lower (to_bytes s)) as Hl. rewrite List.Forall_forall in Hl.
  destruct (Hl c Hc) as (k & Hk & ->). clear Hc.
  assert (forallb (fun k => let c := hex_digit (Z.of_nat k) in bool_decide (byte_val c < 128)
    && bool_decide (c <> x0a) && bool_decide (c <> x2c) && bool_decide (c <> x3b)) (seq 0 16) = true) as Hall by by vm_compute.
  rewrite forallb_forall in Hall. specialize (Hall (Z.to_nat k)). rewrite Z2Nat.id in Hall by lia.
  assert (Hin : List.In (Z.to_nat k) (seq 0 16)) by (apply in_seq; lia). specialize (Hall Hin).
  cbv zeta in Hall. res_inv. bool_to_prop. by repeat split.
Qed.

Lemma join_chars (P : byte -> Prop) sep ps : P sep -> Forall (Forall P) ps -> Forall P (join_with sep ps).
Proof.
  intros Hs Hps. induction Hps as [|p ps Hp Hps IH]; [constructor|]. destruct ps; [done|].
  cbn [join_with]. apply Forall_app. split; [done | by constructor].
Qed.

Lemma spell_list_chars l : Forall (fun c => spelled c /\ c <> x3b) (spell_list l).
Proof.
  apply join_chars; [done|]. apply Forall_fmap, Forall_forall. intros s _.
  eapply Forall_impl; [apply spell_string_chars|]. naive_solver.
Qed.

Lemma mapM_spell {A B} (f : A -> B) g (l : list A) : (forall x, g (f x) = Some x) -> mapM g (map f l) = Some l.
Proof. intros Hfg. induction l as [|x l IH]; [done|]. cbn. by rewrite Hfg, IH. Qed.

Lemma spell_lists_ascii ll : ascii (spell_lists ll).
Proof.
  apply join_chars; [done|]. apply Forall_fmap, Forall_forall. intros l _.
  eapply Forall_impl; [apply spell_list_chars|]. by intros c [[? _] _].
Qed.

Lemma unspell_spell_list l : unspell_list (spell_list l) = Some l.
Proof.
  destruct l as [|s l]; [done|]. unfold unspell_list, spell_list.
  destruct (join_with x2c (map spell_string (s :: l))) as [|c b] eqn:E.
  { cbn [map join_with] in E. by destruct (map spell_string l). }
  rewrite <- E, split_join; [apply mapM_spell, unspell_spell_string | done |].
  apply Forall_fmap, Forall_forall. intros x _ Hin. pose proof (spell_string_chars x) as Hc.
  rewrite Forall_forall in Hc. by destruct (Hc _ Hin) as (_ & ? & _).
Qed.

Lemma unspell_spell_lists ll : ll <> [] -> unspell_lists (spell_lists ll) = Some ll.
Proof.
  intros Hne. unfold unspell_lists, spell_lists. rewrite split_join.
  - apply mapM_spell, unspell_spell_list.
  - by destruct ll.
  - apply Forall_fmap, Forall_forall. intros x _ Hin. pose proof (spell_list_chars x) as Hc.
    rewrite Forall_forall in Hc. by destruct (Hc _ Hin) as [_ ?].
Qed.

(** A number in bits, the end marked. *)
Fixpoint spell (p : positive) : bytes :=
  match p with
  | xH => []
  | xO p => x30 :: spell p
  | xI p => x31 :: spell p
  end.
Fixpoint unspell (s : bytes) : option positive :=
  match s with
  | [] => Some xH
  | c :: s =>
      if bool_decide (c = x30) then xO <$> unspell s
      else if bool_decide (c = x31) then xI <$> unspell s else None
  end.
Definition spell_Z (z : Z) : string := of_bytes (spell (encode z)).
Definition unspell_Z (s : string) : option Z := unspell (to_bytes s) ≫= decode.
Lemma unspell_spell p : unspell (spell p) = Some p.
Proof. induction p as [p IH|p IH|]; cbn; rewrite ?IH; done. Qed.
Lemma unspell_spell_Z z : unspell_Z (spell_Z z) = Some z.
Proof. unfold unspell_Z, spell_Z. rewrite to_of_bytes, unspell_spell. apply decode_encode. Qed.

Definition spell_user (c : UserClaims) : string := of_bytes (spell_lists
  [[Subject c; Issuer c; uc_Name c; IssuerAccount c; spell_Z (Expires c)];
   Allow (perm_Pub c); Deny (perm_Pub c); Allow (perm_Sub c); Deny (perm_Sub c)]).
Definition unspell_user (t : string) : option UserClaims :=
  ll ← unspell_lists (to_bytes t);
  match ll with
  | [[s; i; n; a; e]; pa; pd; sa; sd] =>
      e ← unspell_Z e;
      Some {| Subject := s; Issuer := i; uc_Name := n; IssuerAccount := a;
              perm_Pub := {| Allow := pa; Deny := pd |}; perm_Sub := {| Allow := sa; Deny := sd |}; Expires := e |}
  | _ => None
  end.
Lemma unspell_spell_user c : unspell_user (spell_user c) = Some c.
Proof.
  unfold unspell_user, spell_user. rewrite to_of_bytes, unspell_spell_lists by done. cbn.
  rewrite unspell_spell_Z. by destruct c as [? ? ? ? [] [] ?].
Qed.

Definition spell_account (c : AccountClaims) : string :=
  let l := ac_Limits c in
  of_bytes (spell_lists
    [[ac_Subject c; ac_Issuer c; ac_Name c]; SigningKeys c;
     map (fun kv => kv.1) (map_to_list (Revocations c)); map (fun kv => spell_Z kv.2) (map_to_list (Revocations c));
     map spell_Z [Conn l; Subs l; Payload l; DiskStorage l; MemoryStorage l; Data l]]).
Definition unspell_account (t : string) : option AccountClaims :=
  ll ← unspell_lists (to_bytes t);
  match ll with
  | [[s; i; n]; ks; rk; rv; ls] =>
      rv ← mapM unspell_Z rv; ls ← mapM unspell_Z ls;
      match ls with
      | [c; u; p; d; m; b] =>
          Some {| ac_Subject := s; ac_Issuer := i; ac_Name := n; SigningKeys := ks;
                  ac_Limits := {| Conn := c; Subs := u; Payload := p; DiskStorage := d;
                                  MemoryStorage := m; Data := b |};
                  Revocations := list_to_map (zip rk rv) |}
      | _ => None
      end
  | _ => None
  end.
Lemma mapM_spell_Z {A} (f : A -> Z) (l : list A) : mapM unspell_Z (map (fun x => spell_Z (f x)) l) = Some (map f l).
Proof. induction l as [|x l IH]; [done|]. cbn. by rewrite unspell_spell_Z, IH. Qed.
Lemma unspell_spell_account c : unspell_account (spell_account c) = Some c.
Proof.
  unfold unspell_account, spell_account. rewrite to_of_bytes, unspell_spell_lists by done.
  cbn [mbind option_bind]. rewrite !mapM_spell_Z. cbn [mbind option_bind map].
  rewrite zip_fst_snd, list_to_map_to_list. by destruct c as [? ? ? ? [] ?].
Qed.

Definition ToyJwt : Jwt ToyNkeys := {|
  encode_user now c (kp : @KeyPair ToyNkeys) :=
    Some (spell_user (issued_user c (of_bytes kp)));
  DecodeUserClaims := unspell_user;
  encode_account now c (kp : @KeyPair ToyNkeys) :=
    Some (spell_account (issued_account c (of_bytes kp)));
  DecodeAccountClaims := unspell_account;
  encode_operator now c kp := Some (oc_Subject c);
  default_account_limits :=
    {| Conn := -1; Subs := -1; Payload := -1; DiskStorage := 0; MemoryStorage := 0; Data := -1 |};
  FormatUserConfig t seed := Some (spell_string t ++ x0a :: seed);
  ParseDecoratedJWT f := '(a, _) ← cut_at x0a f; unspell_string a;
  ParseDecoratedNKey f := '(_, s) ← cut_at x0a f; @FromSeed ToyNkeys s |}.

Lemma toy_format t seed f :
  f = spell_string t ++ x0a :: seed ->
  @ParseDecoratedJWT ToyNkeys ToyJwt f = Some t /\ @ParseDecoratedNKey ToyNkeys ToyJwt f = @FromSeed ToyNkeys seed.
Proof.
  intros ->. pose proof (spell_string_chars t) as Hc. rewrite Forall_forall in Hc.
  assert (E : cut_at x0a (spell_string t ++ x0a :: seed) = Some (spell_string t, seed)).
  { apply cut_at_spec. split; [done|]. intros Hin. by destruct (Hc _ Hin) as [[_ ?] _]. }
  split; cbn [ParseDecoratedJWT ParseDecoratedNKey ToyJwt]; rewrite E; [|done].
  exact (unspell_spell_string t).
Qed.

Lemma ToyJwtLaws : JwtLaws ToyNkeys ToyJwt.
Proof.
  split.
  - intros now c kp pub t [= <-]. cbn. destruct (decide _); [|done]. intros [= <-]. by rewrite unspell_spell_user.
  - intros now c kp t [= <-]. unfold spell_user. rewrite to_of_bytes. apply spell_lists_ascii.
  - intros now c kp pub t [= <-]. cbn. destruct (decide _); [|done]. intros [= <-]. by rewrite unspell_spell_account.
  - intros t seed f [= <-]. by apply toy_format.
  - intros t seed f Hf Hs. assert (f = spell_string t ++ x0a :: seed) as -> by (cbn in Hf |- *; congruence).
    apply ascii_app; [|by constructor].
    eapply Forall_impl; [apply spell_string_chars|]. by intros c [[? _] _].
Qed.
