(* ===== verification/Mint.v ===== *)
(** * Minting

    Models [internal/natsauth/mint.go]: the minter the generator and the running
    server both mint through, the credentials file, and the check of a service's
    credential against the slot it was configured for. *)
From S2P Require Import Prelude GoBytes GoTime GoText Vocabulary Subjects Limits Nats.

(** [AgentKey] and [Identity] ([generate.go]). *)
Record AgentKey := { ak_ID : string; ak_PublicKey : string }.
Record Identity := {
  id_Name : string; id_PublicKey : string; id_Seed : bytes; id_JWT : string;
  id_Pub : list string; id_Sub : list string }.

(** The errors of the file and of the calls it makes; each message is one
    constructor. *)
Inductive mint_err :=
  | NotAnAccountKey            (** [%q is not an account public key] *)
  | SigningSeedUnreadable      (** [account signing seed] *)
  | SigningKeyUnreadable       (** [account signing key] *)
  | SeedNotAccount             (** [the signing seed is not an account key] *)
  | AccountsOwnSeed            (** [the account's own seed is not a signing key] *)
  | ErrIdentifier
  | TokenIdentifier            (** [enrollment token: ErrIdentifier] *)
  | MustExpire
  | ErrAgentPublicKey
  | KeyFault                   (** an error of [nkeys] *)
  | EncodeFault                (** an error of [claims.Encode] *)
  | NoSeed
  | FormatFault                (** an error of [jwt.FormatUserConfig] *)
  | ErrWrongRole.

#[export] Instance mint_err_eq_dec : EqDecision mint_err.
Proof. solve_decision. Defined.

Definition validate_identifier (id : string) (e : mint_err) : result mint_err unit :=
  ensure (ValidateAgentIdentifier id) e.

Section Minting.
Context {K : Nkeys} {J : Jwt K}.

Record Minter := { account : string; signing : KeyPair }.

Definition NewMinter (accountPublicKey : string) (signingSeed : bytes) : result mint_err Minter :=
  _ ← ensure (IsValidPublicAccountKey accountPublicKey) NotAnAccountKey;
  kp ← of_option (FromSeed signingSeed) SigningSeedUnreadable;
  pub ← of_option (PublicKey kp) SigningKeyUnreadable;
  _ ← ensure (IsValidPublicAccountKey pub) SeedNotAccount;
  _ ← ensure (negb (bool_decide (pub = accountPublicKey))) AccountsOwnSeed;
  mret {| account := accountPublicKey; signing := kp |}.

(** An error of [PublicKey] is dropped and the empty string returned. *)
Definition Minter_SigningKey (m : Minter) : string := default ""%string (PublicKey (signing m)).
Definition Minter_Account (m : Minter) : string := account m.

Definition applyPermissions (c : UserClaims) (g : grants) : UserClaims :=
  {| Subject := Subject c; Issuer := Issuer c; uc_Name := uc_Name c;
     IssuerAccount := IssuerAccount c;
     perm_Pub := permissionFor (g_pub g); perm_Sub := permissionFor (g_sub g);
     Expires := Expires c |}.

(** A claim for [subject] with its name and account set. *)
Definition named_claims (subject name acct : string) : UserClaims :=
  let c := NewUserClaims subject in
  {| Subject := Subject c; Issuer := Issuer c; uc_Name := name; IssuerAccount := acct;
     perm_Pub := perm_Pub c; perm_Sub := perm_Sub c; Expires := Expires c |}.
Definition with_expiry (c : UserClaims) (e : Z) : UserClaims :=
  {| Subject := Subject c; Issuer := Issuer c; uc_Name := uc_Name c;
     IssuerAccount := IssuerAccount c; perm_Pub := perm_Pub c; perm_Sub := perm_Sub c;
     Expires := e |}.

(** [now] is the instant [Encode] stamps, [rnd] what [CreateUser] draws. *)
Definition newUser (now : Time) (rnd : bytes) (name : string) (g : grants) (m : Minter)
    (expires : Time) : result mint_err Identity :=
  kp ← of_option (CreateUser rnd) KeyFault;
  pub ← of_option (PublicKey kp) KeyFault;
  seed ← of_option (Seed kp) KeyFault;
  let claims := applyPermissions (named_claims pub name (account m)) g in
  let claims := if negb (IsZero expires) then with_expiry claims (Unix_of expires) else claims in
  encoded ← of_option (encode_user now claims (signing m)) EncodeFault;
  mret {| id_Name := name; id_PublicKey := pub; id_Seed := seed; id_JWT := encoded;
          id_Pub := g_pub g; id_Sub := g_sub g |}.

Definition Bootstrap (now : Time) (rnd : bytes) (m : Minter) (token : string) (expires : Time)
    : result mint_err Identity :=
  _ ← validate_identifier token TokenIdentifier;
  _ ← ensure (negb (IsZero expires)) MustExpire;
  newUser now rnd token (bootstrapGrants token) m expires.

Definition Agent (now : Time) (m : Minter) (agent : AgentKey) : result mint_err Identity :=
  _ ← validate_identifier (ak_ID agent) ErrIdentifier;
  _ ← ensure (IsValidPublicUserKey (ak_PublicKey agent)) ErrAgentPublicKey;
  let g := agentGrants (ak_ID agent) in
  let claims := applyPermissions (named_claims (ak_PublicKey agent) (ak_ID agent) (account m)) g in
  encoded ← of_option (encode_user now claims (signing m)) EncodeFault;
  mret {| id_Name := ak_ID agent; id_PublicKey := ak_PublicKey agent; id_Seed := [];
          id_JWT := encoded; id_Pub := g_pub g; id_Sub := g_sub g |}.

Definition Credentials (i : Identity) : result mint_err bytes :=
  _ ← ensure (negb (zlen (id_Seed i) =? 0)) NoSeed;
  of_option (FormatUserConfig (id_JWT i) (id_Seed i)) FormatFault.

(** ** Reading a service's credential *)

Record ServiceCredential := {
  sc_Principal : string; sc_Account : string; sc_Issuer : string;
  sc_PublicKey : string; sc_File : bytes }.

(** [slices.Sort] then [slices.Equal]. *)
Definition sameSet (a b : list string) : bool :=
  bool_decide (merge_sort String.le a = merge_sort String.le b).
Definition samePermission (got want : Permission) : bool :=
  sameSet (Allow got) (Allow want) && sameSet (Deny got) (Deny want).

Definition ReadServiceCredential (p : string) (file : bytes) : result mint_err ServiceCredential :=
  token ← of_option (ParseDecoratedJWT file) ErrWrongRole;
  claims ← of_option (DecodeUserClaims token) ErrWrongRole;
  kp ← of_option (ParseDecoratedNKey file) ErrWrongRole;
  pub ← of_option (PublicKey kp) ErrWrongRole;
  _ ← ensure (bool_decide (pub = Subject claims)) ErrWrongRole;
  let want := serviceGrants p in
  _ ← ensure (negb (negb (bool_decide (uc_Name claims = p))
                    || bool_decide (IssuerAccount claims = ""%string)
                    || negb (samePermission (perm_Pub claims) (permissionFor (g_pub want)))
                    || negb (samePermission (perm_Sub claims) (permissionFor (g_sub want)))))
             ErrWrongRole;
  mret {| sc_Principal := p; sc_Account := IssuerAccount claims; sc_Issuer := Issuer claims;
          sc_PublicKey := pub; sc_File := file |}.

(** ** Multisets *)

Lemma sameSet_iff a b : sameSet a b = true <-> a ≡ₚ b.
Proof.
  unfold sameSet. rewrite bool_decide_eq_true. split.
  - intros E. rewrite <- (merge_sort_Permutation String.le a), E. apply merge_sort_Permutation.
  - intros Hp. apply (StronglySorted_unique String.le).
    + apply StronglySorted_merge_sort; apply _.
    + apply StronglySorted_merge_sort; apply _.
    + by rewrite !merge_sort_Permutation.
Qed.

Lemma samePermission_refl p : samePermission p p = true.
Proof. unfold samePermission. by rewrite !(proj2 (sameSet_iff _ _)). Qed.

(** ** What a minter issues *)

Context {KL : NkeysLaws K} {JL : JwtLaws K J}.

Lemma NewMinter_iff acc seed m :
    NewMinter acc seed = Ok m <->
    IsValidPublicAccountKey acc = true /\ account m = acc
    /\ FromSeed seed = Some (signing m)
    /\ exists pub, PublicKey (signing m) = Some pub
       /\ IsValidPublicAccountKey pub = true /\ pub <> acc.
Proof.
    unfold NewMinter. split.
    - intros H. res_inv. bool_to_prop. eauto 8.
    - destruct m as [a kp]. cbn. intros (Ha & <- & -> & pub & Hp & Hv & Hne).
      cbn. rewrite Ha. cbn. rewrite Hp. cbn. rewrite Hv. cbn. by rewrite bool_decide_eq_false_2.
Qed.

(** A minter is made exactly from an account's public key and the seed of a
    different account key: never from the account's own seed, which would also
    sign, and never from a user's. *)
Theorem NewMinter_signing_seed_only acc seed :
    (forall m, NewMinter acc seed = Ok m <->
       IsValidPublicAccountKey acc = true /\ account m = acc
       /\ FromSeed seed = Some (signing m)
       /\ exists pub, PublicKey (signing m) = Some pub
          /\ IsValidPublicAccountKey pub = true /\ pub <> acc)
    /\ (forall r kp, CreateAccount r = Some kp -> PublicKey kp = Some acc -> Seed kp = Some seed ->
          NewMinter acc seed = Err AccountsOwnSeed)
    /\ (forall r kp, CreateUser r = Some kp -> Seed kp = Some seed ->
          IsValidPublicAccountKey acc = true -> NewMinter acc seed = Err SeedNotAccount).
Proof.
    split; [|split].
    - intros m. apply NewMinter_iff.
    - intros r kp (pub & sd & Hp & Hs & _ & Hv & Hf)%created_account Hp' Hs'. simplify_eq.
      unfold NewMinter. rewrite Hv. cbn. rewrite Hf. cbn. rewrite Hp. cbn. rewrite Hv. cbn.
      by rewrite bool_decide_eq_true_2.
    - intros r kp (pub & sd & Hp & Hs & _ & _ & Hv & Hf)%created_user Hs' Ha. simplify_eq.
      unfold NewMinter. rewrite Ha. cbn. rewrite Hf. cbn. rewrite Hp. cbn. by rewrite roles_disjoint.
Qed.

(** The identity's token says it is [p], of the minter's account, issued by
    [iss] and expiring at [exp]. *)
Definition issued_as (m : Minter) (iss : string) (i : Identity) (p : principal) (exp : Z) : Prop :=
    DecodeUserClaims (id_JWT i) =
      Some {| Subject := id_PublicKey i; Issuer := iss; uc_Name := id_Name i;
              IssuerAccount := account m;
              perm_Pub := permissionFor (granted p Publish);
              perm_Sub := permissionFor (granted p Subscribe); Expires := exp |}
    /\ id_Pub i = granted p Publish /\ id_Sub i = granted p Subscribe.

Lemma newUser_issued now rnd name p m expires i iss :
    newUser now rnd name (principal_grants p) m expires = Ok i ->
    PublicKey (signing m) = Some iss ->
    issued_as m iss i p (if IsZero expires then 0 else Unix_of expires)
    /\ id_Name i = name
    /\ exists kp, CreateUser rnd = Some kp /\ PublicKey kp = Some (id_PublicKey i)
       /\ Seed kp = Some (id_Seed i).
Proof.
    unfold newUser. intros H Hiss. res_inv. cbn. split; [|by eauto].
    unfold issued_as. cbn. split; [|by destruct p].
    match goal with H : encode_user _ _ _ = Some _ |- _ => rewrite (user_roundtrip _ _ _ _ _ H Hiss) end.
    destruct (IsZero expires), p; reflexivity.
Qed.

Lemma Agent_issued now m k i iss :
    Agent now m k = Ok i -> PublicKey (signing m) = Some iss ->
    issued_as m iss i (PAgent (ak_ID k)) 0
    /\ id_Name i = ak_ID k /\ id_PublicKey i = ak_PublicKey k /\ id_Seed i = []
    /\ issuable (PAgent (ak_ID k)) = true /\ IsValidPublicUserKey (ak_PublicKey k) = true.
Proof.
    unfold Agent, validate_identifier. intros H Hiss. res_inv. cbn.
    unfold issued_as. cbn.
    match goal with H : encode_user _ _ _ = Some _ |- _ => rewrite (user_roundtrip _ _ _ _ _ H Hiss) end.
    eauto 8.
Qed.

Lemma Bootstrap_issued now rnd m token expires i iss :
    Bootstrap now rnd m token expires = Ok i -> PublicKey (signing m) = Some iss ->
    issued_as m iss i (PBootstrap token) (Unix_of expires) /\ id_Name i = token
    /\ id_Seed i <> [] /\ IsValidPublicUserKey (id_PublicKey i) = true
    /\ expires <> t_zero /\ issuable (PBootstrap token) = true.
Proof.
    intros H Hiss. unfold Bootstrap, validate_identifier in H. res_inv.
    match goal with H : IsZero expires = false |- _ => rename H into Hz end.
    match goal with H : newUser _ _ _ _ _ _ = _ |- _ =>
      destruct (newUser_issued now rnd token (PBootstrap token) m expires i iss H Hiss)
        as (Hi & Hn & kp & (pub & seed & Hp & Hs & Hne & _ & Hv & _)%created_user & Hp' & Hs') end.
    rewrite Hz in Hi. simplify_eq. repeat split; try done; try apply Hi.
    unfold IsZero in Hz. by apply Z.eqb_neq in Hz.
Qed.

(** C29. What a minter issues: an agent's identity names the agent's own public
    key, carries no seed and never expires; a bootstrap identity has a fresh
    key pair of its own and expires at the instant asked for, which is never
    left out.  Both are issued by the signing key for the minter's account,
    with exactly the permissions of that agent or token, and only for an
    identifier the grammar allows and no service holds. *)
Theorem minted_identities now rnd m iss :
    PublicKey (signing m) = Some iss ->
    (forall k i, Agent now m k = Ok i ->
       issued_as m iss i (PAgent (ak_ID k)) 0
       /\ id_Name i = ak_ID k /\ id_PublicKey i = ak_PublicKey k /\ id_Seed i = []
       /\ issuable (PAgent (ak_ID k)) = true)
    /\ (forall k, Agent now m k = Err ErrIdentifier <-> issuable (PAgent (ak_ID k)) = false)
    /\ (forall token expires i, Bootstrap now rnd m token expires = Ok i ->
       issued_as m iss i (PBootstrap token) (Unix_of expires) /\ id_Name i = token
       /\ id_Seed i <> [] /\ IsValidPublicUserKey (id_PublicKey i) = true
       /\ expires <> t_zero /\ issuable (PBootstrap token) = true).
Proof.
    intros Hiss. split; [|split].
    - intros k i H. pose proof (Agent_issued _ _ _ _ _ H Hiss). tauto.
    - intros k. cbn [issuable]. unfold Agent, validate_identifier. destruct (ValidateAgentIdentifier _).
      + split; [|done]. cbn. destruct (IsValidPublicUserKey _); [|done]. cbn.
        by destruct (encode_user _ _ _).
      + done.
    - intros token expires i H. by apply (Bootstrap_issued now rnd).
Qed.

(** ** What a service's slot accepts *)

Lemma ReadServiceCredential_inv p f c :
    ReadServiceCredential p f = Ok c ->
    exists token claims kp,
      ParseDecoratedJWT f = Some token /\ DecodeUserClaims token = Some claims
      /\ ParseDecoratedNKey f = Some kp /\ PublicKey kp = Some (Subject claims)
      /\ uc_Name claims = p /\ IssuerAccount claims <> ""%string
      /\ Allow (perm_Pub claims) ≡ₚ Allow (permissionFor (g_pub (serviceGrants p)))
      /\ Deny (perm_Pub claims) ≡ₚ Deny (permissionFor (g_pub (serviceGrants p)))
      /\ Allow (perm_Sub claims) ≡ₚ Allow (permissionFor (g_sub (serviceGrants p)))
      /\ Deny (perm_Sub claims) ≡ₚ Deny (permissionFor (g_sub (serviceGrants p)))
      /\ c = {| sc_Principal := p; sc_Account := IssuerAccount claims; sc_Issuer := Issuer claims;
                sc_PublicKey := Subject claims; sc_File := f |}.
Proof.
    unfold ReadServiceCredential, samePermission. intros H. res_inv. bool_to_prop.
    repeat match goal with H : sameSet _ _ = true |- _ => apply sameSet_iff in H end.
    subst. do 3 eexists. eauto 15.
Qed.

Lemma ReadServiceCredential_err p f e :
    ReadServiceCredential p f = Err e -> e = ErrWrongRole.
Proof.
    unfold ReadServiceCredential. intros H.
    repeat (apply bind_err_inv in H as [H|(? & _ & H)]; [by res_inv|]). by res_inv.
Qed.

Lemma Credentials_read i f :
    Credentials i = Ok f ->
    id_Seed i <> [] /\ ParseDecoratedJWT f = Some (id_JWT i)
    /\ ParseDecoratedNKey f = FromSeed (id_Seed i).
Proof.
    unfold Credentials. intros H. res_inv. bool_to_prop.
    match goal with H : FormatUserConfig _ _ = Some _ |- _ => apply format_roundtrip in H as [? ?] end.
    split; [|done]. by intros E; rewrite E in *.
Qed.

Lemma issued_credential_read now rnd p m i iss f q :
    PublicKey (signing m) = Some iss -> account m <> ""%string ->
    newUser now rnd p (serviceGrants p) m t_zero = Ok i -> Credentials i = Ok f ->
    ReadServiceCredential q f =
      if bool_decide (q = p) then
        Ok {| sc_Principal := p; sc_Account := account m; sc_Issuer := iss;
              sc_PublicKey := id_PublicKey i; sc_File := f |}
      else Err ErrWrongRole.
Proof.
    intros Hiss Hacc Hnew (_ & Hjwt & Hkey)%Credentials_read.
    destruct (newUser_issued now rnd p (PService p) m t_zero i iss Hnew Hiss)
      as ((Hdec & _) & Hname & kp & (pub & seed & Hp & Hs & _ & _ & _ & Hf)%created_user & Hp' & Hs').
    simplify_eq. unfold ReadServiceCredential. rewrite Hjwt. cbn. rewrite Hdec. cbn.
    rewrite Hkey, Hf. cbn. rewrite Hp. cbn. rewrite (bool_decide_eq_true_2 (id_PublicKey i = id_PublicKey i)) by done. cbn.
    destruct (decide (q = id_Name i)) as [->|Hne].
    - by rewrite !(bool_decide_eq_true_2 (id_Name i = id_Name i)), (bool_decide_eq_false_2 (account m = _)),
        !samePermission_refl.
    - by rewrite (bool_decide_eq_false_2 (id_Name i = q)), (bool_decide_eq_false_2 (q = _)) by congruence.
Qed.

(** C30. A service's slot accepts exactly its own credential.  Whatever file is
    accepted holds a token naming that service, with that service's grants in
    both directions up to order, of some account, and the seed of the key the
    token names; every refusal is [ErrWrongRole].  The file issued to a service
    is accepted in its own slot and refused in every other. *)
Theorem ReadServiceCredential_role p f :
    (forall c, ReadServiceCredential p f = Ok c ->
       exists token claims kp,
         ParseDecoratedJWT f = Some token /\ DecodeUserClaims token = Some claims
         /\ ParseDecoratedNKey f = Some kp /\ PublicKey kp = Some (Subject claims)
         /\ uc_Name claims = p /\ IssuerAccount claims <> ""%string
         /\ Allow (perm_Pub claims) ≡ₚ Allow (permissionFor (g_pub (serviceGrants p)))
         /\ Deny (perm_Pub claims) ≡ₚ Deny (permissionFor (g_pub (serviceGrants p)))
         /\ Allow (perm_Sub claims) ≡ₚ Allow (permissionFor (g_sub (serviceGrants p)))
         /\ Deny (perm_Sub claims) ≡ₚ Deny (permissionFor (g_sub (serviceGrants p)))
         /\ c = {| sc_Principal := p; sc_Account := IssuerAccount claims; sc_Issuer := Issuer claims;
                   sc_PublicKey := Subject claims; sc_File := f |})
    /\ (forall e, ReadServiceCredential p f = Err e -> e = ErrWrongRole)
    /\ (forall now rnd m acc seed iss i q,
          NewMinter acc seed = Ok m -> PublicKey (signing m) = Some iss ->
          newUser now rnd p (serviceGrants p) m t_zero = Ok i -> Credentials i = Ok f ->
          ReadServiceCredential q f =
            if bool_decide (q = p) then
              Ok {| sc_Principal := p; sc_Account := acc; sc_Issuer := iss;
                    sc_PublicKey := id_PublicKey i; sc_File := f |}
            else Err ErrWrongRole).
Proof.
    split; [|split].
    - intros c H. by apply ReadServiceCredential_inv.
    - intros e. apply ReadServiceCredential_err.
    - intros now rnd m acc seed iss i q (Ha & <- & _)%NewMinter_iff Hiss Hnew Hcred.
      eapply issued_credential_read; eauto. by apply account_key_nonempty.
Qed.
End Minting.

(** ** Witnesses *)

Definition sample_account : string := "A61".
Definition sample_seed : bytes := to_bytes "SA-signing".
Definition sample_minter : @Minter ToyNkeys :=
  {| account := sample_account; signing := (to_bytes "A-signing" : @KeyPair ToyNkeys) |}.

Lemma NewMinter_witness :
  @NewMinter ToyNkeys sample_account sample_seed = Ok sample_minter
  /\ @NewMinter ToyNkeys sample_account (to_bytes "SA61") = Err AccountsOwnSeed.
Proof.
  split.
  - apply (NewMinter_signing_seed_only (KL := ToyNkeysLaws)).
    repeat split; try reflexivity. eexists. by repeat split.
  - eapply (NewMinter_signing_seed_only (KL := ToyNkeysLaws) sample_account (to_bytes "SA61"))
      with (r := [x61]); reflexivity.
Defined.

Lemma minted_identities_witness :
  @Agent ToyNkeys ToyJwt 0 sample_minter {| ak_ID := "command-publisher"; ak_PublicKey := "U1" |}
    = Err ErrIdentifier.
Proof.
  apply (minted_identities (KL := ToyNkeysLaws) (JL := ToyJwtLaws) 0 [] sample_minter "A-signing");
    reflexivity.
Defined.

Definition sample_identity : Identity :=
  match @newUser ToyNkeys ToyJwt 0 [x31] PresenceConsumer
          (serviceGrants PresenceConsumer) sample_minter t_zero with
  | Ok i => i
  | Err _ => {| id_Name := ""; id_PublicKey := ""; id_Seed := []; id_JWT := "";
                id_Pub := []; id_Sub := [] |}
  end.
Definition sample_file : bytes :=
  match @Credentials ToyNkeys ToyJwt sample_identity with Ok f => f | Err _ => [] end.

Lemma ReadServiceCredential_role_witness :
  @ReadServiceCredential ToyNkeys ToyJwt EnrollmentService sample_file = Err ErrWrongRole.
Proof.
  eapply (ReadServiceCredential_role (KL := ToyNkeysLaws) (JL := ToyJwtLaws) PresenceConsumer)
    with (q := EnrollmentService) (m := sample_minter) (seed := sample_seed) (now := 0) (rnd := [x31])
         (acc := sample_account) (iss := "A-signing"%string) (i := sample_identity).
  - apply NewMinter_iff. repeat split; try reflexivity. eexists. by repeat split.
  - reflexivity.
  - vm_cast_no_check (@eq_refl (result mint_err Identity) (Ok sample_identity)).
  - vm_cast_no_check (@eq_refl (result mint_err bytes) (Ok sample_file)).
Defined.
