(* ===== verification/Wire.v ===== *)
(** * The enrollment plane on the wire

    Models [internal/enrollment/wire.go] and the encoding of [keys.go]: the
    request and reply payloads in JSON, sealing an envelope of a class without
    a recipient, opening and verifying one, and the strict decoder. *)
From S2P Require Import Prelude GoBytes GoTime GoText Vocabulary Primitives Toy Framing Keys Envelope Signature Json.

Definition KindCredential : string := "credential".
Definition KindConfirmation : string := "confirmation".
Definition KindDenied : string := "denied".
Definition StateActive : string := "active".
Definition StateSpent : string := "spent".
Definition MaxEnvelope : Z := Z.shiftl 16 10.
Definition PresenceStaleness : Duration := 2 * Minute.

Record Request := {
  rq_NATSPublicKey : string; rq_SigningPublicKey : string;
  rq_EncryptionPublicKey : string; rq_Kind : string }.
Record Reply := {
  rp_Kind : string; rp_AgentID : string; rp_PermanentJWT : string;
  rp_Identity : string; rp_Token : string }.
#[export] Instance Reply_eq_dec : EqDecision Reply.
Proof. solve_decision. Defined.

Definition zero_Request : Request :=
  {| rq_NATSPublicKey := ""; rq_SigningPublicKey := ""; rq_EncryptionPublicKey := ""; rq_Kind := "" |}.
Definition zero_Reply : Reply :=
  {| rp_Kind := ""; rp_AgentID := ""; rp_PermanentJWT := ""; rp_Identity := ""; rp_Token := "" |}.

Definition request_fields : struct_fields Request :=
  [("nats_public_key"%string, set_string (fun s r =>
      {| rq_NATSPublicKey := s; rq_SigningPublicKey := rq_SigningPublicKey r;
         rq_EncryptionPublicKey := rq_EncryptionPublicKey r; rq_Kind := rq_Kind r |}));
   ("signing_public_key"%string, set_string (fun s r =>
      {| rq_NATSPublicKey := rq_NATSPublicKey r; rq_SigningPublicKey := s;
         rq_EncryptionPublicKey := rq_EncryptionPublicKey r; rq_Kind := rq_Kind r |}));
   ("encryption_public_key"%string, set_string (fun s r =>
      {| rq_NATSPublicKey := rq_NATSPublicKey r; rq_SigningPublicKey := rq_SigningPublicKey r;
         rq_EncryptionPublicKey := s; rq_Kind := rq_Kind r |}));
   ("kind"%string, set_string (fun s r =>
      {| rq_NATSPublicKey := rq_NATSPublicKey r; rq_SigningPublicKey := rq_SigningPublicKey r;
         rq_EncryptionPublicKey := rq_EncryptionPublicKey r; rq_Kind := s |}))].

Definition json_of_request (r : Request) : json :=
  JObj (member "nats_public_key" (jstring (rq_NATSPublicKey r))
        ++ member "signing_public_key" (jstring (rq_SigningPublicKey r))
        ++ member "encryption_public_key" (jstring (rq_EncryptionPublicKey r))
        ++ member "kind" (jstring (rq_Kind r)) ++ []).

Definition with_kind s r := {| rp_Kind := s; rp_AgentID := rp_AgentID r;
  rp_PermanentJWT := rp_PermanentJWT r; rp_Identity := rp_Identity r; rp_Token := rp_Token r |}.
Definition with_agent s r := {| rp_Kind := rp_Kind r; rp_AgentID := s;
  rp_PermanentJWT := rp_PermanentJWT r; rp_Identity := rp_Identity r; rp_Token := rp_Token r |}.
Definition with_jwt s r := {| rp_Kind := rp_Kind r; rp_AgentID := rp_AgentID r;
  rp_PermanentJWT := s; rp_Identity := rp_Identity r; rp_Token := rp_Token r |}.
Definition with_identity s r := {| rp_Kind := rp_Kind r; rp_AgentID := rp_AgentID r;
  rp_PermanentJWT := rp_PermanentJWT r; rp_Identity := s; rp_Token := rp_Token r |}.
Definition with_token s r := {| rp_Kind := rp_Kind r; rp_AgentID := rp_AgentID r;
  rp_PermanentJWT := rp_PermanentJWT r; rp_Identity := rp_Identity r; rp_Token := s |}.

Definition reply_fields : struct_fields Reply :=
  [("kind"%string, set_string with_kind); ("agent_id"%string, set_string with_agent);
   ("permanent_jwt"%string, set_string with_jwt);
   ("identity_state"%string, set_string with_identity);
   ("token_state"%string, set_string with_token)].

Definition json_of_reply (r : Reply) : json :=
  JObj (member "kind" (jstring (rp_Kind r)) ++ member "agent_id" (jstring (rp_AgentID r))
        ++ member_omitempty "permanent_jwt" (rp_PermanentJWT r)
        ++ member_omitempty "identity_state" (rp_Identity r)
        ++ member_omitempty "token_state" (rp_Token r) ++ []).

Definition RequestSubject (token : string) : string := "ks.enroll." +:+ token +:+ ".request".
Definition ReplySubject (token : string) : string := "ks.enroll." +:+ token +:+ ".reply".
Definition PresenceSubject (agent : string) : string := "ks.out." +:+ agent +:+ ".presence".
Definition RequestSubjects : string := "ks.enroll.*.request".
Definition PresenceSubjects : string := "ks.out.*.presence".

Definition EncodeKey (b : bytes) : string := b64_encode_string b.
Definition DecodeKey (s : string) : option bytes := b64_decode_string s.

(** [strictJSON]: [None] is its error, of decoding or of trailing data. *)
Definition strictJSON {T} (fs : struct_fields T) (zero : T) (b : bytes) : option T :=
  '(v, rest) ← json_Decode b;
  t ← decode_struct true fs v zero;
  if json_More rest then None else Some t.

(** The errors of [Seal]; [ErrEnvelope] is the one of opening and verifying. *)
Inductive seal_err := NonceFault | SignFault (e : protocol_error) | DoesNotFrame.
Inductive envelope_err := ErrEnvelope.

Section Sealing.
Context `{SS : SignatureScheme}.

(** [read] is the random source the nonce comes from, [r] the signature's. *)
Definition Seal (read : Z -> option bytes) (r : entropy) (k : SigningKey)
    (class sender correlation : string) (payload : bytes) (now : Time) : result seal_err bytes :=
  nonce ← of_option (NewNonce read) NonceFault;
  e ← map_err SignFault (SignEnvelope r k
        {| Version_ := Version; Class := class; JobID := ""; CorrelationID := correlation;
           Sender := sender; Timestamp := now; Nonce := nonce; Payload := payload;
           Envelope.Signature := [] |});
  of_option (Encode e) DoesNotFrame.

Definition OpenEnvelope (b : bytes) (class sender : string) : result envelope_err Envelope :=
  e ← or_err (Decode b MaxEnvelope) ErrEnvelope;
  _ ← ensure (negb (negb (bool_decide (Class e = class)) || negb (bool_decide (Sender e = sender))))
        ErrEnvelope;
  Ok e.

Definition Verify (v : VerifyingKey) (e : Envelope) : result envelope_err unit :=
  input ← of_option (Envelope_SignedInput e) ErrEnvelope;
  or_err (Signature.Verify v input (Envelope.Signature e)) ErrEnvelope.

(** ** What is sealed opens *)

Context {SL : SignatureLaws SS}.

(** The envelope a receiver decodes: the sender's, at the wire's resolution. *)
Definition sealed (class sender correlation : string) (payload nonce sig : bytes) (now : Time)
    : Envelope :=
    {| Version_ := Version; Class := class; JobID := ""; CorrelationID := correlation;
       Sender := sender; Timestamp := time_UnixMilli (UnixMilli_of now); Nonce := nonce;
       Payload := payload; Envelope.Signature := sig |}.

Lemma Seal_inv read r k class sender corr payload now b :
    Seal read r k class sender corr payload now = Ok b ->
    exists nonce sig, read NonceBytes = Some nonce /\ zlen sig = SignatureBytes
      /\ Known class = true
      /\ Encode (sealed class sender corr payload nonce sig now) = Some b
      /\ Verify (Verifying k) (sealed class sender corr payload nonce sig now) = Ok tt.
Proof.
    unfold Seal. intros H. res_inv. rename x into nonce, x0 into e.
    match goal with H : map_err _ ?m = Ok _ |- _ =>
      destruct m as [e'|] eqn:Hs; cbn in H; [injection H as ->|discriminate] end.
    apply SignEnvelope_ok in Hs as (sig & -> & Hz & Hv); [|done].
    assert (Hf : fieldValues (with_signature sig {| Version_ := Version; Class := class; JobID := "";
       CorrelationID := corr; Sender := sender; Timestamp := now; Nonce := nonce; Payload := payload;
       Envelope.Signature := [] |}) = fieldValues (sealed class sender corr payload nonce sig now)).
    { unfold fieldValues. cbn. by rewrite UnixMilli_again. }
    exists nonce, sig. split; [done|]. split; [done|].
    unfold VerifyEnvelope in Hv. cbn [with_signature Class] in Hv.
    destruct (Known class); [|done]. split; [done|]. unfold Verify, Encode, Envelope_SignedInput in *.
    rewrite <- Hf. split; [done|]. revert Hv.
    generalize (SignedInput (fieldValues (with_signature sig {| Version_ := Version; Class := class; JobID := "";
       CorrelationID := corr; Sender := sender; Timestamp := now; Nonce := nonce; Payload := payload;
       Envelope.Signature := [] |}))).
    intros [input|]; [|done]. cbn. by intros ->.
Qed.

Lemma envelope_opens read r k class sender corr payload now b :
    Seal read r k class sender corr payload now = Ok b ->
    (forall x, read NonceBytes = Some x -> zlen x = NonceBytes) ->
    Encrypted class = false -> id_ok corr -> ValidIdentifier sender = true ->
    zlen b <= MaxEnvelope ->
    exists e, OpenEnvelope b class sender = Ok e /\ Verify (Verifying k) e = Ok tt
      /\ Payload e = payload /\ CorrelationID e = corr
      /\ Timestamp e = time_UnixMilli (UnixMilli_of now)
      /\ forall class' sender', (class', sender') <> (class, sender) ->
           OpenEnvelope b class' sender' = Err ErrEnvelope.
Proof.
    intros (nonce & sig & Hn & Hz & HK & He & Hv)%Seal_inv Hread Henc Hcorr Hsender Hb.
    set (e := sealed class sender corr payload nonce sig now) in *.
    assert (Hd : Decode b MaxEnvelope = Ok e).
    { apply Decode_iff; [change MaxEnvelope with 16384 in Hb; unfold go_slice, max_int64; lia | by vm_compute |].
      split; [|by split]. split; cbn; try done; [by left | | by apply Hread | by rewrite Henc].
      exists (UnixMilli_of now). split; [apply int64_range | done]. }
    exists e. unfold OpenEnvelope. rewrite Hd. cbn. rewrite !bool_decide_eq_true_2 by done.
    repeat (split; [done|]). intros c' s' Hne.
    destruct (decide (class = c')) as [->|]; [|by rewrite (bool_decide_eq_false_2 (class = c'))].
    rewrite (bool_decide_eq_false_2 (sender = s')) by congruence. by rewrite orb_true_r.
Qed.

(** An envelope sealed for a class and sender is opened for exactly that
    class and sender, and verifies under the sealer's public half, carrying the
    payload, the correlation and the time at the wire's resolution; opened for
    any other class or sender it is refused. *)
Theorem Seal_opens read r k class sender corr payload now b :
    Seal read r k class sender corr payload now = Ok b ->
    (forall x, read NonceBytes = Some x -> zlen x = NonceBytes) ->
    Encrypted class = false -> id_ok corr -> ValidIdentifier sender = true ->
    zlen b <= MaxEnvelope ->
    exists e, OpenEnvelope b class sender = Ok e /\ Verify (Verifying k) e = Ok tt
      /\ Payload e = payload /\ CorrelationID e = corr
      /\ Timestamp e = time_UnixMilli (UnixMilli_of now)
      /\ forall class' sender', (class', sender') <> (class, sender) ->
           OpenEnvelope b class' sender' = Err ErrEnvelope.
Proof. apply envelope_opens. Qed.

Lemma OpenEnvelope_inv b class sender e :
    OpenEnvelope b class sender = Ok e ->
    Decode b MaxEnvelope = Ok e /\ Class e = class /\ Sender e = sender.
Proof. unfold OpenEnvelope. intros H. res_inv. bool_to_prop. auto. Qed.
End Sealing.

(** ** The payloads *)

Lemma strictJSON_Marshal {T} (fs : struct_fields T) zero v t :
  clean v -> height v <= maxNestingDepth -> decode_struct true fs v zero = Some t ->
  strictJSON fs zero (json_Marshal v) = Some t.
Proof.
  intros Hc Hh Hd. unfold strictJSON, json_Marshal.
  rewrite <- (app_nil_r (print compact 0 v)).
  rewrite json_Decode_print; auto using compact_ok; [|done]. cbn. by rewrite Hd.
Qed.

Lemma decode_request r : decode_struct true request_fields (json_of_request r) zero_Request = Some r.
Proof.
  unfold json_of_request, decode_struct. erewrite !set_members_string by reflexivity. by destruct r.
Qed.

Lemma decode_reply r : decode_struct true reply_fields (json_of_reply r) zero_Reply = Some r.
Proof.
  unfold json_of_reply, decode_struct. erewrite !set_members_string, !set_members_omitempty by reflexivity.
  destruct r as [k a j i t]. cbn. repeat case_bool_decide; subst; reflexivity.
Qed.

(** ** A concrete envelope *)

Definition zero_read (n : Z) : option bytes := Some (replicate (Z.to_nat n) x00).
Definition sample_sealed : bytes :=
  match Seal (SS := ToySignature) zero_read x01 toy_signer ClassPresence "edge-1" "" (to_bytes "{}")
          1700000000123456789 with
  | Ok b => b
  | Err _ => []
  end.

Lemma Seal_opens_witness :
  OpenEnvelope sample_sealed ClassEnrollmentRequest "edge-1" = Err ErrEnvelope.
Proof.
  destruct (Seal_opens (SL := ToySignatureLaws) zero_read x01 toy_signer ClassPresence "edge-1" ""
    (to_bytes "{}") 1700000000123456789 sample_sealed) as (e & _ & _ & _ & _ & _ & H).
  - vm_cast_no_check (@eq_refl (result seal_err bytes) (Ok sample_sealed)).
  - by intros x [= <-].
  - reflexivity.
  - by left.
  - reflexivity.
  - vm_compute; discriminate.
  - by apply H.
Defined.

(** [More] takes a closing bracket for the end of an enclosing array or object,
    so a message with anything behind one is not trailing data to [strictJSON]. *)
Example strictJSON_behind_bracket :
  strictJSON reply_fields zero_Reply (json_Marshal (json_of_reply zero_Reply) ++ to_bytes "] and more") = Some zero_Reply
  /\ strictJSON reply_fields zero_Reply (json_Marshal (json_of_reply zero_Reply) ++ to_bytes " and more") = None.
Proof. split; vm_compute; reflexivity. Qed.
