(* ===== verification/Issue.v ===== *)
(** * Token issuance (S0) and the bundle

    Models [internal/enrollment/issue.go], [operation.go], the bundle parser of
    [agent.go] and [ServiceKeys] of [keys.go].  Issuing records the token and
    its audit entry in one transaction before anything is returned; what it
    returns is what the agent's parser accepts. *)
From S2P Require Import Prelude GoBytes GoTime GoText Vocabulary Primitives Toy Keys Signature Encryption Json Sql Store.
From S2P Require Import Subjects Limits Nats Mint Wire.

Definition DefaultTokenTTL : Duration := 15 * Minute.
Definition MinTokenTTL : Duration := Minute.
Definition MaxTokenTTL : Duration := 59 * Minute.
Definition MaxAgentName : Z := 128.
Definition BundleVersion : Z := 1.
Definition ActionTokenIssued : string := "enrollment.token.issued".

Record Bundle := {
  bd_Version : Z; bd_TokenID : string; bd_AgentID : string;
  bd_BootstrapCredentials : string; bd_ServiceSigningPublicKey : string;
  bd_ResultEncryptionPublicKey : string }.
Definition zero_Bundle : Bundle :=
  {| bd_Version := 0; bd_TokenID := ""; bd_AgentID := ""; bd_BootstrapCredentials := "";
     bd_ServiceSigningPublicKey := ""; bd_ResultEncryptionPublicKey := "" |}.

Record Actor := { UID : Z; UsernameSnapshot : option string }.

Definition json_of_bundle (b : Bundle) : json :=
  JObj (member "version" (jint (bd_Version b)) ++ member "token_id" (jstring (bd_TokenID b))
        ++ member "agent_id" (jstring (bd_AgentID b))
        ++ member "bootstrap_credentials" (jstring (bd_BootstrapCredentials b))
        ++ member "service_signing_public_key" (jstring (bd_ServiceSigningPublicKey b))
        ++ member "result_encryption_public_key" (jstring (bd_ResultEncryptionPublicKey b)) ++ []).

Definition set_bundle (f : Bundle -> Z * string * string * string * string * string) (b : Bundle) :=
  let '(v, t, a, c, s, r) := f b in
  {| bd_Version := v; bd_TokenID := t; bd_AgentID := a; bd_BootstrapCredentials := c;
     bd_ServiceSigningPublicKey := s; bd_ResultEncryptionPublicKey := r |}.
Definition bundle_fields : struct_fields Bundle :=
  let t b := bd_TokenID b in let a b := bd_AgentID b in
  let c b := bd_BootstrapCredentials b in
  let s b := bd_ServiceSigningPublicKey b in let r b := bd_ResultEncryptionPublicKey b in
  [("version"%string, set_int (fun x => set_bundle (fun b => (x, t b, a b, c b, s b, r b))));
   ("token_id"%string, set_string (fun x => set_bundle (fun b => (bd_Version b, x, a b, c b, s b, r b))));
   ("agent_id"%string, set_string (fun x => set_bundle (fun b => (bd_Version b, t b, x, c b, s b, r b))));
   ("bootstrap_credentials"%string,
     set_string (fun x => set_bundle (fun b => (bd_Version b, t b, a b, x, s b, r b))));
   ("service_signing_public_key"%string,
     set_string (fun x => set_bundle (fun b => (bd_Version b, t b, a b, c b, x, r b))));
   ("result_encryption_public_key"%string,
     set_string (fun x => set_bundle (fun b => (bd_Version b, t b, a b, c b, s b, x))))].

(** ** Lifetimes and names *)

Inductive issue_err :=
  | ErrInvalidRequest
  | RandomnessFault
  | MintError (e : mint_err)
  | StoreError (e : store_err).

Definition TokenTTL (requested : Duration) : result issue_err Duration :=
  if requested =? 0 then Ok DefaultTokenTTL
  else if (requested <? MinTokenTTL) || (MaxTokenTTL <? requested) then Err ErrInvalidRequest
  else Ok requested.

(** The value of a rune of [n] bytes. *)
Definition rune_value (s : bytes) (n : nat) : Z :=
  match n, s with
  | 1%nat, a :: _ => byte_val a
  | 2%nat, a :: b :: _ => (byte_val a - 192) * 64 + (byte_val b - 128)
  | 3%nat, a :: b :: c :: _ =>
      (byte_val a - 224) * 4096 + (byte_val b - 128) * 64 + (byte_val c - 128)
  | 4%nat, a :: b :: c :: d :: _ =>
      (byte_val a - 240) * 262144 + (byte_val b - 128) * 4096 + (byte_val c - 128) * 64
      + (byte_val d - 128)
  | _, _ => 65533
  end.

(** The runes of a string, if it is UTF-8 throughout ([utf8.ValidString]). *)
Fixpoint runes_fuel (fuel : nat) (s : bytes) : option (list Z) :=
  match s, fuel with
  | [], _ => Some []
  | _, O => None
  | _, S fuel' =>
      n ← rune_width s;
      rs ← runes_fuel fuel' (drop n s);
      Some (rune_value s n :: rs)
  end.
Definition runes (s : string) : option (list Z) := runes_fuel (length (to_bytes s)) (to_bytes s).

(** [unicode.IsPrint] reads the tables of the Unicode standard. *)
Class Unicode := IsPrint : Z -> bool.

Definition ValidAgentName `{Unicode} (name : string) : bool :=
  if bool_decide (name = ""%string) || (MaxAgentName <? slen name) then false
  else match runes name with
       | None => false
       | Some rs => forallb IsPrint rs
       end.

(** ** Issuing *)

Section Issuing.
Context `{SS : SignatureScheme} `{ES : EncryptionScheme} {K : Nkeys} {J : Jwt K} {U : Unicode}.

Record ServiceKeys := { Signing : SigningKey; ResultRecipient : RecipientKey }.

(** [Issuer], without the store: that is the session the operations run in. *)
Record Issuer := { minter : Minter; keys : ServiceKeys }.

(** What one call draws: the clock, the random source's answers for the two
    identifiers, the bytes of the bootstrap key pair, the token's issue time. *)
Record issue_draws := {
  d_now : Time; d_token : option bytes; d_agent : option bytes; d_user : bytes; d_stamp : Time }.

Definition randomHex (read : option bytes) : result issue_err string :=
  b ← of_option read RandomnessFault; Ok (hex_encode_string b).

Abbreviation issue_op := (sql issue_err db).
Definition pure_op {A} (r : result issue_err A) : issue_op A := fun s => (r, s).
Definition store_call {A} (m : store_op A) : issue_op A := fun s =>
  let '(r, s') := m s in (map_err StoreError r, s').

(** [natsauth.Credentials] as a string. *)
Definition Issue (i : Issuer) (d : issue_draws) (actor : Actor) (agentName : string) (ttl : Duration)
  : issue_op Bundle :=
  _ ← pure_op (ensure (ValidAgentName agentName) ErrInvalidRequest);
  ttl ← pure_op (TokenTTL ttl);
  tokenID ← pure_op (randomHex (d_token d));
  agentID ← pure_op (randomHex (d_agent d));
  _ ← pure_op (ensure (ValidateAgentIdentifier agentID) (MintError ErrIdentifier));
  let issued := d_now d in
  let expires := t_truncate_second (t_add issued ttl) in
  identity ← pure_op (map_err MintError (Bootstrap (d_stamp d) (d_user d) (minter i) tokenID expires));
  creds ← pure_op (map_err MintError (Credentials identity));
  _ ← store_call (IssueEnrollment
  {| TokenID := tokenID; AgentID := agentID; AgentName := agentName;
     BootstrapPublicKey := id_PublicKey identity; IssuedAt := issued; ExpiresAt := expires;
     IssuedByUID := UID actor |}
  {| JobID := None; CorrelationID := None; Store.Actor := None;
     ActorUID := Some (UID actor); ActorUsernameSnapshot := UsernameSnapshot actor;
     Target := Some agentID; Action := ActionTokenIssued; AResult := "issued"; At := issued |});
  mret {| bd_Version := BundleVersion; bd_TokenID := tokenID; bd_AgentID := agentID;
    bd_BootstrapCredentials := of_bytes creds;
    bd_ServiceSigningPublicKey := EncodeKey (VerifyingKey_Bytes (Verifying (Signing (keys i))));
    bd_ResultEncryptionPublicKey := EncodeKey (RecipientKey_Bytes (ResultRecipient (keys i))) |}.

(** ** The operator operation ([operation.go]) *)

Definition OperationCreate : string := "enroll.create".

Record CreateRequest := { cq_Op : string; cq_AgentName : string; cq_TTLSeconds : Z }.
Definition zero_CreateRequest : CreateRequest :=
  {| cq_Op := ""; cq_AgentName := ""; cq_TTLSeconds := 0 |}.
Definition create_fields : struct_fields CreateRequest :=
  [("op"%string, set_string (fun x r =>
  {| cq_Op := x; cq_AgentName := cq_AgentName r; cq_TTLSeconds := cq_TTLSeconds r |}));
  ("agent_name"%string, set_string (fun x r =>
  {| cq_Op := cq_Op r; cq_AgentName := x; cq_TTLSeconds := cq_TTLSeconds r |}));
  ("ttl_seconds"%string, set_int (fun x r =>
  {| cq_Op := cq_Op r; cq_AgentName := cq_AgentName r; cq_TTLSeconds := x |}))].

(** The handler's answer: a response, an error code, or a close. *)
Inductive create_answer :=
  | Answer (b : Bundle)
  | RefuseInvalid
  | Unanswered.

Definition CreateHandler (i : Issuer) (d : issue_draws) (actor : Actor) (body : bytes)
  (s : session db) : create_answer * session db :=
  match ('(v, _) ← json_Decode body; decode_struct true create_fields v zero_CreateRequest) with
  | None => (RefuseInvalid, s)
  | Some req =>
  if negb (bool_decide (cq_Op req = OperationCreate)) then (RefuseInvalid, s)
  else if (cq_TTLSeconds req <? 0) || (MaxTokenTTL / Second <? cq_TTLSeconds req)
  then (RefuseInvalid, s)
  else match Issue i d actor (cq_AgentName req) (cq_TTLSeconds req * Second) s with
     | (Ok b, s') => (Answer b, s')
     | (Err ErrInvalidRequest, s') => (RefuseInvalid, s')
     | (Err _, s') => (Unanswered, s')
     end
  end.

(** ** The agent's parser ([agent.go]) *)

Inductive bundle_err := ErrBundle.

Definition hex_of_length (n : Z) (s : string) : bool :=
  (slen s =? n) && forallb (fun c =>
  ((48 <=? byte_val c) && (byte_val c <=? 57)) || ((97 <=? byte_val c) && (byte_val c <=? 102)))
  (to_bytes s).
Definition token64 (s : string) : bool := hex_of_length 64 s.
Definition agent32 (s : string) : bool := hex_of_length 32 s.

Definition ParseBundle (b : bytes) : result bundle_err (Bundle * VerifyingKey) :=
  bundle ← of_option (strictJSON bundle_fields zero_Bundle b) ErrBundle;
  _ ← ensure (negb (negb (bd_Version bundle =? BundleVersion) || negb (token64 (bd_TokenID bundle))
              || negb (agent32 (bd_AgentID bundle)))) ErrBundle;
  raw ← of_option (DecodeKey (bd_ServiceSigningPublicKey bundle)) ErrBundle;
  service ← or_err (ParseVerifyingKey raw) ErrBundle;
  raw ← of_option (DecodeKey (bd_ResultEncryptionPublicKey bundle)) ErrBundle;
  _ ← or_err (ParseRecipientKey raw) ErrBundle;
  _ ← of_option (ParseDecoratedJWT (to_bytes (bd_BootstrapCredentials bundle))) ErrBundle;
  Ok (bundle, service).

(** ** What issuing promises *)

Context {SL : SignatureLaws SS} {EL : EncryptionLaws ES} {KL : NkeysLaws K} {JL : JwtLaws K J}.

Lemma pure_bind_inv {A B} (x : result issue_err A) (k : A -> issue_op B) s r s' :
  (pure_op x ≫= k) s = (r, s') ->
  (exists e, x = Err e /\ r = Err e /\ s' = s) \/ (exists a, x = Ok a /\ k a s = (r, s')).
Proof. destruct x as [a|e]; cbn; [eauto|]. intros [= <- <-]. left. eauto. Qed.

(** The token a bundle stands for, as the store records it. *)
Record issued_token (i : Issuer) (d : issue_draws) (actor : Actor) (name : string) (b : Bundle)
  (tok : EnrollmentToken) (identity : Identity) (ttl : Duration) : Prop := {
  it_token : hex_encode_string <$> d_token d = Some (bd_TokenID b) /\ TokenID tok = bd_TokenID b;
  it_agent : hex_encode_string <$> d_agent d = Some (bd_AgentID b) /\ AgentID tok = bd_AgentID b;
  it_name : AgentName tok = name /\ ValidAgentName name = true;
  it_uid : IssuedByUID tok = UID actor;
  it_ttl : MinTokenTTL <= ttl <= MaxTokenTTL;
  it_times : IssuedAt tok = d_now d /\ ExpiresAt tok = t_truncate_second (d_now d + ttl);
  it_identity : Bootstrap (d_stamp d) (d_user d) (minter i) (bd_TokenID b) (ExpiresAt tok)
  = Ok identity /\ BootstrapPublicKey tok = id_PublicKey identity;
  it_creds : Credentials identity = Ok (to_bytes (bd_BootstrapCredentials b));
  it_valid : ValidateAgentIdentifier (bd_AgentID b) = true;
  it_version : bd_Version b = BundleVersion;
  it_keys : bd_ServiceSigningPublicKey b = EncodeKey (VerifyingKey_Bytes (Verifying (Signing (keys i))))
  /\ bd_ResultEncryptionPublicKey b = EncodeKey (RecipientKey_Bytes (ResultRecipient (keys i)));
  }.

Lemma TokenTTL_ok ttl t : TokenTTL ttl = Ok t -> MinTokenTTL <= t <= MaxTokenTTL.
Proof.
  unfold TokenTTL. destruct (ttl =? 0); [intros [= <-]; by vm_compute|].
  case_match eqn:E; [done|]. intros [= <-]. res_inv. bool_to_prop. lia.
Qed.

Lemma Issue_inv i d actor name ttl s r s' :
  Issue i d actor name ttl s = (r, s') ->
  match r with
  | Ok b => exists tok a identity t, issued_token i d actor name b tok identity t
  /\ effect (MIssue tok a) (tables s) = Ok (tables s') /\ Target a = Some (bd_AgentID b)
  /\ ActorUID a = Some (UID actor)
  | Err e => tables s' = tables s
  /\ (e = ErrInvalidRequest -> ValidAgentName name = false \/ TokenTTL ttl = Err ErrInvalidRequest)
  end.
Proof.
  intros HE. unfold Issue in HE.
  apply pure_bind_inv in HE as [(e & [Hn ->]%ensure_err_inv & -> & ->)|([] & Hname%ensure_ok_inv & HE)];
  [by auto|].
  apply pure_bind_inv in HE as [(e & Ht & -> & ->)|(t & Ht & HE)].
  { split; [done|]. intros ->. by right. }
  apply pure_bind_inv in HE as [(e & Htok & -> & ->)|(tokenID & Htok & HE)].
  { split; [done|]. intros ->. unfold randomHex in Htok. destruct (d_token d); discriminate. }
  apply pure_bind_inv in HE as [(e & Hag & -> & ->)|(agentID & Hag & HE)].
  { split; [done|]. intros ->. unfold randomHex in Hag. destruct (d_agent d); discriminate. }
  apply pure_bind_inv in HE as [(e & [_ ->]%ensure_err_inv & -> & ->)|([] & Hv%ensure_ok_inv & HE)]; [done|].
  apply pure_bind_inv in HE as [(e & Hid & -> & ->)|(identity & Hid & HE)].
  { split; [done|]. intros ->. by destruct (Bootstrap _ _ _ _ _). }
  apply pure_bind_inv in HE as [(e & Hc & -> & ->)|(creds & Hc & HE)].
  { split; [done|]. intros ->. by destruct (Credentials _). }
  unfold mbind, sql_bind, store_call in HE.
  match type of HE with context [IssueEnrollment ?tok ?a] =>
  change (IssueEnrollment tok a) with (run_mutation (MIssue tok a)) in HE;
  destruct (run_mutation (MIssue tok a) s) as [r1 s1] eqn:E1;
  destruct (mutation_refines (MIssue tok a) s r1 s1 E1) as [_ [[[_ ->] Ht1]|Heff]];
  [|pose proof (eq_refl : unit_effect (effect (MIssue tok a)) (tables s)
              = (d' ← effect (MIssue tok a) (tables s); Ok (tt, d'))) as Hu; rewrite Hu in Heff; clear Hu;
  destruct (effect (MIssue tok a) (tables s)) as [db'|e'] eqn:E2; cbn in Heff;
  destruct Heff as [-> Ht1]]
  end.
  - injection HE as <- <-. cbn. by split.
  - cbn in HE. injection HE as <- <-. do 4 eexists. split; [|split; [by rewrite E2, Ht1|done]].
    unfold randomHex in *. res_inv.
    destruct (Bootstrap _ _ _ _ _) as [i'|] eqn:Hb; cbn in Hid; [injection Hid as ->|discriminate].
    destruct (Credentials identity) as [c'|] eqn:Hcr; cbn in Hc; [injection Hc as ->|discriminate].
    match goal with H : d_token d = Some _, H' : d_agent d = Some _ |- _ =>
      rename H into Ed; rename H' into Ea end.
    split; cbn; rewrite ?Ed, ?Ea, ?to_of_bytes; eauto using TokenTTL_ok.
  - injection HE as <- <-. cbn. by split.
Qed.

(** ** The agent's parser reads what the issuer writes *)

Lemma hex_of_length_encode n b : zlen b = n -> hex_of_length (2 * n) (hex_encode_string b) = true.
Proof.
  intros Hn. unfold hex_of_length. rewrite slen_hex_encode_string, Hn, Z.eqb_refl.
  unfold hex_encode_string. rewrite to_of_bytes. apply forallb_forall. intros c Hc.
  pose proof (hex_encode_lower b) as Hl. rewrite List.Forall_forall in Hl.
  destruct (Hl c Hc) as (k & Hk & ->). clear Hc.
  revert k Hk. apply (forall_below (fun k => ((48 <=? byte_val (hex_digit k)) && (byte_val (hex_digit k) <=? 57))
  || ((97 <=? byte_val (hex_digit k)) && (byte_val (hex_digit k) <=? 102))) 16). vm_compute. reflexivity.
Qed.

Lemma decode_bundle strict b :
  0 <= bd_Version b < 2 ^ 63 ->
  decode_struct strict bundle_fields (json_of_bundle b) zero_Bundle = Some b.
Proof.
  intros Hv. unfold json_of_bundle, decode_struct.
  erewrite set_members_int by (done || reflexivity). erewrite !set_members_string by reflexivity.
  by destruct b.
Qed.

Lemma bundle_ascii b :
  0 <= bd_Version b < 2 ^ 63 -> ascii (to_bytes (bd_TokenID b)) -> ascii (to_bytes (bd_AgentID b)) ->
  ascii (to_bytes (bd_BootstrapCredentials b)) -> ascii (to_bytes (bd_ServiceSigningPublicKey b)) ->
  ascii (to_bytes (bd_ResultEncryptionPublicKey b)) -> clean (json_of_bundle b).
Proof.
  intros. apply clean_members.
  apply clean_member; [member_names | apply clean_jint; lia|].
  repeat (apply clean_member; [member_names | by apply clean_jstring|]). constructor.
Qed.

Lemma ascii_hex_string x : ascii (to_bytes (hex_encode_string x)).
Proof. unfold hex_encode_string. rewrite to_of_bytes. apply ascii_hex. Qed.
Lemma ascii_EncodeKey x : ascii (to_bytes (EncodeKey x)).
Proof. unfold EncodeKey, b64_encode_string. rewrite to_of_bytes. apply ascii_b64. Qed.

Lemma bootstrap_newUser now rnd m token expires i :
  Bootstrap now rnd m token expires = Ok i ->
  newUser now rnd token (principal_grants (PBootstrap token)) m expires = Ok i
  /\ IsZero expires = false.
Proof. unfold Bootstrap, validate_identifier. intros H. res_inv. auto. Qed.

Lemma credentials_ascii i f :
  Credentials i = Ok f -> ascii (id_Seed i) -> ascii f.
Proof. unfold Credentials. intros H. res_inv. by eapply format_ascii. Qed.

(** What is issued is ASCII throughout. *)
Lemma issued_clean i d actor name b tok identity t iss :
  issued_token i d actor name b tok identity t -> PublicKey (signing (minter i)) = Some iss -> clean (json_of_bundle b).
Proof.
  intros [[Htok _] [Hag _] _ _ _ _ [Hid _] Hcr _ Hver [Hsv Hrv]] Hiss.
  destruct (d_token d) as [x|]; [|done]. destruct (d_agent d) as [y|]; [|done].
  cbn in Htok, Hag. injection Htok as Htok. injection Hag as Hag.
  destruct (bootstrap_newUser _ _ _ _ _ _ Hid) as [Hnew _].
  destruct (newUser_issued _ _ _ _ _ _ _ iss Hnew Hiss) as (_ & _ & kp & Hk & _ & Hseed).
  destruct (created_user _ _ Hk) as (pub & seed & _ & Hs & _ & Ha & _ & _).
  assert (ascii (id_Seed identity)) by congruence.
  pose proof (credentials_ascii _ _ Hcr ltac:(done)) as Hca.
  apply bundle_ascii; rewrite ?Hver, <- ?Htok, <- ?Hag, ?Hsv, ?Hrv;
    auto using ascii_hex_string, ascii_EncodeKey. by vm_compute.
Qed.

Lemma ParseBundle_issued i d actor name b tok identity t iss :
  issued_token i d actor name b tok identity t ->
  (forall x, d_token d = Some x -> zlen x = 32) -> (forall x, d_agent d = Some x -> zlen x = 16) ->
  PublicKey (signing (minter i)) = Some iss ->
  ParseBundle (json_Marshal (json_of_bundle b)) = Ok (b, Verifying (Signing (keys i))).
Proof.
  intros Hi H32 H16 Hiss. pose proof (issued_clean _ _ _ _ _ _ _ _ _ Hi Hiss) as Hclean.
  destruct Hi as [[Htok _] [Hag _] _ _ _ _ [Hid _] Hcr _ Hver [Hsv Hrv]].
  destruct (d_token d) as [x|]; [|done]. destruct (d_agent d) as [y|]; [|done].
  cbn in Htok, Hag. injection Htok as Htok. injection Hag as Hag.
  destruct (Credentials_read _ _ Hcr) as (_ & Hjwt & _).
  unfold ParseBundle. rewrite (strictJSON_Marshal _ _ _ b).
  - cbn. rewrite Hver, <- Htok, <- Hag, Z.eqb_refl. unfold token64, agent32.
  change 64 with (2 * 32). rewrite hex_of_length_encode by auto.
  change 32 with (2 * 16). rewrite hex_of_length_encode by auto. cbn [negb orb ensure mbind result_bind].
  rewrite Hsv. unfold DecodeKey at 1, EncodeKey at 1. rewrite b64_decode_encode_string.
  cbn [of_option mbind result_bind]. rewrite ParseVerifyingKey_Bytes by apply Verifying_ok.
  cbn [or_err mbind result_bind]. rewrite Hrv. unfold DecodeKey, EncodeKey.
  rewrite b64_decode_encode_string. cbn [of_option mbind result_bind].
  rewrite (proj2 (ParseRecipientKey_iff _ _) eq_refl). cbn [or_err mbind result_bind].
  by rewrite Hjwt.
  - exact Hclean.
  - by vm_compute.
  - apply decode_bundle. rewrite Hver. by vm_compute.
Qed.

Lemma expiry_bounds now ttl :
  MinTokenTTL <= ttl <= MaxTokenTTL ->
  now + MinTokenTTL - Second < t_truncate_second (now + ttl) <= now + MaxTokenTTL.
Proof. pose proof (truncate_bounds (now + ttl)). lia. Qed.

Lemma expiry_same_instant now ttl :
  0 <= now <= 2 ^ 62 -> MinTokenTTL <= ttl <= MaxTokenTTL ->
  time_Unix (Unix_of (t_truncate_second (now + ttl))) = t_truncate_second (now + ttl)
  /\ time_UnixMilli (UnixMilli_of (t_truncate_second (now + ttl))) = t_truncate_second (now + ttl).
Proof.
  change MinTokenTTL with 60000000000. change MaxTokenTTL with 3540000000000. intros Hn Ht.
  unfold time_Unix, Unix_of, time_UnixMilli, UnixMilli_of, t_truncate_second.
  change Second with 1000000000. change Millisecond with 1000000. rewrite Z.div_mul by lia.
  set (q := (now + ttl) / 1000000000).
  assert (0 <= q <= 2 ^ 62) by (subst q; Z.to_euclidean_division_equations; lia).
  split; [by rewrite int64_small by (unfold min_int64, max_int64; lia)|].
  replace (q * 1000000000) with (q * 1000 * 1000000) by lia. rewrite Z.div_mul by lia.
  rewrite int64_small; [done|]. subst q. unfold min_int64, max_int64.
  Z.to_euclidean_division_equations; lia.
Qed.

(** C28. Issuing a token either changes nothing and returns an error, or records
    the token and its audit entry together before returning a bundle.  The
    bundle's identifiers are the recorded ones, fresh hexadecimal of the right
    width; the token expires between one and fifty-nine minutes from now, at the
    same whole second the bootstrap credential inside the bundle does; the
    credential is that token's alone; and the agent's parser accepts the bundle
    as it is written out and takes from it the service's verifying key. *)
Theorem Issue_outcome i d actor name ttl s r s' iss :
  Issue i d actor name ttl s = (r, s') ->
  PublicKey (signing (minter i)) = Some iss ->
  (forall x, d_token d = Some x -> zlen x = 32) -> (forall x, d_agent d = Some x -> zlen x = 16) ->
  match r with
  | Ok b => exists tok a jwt c,
      effect (MIssue tok a) (tables s) = Ok (tables s')
      /\ TokenID tok = bd_TokenID b /\ AgentID tok = bd_AgentID b /\ AgentName tok = name
      /\ d_now d + MinTokenTTL - Second < ExpiresAt tok <= d_now d + MaxTokenTTL
      /\ ParseDecoratedJWT (to_bytes (bd_BootstrapCredentials b)) = Some jwt
      /\ DecodeUserClaims jwt = Some c /\ Subject c = BootstrapPublicKey tok
      /\ perm_Pub c = permissionFor (granted (PBootstrap (TokenID tok)) Publish)
      /\ perm_Sub c = permissionFor (granted (PBootstrap (TokenID tok)) Subscribe)
      /\ (0 <= d_now d <= 2 ^ 62 ->
          time_Unix (Expires c) = ExpiresAt tok
          /\ time_UnixMilli (en_expires_at (issued_row tok)) = ExpiresAt tok)
      /\ ParseBundle (json_Marshal (json_of_bundle b)) = Ok (b, Verifying (Signing (keys i)))
  | Err e => tables s' = tables s
      /\ (e = ErrInvalidRequest -> ValidAgentName name = false \/ TokenTTL ttl = Err ErrInvalidRequest)
  end.
Proof.
  intros HE Hiss H32 H16. pose proof (Issue_inv _ _ _ _ _ _ _ _ HE) as H.
  destruct r as [b|e]; [|done]. destruct H as (tok & a & identity & t & Hi & Heff & _).
  pose proof (ParseBundle_issued _ _ _ _ _ _ _ _ iss Hi H32 H16 Hiss) as HP.
  destruct Hi as [[_ Htok] [_ Hag] [Hname _] _ Httl [_ Hexp] [Hid Hbk] Hcr _ _ _].
  destruct (bootstrap_newUser _ _ _ _ _ _ Hid) as [Hnew Hz].
  destruct (newUser_issued _ _ _ _ _ _ _ iss Hnew Hiss) as ((Hdec & _) & _). rewrite Hz in Hdec.
  destruct (Credentials_read _ _ Hcr) as (_ & Hjwt & _).
  exists tok, a. do 2 eexists. do 4 (split; [done|]).
  split; [rewrite Hexp; by apply expiry_bounds|]. split; [exact Hjwt|]. split; [exact Hdec|].
  split; [exact (eq_sym Hbk)|]. rewrite Htok. split; [reflexivity|]. split; [reflexivity|].
  split; [|exact HP]. intros Hn. cbn [Expires issued_row en_expires_at]. rewrite Hexp.
  by apply expiry_same_instant.
Qed.

(** The operator's request leaves a trace in the store exactly when it is
    answered with a bundle. *)
Lemma CreateHandler_all_or_nothing i d actor body s ans s' :
  CreateHandler i d actor body s = (ans, s') ->
  match ans with
  | Answer b => exists req, cq_Op req = OperationCreate /\ 0 <= cq_TTLSeconds req <= 3540
      /\ Issue i d actor (cq_AgentName req) (cq_TTLSeconds req * Second) s = (Ok b, s')
  | _ => tables s' = tables s
  end.
Proof.
  unfold CreateHandler. destruct (_ ≫= _) as [req|]; [|by intros [= <- <-]].
  case_bool_decide as Hop; cbn [negb]; [|by intros [= <- <-]].
  destruct (_ || _) eqn:Hb; [by intros [= <- <-]|].
  destruct (Issue _ _ _ _ _ _) as [[b|e] s1] eqn:HI.
  - intros [= <- <-]. exists req. res_inv. bool_to_prop.
    change (MaxTokenTTL / Second) with 3540 in *. auto.
  - apply Issue_inv in HI as [HI _]. by destruct e; intros [= <- <-].
Qed.
End Issuing.

(** ** A concrete issuance *)

Definition ascii_tables : Unicode := fun r => (32 <=? r) && (r <? 127).

Definition sample_recipient : @RecipientKey ToyEncryption := Recipient Encryption.toy_key.
Definition sample_issuer : @Issuer ToySignature ToyEncryption ToyNkeys :=
  {| minter := sample_minter; keys := {| Signing := toy_signer; ResultRecipient := sample_recipient |} |}.
Definition sample_draws : issue_draws :=
  {| d_now := 1700000000 * Second + 5; d_token := Some (replicate 32 xab); d_agent := Some (replicate 16 xcd);
     d_user := [x31]; d_stamp := 1700000000 * Second |}.
Definition sample_actor : Issue.Actor := {| UID := 1000; UsernameSnapshot := None |}.
Definition sample_issue : result issue_err Bundle * session db :=
  Issue (SS := ToySignature) (ES := ToyEncryption) (J := ToyJwt) (U := ascii_tables)
    sample_issuer sample_draws sample_actor "web" 0 (Session empty_db []).

Lemma Issue_outcome_witness :
  exists b, sample_issue.1 = Ok b
    /\ ParseBundle (SS := ToySignature) (ES := ToyEncryption) (J := ToyJwt)
         (json_Marshal (json_of_bundle b)) = Ok (b, Verifying toy_signer).
Proof.
  assert (H : is_ok sample_issue.1 = true) by (vm_compute; reflexivity).
  destruct sample_issue as [r s'] eqn:E. destruct r as [b|]; [|discriminate H].
  exists b. split; [reflexivity|].
  destruct (Issue_outcome (SL := ToySignatureLaws) (EL := ToyEncryptionLaws) (KL := ToyNkeysLaws)
    (JL := ToyJwtLaws) sample_issuer sample_draws sample_actor "web" 0 _ _ s' "A-signing" E)
    as (tok & a & jwt & c & _ & _ & _ & _ & _ & _ & _ & _ & _ & _ & _ & HP).
  - reflexivity.
  - by intros x [= <-].
  - by intros x [= <-].
  - exact HP.
Defined.
