(* ===== verification/Handlers.v ===== *)
(** * Concurrent handlers over the store

    The enrollment service answers on two connections at once, and the operator
    socket and other processes write to the same database.  A handler is a
    program over the calls it makes to shared state: the store's operations, the
    clock, the activation gate ([sync.RWMutex]).  Between any two of its calls
    the rest of the system may run.  [advance] executes one
    handler; [steps] interleaves any number of them; [safe] is the proof rule: what a handler
    establishes, given only that everybody else moves the database the way every
    store operation does. *)
From S2P Require Import Prelude GoBytes GoTime Sql Store.

(** ** Programs *)

Inductive call : Type -> Type :=
  | CEnrollment (token : string) : call EnrollmentRecord
  | CByAgent (agent : string) : call EnrollmentRecord
  | CMutate (m : mutation) : call unit.

Definition run_call {B} (c : call B) : store_op B :=
  match c with
  | CEnrollment t => Enrollment t
  | CByAgent a => EnrollmentByAgent a
  | CMutate m => run_mutation m
  end.

Inductive gate_op := RLock | RUnlock | Lock | Unlock.

(** [Spin] is a retry loop that has not succeeded yet: it holds what it holds
    and goes no further. *)
Inductive prog (A : Type) : Type :=
  | Ret (a : A)
  | Call {B : Type} (c : call B) (k : result store_err B -> prog A)
  | Now (k : Time -> prog A)
  | Gate (g : gate_op) (k : prog A)
  | Spin.
Arguments Ret {A} a.
Arguments Call {A B} c k.
Arguments Now {A} k.
Arguments Gate {A} g k.
Arguments Spin {A}.

Fixpoint pbind {A B} (p : prog A) (f : A -> prog B) : prog B :=
  match p with
  | Ret a => f a
  | Call c k => Call c (fun r => pbind (k r) f)
  | Now k => Now (fun t => pbind (k t) f)
  | Gate g k => Gate g (pbind k f)
  | Spin => Spin
  end.
#[export] Instance prog_ret : MRet prog := @Ret.
#[export] Instance prog_bind : MBind prog := fun A B f p => pbind p f.

Definition enrollment_call (t : string) : prog (result store_err EnrollmentRecord) := Call (CEnrollment t) Ret.
Definition by_agent_call (a : string) : prog (result store_err EnrollmentRecord) := Call (CByAgent a) Ret.
Definition mutate (m : mutation) : prog (result store_err unit) := Call (CMutate m) Ret.
Definition now : prog Time := Now Ret.
Definition gate (g : gate_op) : prog unit := Gate g (Ret tt).

(** ** Running *)

Record world := World { w_db : db; w_readers : nat; w_writer : bool }.

Definition gate_step (g : gate_op) (w : world) : option world :=
  match g with
  | RLock => if w_writer w then None else Some (World (w_db w) (S (w_readers w)) false)
  | RUnlock => match w_readers w with
               | S n => Some (World (w_db w) n (w_writer w))
               | O => None
               end
  | Lock => if w_writer w || bool_decide (w_readers w <> 0%nat) then None
            else Some (World (w_db w) 0 true)
  | Unlock => if w_writer w then Some (World (w_db w) (w_readers w) false) else None
  end.

Inductive pstep {A} : world -> prog A -> world -> prog A -> Prop :=
  | step_call w B (c : call B) k fs r s' :
      run_call c (Session (w_db w) fs) = (r, s') ->
      pstep w (Call c k) (World (tables s') (w_readers w) (w_writer w)) (k r)
  | step_now w k t : pstep w (Now k) w (k t)
  | step_gate w g k w' : gate_step g w = Some w' -> pstep w (Gate g k) w' k.

(** The system: any number of handlers, one step of one of them at a time. *)
Inductive steps {A} : world -> list (prog A) -> world -> list (prog A) -> Prop :=
  | steps_refl w ps : steps w ps w ps
  | steps_one w ps i p w1 p1 w2 ps2 :
      ps !! i = Some p -> pstep w p w1 p1 ->
      steps w1 (<[i := p1]> ps) w2 ps2 -> steps w ps w2 ps2.

(** One handler advanced by at most [n] of its steps, with the fates of its calls
    and the clock's readings; it stops where it cannot go on. *)
Fixpoint advance {A} (n : nat) (p : prog A) (w : world) (fs : list bool) (ts : list Time)
  : world * prog A :=
  match n, p with
  | S n', Call c k =>
      let '(r, s') := run_call c (Session (w_db w) fs) in
      advance n' (k r) (World (tables s') (w_readers w) (w_writer w)) (fates s') ts
  | S n', Now k => match ts with
                   | t :: ts' => advance n' (k t) w fs ts'
                   | [] => (w, p)
                   end
  | S n', Gate g k => match gate_step g w with
                      | Some w' => advance n' k w' fs ts
                      | None => (w, p)
                      end
  | _, _ => (w, p)
  end.

Definition finished {A} (p : prog A) : option A := match p with Ret a => Some a | _ => None end.

Lemma steps_trans {A} w1 (ps1 : list (prog A)) w2 ps2 w3 ps3 :
  steps w1 ps1 w2 ps2 -> steps w2 ps2 w3 ps3 -> steps w1 ps1 w3 ps3.
Proof. induction 1; [done|]. intros. econstructor; eauto. Qed.

Lemma advance_steps {A} n (p : prog A) w fs ts i ps w' p' :
  ps !! i = Some p -> advance n p w fs ts = (w', p') -> steps w ps w' (<[i := p']> ps).
Proof.
  revert p w fs ts ps. induction n as [|n IH]; intros p w fs ts ps Hi.
  { cbn. intros [= <- <-]. rewrite list_insert_id by done. constructor. }
  assert (Hlen : (i < length ps)%nat) by (apply lookup_lt_is_Some; eauto).
  assert (Hgo : forall w1 p1 fs1 ts1, pstep w p w1 p1 -> advance n p1 w1 fs1 ts1 = (w', p') ->
    steps w ps w' (<[i := p']> ps)).
  { intros w1 p1 fs1 ts1 Hs H. eapply steps_one; [exact Hi | exact Hs|].
    rewrite <- (list_insert_insert_eq ps i p' p1). eapply IH; [|exact H].
    by apply list_lookup_insert_eq. }
  destruct p as [a|B c k|k|g k|]; cbn [advance].
  - intros [= <- <-]. rewrite list_insert_id by done. constructor.
  - destruct (run_call c _) as [r s'] eqn:E. apply Hgo. by econstructor.
  - destruct ts as [|t ts]; [intros [= <- <-]; rewrite list_insert_id by done; constructor|].
    apply Hgo. constructor.
  - destruct (gate_step g w) as [w1|] eqn:E; [apply Hgo; by constructor|].
    intros [= <- <-]. rewrite list_insert_id by done. constructor.
  - intros [= <- <-]. rewrite list_insert_id by done. constructor.
Qed.

Lemma advance_at {A} n (p : prog A) w fs ts i ps :
  ps !! i = Some p ->
  steps w ps (advance n p w fs ts).1 (<[i := (advance n p w fs ts).2]> ps).
Proof. intros Hi. by apply (advance_steps n p w fs ts i ps); [|apply surjective_pairing]. Qed.

(** A schedule: which handler goes next, and for how many of its steps. *)
Fixpoint run_schedule {A} (sch : list (nat * nat)) (w : world) (ps : list (prog A)) (ts : list Time)
  : world * list (prog A) :=
  match sch with
  | [] => (w, ps)
  | (i, n) :: sch' =>
      match ps !! i with
      | None => (w, ps)
      | Some p => let '(w', p') := advance n p w [] ts in run_schedule sch' w' (<[i := p']> ps) ts
      end
  end.

Lemma run_schedule_steps {A} sch w (ps : list (prog A)) ts :
  steps w ps (run_schedule sch w ps ts).1 (run_schedule sch w ps ts).2.
Proof.
  revert w ps. induction sch as [|[i n] sch IH]; intros w ps; cbn [run_schedule]; [constructor|].
  destruct (ps !! i) as [p|] eqn:Hi; [|constructor].
  destruct (advance n p w [] ts) as [w' p'] eqn:E.
  eapply steps_trans; [by eapply advance_steps | apply IH].
Qed.

Lemma finished_ret {A} (p : prog A) a : finished p = Some a -> p = Ret a.
Proof. destruct p; try done. by intros [= ->]. Qed.

(** ** What every call does to the database *)

(** The database moves along [grows]: records only evolve, and the audit log is
    only appended to.  Retention is the one operation that does not, and no
    handler calls it. *)
Record grows (d d' : db) : Prop := {
  gr_evolves : evolves d d';
  gr_audit : audit d `prefix_of` audit d';
}.
#[export] Instance grows_preorder : PreOrder grows.
Proof.
  split.
  - intros d. split; reflexivity.
  - intros d1 d2 d3 [A1 A2] [B1 B2]. split; by etrans.
Qed.

Definition keeps_audit {B} (c : call B) : Prop :=
  match c with CMutate (MRetain _) => False | _ => True end.

Lemma effect_audit m d d' :
  keeps_audit (CMutate m) -> effect m d = Ok d' -> audit d `prefix_of` audit d'.
Proof.
  intros Hk. destruct m as [r|r|a|tok a|t c a|t at_ a|b]; cbn [effect]; [..|done].
  - unfold insert_job. case_match; [done|]. by intros [= <-].
  - destruct (jobs d !! _); [|done]. unfold insert_result. case_match; [done|].
    case_match; [|done]. by intros [= <-].
  - intros [= <-]. by eexists.
  - case_match; [done|]. intros (d1 & Hd1 & ->)%fmap_ok_inv. unfold insert_enrollment in Hd1.
    case_match; [|done]. injection Hd1 as <-. by eexists.
  - destruct (enrollment d !! t); [|done]. case_match; [|done].
    intros (d1 & Hd1 & ->)%fmap_ok_inv. case_match; [|done]. injection Hd1 as <-. by eexists.
  - intros HE. destruct (activate_inv _ _ _ _ _ HE) as (r & j & s & e & Ht & Hs & Hj & Hne & Hsg & He).
    pose proof HE as HE2. cbn [effect] in HE2.
    destruct (select_enrollment t d); [|done]. cbn in HE2. case_match; [done|].
    destruct (insert_agent _ _ _ _ _ _ d) as [d1|] eqn:E1; [|done]. cbn in HE2.
    apply fmap_ok_inv in HE2 as (d2 & Hd2 & ->).
    unfold insert_agent in E1. repeat case_match; try done.
    all: injection E1 as <-; unfold update_spent in Hd2; repeat case_match; try done;
      injection Hd2 as <-; by eexists.
Qed.

Lemma call_grows {B} (c : call B) s r s' :
  keeps_audit c -> db_ok (tables s) -> run_call c s = (r, s') ->
  db_ok (tables s') /\ grows (tables s) (tables s').
Proof.
  intros Hk Hok HE. destruct c as [t|a|m]; cbn [run_call] in HE.
  - destruct (query_refines _ _ _ _ HE) as [_ [[_ ->]|H]]; [by split|].
    destruct (select_enrollment t (tables s)); cbn in H; destruct H as [_ ->]; by split.
  - destruct (query_refines _ _ _ _ HE) as [_ [[_ ->]|H]]; [by split|].
    destruct (select_by_agent a (tables s)); cbn in H; destruct H as [_ ->]; by split.
  - destruct (mutation_step m s r s' Hok HE) as [H1 H2]. split; [done|]. split; [done|].
    destruct (mutation_refines m s r s' HE) as [_ [[_ ->]|H]]; [done|].
    unfold unit_effect in H. destruct (effect m (tables s)) as [d|] eqn:E; cbn in H; destruct H as [_ ->].
    + by eapply effect_audit.
    + done.
Qed.

(** ** The proof rule

    [safe U G Q p d]: running [p] from the database [d], whatever others do
    along [grows] between its calls, every call satisfies the guard [G] when it
    is made and the result satisfies [Q].  [U] is what a reader of the gate may
    assume once it is let through. *)
Section Safe.
Context {A : Type}.
Context (U : db -> Prop) (G : forall B, db -> call B -> Prop) (Q : A -> db -> Prop).

Fixpoint safe (p : prog A) (d : db) : Prop :=
  match p with
  | Ret a => Q a d
  | Call c k =>
      keeps_audit c /\ forall d1, db_ok d1 -> grows d d1 ->
        G _ d1 c /\ forall fs r s', run_call c (Session d1 fs) = (r, s') -> safe (k r) (tables s')
  | Now k => forall t, safe (k t) d
  | Gate g k => forall d1, db_ok d1 -> grows d d1 -> (g = RLock -> U d1) -> safe k d1
  | Spin => True
  end.

Hypothesis Q_grows : forall a d d', db_ok d' -> grows d d' -> Q a d -> Q a d'.

Lemma safe_grows p d d' : db_ok d' -> grows d d' -> safe p d -> safe p d'.
Proof.
  intros Hok Hg. revert Hg. revert d. induction p as [a|B c k IH|k IH|g k IH|]; intros d Hg; cbn [safe].
  - by apply Q_grows.
  - intros [Hk H]. split; [done|]. intros d1 Hok1 Hg1. apply H; [done | by etrans].
  - intros H t. eapply IH; eauto.
  - intros H d1 Hok1 Hg1. apply H; [done | by etrans].
  - done.
Qed.

Lemma pstep_safe w p w' p' :
  db_ok (w_db w) -> (w_writer w = false -> U (w_db w)) -> safe p (w_db w) -> pstep w p w' p' ->
  db_ok (w_db w') /\ grows (w_db w) (w_db w') /\ safe p' (w_db w').
Proof.
  intros Hok HU Hs Hstep. destruct Hstep as [w B c k fs r s' E|w k t|w g k w' E].
  - destruct Hs as [Hk H]. destruct (H (w_db w) Hok ltac:(reflexivity)) as [_ H2]. cbn.
    destruct (call_grows c (Session (w_db w) fs) r s' Hk Hok E). eauto.
  - split; [done|]. split; [reflexivity | apply Hs].
  - assert (Hdb : w_db w' = w_db w) by (destruct g; cbn in E; repeat case_match; naive_solver).
    rewrite Hdb. split; [done|]. split; [reflexivity|]. apply Hs; [done | reflexivity |].
    intros ->. apply HU. cbn in E. by destruct (w_writer w).
Qed.

(** What holds of every handler, given an invariant of the whole system that
    covers the readers' assumption. *)
Context (I : world -> list (prog A) -> Prop).
Hypothesis I_step : forall w ps i p w' p',
  I w ps -> db_ok (w_db w) -> safe p (w_db w) ->
  ps !! i = Some p -> pstep w p w' p' -> I w' (<[i := p']> ps).
Hypothesis I_unlocked : forall w ps, I w ps -> w_writer w = false -> U (w_db w).

Lemma steps_safe w ps w' ps' :
  steps w ps w' ps' -> I w ps -> db_ok (w_db w) -> Forall (fun p => safe p (w_db w)) ps ->
  I w' ps' /\ db_ok (w_db w') /\ grows (w_db w) (w_db w') /\ Forall (fun p => safe p (w_db w')) ps'.
Proof.
  induction 1 as [w ps|w ps i p w1 p1 w2 ps2 Hi Hstep Hsteps IH]; intros HI Hok Hall.
  - split; [done|]. split; [done|]. split; [reflexivity | done].
  - pose proof (Forall_lookup_1 _ _ _ _ Hall Hi) as Hp.
    destruct (pstep_safe w p w1 p1 Hok (fun H => I_unlocked w ps HI H) Hp Hstep) as (Hok1 & Hg & Hp1).
    destruct IH as (HI2 & Hok2 & Hg2 & Hall2); [by apply (I_step w ps i p) | done | |].
    + apply Forall_insert; [|done]. eapply Forall_impl; [exact Hall|]. intros q. by apply safe_grows.
    + split; [done|]. split; [done|]. split; [by etrans | done].
Qed.
End Safe.

(** ** What the reads return *)

Lemma enrollment_call_inv t d fs r s' :
  run_call (CEnrollment t) (Session d fs) = (r, s') ->
  tables s' = d /\ match r with
                   | Ok rec => exists row, enrollment d !! t = Some row /\ rec = scanEnrollment t row
                   | Err ErrNoEnrollment => enrollment d !! t = None
                   | Err e => e = DbFault
                   end.
Proof.
  cbn [run_call]. intros HE. destruct (query_refines _ _ _ _ HE) as [_ [[[_ ->] ->]|H]]; [done|].
  unfold select_enrollment in H. cbn in H. destruct (enrollment d !! t) as [row|] eqn:E; cbn in H;
    destruct H as [-> ->]; split; eauto.
Qed.

Lemma by_agent_call_inv a d fs r s' :
  run_call (CByAgent a) (Session d fs) = (r, s') ->
  tables s' = d /\ match r with
                   | Ok rec => exists t row, enrollment d !! t = Some row /\ en_agent_id row = a
                       /\ rec = scanEnrollment t row
                   | Err e => e = ErrNoEnrollment \/ e = DbFault
                   end.
Proof.
  cbn [run_call]. intros HE. destruct (query_refines _ _ _ _ HE) as [_ [[[_ ->] ->]|H]]; [auto|].
  unfold select_by_agent in H. cbn in H.
  destruct (map_to_list (by_agent a d)) as [|[t row] l] eqn:E; cbn in H; destruct H as [-> ->];
    split; auto.
  assert (Hin : (t, row) ∈ map_to_list (by_agent a d)) by (rewrite E; constructor).
  apply elem_of_map_to_list, map_lookup_filter_Some in Hin as [Ht Ha]. eauto.
Qed.

Lemma mutate_inv m d fs r s' :
  run_call (CMutate m) (Session d fs) = (r, s') ->
  (r = Err DbFault /\ tables s' = d) \/
  match effect m d with
  | Ok d' => r = Ok tt /\ tables s' = d'
  | Err e => r = Err e /\ tables s' = d
  end.
Proof.
  cbn [run_call]. intros HE. destruct (mutation_refines m _ _ _ HE) as [_ [[[_ ->] ->]|H]]; [by left|right].
  unfold unit_effect in H. cbn [tables] in H. by destruct (effect m d).
Qed.

(** Sequencing: the first program's result is what the second starts from. *)
Lemma safe_bind {A B} U G (Q : A -> db -> Prop) (Q' : B -> db -> Prop) p f d :
  safe U G Q p d -> db_ok d ->
  (forall a d', db_ok d' -> grows d d' -> Q a d' -> safe U G Q' (f a) d') ->
  safe U G Q' (p ≫= f) d.
Proof.
  change (p ≫= f) with (pbind p f). revert d.
  induction p as [a|C c k IH|k IH|g k IH|]; intros d Hs Hok Hf; cbn [pbind safe] in *.
  - by apply Hf.
  - destruct Hs as [Hk Hs]. split; [done|]. intros d1 Hok1 Hg1. destruct (Hs d1 Hok1 Hg1) as [HG Hr].
    split; [done|]. intros fs r s' E. destruct (call_grows c (Session d1 fs) r s' Hk Hok1 E) as [Hok2 Hg2].
    eapply IH; [by eapply Hr | done |]. intros a d' Hok' Hg' HQ. apply Hf; [done | | done].
    etrans; [exact Hg1|]. by etrans.
  - intros t. apply IH; auto.
  - intros d1 Hok1 Hg1 HU. apply IH; [by apply Hs | done |].
    intros a d' Hok' Hg' HQ. apply Hf; [done | by etrans | done].
  - done.
Qed.

Lemma safe_weaken {A} U G (Q Q' : A -> db -> Prop) p d :
  safe U G Q p d -> (forall a d', Q a d' -> Q' a d') -> safe U G Q' p d.
Proof.
  revert d. induction p as [a|C c k IH|k IH|g k IH|]; intros d Hs Hq; cbn [safe] in *; eauto.
  destruct Hs as [Hk Hs]. split; [done|]. intros d1 Hok1 Hg1. destruct (Hs d1 Hok1 Hg1) as [HG Hr].
  split; [done|]. eauto.
Qed.

(** A row read stays the row of its token, evolved. *)
Lemma grows_row d d' t row :
  grows d d' -> enrollment d !! t = Some row ->
  exists row', enrollment d' !! t = Some row' /\ row_evolves row row'.
Proof. intros [[H _ _ _ _] _]. apply H. Qed.
