(* ===== verification/Service.v ===== *)
(** * The enrollment service

    Models [internal/enrollment/service.go]: the request handler with ADR-0003's
    checks in order, S1 (record the halves and mint once), S4 (the first fresh
    presence activates the identity and spends the token), S6 (confirmation), the
    denials with their audit records, and the gate of the activation hold.  The
    theorems hold for any number of requests and presences handled at once,
    interleaved at every call and with every other client of the store. *)
From S2P Require Import Prelude GoBytes GoTime GoText Vocabulary Primitives Toy Keys Envelope Signature Encryption Headers.
From S2P Require Import Json Sql Store Subjects Limits Nats Mint Wire Issue Handlers.

Definition ActionCredentialIssued : string := "enrollment.credential.issued".
Definition ActionActivated : string := "enrollment.identity.activated".
Definition ActionDenied : string := "enrollment.request.denied".
Definition FaultHoldAfterActivation : string := "enrollment_server_hold_after_activation_commit_ms".
Definition ActionFaultReached : string := "fault.reached:".

Section Service.
Context `{SS : SignatureScheme} `{ES : EncryptionScheme} {K : Nkeys} {J : Jwt K}.

(** What the handlers use of [Service]. *)
Record Service := { sv_minter : Minter; sv_hold : Duration }.

(** [tokenOf]; the empty string is no token. *)
Definition tokenOf (subject : string) : string :=
  match Split_string subject dot with
  | [a; b; t; r] =>
      if negb (bool_decide (a = "ks"%string)) || negb (bool_decide (b = "enroll"%string))
         || negb (bool_decide (r = "request"%string)) then "" else t
  | _ => ""
  end.

(** ** The presented halves *)

Record requestHalves := {
  natsKey : string; h_signing : bytes; h_encryption : bytes; verifying : VerifyingKey }.

Definition parseHalves (r : Request) : result unit requestHalves :=
  _ ← ensure (IsValidPublicUserKey (rq_NATSPublicKey r)) tt;
  signing ← of_option (DecodeKey (rq_SigningPublicKey r)) tt;
  v ← or_err (ParseVerifyingKey signing) tt;
  encryption ← of_option (DecodeKey (rq_EncryptionPublicKey r)) tt;
  _ ← or_err (ParseRecipientKey encryption) tt;
  Ok {| natsKey := rq_NATSPublicKey r; h_signing := signing; h_encryption := encryption;
        verifying := v |}.

(** [bytes.Equal] reads a nil slice as an empty one. *)
Definition halves_equal (h : requestHalves) (r : EnrollmentRecord) : bool :=
  bool_decide (natsKey h = NATSPublicKey r)
  && bool_decide (h_signing h = default [] (SigningPublicKey r))
  && bool_decide (h_encryption h = default [] (EncryptionPublicKey r)).

(** ** Requests *)

(** A reply, or the reason of a denial; the empty reason is none. *)
Abbreviation answer := (option Reply * string)%type.

Definition credential_reply (agent jwt : string) : Reply :=
  {| rp_Kind := KindCredential; rp_AgentID := agent; rp_PermanentJWT := jwt;
     rp_Identity := ""; rp_Token := "" |}.

Definition audit_entry (correlation target : option string) (action res : string) (at_ : Time)
  : AuditRecord :=
  {| JobID := None; CorrelationID := correlation; Store.Actor := None; ActorUID := None;
     ActorUsernameSnapshot := None; Target := target; Action := action; AResult := res; At := at_ |}.

Definition credential (s : Service) (rec : EnrollmentRecord) (h : requestHalves) : prog answer :=
  let tok := er_token rec in
  if negb (bool_decide (PermanentJWT rec = ""%string)) then
    Ret (Some (credential_reply (AgentID tok) (PermanentJWT rec)), ""%string)
  else
    stamp ← now;
    match Agent stamp (sv_minter s) {| ak_ID := AgentID tok; ak_PublicKey := natsKey h |} with
    | Err _ => Ret (None, ""%string)
    | Ok id =>
        at1 ← now; at2 ← now;
        err ← mutate (MCredential (TokenID tok)
                {| cr_NATSPublicKey := natsKey h; cr_SigningPublicKey := Some (h_signing h);
                   cr_EncryptionPublicKey := Some (h_encryption h); cr_PermanentJWT := id_JWT id;
                   cr_At := at1 |}
                (audit_entry None (Some (AgentID tok)) ActionCredentialIssued "issued" at2));
        match err with
        | Err ErrAlreadyRecorded =>
            again ← enrollment_call (TokenID tok);
            match again with
            | Ok again =>
                if negb (halves_equal h again) then Ret (None, "different public halves"%string)
                else Ret (Some (credential_reply (AgentID (er_token again)) (PermanentJWT again)), ""%string)
            | Err _ => Ret (None, "different public halves"%string)
            end
        | Err _ => Ret (None, ""%string)
        | Ok _ => Ret (Some (credential_reply (AgentID tok) (id_JWT id)), ""%string)
        end
    end.

Definition confirmation_reply (agent : string) : Reply :=
  {| rp_Kind := KindConfirmation; rp_AgentID := agent; rp_PermanentJWT := "";
     rp_Identity := StateActive; rp_Token := StateSpent |}.

(** The confirmation branch, between [RLock] and the deferred [RUnlock]. *)
Definition confirmation (rec : EnrollmentRecord) : prog answer :=
  _ ← gate RLock;
  let a := if negb (bool_decide (State rec = TokenSpent)) then (None, ""%string)
           else (Some (confirmation_reply (AgentID (er_token rec))), ""%string) in
  _ ← gate RUnlock;
  Ret a.

(** The checks after the clock is read. *)
Definition check_request (s : Service) (rec : EnrollmentRecord) (e : Envelope) (req : Request) (t : Time)
  : prog answer :=
  if negb (t_before t (ExpiresAt (er_token rec))) then Ret (None, "token expired"%string)
  else match parseHalves req with
       | Err _ => Ret (None, "incomplete public halves"%string)
       | Ok halves =>
           if negb (is_ok (Wire.Verify (verifying halves) e)) then Ret (None, "request signature"%string)
           else if negb (bool_decide (PermanentJWT rec = ""%string)) && negb (halves_equal halves rec)
           then Ret (None, "different public halves"%string)
           else if bool_decide (rq_Kind req = KindCredential) then credential s rec halves
           else if bool_decide (rq_Kind req = KindConfirmation) then confirmation rec
           else Ret (None, "malformed request"%string)
       end.

Definition handle (s : Service) (token : string) (data : bytes) : prog answer :=
  rec ← enrollment_call token;
  match rec with
  | Err ErrNoEnrollment => Ret (None, "unknown token"%string)
  | Err _ => Ret (None, ""%string)
  | Ok rec =>
      match OpenEnvelope data ClassEnrollmentRequest (AgentID (er_token rec)) with
      | Err _ => Ret (None, "malformed request"%string)
      | Ok e =>
          if negb (bool_decide (Envelope.CorrelationID e = token)) then Ret (None, "malformed request"%string)
          else match strictJSON request_fields zero_Request (Envelope.Payload e) with
               | None => Ret (None, "malformed request"%string)
               | Some req =>
                   if bool_decide (State rec = TokenSpent)
                      && negb (bool_decide (rq_Kind req = KindConfirmation))
                   then Ret (None, "token spent"%string)
                   else t ← now; check_request s rec e req t
               end
      end
  end.

Definition deny (token reason : string) : prog (result store_err unit) :=
  t ← now;
  mutate (MAudit (audit_entry (Some token) None ActionDenied reason t)).

Definition denied_reply : Reply :=
  {| rp_Kind := KindDenied; rp_AgentID := ""; rp_PermanentJWT := ""; rp_Identity := ""; rp_Token := "" |}.

Definition respond (s : Service) (token : string) (data : bytes) : prog (option Reply) :=
  '(reply, reason) ← handle s token data;
  if bool_decide (reason = ""%string) then Ret reply
  else
    err ← deny token reason;
    match err with
    | Err _ => Ret None
    | Ok _ => Ret (Some denied_reply)
    end.

(** What is published; the headers in the order they are set. *)
Record message := { msg_Subject : string; msg_Data : bytes; msg_Header : list (string * string) }.

(** [reply]: an error of sealing is logged and nothing is sent. *)
Definition reply (read : Z -> option bytes) (r : entropy) (k : ServiceKeys) (token : string)
    (rp : Reply) (at_ : Time) : option message :=
  match Seal read r (Signing k) ClassEnrollmentReply SenderEnrollmentService token
          (json_Marshal (json_of_reply rp)) at_ with
  | Err _ => None
  | Ok b => Some {| msg_Subject := ReplySubject token; msg_Data := b;
                    msg_Header := [(HeaderVersion, FormatUint Version);
                                   (HeaderClass, ClassEnrollmentReply)] |}
  end.

Definition onRequest (s : Service) (read : Z -> option bytes) (r : entropy) (k : ServiceKeys)
    (subject : string) (data : bytes) : prog (option message) :=
  let token := tokenOf subject in
  if bool_decide (token = ""%string) then Ret None
  else
    rp ← respond s token data;
    match rp with
    | None => Ret None
    | Some rp => t ← now; Ret (reply read r k token rp t)
    end.

(** ** Presence *)

(** The retry of [reachedAfterActivation], [n] attempts of it. *)
Fixpoint reachedAfterActivation (n : nat) (agent : string) : prog unit :=
  match n with
  | O => Spin
  | S n' =>
      t ← now;
      err ← mutate (MAudit (audit_entry None (Some agent)
              (ActionFaultReached +:+ FaultHoldAfterActivation) "reached" t));
      match err with
      | Ok _ => Ret tt
      | Err _ => reachedAfterActivation n' agent
      end
  end.

(** From the gate to the end of the hold; the sleeps change nothing. *)
Definition activate (s : Service) (n : nat) (rec : EnrollmentRecord) (agent : string) : prog unit :=
  let held := 0 <? sv_hold s in
  _ ← if held then gate Lock else Ret tt;
  at1 ← now; at2 ← now;
  err ← mutate (MActivate (TokenID (er_token rec)) at1
          (audit_entry None (Some agent) ActionActivated "active" at2));
  _ ← match err with
      | Err _ => Ret tt
      | Ok _ => if held then reachedAfterActivation n agent else Ret tt
      end;
  if held then gate Unlock else Ret tt.

Definition onPresence (s : Service) (n : nat) (subject : string) (data : bytes) : prog unit :=
  match Split_string subject dot with
  | [_; _; agent; _] =>
      rec ← by_agent_call agent;
      match rec with
      | Err _ => Ret tt
      | Ok rec =>
          if negb (bool_decide (State rec = TokenIssued)) || bool_decide (PermanentJWT rec = ""%string)
          then Ret tt
          else match OpenEnvelope data ClassPresence agent with
               | Err _ => Ret tt
               | Ok e =>
                   match ParseVerifyingKey (default [] (SigningPublicKey rec)) with
                   | Err _ => Ret tt
                   | Ok v =>
                       if negb (is_ok (Wire.Verify v e)) then Ret tt
                       else
                         t ← now;
                         let age := t_sub t (Timestamp e) in
                         if (PresenceStaleness <? age) || (age <? - PresenceStaleness) then Ret tt
                         else activate s n rec agent
                   end
               end
      end
  | _ => Ret tt
  end.
End Service.

(** ** What a reply says *)

Section Promises.
Context `{SS : SignatureScheme} `{ES : EncryptionScheme} {K : Nkeys} {J : Jwt K}.
Context (s : Service).

(** [data] is a request of [agent] for [token], of one kind, signed by the very
    key it presents. *)
Definition presents (data : bytes) (token agent : string) (h : requestHalves) (kind : string) : Prop :=
  exists e req, OpenEnvelope data ClassEnrollmentRequest agent = Ok e
    /\ Envelope.CorrelationID e = token
    /\ strictJSON request_fields zero_Request (Envelope.Payload e) = Some req
    /\ parseHalves req = Ok h /\ Wire.Verify (verifying h) e = Ok tt /\ rq_Kind req = kind.

(** The halves a token recorded are the presented ones. *)
Definition row_has (h : requestHalves) (row : enrollment_row) : Prop :=
  en_nats_public_key row = Some (natsKey h)
  /\ default [] (en_signing_public_key row) = h_signing h
  /\ default [] (en_encryption_public_key row) = h_encryption h.

Definition credential_justified (token : string) (data : bytes) (rp : Reply) (d : db) : Prop :=
  exists row h j, enrollment d !! token = Some row
    /\ presents data token (en_agent_id row) h KindCredential /\ row_has h row
    /\ en_permanent_jwt row = Some j /\ rp = credential_reply (en_agent_id row) j.

Definition confirmation_justified (U : db -> Prop) (token : string) (data : bytes) (rp : Reply) (d : db)
  : Prop :=
  exists row h a, enrollment d !! token = Some row
    /\ presents data token (en_agent_id row) h KindConfirmation
    /\ en_state row = TokenSpent /\ agents d !! en_agent_id row = Some a
    /\ rp = confirmation_reply (en_agent_id row)
    /\ (en_permanent_jwt row <> Some ""%string -> row_has h row)
    /\ exists d0, U d0 /\ grows d0 d /\ enrollment d0 !! token = Some row.

Definition denial_justified (token : string) (rp : Reply) (d : db) : Prop :=
  rp = denied_reply /\ exists a, a ∈ audit d /\ au_correlation_id a = Some token
    /\ au_action a = ActionDenied /\ au_result a <> ""%string.

Definition justified U token data rp d : Prop :=
  credential_justified token data rp d \/ confirmation_justified U token data rp d
  \/ denial_justified token rp d.

Lemma row_has_evolves h row row' : row_evolves row row' -> row_has h row -> row_has h row'.
Proof.
  intros [_ _ _ _ Hh _] (Hn & Hs & He). destruct Hh as (E1 & E2 & E3 & _); [by rewrite Hn|].
  unfold row_has. by rewrite E1, E2, E3.
Qed.

Lemma justified_grows U token data rp d d' :
  grows d d' -> justified U token data rp d -> justified U token data rp d'.
Proof.
  intros Hg [(row & h & j & Ht & Hp & Hh & Hj & ->)|[(row & h & a & Ht & Hp & Hs & Ha & -> & Hh & d0 & HU & Hg0 & H0)|(-> & a & Hin & Hc)]].
  - left. destruct (grows_row d d' token row Hg Ht) as (row' & Ht' & Hev).
    pose proof (row_has_evolves _ _ _ Hev Hh). destruct Hev as [Ea _ _ _ Eh _].
    destruct Eh as (_ & _ & _ & Ej); [by destruct Hh as [-> _]|].
    exists row', h, j. rewrite Ea. split_and!; try done. by rewrite Ej.
  - right; left. destruct (grows_row d d' token row Hg Ht) as (row' & Ht' & Hev).
    rewrite (ev_spent _ _ Hev Hs) in Ht'. exists row, h, a. split_and!; try done.
    + by apply (ev_agents _ _ (gr_evolves _ _ Hg)).
    + exists d0. split; [done|]. split; [by etrans | done].
  - right; right. split; [done|]. exists a. split; [|done].
    destruct (gr_audit _ _ Hg) as [l ->]. set_solver.
Qed.

(** ** The proof rule, case by case *)

Section Rules.
Context (U : db -> Prop).
(** What must hold of the database when a token is activated. *)
Context (AG : string -> AuditRecord -> db -> Prop).
(** And when a credential is recorded. *)
Context (CG : string -> Credential -> db -> Prop).

Definition guard B (d : db) (c : call B) : Prop :=
  match c with
  | CMutate (MActivate t _ a) => AG t a d
  | CMutate (MCredential t c _) => CG t c d
  | _ => True
  end.

Definition answer_ok (token : string) (data : bytes) (a : option Reply * string) (d : db) : Prop :=
  match a.1 with
  | None => True
  | Some rp => a.2 = ""%string
      /\ (credential_justified token data rp d \/ confirmation_justified U token data rp d)
  end.

(** One rule per call a handler makes. *)
Lemma safe_now {A} (Q : A -> db -> Prop) f d :
  (forall t, safe U guard Q (f t) d) -> safe U guard Q (now ≫= f) d.
Proof. exact (fun H => H). Qed.

Lemma safe_mutate {A} (Q : A -> db -> Prop) m f d :
  keeps_audit (CMutate m) ->
  (forall d1, db_ok d1 -> grows d d1 -> guard _ d1 (CMutate m)) ->
  (forall d1 fs r s', db_ok d1 -> grows d d1 -> run_call (CMutate m) (Session d1 fs) = (r, s') ->
     safe U guard Q (f r) (tables s')) ->
  safe U guard Q (mutate m ≫= f) d.
Proof. intros Hk HG H. split; [done|]. intros d1 Hok Hg. split; [auto|]. intros fs r s'. by apply H. Qed.

Lemma safe_enrollment {A} (Q : A -> db -> Prop) t f d :
  (forall d1 row, db_ok d1 -> grows d d1 -> enrollment d1 !! t = Some row ->
     safe U guard Q (f (Ok (scanEnrollment t row))) d1) ->
  (forall d1 e, db_ok d1 -> grows d d1 -> safe U guard Q (f (Err e)) d1) ->
  safe U guard Q (enrollment_call t ≫= f) d.
Proof.
  intros Hr He. split; [done|]. intros d1 Hok Hg. split; [done|]. intros fs r s' E.
  apply enrollment_call_inv in E as [-> H]. destruct r as [rec|e]; [|by apply He].
  destruct H as (row & Ht & ->). by apply Hr.
Qed.

Lemma safe_by_agent {A} (Q : A -> db -> Prop) a f d :
  (forall d1 t row, db_ok d1 -> grows d d1 -> enrollment d1 !! t = Some row -> en_agent_id row = a ->
     safe U guard Q (f (Ok (scanEnrollment t row))) d1) ->
  (forall d1 e, db_ok d1 -> grows d d1 -> safe U guard Q (f (Err e)) d1) ->
  safe U guard Q (by_agent_call a ≫= f) d.
Proof.
  intros Hr He. split; [done|]. intros d1 Hok Hg. split; [done|]. intros fs r s' E.
  apply by_agent_call_inv in E as [-> H]. destruct r as [rec|e]; [|by apply He].
  destruct H as (t & row & Ht & Ha & ->). by apply (Hr _ t).
Qed.

Lemma scanned_jwt row token :
  PermanentJWT (scanEnrollment token row) <> ""%string ->
  en_permanent_jwt row = Some (PermanentJWT (scanEnrollment token row)).
Proof. cbn. by destruct (en_permanent_jwt row). Qed.

Lemma halves_equal_row token row h d :
  db_ok d -> enrollment d !! token = Some row -> en_permanent_jwt row <> None ->
  halves_equal h (scanEnrollment token row) = true -> row_has h row.
Proof.
  intros Hok Ht Hj H. unfold halves_equal in H. res_inv. bool_to_prop. cbn in *.
  apply (ok_checks d Hok) in Ht. apply row_checks_spec in Ht as (_ & Hn & _).
  destruct (en_nats_public_key row) as [k|] eqn:E; [|by destruct Hj; apply Hn].
  unfold row_has. rewrite E. cbn in *. split; [congruence|]. auto.
Qed.

(** S1 refused: the token's halves are on record already. *)
Lemma already_recorded d token c a row :
  db_ok d -> enrollment d !! token = Some row ->
  effect (MCredential token c a) d = Err ErrAlreadyRecorded -> en_permanent_jwt row <> None.
Proof.
  intros Hok Ht HE Hj. pose proof (ok_checks d Hok _ _ Ht) as (Hst & Hn & _)%row_checks_spec.
  apply Hn in Hj as Hk. destruct Hst as [Hs|Hs].
  - destruct (credential_effect token c a d row Hok Ht Hs Hk) as [_ HE']. congruence.
  - destruct (ok_spent d Hok token row Ht Hs) as (x & _ & Hne & _). done.
Qed.

(** What [credential] has established when it records one: the token it records
    was minted here, for the key and the agent it is recorded with. *)
Definition credential_minted (token : string) (c : Credential) (d : db) : Prop :=
  exists row stamp id, enrollment d !! token = Some row
    /\ Agent stamp (sv_minter s) {| ak_ID := en_agent_id row; ak_PublicKey := cr_NATSPublicKey c |} = Ok id
    /\ cr_PermanentJWT c = id_JWT id.

Hypothesis CG_holds : forall t c d, credential_minted t c d -> CG t c d.

Lemma credential_safe token data row h d :
  db_ok d -> enrollment d !! token = Some row ->
  presents data token (en_agent_id row) h KindCredential ->
  (en_permanent_jwt row <> None -> en_permanent_jwt row <> Some ""%string -> row_has h row) ->
  safe U guard (answer_ok token data) (credential s (scanEnrollment token row) h) d.
Proof.
  intros Hok Ht Hp Hh. unfold credential. case_bool_decide as Hj; cbn [negb].
  2: { pose proof (scanned_jwt _ _ Hj) as Ej. split; [done|]. left. exists row, h. eexists.
       split_and!; try done. apply Hh; congruence. }
  apply safe_now. intros stamp. destruct (Agent stamp _ _) as [id|] eqn:Hid; [|done].
  apply safe_now. intros at1. apply safe_now. intros at2. apply safe_mutate; [done| |].
  { intros d1 _ Hg1. destruct (grows_row _ _ _ _ Hg1 Ht) as (row1 & Ht1 & Hev1). apply CG_holds.
    exists row1, stamp, id. rewrite (ev_agent _ _ Hev1). by split. }
  intros d1 fs r s1 Hok1 Hg1 E1.
  destruct (grows_row _ _ _ _ Hg1 Ht) as (row1 & Ht1 & Hev1).
  assert (Ea : en_agent_id row1 = en_agent_id row) by apply Hev1.
  cbn [scanEnrollment er_token TokenID AgentID] in E1 |- *.
  apply mutate_inv in E1 as [[-> _]|E1]; [done|].
  match type of E1 with context [effect (MCredential token ?c ?a) d1] => set (cr := c) in *; set (au := a) in * end.
  destruct (effect (MCredential token cr au) d1) as [d2|e] eqn:Eff; destruct E1 as [-> Htb].
  - rewrite Htb. cbn [effect] in Eff. rewrite Ht1 in Eff. case_match; [|done].
    apply fmap_ok_inv in Eff as (d3 & Hd3 & ->). case_match; [|done]. injection Hd3 as <-.
    split; [done|]. left. exists (credential_row cr row1), h, (id_JWT id).
    split; [cbn; by rewrite lookup_insert_eq|]. cbn. rewrite Ea. split_and!; try done.
  - destruct e; try done. apply safe_enrollment; [|done].
    intros d3 row3 Hok3 Hg3 Ht3.
    destruct (halves_equal _ _) eqn:He; cbn [negb]; [|done].
    pose proof (already_recorded d1 token cr au row1 Hok1 Ht1 Eff) as Hj1. rewrite Htb in Hg3.
    pose proof (ok_checks d1 Hok1 _ _ Ht1) as (_ & Hn1 & _)%row_checks_spec.
    destruct (grows_row _ _ _ _ Hg3 Ht1) as (row3' & Ht3' & Hev3). simplify_eq.
    assert (Hj3 : en_permanent_jwt row3 = en_permanent_jwt row1) by (apply Hev3; naive_solver).
    assert (Ea3 : en_agent_id row3 = en_agent_id row) by (rewrite <- Ea; apply Hev3).
    destruct (en_permanent_jwt row1) as [j|]; [|done].
    split; [done|]. left. exists row3, h, j. rewrite Ea3. cbn. rewrite Ea3, Hj3.
    split_and!; try done. eapply halves_equal_row; [exact Hok3 | done | by rewrite Hj3 | done].
Qed.

Lemma confirmation_safe token data row h d :
  db_ok d -> enrollment d !! token = Some row ->
  presents data token (en_agent_id row) h KindConfirmation ->
  (en_permanent_jwt row <> None -> en_permanent_jwt row <> Some ""%string -> row_has h row) ->
  safe U guard (answer_ok token data) (confirmation (scanEnrollment token row)) d.
Proof.
  intros Hok Ht Hp Hh d1 Hok1 Hg1 HU d2 Hok2 Hg2 _. cbn [safe scanEnrollment State er_token AgentID].
  case_bool_decide as Hs; cbn [negb]; [|done]. cbn in Hs.
  destruct (grows_row _ _ _ _ Hg1 Ht) as (row1 & Ht1 & Hev1). rewrite (ev_spent _ _ Hev1 Hs) in Ht1.
  destruct (grows_row _ _ _ _ Hg2 Ht1) as (row2 & Ht2 & Hev2). rewrite (ev_spent _ _ Hev2 Hs) in Ht2.
  destruct (ok_spent d2 Hok2 token row Ht2 Hs) as (a & Ha & Hj & _).
  split; [done|]. right. exists row, h, a. split_and!; try done; [by apply Hh|].
  exists d1. auto.
Qed.

Lemma handle_safe token data d :
  db_ok d -> safe U guard (answer_ok token data) (handle s token data) d.
Proof.
  intros Hok. unfold handle. apply safe_enrollment.
  2: { intros d1 e _ _. by destruct e. }
  intros d1 row Hok1 Hg1 Ht. cbn [scanEnrollment er_token AgentID State].
  destruct (OpenEnvelope _ _ _) as [e|] eqn:Hopen; [|done].
  case_bool_decide as Hcorr; cbn [negb]; [|done].
  destruct (strictJSON _ _ _) as [req|] eqn:Hreq; [|done].
  destruct (_ && _); [done|]. apply safe_now. intros t. unfold check_request.
  destruct (negb _); [done|]. destruct (parseHalves req) as [h|] eqn:Hh; [|done].
  destruct (Wire.Verify (verifying h) e) as [[]|] eqn:Hv; cbn [is_ok negb]; [|done].
  destruct (negb _ && negb _) eqn:Heq; [done|].
  assert (Hrow : en_permanent_jwt row <> None -> en_permanent_jwt row <> Some ""%string -> row_has h row).
  { intros Hj Hne. eapply halves_equal_row; [exact Hok1 | exact Ht | done|].
    apply andb_false_iff in Heq as [Heq|Heq]; apply negb_false_iff in Heq; [|done].
    apply bool_decide_eq_true in Heq. cbn in Heq. destruct (en_permanent_jwt row); cbn in Heq; congruence. }
  clear Heq. assert (Hpres : presents data token (en_agent_id row) h (rq_Kind req)) by (exists e, req; auto 10).
  case_bool_decide as Hk1; [rewrite Hk1 in Hpres; by apply credential_safe|].
  case_bool_decide as Hk2; [rewrite Hk2 in Hpres; by apply (confirmation_safe _ _ _ h)|]. done.
Qed.

Definition reply_ok (token : string) (data : bytes) (o : option Reply) (d : db) : Prop :=
  match o with None => True | Some rp => justified U token data rp d end.

Lemma respond_safe token data d :
  db_ok d -> safe U guard (reply_ok token data) (respond s token data) d.
Proof.
  intros Hok. unfold respond. eapply safe_bind; [by apply handle_safe | done |].
  intros [rp reason] d1 Hok1 Hg1 Ha. case_bool_decide as Hr.
  { destruct rp as [rp|]; [|done]. destruct Ha as [_ [Ha|Ha]]; [by left | by right; left]. }
  unfold deny. apply safe_now. intros t. apply safe_mutate; [done..|].
  intros d2 fs r s2 Hok2 Hg2 [[-> _]|[-> Htb]]%mutate_inv; [done|]. rewrite Htb. right; right.
  split; [done|]. eexists. split; [cbn; apply elem_of_app; right; by constructor|]. done.
Qed.

(** *** Presence *)

(** [data] is a presence of [agent], fresh by the clock's reading [t] and signed
    by the key [signing]. *)
Definition fresh_presence (data : bytes) (agent : string) (signing : bytes) (t : Time) : Prop :=
  exists e v, OpenEnvelope data ClassPresence agent = Ok e /\ ParseVerifyingKey signing = Ok v
    /\ Wire.Verify v e = Ok tt /\ Z.abs (t - Timestamp e) <= PresenceStaleness.

Lemma stale_bound t u :
  (PresenceStaleness <? t_sub t u) || (t_sub t u <? - PresenceStaleness) = false ->
  Z.abs (t - u) <= PresenceStaleness.
Proof.
  intros H. res_inv. bool_to_prop. unfold t_sub, min_int64, max_int64 in *.
  change PresenceStaleness with 120000000000 in *. lia.
Qed.

(** What [onPresence] has established when it activates a token. *)
Definition activation_justified (token : string) (a : AuditRecord) (d : db) : Prop :=
  exists row j sg data t, enrollment d !! token = Some row /\ Target a = Some (en_agent_id row)
    /\ en_permanent_jwt row = Some j /\ j <> ""%string /\ en_signing_public_key row = Some sg
    /\ fresh_presence data (en_agent_id row) sg t.

Lemma activation_justified_grows token a d d' :
  db_ok d -> grows d d' -> activation_justified token a d -> activation_justified token a d'.
Proof.
  intros Hok Hg (row & j & sg & data & t & Ht & Ha & Hj & Hne & Hs & Hf).
  destruct (grows_row _ _ _ _ Hg Ht) as (row' & Ht' & Hev).
  pose proof (ok_checks d Hok _ _ Ht) as (_ & Hn & _)%row_checks_spec.
  destruct (ev_halves _ _ Hev) as (_ & E2 & _ & E4); [intros E; apply Hn in E; congruence|].
  exists row', j, sg, data, t. rewrite (ev_agent _ _ Hev), E2, E4. auto 10.
Qed.

Hypothesis AG_holds : forall t a d, activation_justified t a d -> AG t a d.

Lemma reached_safe n agent d :
  safe U guard (fun _ _ => True) (reachedAfterActivation n agent) d.
Proof.
  revert d. induction n as [|n IH]; intros d; [done|]. cbn [reachedAfterActivation].
  apply safe_now. intros t. apply safe_mutate; [done..|]. intros d1 fs r s1 _ _ _. by destruct r.
Qed.

Lemma activate_safe n token row agent d :
  db_ok d -> (forall a, Target a = Some agent -> activation_justified token a d) ->
  safe U guard (fun _ _ => True) (activate s n (scanEnrollment token row) agent) d.
Proof.
  intros Hok HA. unfold activate. set (held := 0 <? sv_hold s).
  eapply (safe_bind U guard (fun _ _ => True)); [by destruct held | done |]. intros [] d1 Hok1 Hg1 _.
  pose proof (fun a Ha => activation_justified_grows _ _ _ _ Hok Hg1 (HA a Ha)) as HA1.
  apply safe_now. intros at1. apply safe_now. intros at2. apply safe_mutate; [done| |].
  { intros d2 Hok2 Hg2. apply AG_holds. by eapply activation_justified_grows, HA1. }
  intros d2 fs r s2 Hok2 Hg2 E. apply mutate_inv in E as E'.
  assert (Hok3 : db_ok (tables s2)) by (eapply (call_grows (CMutate _) (Session d2 fs)); [|exact Hok2 | exact E]; exact I).
  eapply (safe_bind U guard (fun _ _ => True)); [|exact Hok3|].
  - destruct r; [|done]. destruct held; [apply reached_safe | done].
  - intros [] d3 _ _ _. by destruct held.
Qed.

Lemma onPresence_safe n subject data d :
  db_ok d -> safe U guard (fun _ _ => True) (onPresence s n subject data) d.
Proof.
  intros Hok. unfold onPresence. destruct (Split_string subject dot) as [|a [|b [|agent [|c [|x l]]]]]; try done.
  apply safe_by_agent; [|done]. intros d1 token row Hok1 Hg1 Ht Ha.
  destruct (negb _ || _) eqn:Hg; [done|]. apply orb_false_iff in Hg as [_ Hj].
  apply bool_decide_eq_false in Hj. apply scanned_jwt in Hj as Hj'.
  destruct (OpenEnvelope _ _ _) as [e|] eqn:Hopen; [|done].
  destruct (ParseVerifyingKey _) as [v|] eqn:Hv; [|done].
  destruct (Wire.Verify v e) as [[]|] eqn:Hver; cbn [is_ok negb]; [|done].
  apply safe_now. intros t. destruct (_ || _) eqn:Hst; [done|]. apply stale_bound in Hst.
  apply activate_safe; [done|]. cbn [scanEnrollment SigningPublicKey] in Hv.
  destruct (en_signing_public_key row) as [sg|] eqn:Hsg; [|done].
  intros au Hau. exists row. do 2 eexists. exists data, t. subst agent. split_and!; try done. exists e, v. auto.
Qed.
End Rules.

(** ** The running service *)

(** What happens at the server: a request on a token's subject, a presence, and
    any other client's mutation of the store. *)
Inductive arrival :=
  | ARequest (token : string) (data : bytes)
  | APresence (attempts : nat) (subject : string) (data : bytes)
  | AOther (m : mutation).

(** Others neither activate tokens nor prune the audit log. *)
Definition arrival_ok (a : arrival) : Prop :=
  match a with
  | AOther (MActivate _ _ _) | AOther (MRetain _) => False
  | _ => True
  end.

(** The reply sent, with the token and the request it answers. *)
Definition handler (a : arrival) : prog (option (string * bytes * Reply)) :=
  match a with
  | ARequest token data =>
      rp ← respond s token data;
      Ret (match rp with Some rp => Some (token, data, rp) | None => None end)
  | APresence n subject data => _ ← onPresence s n subject data; Ret None
  | AOther m => _ ← mutate m; Ret None
  end.

Definition outcome_ok (U : db -> Prop) (o : option (string * bytes * Reply)) (d : db) : Prop :=
  match o with None => True | Some (token, data, rp) => justified U token data rp d end.

Lemma outcome_grows U o d d' : db_ok d' -> grows d d' -> outcome_ok U o d -> outcome_ok U o d'.
Proof. intros _ Hg. destruct o as [[[t b] rp]|]; [|done]. by apply justified_grows. Qed.

(** A reply goes out only to a request that came in. *)
Definition answers (as_ : list arrival) (o : option (string * bytes * Reply)) : Prop :=
  match o with None => True | Some (token, data, _) => ARequest token data ∈ as_ end.
Definition sent_ok U as_ o d : Prop := outcome_ok U o d /\ answers as_ o.

(** What others record of credentials is no concern. *)
Definition unchecked (token : string) (c : Credential) (d : db) : Prop := True.
(** The credentials other clients record meet [CG] as well. *)
Definition records (CG : string -> Credential -> db -> Prop) (a : arrival) : Prop :=
  match a with AOther (MCredential t c _) => forall d, CG t c d | _ => True end.

Lemma records_unchecked as_ : Forall (records unchecked) as_.
Proof. apply Forall_forall. intros [| |[]] _; try exact I. intros d. exact I. Qed.

Lemma handler_safe U CG as_ a d :
  (forall t c d, credential_minted t c d -> CG t c d) -> records CG a ->
  arrival_ok a -> a ∈ as_ -> db_ok d ->
  safe U (guard activation_justified CG) (sent_ok U as_) (handler a) d.
Proof.
  intros HC Hr Ha Hin Hok. destruct a as [token data|n subject data|m]; cbn [handler].
  - eapply safe_bind; [by apply respond_safe | done |].
    intros [rp|] d1 _ _ H; [exact (conj H Hin) | exact (conj I I)].
  - eapply safe_bind; [by apply onPresence_safe | done |]. intros [] d1 _ _ _. exact (conj I I).
  - apply safe_mutate; [by destruct m | | intros; exact (conj I I)].
    intros d1 _ _. destruct m; try done. apply Hr.
Qed.

Lemma service_run U CG (Inv : world -> list (prog (option (string * bytes * Reply))) -> Prop) as_ d0 w ps :
  (forall w ps i p w' p', Inv w ps -> db_ok (w_db w) ->
     safe U (guard activation_justified CG) (outcome_ok U) p (w_db w) ->
     ps !! i = Some p -> pstep w p w' p' -> Inv w' (<[i := p']> ps)) ->
  (forall w ps, Inv w ps -> w_writer w = false -> U (w_db w)) ->
  Inv (World d0 0 false) (map handler as_) ->
  (forall t c d, credential_minted t c d -> CG t c d) -> Forall (records CG) as_ ->
  db_ok d0 -> Forall arrival_ok as_ -> steps (World d0 0 false) (map handler as_) w ps ->
  Inv w ps /\ db_ok (w_db w) /\ grows d0 (w_db w)
  /\ Forall (fun p => safe U (guard activation_justified CG) (sent_ok U as_) p (w_db w)) ps.
Proof.
  intros HIs HIu HI HC Hr Hok Has Hsteps.
  assert (Hgrows : forall o d d', db_ok d' -> grows d d' -> sent_ok U as_ o d -> sent_ok U as_ o d').
  { intros o d d' Hok' Hg [Ho Ha]. split; [by eapply outcome_grows | done]. }
  eapply (steps_safe U (guard activation_justified CG) (sent_ok U as_) Hgrows Inv) in Hsteps; [done | | exact HIu | done | done |].
  - intros w1 ps1 i p w' p' H1 Hok1 Hs. apply (HIs w1 ps1 i p w' p' H1 Hok1).
    eapply safe_weaken; [exact Hs | by intros o d' [Ho _]].
  - apply Forall_forall. intros p (a & -> & Hin)%list_elem_of_fmap.
    rewrite Forall_forall in Has, Hr. by apply handler_safe; auto.
Qed.

Lemma service_run_any as_ d0 w ps :
  db_ok d0 -> Forall arrival_ok as_ -> steps (World d0 0 false) (map handler as_) w ps ->
  db_ok (w_db w) /\ grows d0 (w_db w)
  /\ Forall (fun p => safe (fun _ => True) (guard activation_justified unchecked) (sent_ok (fun _ => True) as_) p (w_db w)) ps.
Proof.
  intros Hok Has Hs.
  eapply (service_run (fun _ => True) unchecked (fun _ _ => True)) in Hs as (_ & ?); auto using records_unchecked.
  all: try done.
Qed.

(** C9. Whatever requests and presences arrive and however their handling
    interleaves, with engine faults at any call, every reply that is sent is
    justified by the store as it stands from then on.  A credential reply
    carries the JWT on record for the token, and answers a request signed by
    the very keys on record; a confirmation means the token is spent and the
    agent active; a denial means its audit record is in the log.  The store's
    invariant holds throughout. *)
Theorem replies_justified as_ d0 w ps :
  db_ok d0 -> Forall arrival_ok as_ -> steps (World d0 0 false) (map handler as_) w ps ->
  db_ok (w_db w) /\ grows d0 (w_db w)
  /\ forall i token data rp, ps !! i = Some (Ret (Some (token, data, rp))) ->
       justified (fun _ => True) token data rp (w_db w).
Proof.
  intros Hok Has Hs. destruct (service_run_any _ _ _ _ Hok Has Hs) as (H1 & H2 & H3).
  split; [done|]. split; [done|]. intros i token data rp Hi. exact (proj1 (Forall_lookup_1 _ _ _ _ H3 Hi)).
Qed.

Lemma credential_kind token data rp d :
  justified (fun _ => True) token data rp d -> rp_Kind rp = KindCredential ->
  credential_justified token data rp d.
Proof.
  intros [H|[(row & h & a & _ & _ & _ & _ & -> & _)|[-> _]]] Hk; [done | discriminate Hk | discriminate Hk].
Qed.

(** C5. One token, one credential: any two credential replies for a token, to
    whichever requests and however concurrently handled, name the same agent,
    carry the same JWT, and answered requests presenting the same three public
    halves. *)
Theorem one_credential_per_token as_ d0 w ps i1 i2 token data1 data2 rp1 rp2 :
  db_ok d0 -> Forall arrival_ok as_ -> steps (World d0 0 false) (map handler as_) w ps ->
  ps !! i1 = Some (Ret (Some (token, data1, rp1))) -> rp_Kind rp1 = KindCredential ->
  ps !! i2 = Some (Ret (Some (token, data2, rp2))) -> rp_Kind rp2 = KindCredential ->
  rp1 = rp2 /\ exists agent h1 h2,
    presents data1 token agent h1 KindCredential /\ presents data2 token agent h2 KindCredential
    /\ natsKey h1 = natsKey h2 /\ h_signing h1 = h_signing h2 /\ h_encryption h1 = h_encryption h2.
Proof.
  intros Hok Has Hs Hi1 Hk1 Hi2 Hk2. destruct (service_run_any _ _ _ _ Hok Has Hs) as (_ & _ & H).
  pose proof (credential_kind _ _ _ _ (proj1 (Forall_lookup_1 _ _ _ _ H Hi1)) Hk1)
    as (row1 & h1 & j1 & Ht1 & Hp1 & (A1 & B1 & C1) & Hj1 & ->).
  pose proof (credential_kind _ _ _ _ (proj1 (Forall_lookup_1 _ _ _ _ H Hi2)) Hk2)
    as (row2 & h2 & j2 & Ht2 & Hp2 & (A2 & B2 & C2) & Hj2 & ->).
  simplify_eq. split; [congruence|]. exists (en_agent_id row1), h1, h2. split_and!; congruence || done.
Qed.

End Promises.

(** ** A concrete enrollment *)

Definition demo_token : EnrollmentToken :=
  {| TokenID := "tok1"; AgentID := "edge-1"; AgentName := "web"; BootstrapPublicKey := "UB";
     IssuedAt := 1700000000 * Second; ExpiresAt := 1700000900 * Second; IssuedByUID := 1000 |}.
Definition demo_audit : AuditRecord :=
  audit_entry None (Some "edge-1"%string) ActionTokenIssued "issued" (1700000000 * Second).
Definition demo_db : db := tables (history [MIssue demo_token demo_audit] (Session empty_db [])).
Lemma demo_db_ok : db_ok demo_db.
Proof. apply history_step, empty_db_ok. Qed.

Definition demo_service (hold : Duration) : @Service ToyNkeys :=
  {| sv_minter := sample_minter; sv_hold := hold |}.

Definition demo_request (kind : string) : bytes :=
  json_Marshal (json_of_request
    {| rq_NATSPublicKey := "U61";
       rq_SigningPublicKey := EncodeKey (VerifyingKey_Bytes (Verifying toy_signer));
       rq_EncryptionPublicKey := EncodeKey (RecipientKey_Bytes (Recipient Encryption.toy_key));
       rq_Kind := kind |}).
Definition demo_sealed (class correlation : string) (payload : bytes) : bytes :=
  match Seal (SS := ToySignature) zero_read x01 toy_signer class "edge-1" correlation payload
          (1700000100 * Second) with
  | Ok b => b
  | Err _ => []
  end.
Definition demo_now : Time := 1700000101 * Second.

Abbreviation demo_handler hold :=
  (handler (SS := ToySignature) (ES := ToyEncryption) (J := ToyJwt) (demo_service hold)).

Definition ask (kind : string) : arrival :=
  ARequest "tok1" (demo_sealed ClassEnrollmentRequest "tok1" (demo_request kind)).
Definition prove_presence : arrival :=
  APresence 1 "ks.out.edge-1.presence" (demo_sealed ClassPresence "" (to_bytes "{}")).

Definition clock : list Time := repeat demo_now 8.

(** Two requests for the credential, both read before either is recorded; then
    a presence, and a request for the confirmation. *)
Definition demo_arrivals : list arrival :=
  [ask KindCredential; ask KindCredential; prove_presence; ask KindConfirmation].
Definition demo_start (hold : Duration) : list (prog (option (string * bytes * Reply))) :=
  map (demo_handler hold) demo_arrivals.
Definition demo_run (hold : Duration) (sch : list (nat * nat)) :=
  run_schedule sch (World demo_db 0 false) (demo_start hold) clock.
Lemma demo_run_steps hold sch :
  steps (World demo_db 0 false) (demo_start hold) (demo_run hold sch).1 (demo_run hold sch).2.
Proof. apply run_schedule_steps. Qed.
Lemma demo_arrivals_ok : Forall arrival_ok demo_arrivals.
Proof. repeat constructor. Qed.

Definition demo_data (kind : string) : bytes := demo_sealed ClassEnrollmentRequest "tok1" (demo_request kind).
Definition whole : list (nat * nat) := [(0, 1); (1, 1); (0, 20); (1, 20); (2, 20); (3, 20)]%nat.

(** What handler [i] sent. *)
Definition sent (hold : Duration) (i : nat) : option (string * bytes * Reply) :=
  p ← (demo_run hold whole).2 !! i; default None (finished p).
Definition reply_of (hold : Duration) (i : nat) : Reply :=
  match sent hold i with Some (_, _, rp) => rp | None => denied_reply end.
Definition sends (hold : Duration) (i : nat) (kind : string) : bool :=
  match (demo_run hold whole).2 !! i with
  | Some (Ret (Some (t, b, rp))) =>
      bool_decide (t = "tok1"%string) && bool_decide (b = demo_data kind) && bool_decide (rp_Kind rp = kind)
  | _ => false
  end.

Lemma sends_spec hold i kind :
  sends hold i kind = true ->
  (demo_run hold whole).2 !! i = Some (Ret (Some ("tok1"%string, demo_data kind, reply_of hold i)))
  /\ rp_Kind (reply_of hold i) = kind.
Proof.
  unfold sends, reply_of, sent. destruct (_ !! i) as [[[[[t b] rp]|]| | | |]|]; try done.
  intros H. res_inv. bool_to_prop. by subst.
Qed.

Lemma first_sends : sends 0 0 KindCredential = true.
Proof. vm_cast_no_check (@eq_refl bool true). Qed.
Lemma second_sends : sends 0 1 KindCredential = true.
Proof. vm_cast_no_check (@eq_refl bool true). Qed.
Lemma demo_first :
  (demo_run 0 whole).2 !! 0%nat = Some (Ret (Some ("tok1"%string, demo_data KindCredential, reply_of 0 0)))
  /\ rp_Kind (reply_of 0 0) = KindCredential.
Proof. exact (sends_spec 0 0 KindCredential first_sends). Qed.
Lemma demo_second :
  (demo_run 0 whole).2 !! 1%nat = Some (Ret (Some ("tok1"%string, demo_data KindCredential, reply_of 0 1)))
  /\ rp_Kind (reply_of 0 1) = KindCredential.
Proof. exact (sends_spec 0 1 KindCredential second_sends). Qed.
(** The presence handler stopped right before S4's write. *)
Definition until_write : list (nat * nat) := [(0, 20); (2, 4)]%nat.
Definition write_of (p : option (prog (option (string * bytes * Reply)))) : option (string * Time * AuditRecord) :=
  match p with
  | Some (Call c _) => match c with CMutate (MActivate t a r) => Some (t, a, r) | _ => None end
  | _ => None
  end.
Lemma write_of_spec p t a r :
  write_of p = Some (t, a, r) -> exists k, p = Some (Call (CMutate (MActivate t a r)) k).
Proof.
  destruct p as [[x|B c k|k|g k|]|]; cbn; try done. destruct c as [| |[]]; try done.
  intros [= -> -> ->]. by eexists.
Qed.
Definition demo_entry : AuditRecord := audit_entry None (Some "edge-1"%string) ActionActivated "active" demo_now.
Lemma demo_writes : write_of ((demo_run 0 until_write).2 !! 2%nat) = Some ("tok1"%string, demo_now, demo_entry).
Proof. vm_cast_no_check (@eq_refl _ (Some ("tok1"%string, demo_now, demo_entry))). Qed.
Lemma demo_at_write :
  exists k, (demo_run 0 until_write).2 !! 2%nat = Some (Call (CMutate (MActivate "tok1" demo_now demo_entry)) k).
Proof. exact (write_of_spec ((demo_run 0 until_write).2 !! 2%nat) "tok1" demo_now demo_entry demo_writes). Qed.

Lemma replies_justified_witness :
  justified (SS := ToySignature) (ES := ToyEncryption) (K := ToyNkeys) (fun _ => True)
    "tok1" (demo_data KindCredential) (reply_of 0 0) (w_db (demo_run 0 whole).1).
Proof.
  exact (proj2 (proj2 (replies_justified (J := ToyJwt) (demo_service 0) demo_arrivals demo_db
    (demo_run 0 whole).1 (demo_run 0 whole).2
    demo_db_ok demo_arrivals_ok (demo_run_steps 0 whole))) 0%nat _ _ _ (proj1 demo_first)).
Defined.

Lemma one_credential_witness : reply_of 0 0 = reply_of 0 1.
Proof.
  exact (proj1 (one_credential_per_token (J := ToyJwt) (demo_service 0) demo_arrivals demo_db
    (demo_run 0 whole).1 (demo_run 0 whole).2
    0 1 "tok1" _ _ _ _ demo_db_ok demo_arrivals_ok (demo_run_steps 0 whole)
    (proj1 demo_first) (proj2 demo_first) (proj1 demo_second) (proj2 demo_second))).
Defined.

