(* ===== verification/Hold.v ===== *)
(** * The activation hold

    With [enrollment_server_hold_after_activation_commit_ms] on, [onPresence]
    closes the service's gate around S4's write and opens it only once the record
    of the hold reached is in the log; the confirmation branch of [handle] passes
    through the gate.  The theorem: no confirmation outruns the record. *)
From S2P Require Import Prelude GoBytes GoTime GoText Vocabulary Primitives Toy Keys Envelope Signature Encryption Headers.
From S2P Require Import Json Sql Store Subjects Limits Nats Mint Wire Issue Handlers Service.

(** ** The protocol

    With the hold on, every handler keeps to a protocol of the gate, which
    [tracks] follows along its calls: it activates only inside the gate, and
    leaves the gate only once the record of the hold reached is in the log. *)

Inductive phase := Free | Holding (pending : option string).
#[export] Instance phase_eq_dec : EqDecision phase.
Proof. solve_decision. Defined.

Definition is_reached (agent : string) (a : AuditRecord) : bool :=
  bool_decide (Target a = Some agent)
  && bool_decide (Action a = ActionFaultReached +:+ FaultHoldAfterActivation).

Definition allowed (ph : phase) {B} (c : call B) : Prop :=
  match c with
  | CMutate (MActivate _ _ _) => ph = Holding None
  | CMutate (MRetain _) => False
  | _ => True
  end.

(** The token a call activated waits for its record; the record settles it. *)
Definition next_phase (ph : phase) {B} (c : call B) (r : result store_err B) : phase :=
  if is_ok r then
    match c with
    | CMutate (MActivate _ _ a) => Holding (Target a)
    | CMutate (MAudit a) =>
        match ph with
        | Holding (Some ag) => if is_reached ag a then Holding None else ph
        | _ => ph
        end
    | _ => ph
    end
  else ph.

Definition gate_phase (g : gate_op) (ph : phase) : option phase :=
  match g, ph with
  | Lock, Free => Some (Holding None)
  | Unlock, Holding None => Some Free
  | RLock, Free | RUnlock, Free => Some Free
  | _, _ => None
  end.

Section Tracking.
Context {A : Type}.

Fixpoint tracks (ph : phase) (p : prog A) (post : phase -> A -> Prop) : Prop :=
  match p with
  | Ret a => post ph a
  | Call c k => allowed ph c /\ forall r, tracks (next_phase ph c r) (k r) post
  | Now k => forall t, tracks ph (k t) post
  | Gate g k => match gate_phase g ph with Some ph' => tracks ph' k post | None => False end
  | Spin => True
  end.
End Tracking.

Lemma tracks_bind {A B} (post1 : phase -> A -> Prop) (post : phase -> B -> Prop) ph p f :
  tracks ph p post1 -> (forall ph' a, post1 ph' a -> tracks ph' (f a) post) ->
  tracks ph (p ≫= f) post.
Proof.
  change (p ≫= f) with (pbind p f). revert ph.
  induction p as [a|C c k IH|k IH|g k IH|]; intros ph H Hf; cbn [pbind tracks] in *; eauto.
  - destruct H as [Ha Hk]. split; eauto.
  - destruct (gate_phase g ph); eauto.
Qed.

(** One rule per call. *)
Lemma tracks_now {A} (post : phase -> A -> Prop) ph f :
  (forall t, tracks ph (f t) post) -> tracks ph (now ≫= f) post.
Proof. exact (fun H => H). Qed.
Lemma tracks_mutate {A} (post : phase -> A -> Prop) ph m f :
  allowed ph (CMutate m) -> (forall r, tracks (next_phase ph (CMutate m) r) (f r) post) ->
  tracks ph (mutate m ≫= f) post.
Proof. intros Ha H. split; [exact Ha | exact H]. Qed.
Lemma tracks_enrollment {A} (post : phase -> A -> Prop) ph t f :
  (forall r, tracks ph (f r) post) -> tracks ph (enrollment_call t ≫= f) post.
Proof. intros H. split; [exact I|]. intros r. unfold next_phase. destruct (is_ok r); apply H. Qed.
Lemma tracks_by_agent {A} (post : phase -> A -> Prop) ph a f :
  (forall r, tracks ph (f r) post) -> tracks ph (by_agent_call a ≫= f) post.
Proof. intros H. split; [exact I|]. intros r. unfold next_phase. destruct (is_ok r); apply H. Qed.

Definition disciplined {A} (ph : phase) (p : prog A) : Prop := tracks ph p (fun ph _ => ph = Free).

Section Hold.
Context `{SS : SignatureScheme} `{ES : EncryptionScheme} {K : Nkeys} {J : Jwt K}.
Context (s : Service) (Hhold : 0 < sv_hold s).

(** A handler that only reads and records stays outside the gate. *)
Ltac outside :=
  repeat first
    [ done
    | progress cbn [tracks mbind prog_bind pbind gate_phase gate now mutate enrollment_call by_agent_call
                    next_phase allowed]
    | split | intros ? | case_match ].

Lemma credential_tracks rec h : tracks Free (credential s rec h) (fun ph _ => ph = Free).
Proof. unfold credential. outside. Qed.
Lemma confirmation_tracks rec : tracks Free (confirmation rec) (fun ph _ => ph = Free).
Proof. unfold confirmation. outside. Qed.
Lemma respond_tracks token data : tracks Free (respond s token data) (fun ph _ => ph = Free).
Proof.
  unfold respond. eapply (tracks_bind (fun ph _ => ph = Free)).
  - unfold handle, check_request. apply tracks_enrollment. intros [rec|[]]; try done.
    destruct (OpenEnvelope _ _ _) as [e|]; [|done]. destruct (negb _); [done|].
    destruct (strictJSON _ _ _) as [req|]; [|done]. destruct (_ && _); [done|].
    apply tracks_now. intros t. destruct (negb _); [done|].
    destruct (parseHalves _) as [h|]; [|done]. destruct (negb _); [done|]. destruct (_ && _); [done|].
    destruct (bool_decide _); [apply credential_tracks|].
    destruct (bool_decide _); [apply confirmation_tracks | done].
  - intros ph [rp reason] ->. unfold deny. outside.
Qed.

Lemma reached_tracks n agent :
  tracks (Holding (Some agent)) (reachedAfterActivation n agent) (fun ph _ => ph = Holding None).
Proof.
  induction n as [|n IH]; [done|]. cbn [reachedAfterActivation].
  apply tracks_now. intros t. apply tracks_mutate; [done|]. intros [[]|e]; [|exact IH].
  cbn [next_phase is_ok tracks]. unfold is_reached. cbn [audit_entry Target Action].
  by rewrite !bool_decide_eq_true_2.
Qed.

Lemma onPresence_tracks n subject data :
  tracks Free (onPresence s n subject data) (fun ph _ => ph = Free).
Proof.
  unfold onPresence. destruct (Split_string subject dot) as [|a [|b [|agent [|c [|x l]]]]]; try done.
  apply tracks_by_agent. intros [rec|e]; [|done].
  destruct (negb _ || _); [done|]. destruct (OpenEnvelope _ _ _) as [e|]; [|done].
  destruct (ParseVerifyingKey _) as [v|]; [|done]. destruct (negb _); [done|].
  apply tracks_now. intros t. destruct (_ || _); [done|].
  unfold activate. rewrite (proj2 (Z.ltb_lt _ _) Hhold).
  apply (tracks_bind (fun ph _ => ph = Holding None)); [done|]. intros ph [] ->.
  apply tracks_now. intros at1. apply tracks_now. intros at2. apply tracks_mutate; [done|].
  intros [[]|e']; cbn [next_phase is_ok audit_entry Target]; [|done].
  apply (tracks_bind (fun ph _ => ph = Holding None)); [apply reached_tracks|]. by intros ph [] ->.
Qed.

Lemma handler_tracks a : arrival_ok a -> disciplined Free (handler s a).
Proof.
  intros Ha. unfold disciplined. destruct a as [token data|n subject data|m]; cbn [handler].
  - apply (tracks_bind (fun ph _ => ph = Free)); [apply respond_tracks|]. by intros ph [rp|] ->.
  - apply (tracks_bind (fun ph _ => ph = Free)); [apply onPresence_tracks|]. by intros ph [] ->.
  - split; [by destruct m|]. intros r. cbn. unfold next_phase. by destruct m, (is_ok r).
Qed.

(** *** The invariant of the running system *)

Definition reached_recorded (agent : string) (d : db) : Prop :=
  exists a, a ∈ audit d /\ au_target a = Some agent
    /\ au_action a = ActionFaultReached +:+ FaultHoldAfterActivation.

(** Every token spent in this run has its hold on record, or is the one whose
    handler is inside the gate. *)
Definition spent_recorded (d0 d : db) (phs : list phase) : Prop :=
  forall t row, enrollment d !! t = Some row -> en_state row = TokenSpent ->
    enrollment d0 !! t = Some row \/ reached_recorded (en_agent_id row) d
    \/ Holding (Some (en_agent_id row)) ∈ phs.

(** At most one handler is inside, and only while the gate is closed. *)
Definition gate_ok (w : world) (phs : list phase) : Prop :=
  (w_writer w = false /\ Forall (fun ph => ph = Free) phs)
  \/ (w_writer w = true /\ exists i pend, phs !! i = Some (Holding pend)
      /\ forall j ph, phs !! j = Some ph -> j <> i -> ph = Free).

Definition hold_inv (d0 : db) (w : world) (ps : list (prog (option (string * bytes * Reply)))) : Prop :=
  exists phs, Forall2 disciplined phs ps /\ gate_ok w phs /\ spent_recorded d0 (w_db w) phs.

Definition all_recorded (d0 d : db) : Prop := spent_recorded d0 d [].

Lemma hold_unlocked d0 w ps : hold_inv d0 w ps -> w_writer w = false -> all_recorded d0 (w_db w).
Proof.
  intros (phs & _ & [[_ Hf]|[Hw _]] & Hr) Hw0; [|congruence].
  intros t row Ht Hs. destruct (Hr t row Ht Hs) as [H|[H|H]]; auto.
  rewrite Forall_forall in Hf. by apply Hf in H.
Qed.

(** *** The invariant is kept *)

Lemma effect_spent m d d' t row :
  db_ok d -> effect m d = Ok d' -> enrollment d' !! t = Some row -> en_state row = TokenSpent ->
  enrollment d !! t = Some row
  \/ exists at_ a r0, m = MActivate t at_ a /\ enrollment d !! t = Some r0 /\ en_agent_id r0 = en_agent_id row.
Proof.
  intros Hok HE Ht Hs. destruct m as [r|r|a|tok a|u c a|u at_ a|b].
  - cbn [effect] in HE. unfold insert_job in HE. case_match; [done|]. injection HE as <-. by left.
  - cbn [effect] in HE. destruct (jobs d !! _); [|done]. unfold insert_result in HE.
    case_match; [done|]. case_match; [|done]. injection HE as <-. by left.
  - injection HE as <-. by left.
  - cbn [effect] in HE. case_match; [done|]. apply fmap_ok_inv in HE as (d1 & Hd1 & ->).
    unfold insert_enrollment in Hd1. case_match; [|done]. injection Hd1 as <-. cbn in Ht.
    apply lookup_insert_Some in Ht as [[_ <-]|[_ Ht]]; [discriminate Hs | by left].
  - cbn [effect] in HE. destruct (enrollment d !! u) as [r|] eqn:Hu; [|done].
    destruct (_ && _) eqn:Hg; [|done]. apply fmap_ok_inv in HE as (d1 & Hd1 & ->).
    case_match; [|done]. injection Hd1 as <-. cbn in Ht. res_inv. bool_to_prop.
    assert (TokenIssued <> TokenSpent) by done.
    apply lookup_insert_Some in Ht as [[_ <-]|[_ Ht]]; [cbn in Hs; congruence | by left].
  - destruct (activate_inv _ _ _ _ _ HE) as (r & j & sg & e & Hr & Hst & Hj & Hne & Hsg & He).
    rewrite (activate_effect u at_ a d r j sg e) in HE by done. injection HE as <-. cbn in Ht.
    apply lookup_insert_Some in Ht as [[<- <-]|[_ Ht]]; [right | by left].
    exists at_, a, r. auto.
  - injection HE as <-. by left.
Qed.

Lemma call_spent {B} (c : call B) d fs r s' t row :
  db_ok d -> run_call c (Session d fs) = (r, s') ->
  enrollment (tables s') !! t = Some row -> en_state row = TokenSpent ->
  enrollment d !! t = Some row
  \/ exists a r0, next_phase (Holding None) c r = Holding (Target a)
     /\ (guard activation_justified unchecked B d c -> activation_justified t a d)
     /\ enrollment d !! t = Some r0 /\ en_agent_id r0 = en_agent_id row
     /\ forall ph, next_phase ph c r = Holding (Target a).
Proof.
  intros Hok HE Ht Hs. destruct c as [u|g|m].
  - apply enrollment_call_inv in HE as [HE _]. rewrite HE in Ht. by left.
  - apply by_agent_call_inv in HE as [HE _]. rewrite HE in Ht. by left.
  - apply mutate_inv in HE as [[_ HE]|HE]; [rewrite HE in Ht; by left|].
    destruct (effect m d) as [d'|e] eqn:Eff; destruct HE as [-> HE]; rewrite HE in Ht; [|by left].
    destruct (effect_spent m d d' t row Hok Eff Ht Hs) as [H|(at_ & a & r0 & -> & H0 & Ha)]; [by left|right].
    exists a, r0. repeat split; auto.
Qed.

Lemma next_free {B} (c : call B) r : allowed Free c -> next_phase Free c r = Free.
Proof. unfold next_phase. by destruct (is_ok r), c as [| |[]]. Qed.
Lemma next_holding {B} (c : call B) r p : exists p', next_phase (Holding p) c r = Holding p'.
Proof. unfold next_phase. destruct (is_ok r), c as [| |[]], p; try case_match; eauto. Qed.

(** The one inside settles its token only by putting the record in the log. *)
Lemma next_settles {B} (c : call B) d fs r s' agent :
  allowed (Holding (Some agent)) c -> run_call c (Session d fs) = (r, s') ->
  next_phase (Holding (Some agent)) c r = Holding (Some agent)
  \/ reached_recorded agent (tables s').
Proof.
  intros Hal HE. destruct c as [u|g|m].
  1-2: left; unfold next_phase; by destruct (is_ok r).
  apply mutate_inv in HE as [[-> _]|HE]; [by left|].
  destruct (effect m d) as [d'|e] eqn:Eff; destruct HE as [-> HE]; [|by left].
  unfold next_phase. cbn [is_ok]. destruct m as [| |a| | | |]; try (by left).
  destruct (is_reached agent a) eqn:Hr; [right | by left].
  injection Eff as <-. unfold reached_recorded. rewrite HE. clear HE.
  unfold is_reached in Hr. res_inv. bool_to_prop. eexists. split; [cbn; apply elem_of_app; right; by constructor|]. done.
Qed.

Lemma gate_ok_call w w' phs i ph ph' :
  gate_ok w phs -> w_writer w' = w_writer w -> phs !! i = Some ph ->
  (ph = Free -> ph' = Free) -> (forall p, ph = Holding p -> exists p', ph' = Holding p') ->
  gate_ok w' (<[i := ph']> phs).
Proof.
  intros [[Hw Hf]|(Hw & k & pend & Hk & Ho)] Hw' Hi Hfree Hin.
  - left. split; [congruence|]. apply Forall_insert; [done|]. apply Hfree. by eapply Forall_lookup_1 in Hf.
  - right. split; [congruence|]. destruct (decide (i = k)) as [->|Hne].
    + rewrite Hk in Hi. injection Hi as <-. destruct (Hin _ eq_refl) as [p' ->].
      exists k, p'. split; [by apply list_lookup_insert_eq, lookup_lt_is_Some; eauto|].
      intros j q Hj Hjk. rewrite list_lookup_insert_ne in Hj by done. by eapply Ho.
    + exists k, pend. rewrite list_lookup_insert_ne by done. split; [done|].
      intros j q Hj Hjk. destruct (decide (j = i)) as [->|].
      * rewrite list_lookup_insert_eq in Hj by (apply lookup_lt_is_Some; eauto). injection Hj as <-.
        apply Hfree. by eapply Ho.
      * rewrite list_lookup_insert_ne in Hj by done. by eapply Ho.
Qed.

Lemma gate_ok_step g w w' phs i ph ph' :
  gate_ok w phs -> phs !! i = Some ph -> gate_step g w = Some w' -> gate_phase g ph = Some ph' ->
  gate_ok w' (<[i := ph']> phs).
Proof.
  intros HG Hi Hs Hp.
  assert (Hlen : (i < length phs)%nat) by (apply lookup_lt_is_Some; eauto).
  destruct g, ph as [|[q|]]; try discriminate Hp; injection Hp as <-; cbn in Hs.
  - destruct (w_writer w) eqn:Hw; [done|]. injection Hs as <-.
    eapply gate_ok_call; [exact HG | by rewrite Hw | exact Hi | done | done].
  - destruct (w_readers w); [done|]. injection Hs as <-.
    eapply gate_ok_call; [exact HG | done | exact Hi | done | done].
  - destruct (w_writer w) eqn:Hw; [done|]. cbn in Hs. case_match; [done|]. injection Hs as <-.
    destruct HG as [[_ Hf]|[? _]]; [|congruence]. right. split; [done|].
    exists i, None. split; [by apply list_lookup_insert_eq|].
    intros j p Hj Hji. rewrite list_lookup_insert_ne in Hj by done. by eapply Forall_lookup_1 in Hf.
  - destruct (w_writer w) eqn:Hw; [|done]. injection Hs as <-.
    destruct HG as [[? _]|(_ & k & pend & Hk & Ho)]; [congruence|]. left. split; [done|].
    assert (i = k) as ->.
    { destruct (decide (i = k)); [done|]. by specialize (Ho i _ Hi ltac:(done)). }
    apply Forall_lookup_2. intros j p Hj. destruct (decide (j = k)) as [->|Hne].
    + rewrite list_lookup_insert_eq in Hj by done. by injection Hj as <-.
    + rewrite list_lookup_insert_ne in Hj by done. by eapply Ho.
Qed.

Lemma recorded_grows agent d d' : grows d d' -> reached_recorded agent d -> reached_recorded agent d'.
Proof. intros [_ [l E]] (a & Hin & H). exists a. rewrite E. split; [set_solver | done]. Qed.

Lemma holding_insert (phs : list phase) i ph ph' agent :
  phs !! i = Some ph -> Holding (Some agent) ∈ phs -> ph <> Holding (Some agent) ->
  Holding (Some agent) ∈ <[i := ph']> phs.
Proof.
  intros Hi (j & Hj)%list_elem_of_lookup Hne. apply list_elem_of_lookup. exists j.
  rewrite list_lookup_insert_ne; [done|]. intros ->. congruence.
Qed.

Lemma spent_recorded_call {B} (c : call B) d0 d fs r s' phs i ph :
  db_ok d -> keeps_audit c -> guard activation_justified unchecked B d c -> allowed ph c ->
  run_call c (Session d fs) = (r, s') -> phs !! i = Some ph ->
  spent_recorded d0 d phs -> spent_recorded d0 (tables s') (<[i := next_phase ph c r]> phs).
Proof.
  intros Hok Hk HG Hal HE Hi Hr t row Ht Hs.
  assert (Hlen : (i < length phs)%nat) by (apply lookup_lt_is_Some; eauto).
  destruct (call_spent c d fs r s' t row Hok HE Ht Hs) as [Hold|(a & r0 & _ & Hj & H0 & Ha & Hn)].
  - destruct (call_grows c (Session d fs) r s' Hk Hok HE) as [_ Hg].
    destruct (Hr t row Hold Hs) as [H|[H|H]]; [by left | right; left; by eapply recorded_grows|].
    right. destruct (decide (ph = Holding (Some (en_agent_id row)))) as [->|Hne].
    + destruct (next_settles c d fs r s' _ Hal HE) as [->|Hrec]; [right | by left].
      by rewrite list_insert_id.
    + right. by eapply holding_insert.
  - right; right. rewrite Hn. destruct (Hj HG) as (r1 & _ & _ & _ & _ & H1 & Hta & _).
    rewrite H0 in H1. injection H1 as <-. rewrite Hta, Ha. apply list_elem_of_lookup. exists i.
    by apply list_lookup_insert_eq.
Qed.

Lemma hold_step d0 w ps i p w' p' :
  hold_inv d0 w ps -> db_ok (w_db w) ->
  safe (all_recorded d0) (guard activation_justified unchecked) (outcome_ok (all_recorded d0)) p (w_db w) ->
  ps !! i = Some p -> pstep w p w' p' -> hold_inv d0 w' (<[i := p']> ps).
Proof.
  intros (phs & Hd & HG & Hr) Hok Hsafe Hi Hstep.
  destruct (Forall2_lookup_r _ _ _ _ _ Hd Hi) as (ph & Hph & Hdp).
  destruct Hstep as [w B c k fs r s' E|w k t|w g k w' E].
  - destruct Hsafe as [Hk Hc]. destruct (Hc _ Hok ltac:(reflexivity)) as [Hgd _].
    destruct Hdp as [Hal Hnext]. exists (<[i := next_phase ph c r]> phs). split_and!.
    + by apply Forall2_insert; [|apply Hnext].
    + eapply gate_ok_call; [exact HG | done | exact Hph | intros ->; by apply next_free|].
      intros q ->. apply next_holding.
    + by eapply spent_recorded_call.
  - exists phs. split_and!; [|done..]. rewrite <- (list_insert_id phs i ph) by done.
    apply Forall2_insert; [done | apply Hdp].
  - cbn [disciplined tracks] in Hdp. unfold disciplined in Hdp. cbn [tracks] in Hdp.
    destruct (gate_phase g ph) as [ph'|] eqn:Hp; [|done].
    exists (<[i := ph']> phs). split_and!.
    + by apply Forall2_insert.
    + by eapply gate_ok_step.
    + assert (Hdb : w_db w' = w_db w) by (destruct g; cbn in E; repeat case_match; naive_solver).
      rewrite Hdb. intros t row Ht Hs. destruct (Hr t row Ht Hs) as [H|[H|H]]; auto.
      right; right. eapply holding_insert; [exact Hph | exact H|]. intros ->. by destruct g.
Qed.

End Hold.

(** ** A held activation *)

Lemma held_sends : sends 1 3 KindConfirmation = true.
Proof. vm_cast_no_check (@eq_refl bool true). Qed.
Lemma demo_held :
  (demo_run 1 whole).2 !! 3%nat = Some (Ret (Some ("tok1"%string, demo_data KindConfirmation, reply_of 1 3)))
  /\ rp_Kind (reply_of 1 3) = KindConfirmation.
Proof. exact (sends_spec 1 3 KindConfirmation held_sends). Qed.

