(* ===== verification/Effects.v ===== *)
(** * Programs that may stop anywhere

    A program that acts on the outside is a tree of its calls.  [play] runs one
    against answers the outside gives; [exec] is every way it may run.  [wpc] is
    the proof rule, with an invariant that holds before and after every call:
    what a crash at any point leaves behind. *)
From S2P Require Import Prelude.

Inductive io (C : Type -> Type) (A : Type) : Type :=
  | Return (a : A)
  | Do {B : Type} (c : C B) (k : B -> io C A)
  (** a retry loop that has not ended yet *)
  | Looping.
Arguments Return {C A} a.
Arguments Do {C A B} c k.
Arguments Looping {C A}.

Section Programs.
Context {C : Type -> Type}.

Fixpoint io_then {A B} (p : io C A) (f : A -> io C B) : io C B :=
  match p with
  | Return a => f a
  | Do c k => Do c (fun b => io_then (k b) f)
  | Looping => Looping
  end.

(** A call by itself. *)
Definition perform {B} (c : C B) : io C B := Do c Return.

(** Go's [if err != nil { return err }]. *)
Definition io_try {E A B} (p : io C (result E A)) (f : A -> io C (result E B)) : io C (result E B) :=
  io_then p (fun r => match r with Ok a => f a | Err e => Return (Err e) end).
End Programs.
#[export] Instance io_ret C : MRet (io C) := @Return C.
#[export] Instance io_bind C : MBind (io C) := fun A B f p => io_then p f.
Notation "x ←? p ; q" := (io_try p (fun x => q)) (at level 20, p at level 100, q at level 200, right associativity).
Notation "'call?' p ; q" := (io_try p (fun _ => q)) (at level 20, p at level 100, q at level 200, right associativity).

(** The calls of a program renamed. *)
Fixpoint io_map {C D : Type -> Type} (h : forall B, C B -> D B) {A} (p : io C A) : io D A :=
  match p with
  | Return a => Return a
  | Do c k => Do (h _ c) (fun b => io_map h (k b))
  | Looping => Looping
  end.

Section Running.
Context {C : Type -> Type} {W F : Type}.
(** One call, answered as the outside's choice [F] has it. *)
Context (run : forall B, F -> W -> C B -> B * W).

Inductive exec {A} : W -> io C A -> W -> io C A -> Prop :=
  | exec_refl w p : exec w p w p
  | exec_call w B (c : C B) k f w1 w2 p2 :
      exec (run B f w c).2 (k (run B f w c).1) w1 p2 -> w2 = w1 -> exec w (Do c k) w2 p2.

(** The run against a list of answers. *)
Fixpoint play {A} (fs : list F) (w : W) (p : io C A) : W * io C A :=
  match fs, p with
  | f :: fs', Do c k => let '(b, w') := run _ f w c in play fs' w' (k b)
  | _, _ => (w, p)
  end.

Lemma play_exec {A} fs w (p : io C A) : exec w p (play fs w p).1 (play fs w p).2.
Proof.
  revert w p. induction fs as [|f fs IH]; intros w p; [constructor|].
  destruct p as [a|B c k|]; [constructor | | constructor]. cbn [play].
  destruct (run B f w c) as [b w'] eqn:E. eapply (exec_call _ _ _ _ f); [|reflexivity]. rewrite E. apply IH.
Qed.

(** The run when every call is answered the same way; [None] when it loops. *)
Fixpoint run_with {A} (f : F) (p : io C A) (w : W) : option (A * W) :=
  match p with
  | Return a => Some (a, w)
  | Do c k => let '(b, w') := run _ f w c in run_with f (k b) w'
  | Looping => None
  end.

Lemma run_with_then {A B} f (p : io C A) (q : A -> io C B) w a w' :
  run_with f p w = Some (a, w') -> run_with f (p ≫= q) w = run_with f (q a) w'.
Proof.
  change (p ≫= q) with (io_then p q).
  revert w. induction p as [x|D c k IH|]; intros w; cbn [run_with io_then]; [by intros [= -> ->] | | done].
  destruct (run D f w c) as [b w1]. apply IH.
Qed.

Lemma run_with_try {E A B} f (p : io C (result E A)) (q : A -> io C (result E B)) w a w' :
  run_with f p w = Some (Ok a, w') -> run_with f (io_try p q) w = run_with f (q a) w'.
Proof. apply (run_with_then f p (fun r => match r with Ok a => q a | Err e => Return (Err e) end)). Qed.

Lemma run_with_ret {A B} f (p : io C A) (g : A -> B) w a w' :
  run_with f p w = Some (a, w') -> run_with f (p ≫= fun r => Return (g r)) w = Some (g a, w').
Proof. apply (run_with_then f p (fun r => Return (g r))). Qed.

Lemma run_with_exec {A} f (p : io C A) w a w' : run_with f p w = Some (a, w') -> exec w p w' (Return a).
Proof.
  revert w. induction p as [x|D c k IH|]; intros w; cbn [run_with]; [intros [= -> ->]; constructor | | done].
  intros Hr. eapply (exec_call _ _ _ _ f); [|reflexivity]. destruct (run D f w c) as [b w1]. by apply IH.
Qed.

(** ** The proof rule *)

Fixpoint wpc {A} (I : W -> Prop) (p : io C A) (Q : A -> W -> Prop) (w : W) : Prop :=
  I w /\ match p with
         | Return a => Q a w
         | Do c k => forall f, wpc I (k (run _ f w c).1) Q (run _ f w c).2
         | Looping => True
         end.

Lemma wpc_now {A} I (p : io C A) Q w : wpc I p Q w -> I w.
Proof. destruct p; by intros [H _]. Qed.

Lemma wpc_exec {A} I Q w (p : io C A) w' p' : exec w p w' p' -> wpc I p Q w -> wpc I p' Q w'.
Proof. induction 1 as [|w B c k f w1 w2 p2 _ IH ->]; [done|]. intros [_ H]. by apply IH. Qed.

Lemma exec_trans {A} w (p : io C A) w1 p1 w2 p2 : exec w p w1 p1 -> exec w1 p1 w2 p2 -> exec w p w2 p2.
Proof. induction 1 as [|w B c k f w1 w2' p' _ IH ->]; [done|]. intros He. by eapply exec_call; [apply IH|]. Qed.

(** A run is at a place the run reaches, and returns what it returns. *)
Lemma wpc_reach {A} w0 (p0 : io C A) :
  wpc (fun w => exists p, exec w0 p0 w p) p0 (fun a w => exec w0 p0 w (Return a)) w0.
Proof.
  enough (forall p w, exec w0 p0 w p -> wpc (fun w => exists p, exec w0 p0 w p) p (fun a w => exec w0 p0 w (Return a)) w) as H
    by apply H, exec_refl.
  intros p. induction p as [a|B c k IH|]; intros w He; cbn [wpc]; (split; [by eexists|]); [done | | done].
  intros f. apply IH. eapply exec_trans; [exact He|]. by eapply exec_call; [apply exec_refl|].
Qed.

(** Whatever the outside answers, the program returns, and with [Q]. *)
Fixpoint returns {A} (p : io C A) (Q : A -> W -> Prop) (w : W) : Prop :=
  match p with
  | Return a => Q a w
  | Do c k => forall f, returns (k (run _ f w c).1) Q (run _ f w c).2
  | Looping => False
  end.

Lemma returns_then {A B} (p : io C A) (f : A -> io C B) (Q : B -> W -> Prop) w :
  returns p (fun a w' => returns (f a) Q w') w -> returns (p ≫= f) Q w.
Proof.
  change (p ≫= f) with (io_then p f).
  revert w. induction p as [a|D c k IH|]; intros w Hr; cbn [io_then returns] in *; eauto.
Qed.

Lemma returns_mono {A} (p : io C A) (Q Q' : A -> W -> Prop) w :
  (forall a w, Q a w -> Q' a w) -> returns p Q w -> returns p Q' w.
Proof. intros HQ. revert w. induction p as [a|D c k IH|]; intros w Hr; cbn [returns] in *; eauto. Qed.

(** Against any answers without end, after so many of them. *)
Lemma returns_stream {A} (p : io C A) (Q : A -> W -> Prop) w (fates : nat -> F) :
  returns p Q w -> exists n a w', play (map fates (seq 0 n)) w p = (w', Return a) /\ Q a w'.
Proof.
  revert w fates. induction p as [a|D c k IH|]; intros w fates Hr; [by exists 0%nat, a, w | | done].
  destruct (IH _ _ (fun i => fates (S i)) (Hr (fates 0%nat))) as (n & a & w' & Hp & HQ).
  exists (S n), a, w'. split; [|done]. cbn [seq map play]. rewrite <- seq_shift, map_map.
  by destruct (run D (fates 0%nat) w c).
Qed.

Lemma wpc_mono {A} (I I' : W -> Prop) (p : io C A) (Q Q' : A -> W -> Prop) w :
  (forall w, I w -> I' w) -> (forall a w, I w -> Q a w -> Q' a w) -> wpc I p Q w -> wpc I' p Q' w.
Proof.
  intros HI HQ. revert w. induction p as [a|B c k IH|]; intros w [H1 H2]; cbn [wpc]; eauto.
Qed.

Lemma wpc_both {A} I I' (p : io C A) (Q Q' : A -> W -> Prop) w :
  wpc I p Q w -> wpc I' p Q' w -> wpc (fun w => I w /\ I' w) p (fun a w => Q a w /\ Q' a w) w.
Proof. revert w. induction p as [a|B c k IH|]; intros w [H1 H2] [H1' H2']; cbn [wpc]; eauto. Qed.

Lemma wpc_then {A B} I (p : io C A) (f : A -> io C B) (Q : B -> W -> Prop) w :
  wpc I p (fun a w' => I w' -> wpc I (f a) Q w') w -> wpc I (p ≫= f) Q w.
Proof.
  change (p ≫= f) with (io_then p f).
  revert w. induction p as [a|D c k IH|]; intros w [H1 H2]; cbn [io_then wpc]; eauto.
Qed.

(** The call's answer and what it does, one at a time. *)
Lemma wpc_call {A B} I (c : C B) (f : B -> io C A) Q w :
  I w -> (forall x, wpc I (f (run B x w c).1) Q (run B x w c).2) -> wpc I (perform c ≫= f) Q w.
Proof. by split. Qed.

Lemma wpc_try {E A B} I (p : io C (result E A)) (f : A -> io C (result E B)) Q w :
  wpc I p (fun r w' => I w' -> match r with Ok a => wpc I (f a) Q w' | Err e => Q (Err e) w' end) w ->
  wpc I (io_try p f) Q w.
Proof.
  intros H. apply wpc_then. eapply wpc_mono; [done | | exact H].
  intros [a|e] w' HI HQ; cbn; auto.
Qed.

Lemma wpc_try_call {E A B} I (c : C (result E A)) (f : A -> io C (result E B)) Q w :
  I w -> (forall x, match (run _ x w c).1 with
                    | Ok a => wpc I (f a) Q (run _ x w c).2
                    | Err e => I (run _ x w c).2 /\ Q (Err e) (run _ x w c).2
                    end) ->
  wpc I (io_try (perform c) f) Q w.
Proof.
  intros HI H. split; [exact HI|]. intros x. specialize (H x). cbn [io_then perform]. by case_match.
Qed.
End Running.

(** A part's program run in the whole's world: what holds of the part's world
    holds of the whole's if the whole only ever sees it through the part. *)
Section Lifting.
Context {C D : Type -> Type} {W V F G : Type}.
Context (run : forall B, F -> W -> C B -> B * W) (run' : forall B, G -> V -> D B -> B * V).
Context (h : forall B, C B -> D B) (get : V -> W) (put : W -> V -> V) (pick : G -> F).
Hypothesis run_lift : forall B x v (c : C B),
  run' B x v (h B c) = ((run B (pick x) (get v) c).1, put (run B (pick x) (get v) c).2 v).
Hypothesis get_put : forall w v, get (put w v) = w.
Hypothesis put_put : forall w w' v, put w (put w' v) = put w v.
Hypothesis put_get : forall v, put (get v) v = v.

Lemma wpc_lift {A} I J (p : io C A) Q R v :
  (forall w, I w -> J (put w v)) -> (forall a w, I w -> Q a w -> R a (put w v)) ->
  wpc run I p Q (get v) -> wpc run' J (io_map h p) R v.
Proof.
  intros HI HQ. enough (forall w, wpc run I p Q w -> wpc run' J (io_map h p) R (put w v)) as H.
  { intros Hw. rewrite <- (put_get v). by apply H. }
  induction p as [a|B c k IH|]; intros w [H1 H2]; cbn [io_map wpc]; (split; [by apply HI|]); [by apply HQ | | done].
  intros x. rewrite run_lift, get_put, put_put. cbn. by apply IH.
Qed.

Lemma run_with_lift {A} x (p : io C A) v a w :
  run_with run (pick x) p (get v) = Some (a, w) -> run_with run' x (io_map h p) v = Some (a, put w v).
Proof.
  enough (forall u, run_with run (pick x) p u = Some (a, w) -> run_with run' x (io_map h p) (put u v) = Some (a, put w v)) as H.
  { intros Hr. rewrite <- (put_get v) at 1. by apply H. }
  induction p as [y|B c k IH|]; intros u; cbn [io_map run_with]; [by intros [= -> ->] | | done].
  rewrite run_lift, get_put, put_put. destruct (run B (pick x) u c) as [b w1]. apply IH.
Qed.
End Lifting.

(** A renamed program taken a part at a time. *)
Lemma wpc_map_then {C D : Type -> Type} {W F A B} (run : forall B, F -> W -> D B -> B * W) (h : forall B, C B -> D B)
    I (p : io C A) (f : A -> io C B) Q w :
  wpc run I (io_map h p) (fun a w' => I w' -> wpc run I (io_map h (f a)) Q w') w -> wpc run I (io_map h (io_then p f)) Q w.
Proof. revert w. induction p as [a|X c k IH|]; intros w [H1 H2]; cbn [io_then io_map wpc]; eauto. Qed.

Lemma wpc_map_try {C D : Type -> Type} {W F E A B} (run : forall B, F -> W -> D B -> B * W) (h : forall B, C B -> D B)
    I (p : io C (result E A)) (f : A -> io C (result E B)) Q w :
  wpc run I (io_map h p) (fun r w' => I w' -> match r with Ok a => wpc run I (io_map h (f a)) Q w' | Err e => Q (Err e) w' end) w ->
  wpc run I (io_map h (io_try p f)) Q w.
Proof.
  intros H. apply wpc_map_then. eapply wpc_mono; [done | | exact H]. intros [a|e] w' HI HQ; cbn; auto.
Qed.
