(* ===== verification/Socket.v ===== *)
(** * The operator socket: frames, dispatch and the client

    Models the part of [internal/operator] that runs on one authorized
    connection: [serveAuthorized], [dispatch], [writeFrame] and [writeError] of
    [server.go], and [Call] of [client.go].  The server is a program over the
    connection and the handlers; the client reads one answer. *)
From S2P Require Import Prelude GoBytes GoTime Json Config Effects.

Definition SocketDir : string := "/run/keystone".
Definition SocketPath : string := "/run/keystone/operator.sock".

Definition ErrAuthorizationDenied : string := "authorization_denied".
Definition ErrUnknownOperation : string := "unknown_operation".
Definition ErrFrameTooLarge : string := "frame_too_large".
Definition ErrConnectionLimit : string := "connection_limit".
Definition ErrInvalidRequest : string := "invalid_request".

(** The authorized peer. *)
Record Actor := { UID : Z; UsernameSnapshot : option string }.

(** A response as [json.Marshal] sees it: [None] cannot be marshalled. *)
Abbreviation response := (option json).
(** [(response any, errorCode string)]; the first is nil or a response. *)
Abbreviation reply := (option response * string)%type.

Section Socket.
(** What handlers act on: the store, and whatever else may move between two
    requests. *)
Context {S : Type}.

(** A handler answers one request in one step of the shared state: the only one
    the server registers makes one transaction. *)
Definition Handler : Type := Actor -> bytes -> S -> reply * S.

(** ** Calls of a connection *)

Inductive conn_call : Type -> Type :=
  | ReadFull (n : Z) : conn_call (option bytes)
  | WriteAll (b : bytes) : conn_call bool
  | Sleep (d : Duration) : conn_call unit
  | Invoke (h : Handler) (actor : Actor) (body : bytes) : conn_call reply.

Definition frame (body : bytes) : bytes := put_uint32 (uint32 (zlen body)) ++ body.

Definition writeFrame (v : response) : io conn_call bool :=
  match v with
  | None => Return false
  | Some v => perform (WriteAll (frame (json_Marshal v)))
  end.

Definition error_body (code : string) : json := JObj (member "error" (jstring code)).
Definition writeError (code : string) : io conn_call unit :=
  _ ← perform (WriteAll (frame (json_Marshal (error_body code)))); Return tt.

(** ** Requests *)

Record op_request := { rq_Op : string }.
Definition op_fields : struct_fields op_request := [("op"%string, set_string (fun x _ => {| rq_Op := x |}))].

Definition dispatch (handlers : gmap string Handler) (actor : Actor) (body : bytes) : io conn_call reply :=
  match (v ← json_Unmarshal body; decode_struct false op_fields v {| rq_Op := "" |}) with
  | None => Return (None, ErrUnknownOperation)
  | Some request =>
      match handlers !! rq_Op request with
      | None => Return (None, ErrUnknownOperation)
      | Some h => perform (Invoke h actor body)
      end
  end.

(** The loop, for the frames of one connection: [n] of them at most. *)
Fixpoint serveAuthorized (cfg : Server) (handlers : gmap string Handler) (n : nat) (actor : Actor)
  : io conn_call unit :=
  match n with
  | O => Looping
  | Datatypes.S n' =>
      prefix ← perform (ReadFull 4);
      match prefix with
      | None => Return tt
      | Some prefix =>
          let n := get_uint32 prefix in
          if op_MaxFrameBytes (sc_Operator cfg) <? n then writeError ErrFrameTooLarge
          else
            body ← perform (ReadFull n);
            match body with
            | None => Return tt
            | Some body =>
                answer ← dispatch handlers actor body;
                let '(response, code) := answer in
                match response, is_empty code with
                | None, true => Return tt
                | _, _ =>
                    let d := OperatorHoldBeforeResponse (sc_Faults cfg) in
                    _ ← (if 0 <? d then perform (Sleep d) else Return tt);
                    match response, is_empty code with
                    | Some response, true =>
                        ok ← writeFrame response;
                        if (ok : bool) then serveAuthorized cfg handlers n' actor else Return tt
                    | _, _ =>
                        _ ← writeError code; serveAuthorized cfg handlers n' actor
                    end
                end
            end
      end
  end.

(** ** A connection *)

(** What the peer has sent and will send, what it was sent, the fate of the
    writes to come (how many bytes the next one takes before it fails, if it
    does), and what the handlers act on. *)
Record conn := Conn { incoming : bytes; outgoing : bytes; writes : list (option Z); state : S }.

Definition write_to (b : bytes) (w : conn) : bool * conn :=
  match writes w with
  | Some n :: ws => (false, Conn (incoming w) (outgoing w ++ take (Z.to_nat n) b) ws (state w))
  | ws => (true, Conn (incoming w) (outgoing w ++ b) (tail ws) (state w))
  end.

(** Others' effects on the shared state before a handler runs: [F]. *)
Definition run_conn (B : Type) (f : S -> S) (w : conn) (c : conn_call B) : B * conn :=
  match c with
  | ReadFull n =>
      if n <=? zlen (incoming w)
      then (Some (take (Z.to_nat n) (incoming w)),
            Conn (drop (Z.to_nat n) (incoming w)) (outgoing w) (writes w) (state w))
      else (None, Conn [] (outgoing w) (writes w) (state w))
  | WriteAll b => write_to b w
  | Sleep _ => (tt, w)
  | Invoke h actor body =>
      let '(r, s) := h actor body (f (state w)) in
      (r, Conn (incoming w) (outgoing w) (writes w) s)
  end.
End Socket.
Arguments Handler S : clear implicits.
Arguments conn_call S _ : clear implicits.
Arguments conn S : clear implicits.

(** ** The client ([client.go]) *)

Definition maxResponse : Z := 2 ^ 20.

Inductive dial_err := EACCES | EPERM | ENOENT | ECONNREFUSED | ENOTDIR | OtherDial.

Inductive call_err :=
  | CannotMarshal
  | ErrUnauthorized
  | ErrNoServer
  | ConnectError
  | ErrNoResponse
  | ResponseTooLarge (n : Z)
  | MalformedError
  | ServerError (code : string)
  | UndecodableResponse.

(** The members of [map[string]json.RawMessage], the last of a name counting. *)
Definition raw_members (v : json) : option (list (bytes * json)) :=
  match v with
  | JNull => Some []
  | JObj ms => Some ms
  | _ => None
  end.
Definition last_member (k : bytes) (ms : list (bytes * json)) : option json :=
  last (map snd (filter (fun m => m.1 = k) ms)).

(** The error frame, if the response is one: a single name, [error]. *)
Definition error_member (resp : bytes) : option json :=
  v ← json_Unmarshal resp;
  ms ← raw_members v;
  if bool_decide (remove_dups (map fst ms) = [to_bytes "error"]) then last_member (to_bytes "error") ms else None.

(** Unmarshalling into a string. *)
Definition string_of (v : json) : option string :=
  match v with
  | JNull => Some ""%string
  | JStr s => Some (of_bytes s)
  | _ => None
  end.

(** What the client makes of what it can read after its request. *)
Definition read_response {A} (decode : bytes -> option A) (stream : bytes) : result call_err A :=
  _ ← ensure (4 <=? zlen stream) ErrNoResponse;
  let n := get_uint32 (take 4 stream) in
  _ ← ensure (negb (maxResponse <? n)) (ResponseTooLarge n);
  _ ← ensure (n <=? zlen (drop 4 stream)) ErrNoResponse;
  let resp := take (Z.to_nat n) (drop 4 stream) in
  match error_member resp with
  | Some raw =>
      code ← of_option (string_of raw) MalformedError;
      if bool_decide (code = ErrAuthorizationDenied) then Err ErrUnauthorized else Err (ServerError code)
  | None => of_option (decode resp) UndecodableResponse
  end.

(** [Call]: the peer acts on what was written and leaves something to read; a
    write error changes neither. *)
Definition Call {W A} (request : response) (dial : result dial_err (bytes -> W -> bytes * W))
  (decode : bytes -> option A) (w : W) : result call_err A * W :=
  match json_Marshal <$> request with
  | None => (Err CannotMarshal, w)
  | Some body =>
      match dial with
      | Err (EACCES | EPERM) => (Err ErrUnauthorized, w)
      | Err (ENOENT | ECONNREFUSED | ENOTDIR) => (Err ErrNoServer, w)
      | Err OtherDial => (Err ConnectError, w)
      | Ok peer => let '(stream, w) := peer (frame body) w in (read_response decode stream, w)
      end
  end.

(** ** What a connection comes to *)

Section Reference.
Context {S : Type} (cfg : Server) (handlers : gmap string (Handler S)) (f : S -> S) (actor : Actor).
Implicit Types (w : conn S).

(** The operation a request names. *)
Definition operation (body : bytes) : option string :=
  v ← json_Unmarshal body; rq_Op <$> decode_struct false op_fields v {| rq_Op := "" |}.

(** The answer to one request, in the state it finds. *)
Definition answer (body : bytes) (s : S) : reply * S :=
  match operation body ≫= fun op => handlers !! op with
  | Some h => h actor body (f s)
  | None => ((None, ErrUnknownOperation), s)
  end.

(** The bytes an answer puts on the connection, if any can be. *)
Definition answer_bytes (r : reply) : option bytes :=
  match r with
  | (Some response, ""%string) => (fun v => frame (json_Marshal v)) <$> response
  | (None, ""%string) => None
  | (_, code) => Some (frame (json_Marshal (error_body code)))
  end.

(** The requests answered one after the other, each in the state the one before
    left, until one is not answered or an answer cannot be written; a refusal
    that cannot be written is not noticed.  Whether the connection is still
    open. *)
Fixpoint answer_all (bodies : list bytes) (w : conn S) : conn S * bool :=
  match bodies with
  | [] => (w, true)
  | b :: bodies' =>
      let '(r, s) := answer b (state w) in
      let w := Conn (incoming w) (outgoing w) (writes w) s in
      match answer_bytes r with
      | None => (w, false)
      | Some out =>
          let '(ok, w) := write_to out w in
          if ok || negb (is_empty r.2) then answer_all bodies' w else (w, false)
      end
  end.

(** A whole frame within the bound; what is left when there is none. *)
Definition fits (b : bytes) : Prop := zlen b <= op_MaxFrameBytes (sc_Operator cfg) /\ zlen b < 2 ^ 32.
Definition too_large (tail : bytes) : bool := (4 <=? zlen tail) && (op_MaxFrameBytes (sc_Operator cfg) <? get_uint32 (take 4 tail)).
Definition no_frame (tail : bytes) : Prop :=
  zlen tail < 4 \/ too_large tail = true \/ zlen (drop 4 tail) < get_uint32 (take 4 tail).

(** The frames of what was received, and what is left after them. *)
Definition framed (inp : bytes) (bodies : list bytes) (tail : bytes) : Prop :=
  inp = concat (map frame bodies) ++ tail /\ Forall fits bodies /\ no_frame tail.

Definition finish (tail : bytes) (r : conn S * bool) : conn S :=
  let '(w, open) := r in
  if open && too_large tail then (write_to (frame (json_Marshal (error_body ErrFrameTooLarge))) w).2 else w.

Definition drained (w : conn S) : conn S := Conn [] (outgoing w) (writes w) (state w).

(** ** The loop is its reference *)

Abbreviation runs := (run_with run_conn f).

Lemma run_write b w : runs (perform (WriteAll b)) w = Some (write_to b w).
Proof. cbn. by destruct (write_to b w). Qed.

Lemma run_call B (c : conn_call S B) A (k : B -> io (conn_call S) A) w :
  runs (perform c ≫= k) w = runs (k (run_conn B f w c).1) (run_conn B f w c).2.
Proof. change (perform c ≫= k) with (Do c (fun b => io_then (Return b) k)). cbn. by destruct (run_conn B f w c). Qed.

Lemma run_refusal code w : runs (writeError code) w = Some (tt, (write_to (frame (json_Marshal (error_body code))) w).2).
Proof. unfold writeError. by rewrite run_call. Qed.

Lemma run_writeError code A (k : unit -> io (conn_call S) A) w :
  runs (writeError code ≫= k) w = runs (k tt) (write_to (frame (json_Marshal (error_body code))) w).2.
Proof. exact (run_with_then run_conn f _ k _ _ _ (run_refusal code w)). Qed.

Lemma run_dispatch body w :
  runs (dispatch handlers actor body) w
  = let '(r, s) := answer body (state w) in Some (r, Conn (incoming w) (outgoing w) (writes w) s).
Proof.
  unfold dispatch, answer, operation. destruct (json_Unmarshal body) as [v|]; cbn [mbind option_bind fmap option_fmap option_map];
    [|by destruct w].
  destruct (decode_struct _ _ _ _) as [rq|]; cbn [mbind option_bind fmap option_fmap option_map]; [|by destruct w].
  destruct (handlers !! rq_Op rq) as [h|]; [|by destruct w]. cbn. by destruct (h actor body (f (state w))).
Qed.

Lemma drained_write b w : drained (write_to b w).2 = (write_to b (drained w)).2 /\ (write_to b w).1 = (write_to b (drained w)).1.
Proof. destruct w as [i o [|[n|] ws] s]; done. Qed.

(** One request answered, and what is left to do. *)
Lemma run_one n body w :
  exists w', drained w' = (answer_all [body] (drained w)).1 /\ incoming w' = incoming w /\
  runs (answer ← dispatch handlers actor body;
        let '(response, code) := answer in
        match response, is_empty code with
        | None, true => Return tt
        | _, _ =>
            let d := OperatorHoldBeforeResponse (sc_Faults cfg) in
            _ ← (if 0 <? d then perform (Sleep d) else Return tt);
            match response, is_empty code with
            | Some response, true =>
                ok ← writeFrame response;
                if (ok : bool) then serveAuthorized cfg handlers n actor else Return tt
            | _, _ => _ ← writeError code; serveAuthorized cfg handlers n actor
            end
        end) w
  = if (answer_all [body] (drained w)).2 then runs (serveAuthorized cfg handlers n actor) w' else Some (tt, w').
Proof.
  assert (Hsleep : forall A (k : io (conn_call S) A) w,
    runs (_ ← (if 0 <? OperatorHoldBeforeResponse (sc_Faults cfg) then perform (Sleep (OperatorHoldBeforeResponse (sc_Faults cfg)))
      else Return tt); k) w = runs k w).
  { intros A k w0. destruct (0 <? _); [|done]. by rewrite run_call. }
  cbn [answer_all]. change (state (drained w)) with (state w).
  pose proof (run_dispatch body w) as HD. destruct (answer body (state w)) as [[resp code] s].
  erewrite run_with_then by exact HD. set (w1 := Conn (incoming w) (outgoing w) (writes w) s).
  change (Conn (incoming (drained w)) (outgoing (drained w)) (writes (drained w)) s) with (drained w1). cbv zeta.
  cbn [fst snd]. unfold is_empty.
  destruct (decide (code = ""%string)) as [->|Hc]; [change (bool_decide (""%string = ""%string)) with true|rewrite !(bool_decide_eq_false_2 _ Hc)].
  - destruct resp as [resp|]; [|by exists w1]. rewrite Hsleep. cbn [answer_bytes].
    destruct resp as [v|]; cbn [fmap option_fmap option_map writeFrame]; [|by exists w1].
    rewrite run_call. change (run_conn bool f w1 (WriteAll ?b)) with (write_to b w1).
    pose proof (drained_write (frame (json_Marshal v)) w1) as [H1 H2].
    destruct (write_to _ (drained w1)) as [ok w2] eqn:E. cbn [fst snd] in *.
    exists (write_to (frame (json_Marshal v)) w1).2. rewrite H2. cbn [negb snd]. rewrite orb_false_r.
    assert (incoming (write_to (frame (json_Marshal v)) w1).2 = incoming w) by (by destruct w as [i o [|[k|] ws] s0]).
    destruct ok; done.
  - assert (answer_bytes (resp, code) = Some (frame (json_Marshal (error_body code)))) as ->
      by (destruct resp, code; done).
    pose proof (drained_write (frame (json_Marshal (error_body code))) w1) as [H1 H2].
    destruct (write_to _ (drained w1)) as [ok w2] eqn:E. cbn [fst snd negb] in *. rewrite orb_true_r. cbn [snd fst].
    exists (write_to (frame (json_Marshal (error_body code))) w1).2. split; [done|]. split; [by destruct w as [i o [|[k|] ws] s0]|].
    destruct resp; rewrite Hsleep, run_writeError; done.
Qed.

Lemma answer_all_cons b bs w :
  answer_all (b :: bs) w
  = if (answer_all [b] w).2 then answer_all bs (answer_all [b] w).1 else ((answer_all [b] w).1, false).
Proof.
  cbn [answer_all]. destruct (answer b (state w)) as [r s]. destruct (answer_bytes r) as [out|]; [|done].
  destruct (write_to out _) as [ok w1]. by destruct (ok || _).
Qed.

Lemma frame_taken inp :
  4 <= zlen inp -> get_uint32 (take 4 inp) <= zlen (drop 4 inp) ->
  let k := get_uint32 (take 4 inp) in
  inp = frame (take (Z.to_nat k) (drop 4 inp)) ++ drop (Z.to_nat k) (drop 4 inp)
  /\ zlen (take (Z.to_nat k) (drop 4 inp)) = k /\ 0 <= k < 2 ^ 32.
Proof.
  intros H4 Hk k. assert (zlen (take 4 inp) = 4) as Ht by (apply (zlen_take 4); lia).
  pose proof (be_get_uint32_range _ Ht) as Hr. fold k in Hr, Hk.
  assert (zlen (take (Z.to_nat k) (drop 4 inp)) = k) as Hz by (apply zlen_take; lia).
  split; [|done]. unfold frame. rewrite Hz, uint32_small by done. unfold k at 1. rewrite put_uint32_get by done.
  by rewrite <- app_assoc, take_drop, take_drop.
Qed.

Lemma serve_runs n w :
  zlen (incoming w) < 4 * Z.of_nat n ->
  exists bodies tail w', framed (incoming w) bodies tail
    /\ runs (serveAuthorized cfg handlers n actor) w = Some (tt, w')
    /\ drained w' = finish tail (answer_all bodies (drained w)).
Proof.
  revert w. induction n as [|n IH]; intros w Hn; [pose proof (zlen_nonneg (incoming w)); lia|].
  cbn [serveAuthorized]. rewrite run_call. cbn [run_conn].
  destruct (Z.leb_spec 4 (zlen (incoming w))) as [H4|H4]; cbn [fst snd].
  2:{ exists [], (incoming w), (Conn [] (outgoing w) (writes w) (state w)).
      split; [split; [done|]; split; [constructor | by left]|]. split; [done|]. cbn [answer_all finish andb].
      unfold too_large. by rewrite (proj2 (Z.leb_gt _ _)) by done. }
  change (Z.to_nat 4) with 4%nat. set (k := get_uint32 (take 4 (incoming w))). cbv zeta.
  destruct (op_MaxFrameBytes (sc_Operator cfg) <? k) eqn:Hmax.
  { exists [], (incoming w), (write_to (frame (json_Marshal (error_body ErrFrameTooLarge)))
      (Conn (drop 4 (incoming w)) (outgoing w) (writes w) (state w))).2.
    assert (too_large (incoming w) = true) as Ht by (unfold too_large; fold k; by rewrite Hmax, (proj2 (Z.leb_le _ _))).
    split; [split; [done|]; split; [constructor | by right; left]|]. split.
    - exact (run_refusal _ _).
    - rewrite (proj1 (drained_write _ _)). cbn [answer_all finish]. by rewrite Ht. }
  rewrite run_call. cbn [run_conn incoming outgoing writes state].
  destruct (Z.leb_spec k (zlen (drop 4 (incoming w)))) as [Hk|Hk]; cbn [fst snd].
  2:{ exists [], (incoming w), (Conn [] (outgoing w) (writes w) (state w)).
      split; [split; [done|]; split; [constructor | by right; right]|]. split; [done|]. cbn [answer_all finish andb].
      unfold too_large. fold k. by rewrite Hmax, andb_false_r. }
  pose proof (frame_taken (incoming w) H4 Hk) as (Hinp & Hz & Hr). fold k in Hinp, Hz, Hr.
  set (body := take (Z.to_nat k) (drop 4 (incoming w))) in *. set (rest := drop (Z.to_nat k) (drop 4 (incoming w))) in *.
  set (w0 := Conn rest (outgoing w) (writes w) (state w)).
  destruct (run_one n body w0) as (w1 & Hw1 & Hin & Hrun). cbv zeta in Hrun. rewrite Hrun. clear Hrun. change (drained w0) with (drained w) in *.
  assert (Hf : fits body) by (split; [rewrite Hz; by apply Z.ltb_ge | lia]).
  assert (zlen rest < 4 * Z.of_nat n) as Hlt.
  { rewrite Hinp, zlen_app in Hn. unfold frame in Hn. rewrite zlen_app, zlen_put_uint32 in Hn.
    pose proof (zlen_nonneg body). lia. }
  destruct (answer_all [body] (drained w)).2 eqn:Eok.
  - destruct (IH w1) as (bs & tl & w' & (H1 & H2 & H3) & H4' & H5); [by rewrite Hin|].
    exists (body :: bs), tl, w'. split; [split; [|by split; [constructor|]]|split; [done|]].
    + cbn [map concat]. rewrite <- app_assoc, <- H1, Hin. exact Hinp.
    + by rewrite answer_all_cons, Eok, <- Hw1.
  - (* what follows was not read; it has its own frames *)
    destruct (IH (Conn rest (outgoing w) (writes w) (state w)) Hlt) as (bs & tl & _ & (H1 & H2 & H3) & _).
    exists (body :: bs), tl, w1. split; [split; [|by split; [constructor|]]|split; [done|]].
    + cbn [map concat]. rewrite <- app_assoc. cbn [incoming] in H1. rewrite <- H1. exact Hinp.
    + rewrite answer_all_cons, Eok. cbn [finish andb]. done.
Qed.

(** There is one way to cut what was received into frames. *)
Lemma no_frame_frame b r : fits b -> ~ no_frame (frame b ++ r).
Proof.
  intros [Hm Hb]. pose proof (zlen_nonneg b). unfold no_frame, too_large, frame. rewrite <- app_assoc.
  rewrite (take_app_exact 4), (drop_app_exact 4) by apply zlen_put_uint32.
  rewrite be_get_put_uint32, !uint32_small by (rewrite ?uint32_small; lia).
  rewrite !zlen_app, zlen_put_uint32. pose proof (zlen_nonneg r).
  rewrite (proj2 (Z.ltb_ge _ _)) by done. rewrite andb_false_r. intros [?|[?|?]]; [lia | done | lia].
Qed.

Lemma frame_inj b b' r r' : fits b -> fits b' -> frame b ++ r = frame b' ++ r' -> b = b' /\ r = r'.
Proof.
  intros [_ Hb] [_ Hb'] E. pose proof (zlen_nonneg b). pose proof (zlen_nonneg b').
  unfold frame in E. rewrite <- !app_assoc in E.
  apply app_inj_zlen in E as [E1 E2]; [|by rewrite !zlen_put_uint32].
  apply (f_equal be_get) in E1. rewrite !be_get_put_uint32, !uint32_small in E1 by (rewrite ?uint32_small; lia).
  by apply app_inj_zlen in E2.
Qed.

Lemma framed_unique inp bs tl bs' tl' : framed inp bs tl -> framed inp bs' tl' -> bs = bs' /\ tl = tl'.
Proof.
  revert inp bs'. induction bs as [|b bs IH]; intros inp [|b' bs'] (E & Hb & Ht) (E' & Hb' & Ht').
  - split; [done|]. cbn in *. congruence.
  - apply Forall_cons in Hb' as [Hf _]. destruct (no_frame_frame b' (concat (map frame bs') ++ tl') Hf).
    cbn [map concat app] in E, E'. rewrite app_assoc, <- E', E. done.
  - apply Forall_cons in Hb as [Hf _]. destruct (no_frame_frame b (concat (map frame bs) ++ tl) Hf).
    cbn [map concat app] in E, E'. rewrite app_assoc, <- E, E'. done.
  - apply Forall_cons in Hb as [Hf Hb], Hb' as [Hf' Hb']. cbn [map concat] in E, E'. rewrite <- app_assoc in E, E'.
    rewrite E in E'. apply frame_inj in E' as [-> E']; [|done..].
    destruct (IH (concat (map frame bs) ++ tl) bs') as [-> ->]; done.
Qed.
End Reference.


(** ** One request over the socket *)

(** What a client can read after writing [req] on a fresh authorized
    connection. *)
Definition served {S} (cfg : Server) (handlers : gmap string (Handler S)) (f : S -> S) (actor : Actor)
  (req : bytes) (s : S) : bytes * S :=
  match run_with run_conn f (serveAuthorized cfg handlers (Datatypes.S (length req)) actor) (Conn req [] [] s) with
  | Some (_, w) => (outgoing w, state w)
  | None => ([], s)
  end.

Lemma write_fresh {S} b i (s : S) : write_to b (Conn i [] [] s) = (true, Conn i b [] s).
Proof. done. Qed.

Lemma served_frame {S} cfg (handlers : gmap string (Handler S)) f actor s body :
  zlen body < 2 ^ 32 ->
  served cfg handlers f actor (frame body) s
  = if op_MaxFrameBytes (sc_Operator cfg) <? zlen body then (frame (json_Marshal (error_body ErrFrameTooLarge)), s)
    else let '(r, s') := answer handlers f actor body s in (default [] (answer_bytes r), s').
Proof.
  intros Hb. unfold served. pose proof (zlen_nonneg body).
  destruct (serve_runs cfg handlers f actor (Datatypes.S (length (frame body))) (Conn (frame body) [] [] s))
    as (bs & tl & w' & Hf & Hr & Hd).
  { cbn [incoming]. unfold zlen. lia. }
  rewrite Hr. change (outgoing w') with (outgoing (drained w')). change (state w') with (state (drained w')). rewrite Hd.
  cbn [incoming] in Hf. assert (Htake : take 4 (frame body) = put_uint32 (uint32 (zlen body))).
  { unfold frame. apply (take_app_exact 4). apply zlen_put_uint32. }
  assert (Hdrop : drop 4 (frame body) = body) by (unfold frame; apply (drop_app_exact 4), zlen_put_uint32).
  destruct (Z.ltb_spec (op_MaxFrameBytes (sc_Operator cfg)) (zlen body)) as [Hm|Hm].
  - assert (Ht : too_large cfg (frame body) = true).
    { unfold too_large. rewrite Htake, be_get_put_uint32, !uint32_small by (rewrite ?uint32_small; lia).
      unfold frame. rewrite zlen_app, zlen_put_uint32, (proj2 (Z.leb_le _ _)) by lia. by apply Z.ltb_lt. }
    destruct (framed_unique cfg (frame body) bs tl [] (frame body)) as [-> ->]; [done | |].
    + split; [done|]. split; [constructor | by right; left].
    + cbn [answer_all finish]. rewrite Ht. cbn [andb]. change (drained (Conn (frame body) [] [] s)) with (Conn [] [] [] s).
      by rewrite write_fresh.
  - destruct (framed_unique cfg (frame body) bs tl [body] []) as [-> ->]; [done | |].
    + split; [cbn; by rewrite !app_nil_r|]. split; [|by left]. constructor; [by split | constructor].
    + cbn [answer_all state drained]. destruct (answer handlers f actor body s) as [r s'].
      assert (Ht : too_large cfg [] = false) by done.
      destruct (answer_bytes r) as [out|]; [|done]. cbn [incoming outgoing writes]. rewrite write_fresh. cbn [orb finish].
      rewrite Ht. by cbn [andb].
Qed.

(** ** What the client makes of an answer *)

Lemma read_frame {A} (decode : bytes -> option A) b :
  zlen b <= maxResponse ->
  read_response decode (frame b)
  = match error_member b with
    | Some raw =>
        code ← of_option (string_of raw) MalformedError;
        if bool_decide (code = ErrAuthorizationDenied) then Err ErrUnauthorized else Err (ServerError code)
    | None => of_option (decode b) UndecodableResponse
    end.
Proof.
  intros Hb. pose proof (zlen_nonneg b). unfold maxResponse in Hb. unfold read_response, frame.
  rewrite (take_app_exact 4), (drop_app_exact 4) by apply zlen_put_uint32.
  rewrite zlen_app, zlen_put_uint32, be_get_put_uint32, !uint32_small by (rewrite ?uint32_small; lia).
  rewrite (proj2 (Z.leb_le 4 _)) by lia. cbn [ensure]. rewrite ok_bind.
  rewrite (proj2 (Z.ltb_ge _ _)) by (unfold maxResponse; lia). cbn [negb ensure]. rewrite ok_bind.
  rewrite Z.leb_refl. cbn [ensure]. rewrite ok_bind. cbv zeta.
  replace (take (Z.to_nat (zlen b)) b) with b by (unfold zlen; by rewrite Nat2Z.id, firstn_all). done.
Qed.

Lemma read_nothing {A} (decode : bytes -> option A) : read_response decode [] = Err ErrNoResponse.
Proof. done. Qed.

Lemma error_member_body code : ascii (to_bytes code) -> error_member (json_Marshal (error_body code)) = Some (jstring code).
Proof.
  intros Ha. unfold error_member. rewrite json_Unmarshal_Marshal; [done | | by vm_compute].
  apply clean_members. apply clean_member; [member_names | done | constructor].
Qed.

(** An answer the client can take: a refusal in ASCII, a response that is not
    itself an error frame, and short enough. *)
Definition presentable (r : reply) : Prop :=
  match answer_bytes r with
  | Some out => zlen out <= 4 + maxResponse /\ ascii (to_bytes r.2)
      /\ match r with (Some (Some v), ""%string) => error_member (json_Marshal v) = None | _ => True end
  | None => True
  end.

(** What the client reports of a handler's answer. *)
Definition outcome {A} (decode : bytes -> option A) (r : reply) : result call_err A :=
  let '(response, code) := r in
  if is_empty code then
    match response with
    | Some (Some v) => of_option (decode (json_Marshal v)) UndecodableResponse
    | _ => Err ErrNoResponse
    end
  else if bool_decide (code = ErrAuthorizationDenied) then Err ErrUnauthorized else Err (ServerError code).

Lemma zlen_frame b : zlen (frame b) = 4 + zlen b.
Proof. unfold frame. by rewrite zlen_app, zlen_put_uint32. Qed.

Lemma read_answer {A} (decode : bytes -> option A) r :
  presentable r -> read_response decode (default [] (answer_bytes r)) = outcome decode r.
Proof.
  destruct r as [response code]. unfold presentable, outcome, is_empty. cbn [snd].
  destruct (decide (code = ""%string)) as [->|Hc].
  - change (bool_decide (""%string = ""%string)) with true. destruct response as [[v|]|]; [|done..].
    cbn [answer_bytes fmap option_fmap option_map default id from_option]. rewrite zlen_frame. intros (Hz & _ & He).
    rewrite read_frame by lia. by rewrite He.
  - rewrite (bool_decide_eq_false_2 _ Hc).
    assert (answer_bytes (response, code) = Some (frame (json_Marshal (error_body code)))) as ->
      by (destruct response, code; done).
    rewrite zlen_frame. intros (Hz & Ha & _). cbn [default from_option id]. rewrite read_frame by lia.
    rewrite error_member_body by done. unfold jstring. cbn [string_of]. rewrite of_to_bytes. done.
Qed.

(** One request, from [Call] on one end to the handler on the other. *)
Lemma Call_served {S A} cfg (handlers : gmap string (Handler S)) f actor s v (decode : bytes -> option A) r s' :
  answer handlers f actor (json_Marshal v) s = (r, s') ->
  zlen (json_Marshal v) <= op_MaxFrameBytes (sc_Operator cfg) -> zlen (json_Marshal v) < 2 ^ 32 -> presentable r ->
  Call (Some v) (Ok (served cfg handlers f actor)) decode s = (outcome decode r, s').
Proof.
  intros E Hm Hb Hp. unfold Call. cbn [fmap option_fmap option_map].
  rewrite served_frame by done. rewrite (proj2 (Z.ltb_ge _ _)) by done. rewrite E. by rewrite read_answer.
Qed.

(** ** A concrete connection: two requests and half of a third *)

Definition count_handler : Handler Z := fun _ _ n => ((Some (Some (jint n)), ""%string), n + 1).
Definition count_handlers : gmap string (Handler Z) := {[ "count"%string := count_handler ]}.
Definition count_request : bytes := json_Marshal (JObj (member "op" (jstring "count"))).
Definition count_conn : conn Z := Conn (frame count_request ++ frame count_request ++ [x00; x00]) [] [] 7.
Definition someone : Actor := {| UID := 1000; UsernameSnapshot := None |}.

Lemma count_framed : framed default_server (incoming count_conn) [count_request; count_request] [x00; x00].
Proof.
  split; [by vm_compute|]. split; [|by left]. repeat constructor; by vm_compute.
Qed.
Lemma count_length : (zlen (incoming count_conn) <? 4 * 32) = true.
Proof. vm_cast_no_check (@eq_refl bool true). Qed.

