(* ===== verification/Create.v ===== *)
(** * [keystone enroll create], end to end

    Models [enrollCreate] of [cmd/keystone/main.go] with the exit codes of
    [internal/cli/exit.go], and composes it with the operator socket and the
    enrollment issuer: the command on one end of the connection, the handler and
    the store's transaction on the other. *)
From S2P Require Import Prelude GoBytes GoTime GoText GoFlag Vocabulary Primitives Toy Keys Signature Encryption Json Sql Store.
From S2P Require Import Subjects Limits Nats Mint Wire Issue Config Effects Socket.

(** ** Exit codes *)

Inductive Code := OK | Local | Unauthorized | NotDelivered | DeadlineExceeded | Unknown | Cancelled.
Definition code_value (c : Code) : Z :=
  match c with
  | OK => 0 | Local => 1 | Unauthorized => 10 | NotDelivered => 11 | DeadlineExceeded => 12 | Unknown => 13
  | Cancelled => 14
  end.

(** ** The request and the response *)

Definition json_of_create (r : CreateRequest) : json :=
  JObj (member "op" (jstring (cq_Op r)) ++ member "agent_name" (jstring (cq_AgentName r))
        ++ (if cq_TTLSeconds r =? 0 then [] else member "ttl_seconds" (jint (cq_TTLSeconds r)))).

Definition json_of_response (b : Bundle) : json := JObj (member "bundle" (json_of_bundle b)).
Definition response_fields : struct_fields Bundle :=
  [("bundle"%string, fun v b => decode_struct false bundle_fields v b)].
Definition decode_response (b : bytes) : option Bundle :=
  v ← json_Unmarshal b; decode_struct false response_fields v zero_Bundle.

Section Create.
Context `{SS : SignatureScheme} `{ES : EncryptionScheme} {K : Nkeys} {J : Jwt K} {U : Unicode}.

(** ** The command: its flags, and how many arguments are left over *)

Record create_flags := { fl_name : string; fl_ttl : Z; fl_rest : Z }.
(** The flag set of [enroll create]. *)
Definition create_set : FlagSet := [("agent-name", VString ""); ("ttl-seconds", VInt64 0)]%string.
Definition create_parse (args : list string) : option create_flags :=
  match Parse create_set args with
  | Err _ => None
  | Ok (fs, rest) => Some {| fl_name := get_string fs "agent-name"; fl_ttl := get_int64 fs "ttl-seconds"; fl_rest := zlen rest |}
  end.
Definition create_request (fl : create_flags) : CreateRequest :=
  {| cq_Op := OperationCreate; cq_AgentName := fl_name fl; cq_TTLSeconds := fl_ttl fl |}.

(** The exit code, and what was written to standard output; [out_ok] says
    whether that can be written to. *)
Definition enrollCreate {W} (args : list string) (dial : result dial_err (bytes -> W -> bytes * W)) (out_ok : bool)
  (w : W) : Code * bytes * W :=
  match create_parse args with
  | None => (Local, [], w)
  | Some fl =>
      if negb (fl_rest fl =? 0) || negb (ValidAgentName (fl_name fl)) then (Local, [], w)
      else if negb (fl_ttl fl =? 0) && negb (is_ok (TokenTTL (int64 (fl_ttl fl * Second)))) then (Local, [], w)
      else
        match Call (Some (json_of_create (create_request fl))) dial decode_response w with
        | (Err ErrUnauthorized, w) => (Unauthorized, [], w)
        | (Err _, w) => (Local, [], w)
        | (Ok bundle, w) =>
            if out_ok then (OK, json_Marshal (json_of_bundle bundle) ++ [x0a], w) else (Local, [], w)
        end
  end.

(** ** The handler the server registers *)

(** The store's session, and what the coming calls draw from the clock and the
    random source; when that runs dry, the source fails. *)
Record issuing := Issuing { is_session : session db; is_draws : list issue_draws }.
Definition dry : issue_draws := {| d_now := 0; d_token := None; d_agent := None; d_user := []; d_stamp := 0 |}.

Definition reply_of (a : create_answer) : reply :=
  match a with
  | Answer b => (Some (Some (json_of_response b)), ""%string)
  | RefuseInvalid => (None, ErrInvalidRequest)
  | Unanswered => (None, ""%string)
  end.
Definition create_handler (i : Issuer) : Handler issuing := fun actor body s =>
  let d := hd dry (is_draws s) in
  let '(a, s') := CreateHandler i d {| Issue.UID := UID actor; Issue.UsernameSnapshot := UsernameSnapshot actor |}
                    body (is_session s) in
  (reply_of a, Issuing s' (tl (is_draws s))).

Definition server_handlers (i : Issuer) : gmap string (Handler issuing) := {[ OperationCreate := create_handler i ]}.

(** ** One on each end *)

Lemma decode_create r t :
  0 <= cq_TTLSeconds r < 2 ^ 63 ->
  decode_struct true create_fields (json_of_create r) t
  = Some {| cq_Op := cq_Op r; cq_AgentName := cq_AgentName r;
            cq_TTLSeconds := if cq_TTLSeconds r =? 0 then cq_TTLSeconds t else cq_TTLSeconds r |}.
Proof.
  intros Ht. unfold json_of_create, decode_struct. erewrite !set_members_string by reflexivity.
  destruct (cq_TTLSeconds r =? 0); [done|]. rewrite <- (app_nil_r (member _ _)).
  by erewrite set_members_int by (done || reflexivity).
Qed.

Lemma create_clean r :
  0 <= cq_TTLSeconds r < 2 ^ 63 -> ascii (to_bytes (cq_Op r)) -> ascii (to_bytes (cq_AgentName r)) -> clean (json_of_create r).
Proof.
  intros Ht Ho Ha. apply clean_members. do 2 (apply clean_member; [member_names | done|]).
  destruct (_ =? 0); [constructor|]. rewrite <- (app_nil_r (member _ _)).
  apply clean_member; [member_names | apply clean_jint; lia | constructor].
Qed.

Lemma create_reads r rest :
  0 <= cq_TTLSeconds r < 2 ^ 63 -> ascii (to_bytes (cq_Op r)) -> ascii (to_bytes (cq_AgentName r)) -> rest = [] ->
  json_Decode (json_Marshal (json_of_create r) ++ rest) = Some (json_of_create r, rest).
Proof.
  intros Ht Ho Ha ->. apply json_Decode_print; [apply compact_ok | by apply create_clean | | done].
  unfold json_of_create. by destruct (_ =? 0).
Qed.
Definition clean_request (r : CreateRequest) : Prop :=
  cq_Op r = OperationCreate /\ ascii (to_bytes (cq_AgentName r)) /\ 0 <= cq_TTLSeconds r < 2 ^ 63.

Lemma operation_create r : clean_request r -> operation (json_Marshal (json_of_create r)) = Some OperationCreate.
Proof.
  intros (Ho & Ha & Ht). unfold operation. rewrite json_Unmarshal_Marshal.
  - cbn [mbind option_bind]. unfold json_of_create, decode_struct. erewrite set_members_string by reflexivity.
    rewrite set_members_skip by done. destruct (_ =? 0); [by rewrite Ho|].
    rewrite <- (app_nil_r (member _ _)), set_members_skip by done. by rewrite Ho.
  - apply create_clean; rewrite ?Ho; [done | by apply ascii_forallb | done].
  - unfold json_of_create. by destruct (_ =? 0).
Qed.

Lemma answer_create i actor r s :
  clean_request r ->
  answer (server_handlers i) id actor (json_Marshal (json_of_create r)) s
  = create_handler i actor (json_Marshal (json_of_create r)) s.
Proof.
  intros Hr. unfold answer. rewrite operation_create by done. cbn [mbind option_bind].
  unfold server_handlers. by rewrite lookup_singleton_eq.
Qed.

Lemma CreateHandler_create i d actor r s :
  clean_request r ->
  CreateHandler i d actor (json_Marshal (json_of_create r)) s
  = if 3540 <? cq_TTLSeconds r then (RefuseInvalid, s)
    else match Issue i d actor (cq_AgentName r) (cq_TTLSeconds r * Second) s with
         | (Ok b, s') => (Answer b, s')
         | (Err Issue.ErrInvalidRequest, s') => (RefuseInvalid, s')
         | (Err _, s') => (Unanswered, s')
         end.
Proof.
  intros (Ho & Ha & Ht). unfold CreateHandler.
  rewrite <- (app_nil_r (json_Marshal _)), create_reads by (rewrite ?Ho; by first [done | apply ascii_forallb]).
  cbn [mbind option_bind]. rewrite decode_create by done. rewrite Ho. cbn [cq_Op cq_AgentName cq_TTLSeconds zero_CreateRequest].
  rewrite bool_decide_eq_true_2 by done. cbn [negb].
  assert ((if cq_TTLSeconds r =? 0 then 0 else cq_TTLSeconds r) = cq_TTLSeconds r) as -> by (ztest; lia).
  rewrite (proj2 (Z.ltb_ge _ _)) by lia. cbn [orb]. by change (MaxTokenTTL / Second) with 3540.
Qed.

Lemma response_reads b :
  clean (json_of_bundle b) -> bd_Version b = BundleVersion ->
  decode_response (json_Marshal (json_of_response b)) = Some b
  /\ error_member (json_Marshal (json_of_response b)) = None.
Proof.
  intros Hc Hv. assert (HU : json_Unmarshal (json_Marshal (json_of_response b)) = Some (json_of_response b)).
  { apply json_Unmarshal_Marshal; [|by vm_compute]. apply clean_members.
    unfold json_of_response. rewrite <- (app_nil_r (member _ _)). apply clean_member; [member_names | done | constructor]. }
  unfold decode_response, error_member. rewrite HU. cbn [mbind option_bind]. split; [|done].
  unfold json_of_response.
  change (set_members false response_fields (member "bundle" (json_of_bundle b) ++ []) zero_Bundle = Some b).
  erewrite set_members_member by reflexivity. cbn [snd].
  rewrite decode_bundle by (rewrite Hv; by vm_compute). done.
Qed.

Context {SL : SignatureLaws SS} {EL : EncryptionLaws ES} {KL : NkeysLaws K} {JL : JwtLaws K J}.

Lemma presentable_invalid : presentable (None, ErrInvalidRequest).
Proof.
  unfold presentable. cbn [snd]. assert (H : (zlen (frame (json_Marshal (error_body ErrInvalidRequest))) <=? 4 + maxResponse) = true)
    by (by vm_compute).
  split; [exact (proj1 (Z.leb_le _ _) H)|]. split; [by apply ascii_forallb | done].
Qed.

Lemma presentable_unanswered : presentable (None, ""%string).
Proof. done. Qed.
Lemma outcome_invalid : outcome decode_response (None, ErrInvalidRequest) = Err (ServerError ErrInvalidRequest).
Proof. done. Qed.
Lemma outcome_unanswered : outcome decode_response (None, ""%string) = Err ErrNoResponse.
Proof. done. Qed.
Lemma outcome_answer v b :
  decode_response (json_Marshal v) = Some b -> outcome decode_response (Some (Some v), ""%string) = Ok b.
Proof. intros H. unfold outcome. change (is_empty "") with true. cbn iota. by rewrite H. Qed.

Lemma triple_inj {X Y Z} (a a' : X) (b b' : Y) (c c' : Z) : (a, b, c) = (a', b', c') -> a = a' /\ b = b' /\ c = c'.
Proof. by intros [= -> -> ->]. Qed.

Definition socket_actor (actor : Actor) : Issue.Actor :=
  {| Issue.UID := UID actor; Issue.UsernameSnapshot := UsernameSnapshot actor |}.

(** What the client is told of the handler's answer. *)
Definition told (a : create_answer) : result call_err Bundle :=
  match a with
  | Answer b => Ok b
  | RefuseInvalid => Err (ServerError ErrInvalidRequest)
  | Unanswered => Err ErrNoResponse
  end.

(** The answers that fit the connection and read back. *)
Definition answer_fits (a : create_answer) : Prop :=
  match a with
  | Answer b => clean (json_of_bundle b) /\ bd_Version b = BundleVersion /\ zlen (json_Marshal (json_of_response b)) <= maxResponse
  | _ => True
  end.

Lemma presentable_answer a : answer_fits a -> presentable (reply_of a).
Proof.
  destruct a as [b| |]; cbn [reply_of]; [|intros _; exact presentable_invalid | intros _; exact presentable_unanswered].
  intros (Hc & Hv & Hz). destruct (response_reads b Hc Hv) as [_ He].
  unfold presentable. cbn [answer_bytes fmap option_fmap option_map snd]. rewrite zlen_frame.
  split; [lia|]. split; [constructor | exact He].
Qed.

Lemma outcome_told a : answer_fits a -> outcome decode_response (reply_of a) = told a.
Proof.
  destruct a as [b| |]; cbn [reply_of]; [|intros _; exact outcome_invalid | intros _; exact outcome_unanswered].
  intros (Hc & Hv & _). apply outcome_answer, (response_reads b Hc Hv).
Qed.

Lemma Call_create cfg i actor r s a s1 :
  clean_request r ->
  CreateHandler i (hd dry (is_draws s)) (socket_actor actor) (json_Marshal (json_of_create r)) (is_session s) = (a, s1) ->
  zlen (json_Marshal (json_of_create r)) <= op_MaxFrameBytes (sc_Operator cfg) < 2 ^ 32 -> answer_fits a ->
  Call (Some (json_of_create r)) (Ok (served cfg (server_handlers i) id actor)) decode_response s
  = (told a, Issuing s1 (tl (is_draws s))).
Proof.
  intros Hr HC [Hm Hb] Ha. pose proof (answer_create i actor r s Hr) as HA. unfold create_handler in HA.
  fold (socket_actor actor) in HA. rewrite HC in HA.
  rewrite (Call_served cfg _ id actor s (json_of_create r) decode_response _ _ HA Hm (Z.le_lt_trans _ _ _ Hm Hb) (presentable_answer a Ha)).
  by rewrite (outcome_told a Ha).
Qed.

(** What the journey starts from: the deployment's keys can be read, the random
    source gives what it is asked for, and the frames are large enough for the
    request and for the bundle. *)
Record journey_ok (cfg : Server) (i : Issuer) (fl : create_flags) (actor : Actor) (s : issuing) (iss : string) : Prop := {
  jo_key : PublicKey (signing (minter i)) = Some iss;
  jo_token : forall x, d_token (hd dry (is_draws s)) = Some x -> zlen x = 32;
  jo_agent : forall x, d_agent (hd dry (is_draws s)) = Some x -> zlen x = 16;
  jo_name : ascii (to_bytes (fl_name fl));
  jo_ttl : 0 <= fl_ttl fl < 2 ^ 63;
  jo_request : zlen (json_Marshal (json_of_create (create_request fl))) <= op_MaxFrameBytes (sc_Operator cfg) < 2 ^ 32;
  jo_response : forall b s',
    Issue i (hd dry (is_draws s)) (socket_actor actor) (fl_name fl) (fl_ttl fl * Second) (is_session s) = (Ok b, s') ->
    zlen (json_Marshal (json_of_response b)) <= maxResponse }.

(** The handler's answer to the command's request. *)
Lemma journey_answer cfg i fl actor s iss a s1 :
  journey_ok cfg i fl actor s iss ->
  CreateHandler i (hd dry (is_draws s)) (socket_actor actor) (json_Marshal (json_of_create (create_request fl))) (is_session s) = (a, s1) ->
  answer_fits a
  /\ match a with
     | Answer b => Issue i (hd dry (is_draws s)) (socket_actor actor) (fl_name fl) (fl_ttl fl * Second) (is_session s) = (Ok b, s1)
     | _ => tables s1 = tables (is_session s)
     end.
Proof.
  intros [Hiss H32 H16 Hn Ht _ Hresp] HC.
  assert (Hr : clean_request (create_request fl)) by (split; [reflexivity | split; [exact Hn | exact Ht]]).
  rewrite (CreateHandler_create _ _ _ _ _ Hr) in HC. cbn [create_request cq_AgentName cq_TTLSeconds] in HC.
  destruct (3540 <? fl_ttl fl); [by injection HC as <- <-|].
  destruct (Issue i _ _ _ _ _) as [[b|e] s2] eqn:HI; pose proof (Issue_inv _ _ _ _ _ _ _ _ HI) as Hinv.
  - injection HC as <- <-. split; [|done]. destruct Hinv as (tok & x & identity & t & Hi & _).
    split; [by eapply issued_clean|]. split; [apply Hi | by eapply Hresp].
  - destruct Hinv as [Hs _]. destruct e; injection HC as <- <-; by split.
Qed.

Lemma enrollCreate_outcome cfg i args fl actor s iss code out s' :
  create_parse args = Some fl ->
  journey_ok cfg i fl actor s iss ->
  enrollCreate args (Ok (served cfg (server_handlers i) id actor)) true s = (code, out, s') ->
  (code = OK /\ exists b, out = json_Marshal (json_of_bundle b) ++ [x0a]
    /\ Issue i (hd dry (is_draws s)) (socket_actor actor) (fl_name fl) (fl_ttl fl * Second) (is_session s) = (Ok b, is_session s'))
  \/ (code = Local /\ out = [] /\ tables (is_session s') = tables (is_session s)).
Proof.
  intros Hfl Hj. unfold enrollCreate. rewrite Hfl. fold (create_request fl).
  destruct (_ || _); [intros (<- & <- & <-)%triple_inj; by right|].
  destruct (_ && _); [intros (<- & <- & <-)%triple_inj; by right|].
  assert (Hr : clean_request (create_request fl)) by (split; [reflexivity | split; apply Hj]).
  destruct (CreateHandler i (hd dry (is_draws s)) (socket_actor actor) (json_Marshal (json_of_create (create_request fl)))
    (is_session s)) as [a s1] eqn:HC.
  destruct (journey_answer _ _ _ _ _ _ _ _ Hj HC) as [Hf Ha].
  rewrite (Call_create cfg i actor _ s a s1 Hr HC (jo_request _ _ _ _ _ _ Hj) Hf).
  destruct a as [b| |]; cbn [told]; intros (<- & <- & <-)%triple_inj; [left|by right|by right].
  split; [reflexivity|]. exists b. split; [reflexivity | exact Ha].
Qed.

(** The operator's journey, from the command line to the store and back.  On
    an authorized connection [keystone enroll create] exits 0 exactly when it
    prints one bundle, and then the server has recorded that bundle's token, for
    that name, in the transaction that precedes the answer, and the agent's
    parser accepts what was printed; on every other outcome it exits 1, prints
    nothing, and the store is as it was. *)
Theorem enrollCreate_journey cfg i args fl actor s iss code out s' :
  create_parse args = Some fl ->
  journey_ok cfg i fl actor s iss ->
  enrollCreate args (Ok (served cfg (server_handlers i) id actor)) true s = (code, out, s') ->
  (code = OK /\ exists b tok a, out = json_Marshal (json_of_bundle b) ++ [x0a]
    /\ ParseBundle (json_Marshal (json_of_bundle b)) = Ok (b, Verifying (Signing (keys i)))
    /\ effect (MIssue tok a) (tables (is_session s)) = Ok (tables (is_session s'))
    /\ TokenID tok = bd_TokenID b /\ AgentID tok = bd_AgentID b /\ AgentName tok = fl_name fl
    /\ IssuedByUID tok = UID actor /\ ActorUID a = Some (UID actor))
  \/ (code = Local /\ out = [] /\ tables (is_session s') = tables (is_session s)).
Proof.
  intros Hfl Hj HE. pose proof Hj as [Hiss H32 H16 _ _ _ _].
  destruct (enrollCreate_outcome _ _ _ _ _ _ _ _ _ _ Hfl Hj HE) as [(-> & b & -> & HI)|H]; [left|by right].
  split; [done|]. pose proof (Issue_inv _ _ _ _ _ _ _ _ HI) as (tok & a & identity & t & Hi & Heff & _ & Ha).
  exists b, tok, a. split; [done|]. split; [by eapply ParseBundle_issued|]. split; [done|].
  destruct Hi as [[_ ?] [_ ?] [? _] ? _ _ _ _ _ _ _]. auto.
Qed.
End Create.

(** ** A concrete journey *)

#[local] Instance demo_tables : Unicode := ascii_tables.
Definition demo_operator : Actor := {| UID := 1000; UsernameSnapshot := Some "ops"%string |}.
Definition demo_flags : create_flags := {| fl_name := "web"; fl_ttl := 600; fl_rest := 0 |}.
Definition demo_state : issuing := Issuing (Session empty_db []) [sample_draws].

Definition demo_args : list string := ["-agent-name"; "web"; "--ttl-seconds=600"]%string.
Lemma demo_args_parse : create_parse demo_args = Some demo_flags.
Proof. by vm_compute. Qed.
Abbreviation demo_create := (enrollCreate
  demo_args (Ok (served default_server (server_handlers (SS := ToySignature) (ES := ToyEncryption) (J := ToyJwt) sample_issuer) id demo_operator)) true demo_state).

Lemma demo_exit : demo_create.1.1 = OK.
Proof. vm_cast_no_check (@eq_refl Code OK). Qed.

Definition demo_bundle_size : Z :=
  match (Issue (SS := ToySignature) (ES := ToyEncryption) (J := ToyJwt) sample_issuer sample_draws (socket_actor demo_operator) "web" (600 * Second) (Session empty_db [])).1 with
  | Ok b => zlen (json_Marshal (json_of_response b))
  | Err _ => 0
  end.
Lemma demo_bundle_fits : (demo_bundle_size <=? maxResponse) = true.
Proof. vm_cast_no_check (@eq_refl bool true). Qed.
Lemma demo_request_fits : (zlen (json_Marshal (json_of_create (create_request demo_flags))) <=? DefaultMaxFrameBytes) = true.
Proof. vm_cast_no_check (@eq_refl bool true). Qed.

Lemma demo_journey_ok :
  journey_ok (SS := ToySignature) (ES := ToyEncryption) (J := ToyJwt) default_server sample_issuer demo_flags demo_operator demo_state "A-signing".
Proof.
  split.
  - reflexivity.
  - by intros x [= <-].
  - by intros x [= <-].
  - by apply ascii_forallb.
  - cbn. lia.
  - split; [exact (proj1 (Z.leb_le _ _) demo_request_fits) | by vm_compute].
  - intros b s' HI. pose proof demo_bundle_fits as H. unfold demo_bundle_size in H.
    cbn [demo_state is_draws is_session hd demo_flags fl_name fl_ttl] in HI. rewrite HI in H. cbn [fst] in H.
    exact (proj1 (Z.leb_le _ _) H).
Qed.

Lemma enrollCreate_journey_witness :
  exists b, demo_create.1.2 = json_Marshal (json_of_bundle b) ++ [x0a]
    /\ ParseBundle (SS := ToySignature) (ES := ToyEncryption) (J := ToyJwt) (json_Marshal (json_of_bundle b)) = Ok (b, Verifying toy_signer).
Proof.
  pose proof demo_exit as Hex. destruct demo_create as [[code out] s'] eqn:E. cbn [fst snd] in *.
  destruct (enrollCreate_journey (SL := ToySignatureLaws) (EL := ToyEncryptionLaws) (KL := ToyNkeysLaws) (JL := ToyJwtLaws)
    default_server sample_issuer demo_args demo_flags demo_operator demo_state "A-signing" code out s' demo_args_parse demo_journey_ok E)
    as [(_ & b & tok & a & Hout & HP & _)|(Hcode & _)].
  - exists b. split; [exact Hout | exact HP].
  - exfalso. rewrite Hex in Hcode. discriminate Hcode.
Defined.
