(* ===== verification/Commands.v ===== *)
(** * What the three commands share

    Models [internal/version], and the part of [run] that is the same in
    [cmd/keystone], [cmd/keystone-server] and [cmd/keystone-agent]: the two
    flags that print and exit.  [cmd/keystone]'s own [run] is here whole. *)
From S2P Require Import Prelude GoBytes GoTime GoText GoFlag Vocabulary Primitives Toy Keys Signature Encryption Json Sql Store Nats Mint Wire Issue Config Effects Socket Create.

(** ** The version *)

Definition Dev : string := "0.0.0-dev".
(** [commit] is what the linker set, [settings] what the toolchain recorded. *)
Definition resolve (commit : string) (settings : option (list (string * string))) : string :=
  if negb (is_empty commit) then commit
  else match settings with
       | None => ""
       | Some ss => match filter (fun s => s.1 = "vcs.revision"%string) ss with s :: _ => s.2 | [] => "" end
       end.
Definition Version_String (commit : string) (settings : option (list (string * string))) : string :=
  let c := resolve commit settings in
  if negb (is_empty c) then Dev +:+ "+g" +:+ c else Dev.

(** ** The flags *)

Record main_flags := { mf_version : bool; mf_config : bool }.

(** The flag set of [run], parsed; and the arguments left over. *)
Definition main_set : FlagSet := [("version", VBool false); ("config-path", VBool false)]%string.
Definition main_parse (args : list string) : option (main_flags * list string) :=
  match Parse main_set args with
  | Err _ => None
  | Ok (fs, rest) => Some ({| mf_version := get_bool fs "version"; mf_config := get_bool fs "config-path" |}, rest)
  end.
Definition main_rest (args : list string) : list string := default [] (snd <$> main_parse args).

(** What is printed, if anything, and the exit code; [None] when the command
    goes on.  The flags are [None] when they do not parse. *)
Definition answered (role : string) (flags : option main_flags) (version : string) (env : string -> string)
    (stat : string -> option bool) : option (option string * Code) :=
  match flags with
  | None => Some (None, Local)
  | Some fl =>
      if mf_version fl then Some (Some version, OK)
      else if mf_config fl then
        match Locate role env stat with Err _ => Some (None, Local) | Ok path => Some (Some path, OK) end
      else None
  end.

Lemma answered_code role flags version env stat r :
  answered role flags version env stat = Some r -> (r.2 = OK \/ r.2 = Local) /\ r <> (None, OK).
Proof. unfold answered. intros H. repeat case_match; simplify_eq; cbn; auto. Qed.

(** ** The operator's command *)

Section Operator.
Context `{SS : SignatureScheme} `{ES : EncryptionScheme} {K : Nkeys} {J : Jwt K} {U : Unicode}.

Definition newline_of (s : string) : bytes := to_bytes s ++ [x0a].

Definition run_operator {W} (args : list string) (version : string) (env : string -> string) (stat : string -> option bool)
    (dial : result dial_err (bytes -> W -> bytes * W))
    (out_ok : bool) (w : W) : Code * bytes * W :=
  match answered RoleOperator (fst <$> main_parse args) version env stat with
  | Some (out, code) => (code, default [] (newline_of <$> out), w)
  | None =>
      match main_rest args with
      | a :: b :: rest =>
          if bool_decide (a = "enroll"%string) && bool_decide (b = "create"%string)
          then enrollCreate rest dial out_ok w
          else (Local, [], w)
      | _ => (Local, [], w)
      end
  end.

(** *** What a command line asks for *)

(** Words that are no flags are left as they are. *)
Lemma main_parse_positional a rest : read_word a = Positional -> main_parse (a :: rest) = Some ({| mf_version := false; mf_config := false |}, a :: rest).
Proof. intros Ha. unfold main_parse. cbn [Parse]. by rewrite Ha. Qed.

(** A name and a lifetime, however they are spelled, are read as they were meant. *)
Lemma create_parse_spelled name ttl w1 w2 :
  min_int64 <= ttl <= max_int64 ->
  GoFlag.spelled (VString "") "agent-name" name w1 -> GoFlag.spelled (VInt64 0) "ttl-seconds" (FormatInt ttl) w2 ->
  create_parse (w1 ++ w2) = Some {| fl_name := name; fl_ttl := ttl; fl_rest := 0 |}.
Proof.
  intros Ht H1 H2. unfold create_parse.
  assert (Hn : flag_name "agent-name" /\ flag_name "ttl-seconds").
  { split; (split; [by vm_compute | apply (bool_decide_unpack _); by vm_compute]). }
  rewrite (Parse_spelled create_set "agent-name" name (VString "") (VString name)); [|apply Hn | reflexivity | exact H1 | reflexivity].
  rewrite <- (app_nil_r w2).
  rewrite (Parse_spelled (with_flag create_set "agent-name" (VString name)) "ttl-seconds" (FormatInt ttl) (VInt64 0) (VInt64 ttl)); [|apply Hn | reflexivity | exact H2 | cbn [set_value]; by rewrite ParseInt_FormatInt].
  reflexivity.
Qed.

Lemma run_operator_create {W} name ttl w1 w2 version env stat (dial : result dial_err (bytes -> W -> bytes * W)) out_ok w :
  min_int64 <= ttl <= max_int64 ->
  GoFlag.spelled (VString "") "agent-name" name w1 -> GoFlag.spelled (VInt64 0) "ttl-seconds" (FormatInt ttl) w2 ->
  create_parse (w1 ++ w2) = Some {| fl_name := name; fl_ttl := ttl; fl_rest := 0 |}
  /\ run_operator ("enroll"%string :: "create"%string :: w1 ++ w2) version env stat dial out_ok w = enrollCreate (w1 ++ w2) dial out_ok w.
Proof.
  intros Ht H1 H2. split; [by apply create_parse_spelled|].
  unfold run_operator, main_rest. by rewrite main_parse_positional.
Qed.

(** ** The whole command *)

Context {SL : SignatureLaws SS} {EL : EncryptionLaws ES} {KL : NkeysLaws K} {JL : JwtLaws K J}.

End Operator.

(** ** A command line *)

#[local] Instance command_tables : Unicode := ascii_tables.
Definition demo_argv : list string := "enroll"%string :: "create"%string :: demo_args.
Abbreviation demo_command := (run_operator
  demo_argv "v" (fun _ => ""%string) (fun _ => None)
  (Ok (served default_server (server_handlers (SS := ToySignature) (ES := ToyEncryption) (J := ToyJwt) sample_issuer) id demo_operator)) true demo_state).
Lemma demo_command_exit : demo_command.1 = demo_create.1 /\ demo_create.1.1 = OK.
Proof. split; [vm_cast_no_check (@eq_refl _ demo_create.1) | exact demo_exit]. Qed.

