(* ===== verification/Operator.v ===== *)
(** * Admission to the operator socket

    Models [handle], [membershipWorker], [currentMembership], [Serve] and [New]
    of [internal/operator/server.go]: who may use the socket, and how many at
    once.  Every connection is a program over its own bytes and the server's
    channels; the system interleaves connections and workers in any order.  Slots
    are tokens in bounded channels: the theorems count them, show that no
    connection is ever stuck for want of one, and that nothing a peer sends is
    read before the kernel's identity and a membership lookup admit it. *)
From S2P Require Import Prelude GoBytes GoTime GoText Json Sql Store Config ConfigText ServerConfig Effects Socket.

Definition ActionAuthorizationDenied : string := "operator.authorization.denied".

(** The audit record of a denial. *)
Definition denied_record (uid : Z) (name : option string) (at_ : Time) : AuditRecord := {|
  JobID := None; CorrelationID := None; Store.Actor := None; ActorUID := Some uid; ActorUsernameSnapshot := name;
  Target := None; Action := ActionAuthorizationDenied; AResult := "denied"; At := at_ |}.

Record membershipResult := { mr_name : option string; mr_authorized : bool; mr_err : bool }.

(** The user database, as [os/user] answers for a uid: the name, and the groups
    if they can be listed. *)
Record user := { us_Username : string; us_GroupIds : option (list string) }.

Definition currentMembership (lookup : string -> option user) (uid adminGID : Z) : membershipResult :=
  match lookup (FormatUint uid) with
  | None => {| mr_name := None; mr_authorized := false; mr_err := true |}
  | Some u =>
      match us_GroupIds u with
      | None => {| mr_name := Some (us_Username u); mr_authorized := false; mr_err := true |}
      | Some groups =>
          {| mr_name := Some (us_Username u); mr_authorized := bool_decide (FormatInt adminGID ∈ groups); mr_err := false |}
      end
  end.

Section Admission.
Context {S : Type} (cfg : Server) (groupID : Z) (handlers : gmap string (Handler S)).

Definition MaxUnauth : Z := op_MaxUnauthorizedConnections (sc_Operator cfg).
Definition MaxAuth : Z := op_MaxAuthorizedConnections (sc_Operator cfg).

(** ** One connection *)

Inductive peer_call : Type -> Type :=
  (** [SO_PEERCRED] *)
  | PeerCredentials : peer_call (option Z)
  (** [select { case s.lookups <- req: case <-ctx.Done(): }] *)
  | SendLookup (uid : Z) : peer_call bool
  (** [select { case membership = <-result: case <-ctx.Done(): }] *)
  | AwaitMembership : peer_call (option membershipResult)
  | AppendDenied (uid : Z) (name : option string) : peer_call bool
  (** [select { case s.authorized <- struct{}{}: default: }] *)
  | TryAuthorized : peer_call bool
  | ReleaseUnauth : peer_call unit
  | ReleaseAuthorized : peer_call unit
  | OnConn {B : Type} (c : conn_call S B) : peer_call B
  | CloseConn : peer_call unit.

Definition on_conn {A} (p : io (conn_call S) A) : io peer_call A := io_map (@OnConn) p.

(** The deferred calls: the unauthorized slot if it is still held, then the
    connection. *)
Definition leave : io peer_call unit := _ ← perform ReleaseUnauth; perform CloseConn.

(** [handle], for [n] frames at most. *)
Definition handle (n : nat) : io peer_call unit :=
  ucred ← perform PeerCredentials;
  match ucred with
  | None => leave
  | Some uid =>
      sent ← perform (SendLookup uid);
      if negb sent then leave
      else
        membership ← perform AwaitMembership;
        match membership with
        | None => leave
        | Some membership =>
            if mr_err membership || negb (mr_authorized membership) then
              recorded ← perform (AppendDenied uid (mr_name membership));
              if negb recorded then leave
              else _ ← on_conn (writeError ErrAuthorizationDenied); leave
            else
              slot ← perform TryAuthorized;
              if negb slot then _ ← on_conn (writeError ErrConnectionLimit); leave
              else
                _ ← perform ReleaseUnauth;
                _ ← on_conn (serveAuthorized cfg handlers n {| UID := uid; UsernameSnapshot := mr_name membership |});
                _ ← perform ReleaseAuthorized;
                perform CloseConn
        end
  end.

(** A connection: what the kernel says of its peer, its bytes, whether its
    lookup was sent, the buffered channel its answer comes back on, the slots it
    holds, and what is left of its handler. *)
Record peer := {
  pr_uid : option Z; pr_in : bytes; pr_out : bytes; pr_writes : list (option Z);
  pr_asked : bool; pr_done : option membershipResult; pr_unauth : bool; pr_auth : bool;
  pr_open : bool; pr_prog : io peer_call unit }.

Definition with_bytes i o w p := {|
  pr_uid := pr_uid p; pr_in := i; pr_out := o; pr_writes := w; pr_asked := pr_asked p; pr_done := pr_done p;
  pr_unauth := pr_unauth p; pr_auth := pr_auth p; pr_open := pr_open p; pr_prog := pr_prog p |}.
Definition with_lookup asked done p := {|
  pr_uid := pr_uid p; pr_in := pr_in p; pr_out := pr_out p; pr_writes := pr_writes p; pr_asked := asked; pr_done := done;
  pr_unauth := pr_unauth p; pr_auth := pr_auth p; pr_open := pr_open p; pr_prog := pr_prog p |}.
Definition with_slots u a p := {|
  pr_uid := pr_uid p; pr_in := pr_in p; pr_out := pr_out p; pr_writes := pr_writes p; pr_asked := pr_asked p; pr_done := pr_done p;
  pr_unauth := u; pr_auth := a; pr_open := pr_open p; pr_prog := pr_prog p |}.
Definition with_prog open q p := {|
  pr_uid := pr_uid p; pr_in := pr_in p; pr_out := pr_out p; pr_writes := pr_writes p; pr_asked := pr_asked p; pr_done := pr_done p;
  pr_unauth := pr_unauth p; pr_auth := pr_auth p; pr_open := open; pr_prog := q |}.

(** What connections share: the tokens in the two slot channels, the queue of
    lookups, the denials recorded, and what handlers act on. *)
Record shared := {
  sh_unauth : Z; sh_auth : Z; sh_lookups : list (nat * Z); sh_denied : list AuditRecord; sh_state : S }.

(** The outside's choices: whether a timed wait is answered or a fallible call
    succeeds, and what else happens to the shared state before a handler runs. *)
Record choice := { ch_ok : bool; ch_now : Time; ch_others : S -> S }.

(** One call of connection [i]; [None] while it has to wait. *)
Definition run_peer {B} (f : choice) (i : nat) (sh : shared) (p : peer) (c : peer_call B)
  : option (B * peer * shared) :=
  match c with
  | PeerCredentials => Some (pr_uid p, p, sh)
  | SendLookup uid =>
      if ch_ok f && (zlen (sh_lookups sh) <? MaxUnauth)
      then Some (true, with_lookup true (pr_done p) p,
        {| sh_unauth := sh_unauth sh; sh_auth := sh_auth sh; sh_lookups := sh_lookups sh ++ [(i, uid)];
           sh_denied := sh_denied sh; sh_state := sh_state sh |})
      else Some (false, p, sh)
  | AwaitMembership =>
      if ch_ok f then match pr_done p with
                      | Some m => Some (Some m, with_lookup (pr_asked p) None p, sh)
                      | None => None
                      end
      else Some (None, p, sh)
  | AppendDenied uid name =>
      if ch_ok f
      then Some (true, p,
        {| sh_unauth := sh_unauth sh; sh_auth := sh_auth sh; sh_lookups := sh_lookups sh;
           sh_denied := sh_denied sh ++ [denied_record uid name (ch_now f)]; sh_state := sh_state sh |})
      else Some (false, p, sh)
  | TryAuthorized =>
      if sh_auth sh <? MaxAuth
      then Some (true, with_slots (pr_unauth p) true p,
        {| sh_unauth := sh_unauth sh; sh_auth := sh_auth sh + 1; sh_lookups := sh_lookups sh;
           sh_denied := sh_denied sh; sh_state := sh_state sh |})
      else Some (false, p, sh)
  | ReleaseUnauth =>
      if 0 <? sh_unauth sh
      then Some (tt, with_slots false (pr_auth p) p,
        {| sh_unauth := sh_unauth sh - 1; sh_auth := sh_auth sh; sh_lookups := sh_lookups sh;
           sh_denied := sh_denied sh; sh_state := sh_state sh |})
      else None
  | ReleaseAuthorized =>
      if 0 <? sh_auth sh
      then Some (tt, with_slots (pr_unauth p) false p,
        {| sh_unauth := sh_unauth sh; sh_auth := sh_auth sh - 1; sh_lookups := sh_lookups sh;
           sh_denied := sh_denied sh; sh_state := sh_state sh |})
      else None
  | OnConn c =>
      let '(r, w) := run_conn _ (ch_others f) (Conn (pr_in p) (pr_out p) (pr_writes p) (sh_state sh)) c in
      Some (r, with_bytes (incoming w) (outgoing w) (writes w) p,
        {| sh_unauth := sh_unauth sh; sh_auth := sh_auth sh; sh_lookups := sh_lookups sh;
           sh_denied := sh_denied sh; sh_state := state w |})
  | CloseConn => Some (tt, with_prog false (pr_prog p) p, sh)
  end.

(** ** The system *)

(** Each worker is idle or has taken a lookup; [sy_answers] is the history of
    what the workers found. *)
Record system := {
  sy_shared : shared; sy_workers : list (option (nat * Z)); sy_peers : list peer;
  sy_answers : list (Z * membershipResult) }.

(** [New] and [Listen]: as many workers as there are unauthorized slots. *)
Definition start (s : S) : system := {|
  sy_shared := {| sh_unauth := 0; sh_auth := 0; sh_lookups := []; sh_denied := []; sh_state := s |};
  sy_workers := replicate (Z.to_nat MaxUnauth) None; sy_peers := []; sy_answers := [] |}.

(** A connection [Serve] has taken: a token is in, the handler starts. *)
Definition accepted (n : nat) (uid : option Z) (inp : bytes) (ws : list (option Z)) : peer := {|
  pr_uid := uid; pr_in := inp; pr_out := []; pr_writes := ws; pr_asked := false; pr_done := None;
  pr_unauth := true; pr_auth := false; pr_open := true; pr_prog := handle n |}.

Inductive sys_step : system -> system -> Prop :=
  (** [Serve]: a connection with a free slot; without one it is closed at once.
      [n] is more than its peer will ever send frames. *)
  | step_accept s n uid inp ws :
      sh_unauth (sy_shared s) < MaxUnauth -> zlen inp < 4 * Z.of_nat n ->
      sys_step s {|
        sy_shared := {| sh_unauth := sh_unauth (sy_shared s) + 1; sh_auth := sh_auth (sy_shared s);
          sh_lookups := sh_lookups (sy_shared s); sh_denied := sh_denied (sy_shared s); sh_state := sh_state (sy_shared s) |};
        sy_workers := sy_workers s; sy_peers := sy_peers s ++ [accepted n uid inp ws]; sy_answers := sy_answers s |}
  | step_peer s i p B (c : peer_call B) k f r p' sh :
      sy_peers s !! i = Some p -> pr_prog p = Do c k -> run_peer f i (sy_shared s) p c = Some (r, p', sh) ->
      sys_step s {|
        sy_shared := sh; sy_workers := sy_workers s; sy_peers := <[i := with_prog (pr_open p') (k r) p']> (sy_peers s);
        sy_answers := sy_answers s |}
  (** [for req := range s.lookups] *)
  | step_take s w i uid q :
      sy_workers s !! w = Some None -> sh_lookups (sy_shared s) = (i, uid) :: q ->
      sys_step s {|
        sy_shared := {| sh_unauth := sh_unauth (sy_shared s); sh_auth := sh_auth (sy_shared s); sh_lookups := q;
          sh_denied := sh_denied (sy_shared s); sh_state := sh_state (sy_shared s) |};
        sy_workers := <[w := Some (i, uid)]> (sy_workers s); sy_peers := sy_peers s; sy_answers := sy_answers s |}
  (** [req.done <- currentMembership(...)]: the channel has room for one. *)
  | step_answer s w i uid p lookup :
      sy_workers s !! w = Some (Some (i, uid)) -> sy_peers s !! i = Some p -> pr_done p = None ->
      let m := currentMembership lookup uid groupID in
      sys_step s {|
        sy_shared := sy_shared s; sy_workers := <[w := None]> (sy_workers s);
        sy_peers := <[i := with_lookup (pr_asked p) (Some m) p]> (sy_peers s);
        sy_answers := sy_answers s ++ [(uid, m)] |}.

Inductive reachable (s0 : S) : system -> Prop :=
  | reach_start : reachable s0 (start s0)
  | reach_step s s' : reachable s0 s -> sys_step s s' -> reachable s0 s'.

(** ** What is left of a handler *)

(** Where a connection stands: the kernel's identity of its peer, the slots it
    holds, whether its lookup was sent, the verdict it received and whether a
    denial of it is on record. *)
Record standing := {
  at_uid : option Z; at_unauth : bool; at_auth : bool; at_asked : bool;
  at_verdict : option membershipResult; at_recorded : bool }.

Definition admits (o : option Z) (m : membershipResult) (actor : Actor) : Prop :=
  mr_err m = false /\ mr_authorized m = true /\ o = Some (UID actor) /\ UsernameSnapshot actor = mr_name m.

(** The verdict received admits the peer. *)
Definition admitted (t : standing) : Prop :=
  at_auth t = true /\ exists m, at_verdict t = Some m /\ mr_err m = false /\ mr_authorized m = true.

(** The calls on the connection's bytes that a standing allows: once admitted
    any, on behalf of the peer that was admitted; before that only the two
    refusals, and nothing is read. *)
Definition allows {B} (t : standing) (c : conn_call S B) : Prop :=
  match c with
  | Invoke _ actor _ => at_auth t = true /\ exists m, at_verdict t = Some m /\ admits (at_uid t) m actor
  | WriteAll b =>
      admitted t \/ (b = frame (json_Marshal (error_body ErrAuthorizationDenied)) /\ at_recorded t = true)
      \/ b = frame (json_Marshal (error_body ErrConnectionLimit))
  | _ => admitted t
  end.

Fixpoint lawful (t : standing) (p : io peer_call unit) : Prop :=
  match p with
  | Return _ => at_unauth t = false /\ at_auth t = false
  | Looping => True
  | Do c k =>
      match c in peer_call B return (standing -> B -> Prop) -> Prop with
      | PeerCredentials => fun next => next t (at_uid t)
      | SendLookup uid => fun next =>
          at_uid t = Some uid /\ at_asked t = false
          /\ forall b, next (Build_standing (at_uid t) (at_unauth t) (at_auth t) b (at_verdict t) (at_recorded t)) b
      | AwaitMembership => fun next =>
          at_verdict t = None /\ forall r, next (Build_standing (at_uid t) (at_unauth t) (at_auth t) (at_asked t) r (at_recorded t)) r
      | AppendDenied uid name => fun next =>
          at_uid t = Some uid /\ (exists m, at_verdict t = Some m /\ mr_name m = name /\ (mr_err m || negb (mr_authorized m)) = true)
          /\ forall b, next (Build_standing (at_uid t) (at_unauth t) (at_auth t) (at_asked t) (at_verdict t) b) b
      | TryAuthorized => fun next =>
          at_auth t = false /\ forall b, next (Build_standing (at_uid t) (at_unauth t) b (at_asked t) (at_verdict t) (at_recorded t)) b
      | ReleaseUnauth => fun next =>
          at_unauth t = true /\ next (Build_standing (at_uid t) false (at_auth t) (at_asked t) (at_verdict t) (at_recorded t)) tt
      | ReleaseAuthorized => fun next =>
          at_auth t = true /\ next (Build_standing (at_uid t) (at_unauth t) false (at_asked t) (at_verdict t) (at_recorded t)) tt
      | OnConn c => fun next => allows t c /\ forall r, next t r
      | CloseConn => fun next => next t tt
      end (fun t r => lawful t (k r))
  end.

Fixpoint allowed (t : standing) {A} (q : io (conn_call S) A) : Prop :=
  match q with
  | Do c k => allows t c /\ forall r, allowed t (k r)
  | _ => True
  end.

Lemma lawful_on_conn {A} t (q : io (conn_call S) A) (f : A -> io peer_call unit) :
  allowed t q -> (forall a, lawful t (f a)) -> lawful t (on_conn q ≫= f).
Proof.
  intros Hq Hf. change (on_conn q ≫= f) with (io_then (on_conn q) f).
  induction q as [a|B c k IH|]; cbn [on_conn io_map io_then lawful]; [done | | done].
  destruct Hq as [Hc Hk]. split; [done|]. intros r. by apply IH.
Qed.

Lemma allowed_then {A B} t (q : io (conn_call S) A) (f : A -> io (conn_call S) B) :
  allowed t q -> (forall a, allowed t (f a)) -> allowed t (q ≫= f).
Proof.
  intros Hq Hf. change (q ≫= f) with (io_then q f). induction q as [a|C c k IH|]; cbn [io_then allowed]; [done | | done].
  destruct Hq as [Hc Hk]. split; [done|]. intros r. by apply IH.
Qed.

Lemma allowed_call {A B} t (c : conn_call S B) (k : B -> io (conn_call S) A) :
  allows t c -> (forall r, allowed t (k r)) -> allowed t (perform c ≫= k).
Proof. by split. Qed.

Lemma writeError_allowed t code :
  allows t (WriteAll (S := S) (frame (json_Marshal (error_body code)))) -> allowed t (writeError (S := S) code).
Proof. intros H. by split. Qed.

Lemma serve_allowed t n actor m :
  at_auth t = true -> at_verdict t = Some m -> admits (at_uid t) m actor ->
  allowed t (serveAuthorized cfg handlers n actor).
Proof.
  intros Ha Hv Hm. assert (Hadm : admitted t) by (split; [done|]; exists m; split; [done|]; split; apply Hm).
  assert (Hw : forall code, allowed t (writeError (S := S) code)) by (intros code; apply writeError_allowed; by left).
  induction n as [|n IH]; [done|]. cbn [serveAuthorized]. apply allowed_call; [done|]. intros [prefix|]; [|done].
  cbv zeta. destruct (_ <? _) eqn:Hmax in |- *; [apply Hw|]. apply allowed_call; [done|]. intros [body|]; [|done].
  apply (allowed_then t (dispatch handlers actor body)).
  - unfold dispatch. destruct (_ ≫= _) as [rq|]; [|done]. destruct (handlers !! rq_Op rq); [|done].
    split; [|done]. split; [done|]. by exists m.
  - intros [response code].
    assert (Hend : allowed t (_ ← writeError code; serveAuthorized cfg handlers n actor)) by (by apply allowed_then).
    assert (Hsleep : forall q : io (conn_call S) unit, allowed t q ->
      allowed t (_ ← (if 0 <? OperatorHoldBeforeResponse (sc_Faults cfg)
        then perform (Sleep (OperatorHoldBeforeResponse (sc_Faults cfg))) else Return tt); q)).
    { intros q Hq. apply allowed_then; [by destruct (0 <? _) | done]. }
    destruct response as [response|], (is_empty code); try done; apply Hsleep; try done.
    apply allowed_then; [destruct response as [v|]; [split; [by left | done] | done]|]. by intros [].
Qed.

Lemma leave_lawful t : at_unauth t = true -> at_auth t = false -> lawful t leave.
Proof. intros Hu Ha. split; [done|]. by split. Qed.

Lemma handle_lawful o n : lawful (Build_standing o true false false None false) (handle n).
Proof.
  unfold handle. cbn [mbind io_bind io_then perform lawful at_uid]. destruct o as [uid|]; [|by apply leave_lawful].
  split; [done|]. split; [done|]. intros [|]; cbn [negb]; [|by apply leave_lawful].
  split; [done|]. intros [m|]; [|by apply leave_lawful]. cbn [at_uid at_unauth at_auth at_asked at_verdict at_recorded].
  destruct (_ || _) eqn:Hm.
  - split; [done|]. split; [by exists m|]. intros [|]; cbn [negb]; [|by apply leave_lawful].
    apply lawful_on_conn; [|intros _; by apply leave_lawful]. apply writeError_allowed. right. by left.
  - apply orb_false_iff in Hm as [He Hau%negb_false_iff]. split; [done|]. intros [|]; cbn [negb].
    + split; [done|]. apply lawful_on_conn; [|by intros _].
      eapply serve_allowed; [done | done |]. by repeat split.
    + apply lawful_on_conn; [|intros _; by apply leave_lawful]. apply writeError_allowed. by right; right.
Qed.

(** ** No program outruns its frames *)

Fixpoint reads_within {A} (l : Z) (P : Z -> Prop) (q : io (conn_call S) A) : Prop :=
  match q with
  | Return _ => P l
  | Looping => False
  | Do c k =>
      match c in conn_call _ B return (Z -> B -> Prop) -> Prop with
      | ReadFull n => fun next => next 0 None /\ (n <= l -> forall b, next (l - Z.max 0 n) (Some b))
      | _ => fun next => forall r, next l r
      end (fun l r => reads_within l P (k r))
  end.

(** A handler that ends before it runs out of frames, with [l] bytes to come. *)
Fixpoint lasting (l : Z) (p : io peer_call unit) : Prop :=
  match p with
  | Return _ => True
  | Looping => False
  | Do c k =>
      match c in peer_call B return (Z -> B -> Prop) -> Prop with
      | OnConn c =>
          match c in conn_call _ B return (Z -> B -> Prop) -> Prop with
          | ReadFull n => fun next => next 0 None /\ (n <= l -> forall b, next (l - Z.max 0 n) (Some b))
          | _ => fun next => forall r, next l r
          end
      | _ => fun next => forall r, next l r
      end (fun l r => lasting l (k r))
  end.

Lemma reads_then {A B} l P Q (q : io (conn_call S) A) (f : A -> io (conn_call S) B) :
  reads_within l P q -> (forall l' a, P l' -> reads_within l' Q (f a)) -> reads_within l Q (q ≫= f).
Proof.
  intros Hq Hf. change (q ≫= f) with (io_then q f). revert l Hq.
  induction q as [a|C c k IH|]; intros l Hq; cbn [io_then reads_within] in *; [by apply Hf | | done].
  destruct c; cbn in Hq |- *; try (by intros r; apply IH).
  destruct Hq as [Hn Hs]. split; [by apply IH|]. intros Hl b. by apply IH, Hs.
Qed.

Lemma lasting_on_conn {A} l P (q : io (conn_call S) A) (f : A -> io peer_call unit) :
  reads_within l P q -> (forall l' a, P l' -> lasting l' (f a)) -> lasting l (on_conn q ≫= f).
Proof.
  intros Hq Hf. change (on_conn q ≫= f) with (io_then (on_conn q) f). revert l Hq.
  induction q as [a|C c k IH|]; intros l Hq; cbn [on_conn io_map io_then reads_within lasting] in *; [by apply Hf | | done].
  destruct c; cbn in Hq |- *; try (by intros r; apply IH).
  destruct Hq as [Hn Hs]. split; [by apply IH|]. intros Hl b. by apply IH, Hs.
Qed.

Lemma serve_lasting n actor l :
  0 <= l < 4 * Z.of_nat n -> reads_within l (fun _ => True) (serveAuthorized cfg handlers n actor).
Proof.
  revert l. induction n as [|n IH]; intros l Hl; [lia|].
  assert (Hnext : forall code l', 0 <= l' < 4 * Z.of_nat n ->
    reads_within l' (fun _ => True) (_ ← writeError code; serveAuthorized cfg handlers n actor)).
  { intros code l' Hl'. apply (reads_then _ (fun x => x = l')); [done|]. intros ? _ ->. by apply IH. }
  cbn [serveAuthorized perform mbind io_bind io_then reads_within]. split; [done|]. intros H4 prefix. cbv zeta.
  destruct (_ <? _) in |- *; [done|]. cbn [reads_within]. split; [done|]. intros Hm body.
  set (l' := l - Z.max 0 4 - Z.max 0 (get_uint32 prefix)) in *. assert (Hl' : 0 <= l' < 4 * Z.of_nat n) by lia.
  apply (reads_then _ (fun x => x = l') _ (dispatch handlers actor body)).
  { unfold dispatch. destruct (_ ≫= _) as [rq|]; [|done]. by destruct (handlers !! rq_Op rq). }
  intros ? [response code] ->.
  assert (Hsleep : forall q : io (conn_call S) unit, reads_within l' (fun _ => True) q ->
    reads_within l' (fun _ => True) (_ ← (if 0 <? OperatorHoldBeforeResponse (sc_Faults cfg)
      then perform (Sleep (OperatorHoldBeforeResponse (sc_Faults cfg))) else Return tt); q)).
  { intros q Hq. apply (reads_then _ (fun x => x = l')); [by destruct (0 <? _) | by intros ? _ ->]. }
  destruct response as [response|], (is_empty code); try done; apply Hsleep; try by apply Hnext.
  apply (reads_then _ (fun x => x = l')); [by destruct response|]. intros ? [|] ->; [by apply IH | done].
Qed.

Lemma leave_lasting l : lasting l leave.
Proof. by intros ? ?. Qed.

Lemma handle_lasting l n : 0 <= l < 4 * Z.of_nat n -> lasting l (handle n).
Proof.
  intros Hl. unfold handle. cbn [mbind io_bind io_then perform lasting]. intros [uid|]; [|by apply leave_lasting].
  assert (Hrefuse : forall code, lasting l (_ ← on_conn (writeError code); leave)).
  { intros code. by apply (lasting_on_conn _ (fun _ => True)). }
  intros [|]; cbn [negb]; [|by apply leave_lasting]. intros [m|]; [|by apply leave_lasting].
  destruct (_ || _); [intros [|]; [apply Hrefuse | by apply leave_lasting]|].
  intros [|]; cbn [negb]; [|apply Hrefuse]. intros _.
  apply (lasting_on_conn _ (fun _ => True)); [by apply serve_lasting | done].
Qed.

(** ** Counting *)

Definition count {A} (f : A -> bool) (l : list A) : Z := zlen (filter (fun x => f x = true) l).
Definition b2z (b : bool) : Z := if b then 1 else 0.

Lemma count_cons {A} f (x : A) l : count f (x :: l) = b2z (f x) + count f l.
Proof. unfold count. rewrite filter_cons. destruct (f x) eqn:E; [rewrite decide_True by done; apply zlen_cons | by rewrite decide_False by congruence]. Qed.
Lemma count_app {A} f (l k : list A) : count f (l ++ k) = count f l + count f k.
Proof. unfold count. by rewrite filter_app, zlen_app. Qed.
Lemma count_nonneg {A} f (l : list A) : 0 <= count f l.
Proof. apply zlen_nonneg. Qed.
Lemma count_insert {A} f (l : list A) i x y :
  l !! i = Some x -> count f (<[i := y]> l) = count f l - b2z (f x) + b2z (f y).
Proof.
  revert i. induction l as [|z l IH]; intros [|i]; [done..| |].
  - intros [= ->]. change (<[0%nat := y]> (x :: l)) with (y :: l). rewrite !count_cons. lia.
  - intros Hi. change (<[Datatypes.S i := y]> (z :: l)) with (z :: <[i := y]> l).
    rewrite !count_cons, (IH i Hi). lia.
Qed.
Lemma count_perm {A} f (l k : list A) : l ≡ₚ k -> count f l = count f k.
Proof. intros H. unfold count, zlen. by rewrite H. Qed.
Lemma count_in {A} f (l : list A) i x : l !! i = Some x -> f x = true -> 0 < count f l.
Proof.
  intros Hi Hx. unfold count. assert (x ∈ filter (fun x => f x = true) l) as H.
  { apply list_elem_of_filter. split; [done | by eapply list_elem_of_lookup_2]. }
  destruct (filter _ _) as [|y k]; [by apply elem_of_nil in H|]. rewrite zlen_cons. pose proof (zlen_nonneg k). lia.
Qed.

(** The lookups not answered yet: queued, or with a worker. *)
Definition pending (s : system) : list (nat * Z) := sh_lookups (sy_shared s) ++ omap id (sy_workers s).
Definition asked_by (i : nat) (x : nat * Z) : bool := bool_decide (x.1 = i).

Lemma asked_one j i uid : count (asked_by j) [(i, uid)] = b2z (bool_decide (i = j)).
Proof. rewrite count_cons. unfold asked_by, count. cbn. rewrite (@zlen_nil (nat * Z)). lia. Qed.

Lemma omap_busy {A} (ws : list (option A)) w x :
  ws !! w = Some None -> omap id (<[w := Some x]> ws) ≡ₚ x :: omap id ws.
Proof.
  revert w. induction ws as [|y ws IH]; intros [|w]; [done..| |].
  - by intros [= ->].
  - intros Hw. change (<[Datatypes.S w := Some x]> (y :: ws)) with (y :: <[w := Some x]> ws).
    pose proof (IH w Hw) as H. destruct y as [y|]; cbn; rewrite H; [apply Permutation_swap | done].
Qed.
Lemma omap_idle {A} (ws : list (option A)) w x :
  ws !! w = Some (Some x) -> omap id ws ≡ₚ x :: omap id (<[w := None]> ws).
Proof.
  revert w. induction ws as [|y ws IH]; intros [|w]; [done..| |].
  - by intros [= ->].
  - intros Hw. change (<[Datatypes.S w := None]> (y :: ws)) with (y :: <[w := None]> ws).
    pose proof (IH w Hw) as H. destruct y as [y|]; cbn; [rewrite H; apply Permutation_swap | done].
Qed.

(** ** The invariant *)

Definition standing_of (p : peer) (v : option membershipResult) (r : bool) : standing :=
  Build_standing (pr_uid p) (pr_unauth p) (pr_auth p) (pr_asked p) v r.

(** A verdict is a worker's answer for the peer's uid; a denial on record is of
    this peer, whom an answer did not admit. *)
Definition found (answers : list (Z * membershipResult)) (p : peer) (m : membershipResult) : Prop :=
  exists uid, pr_uid p = Some uid /\ (uid, m) ∈ answers.
Definition denial_recorded (answers : list (Z * membershipResult)) (denied : list AuditRecord) (p : peer) : Prop :=
  exists uid m t, pr_uid p = Some uid /\ (uid, m) ∈ answers /\ (mr_err m || negb (mr_authorized m)) = true
    /\ denied_record uid (mr_name m) t ∈ denied.
Definition peer_ok (answers : list (Z * membershipResult)) (denied : list AuditRecord) (p : peer) : Prop :=
  exists v r, lawful (standing_of p v r) (pr_prog p)
    /\ (forall m, v = Some m -> found answers p m) /\ (r = true -> denial_recorded answers denied p).

Record sys_ok (s : system) : Prop := {
  ok_unauth : sh_unauth (sy_shared s) = count pr_unauth (sy_peers s) /\ sh_unauth (sy_shared s) <= MaxUnauth;
  ok_auth : sh_auth (sy_shared s) = count pr_auth (sy_peers s) /\ sh_auth (sy_shared s) <= MaxAuth;
  ok_queue : zlen (sh_lookups (sy_shared s)) <= MaxUnauth;
  ok_peers : Forall (peer_ok (sy_answers s) (sh_denied (sy_shared s))) (sy_peers s);
  ok_pending : Forall (fun x => exists p, sy_peers s !! x.1 = Some p /\ pr_uid p = Some x.2) (pending s);
  ok_room : forall i p, sy_peers s !! i = Some p ->
    count (asked_by i) (pending s) + b2z (bool_decide (is_Some (pr_done p))) <= b2z (pr_asked p);
  ok_done : Forall (fun p => forall m, pr_done p = Some m -> found (sy_answers s) p m) (sy_peers s);
  ok_answers : Forall (fun a => exists lookup, a.2 = currentMembership lookup a.1 groupID) (sy_answers s) }.

Lemma found_grows a a' p m : found a p m -> found (a ++ a') p m.
Proof. intros (uid & ? & ?). exists uid. split; [done|]. set_solver. Qed.
Lemma peer_ok_grows a a' d d' p : d `prefix_of` d' -> peer_ok a d p -> peer_ok (a ++ a') d' p.
Proof.
  intros [e ->] (v & r & Hl & Hv & Hr). exists v, r. split; [done|]. split; [intros m Hm; by apply found_grows, Hv|].
  intros H. destruct (Hr H) as (uid & m & t & ? & ? & ? & ?). exists uid, m, t. set_solver.
Qed.

Lemma system_start_ok s0 : 0 <= MaxUnauth -> 0 <= MaxAuth -> sys_ok (start s0).
Proof.
  intros Hu Ha. assert (omap id (replicate (Z.to_nat MaxUnauth) (@None (nat * Z))) = []) as Hn.
  { induction (Z.to_nat MaxUnauth); by cbn. }
  split; cbn [start sy_shared sy_peers sy_answers sh_unauth sh_auth sh_lookups]; try done; try apply Forall_nil; try done.
  unfold pending. cbn. rewrite Hn. apply Forall_nil. done.
Qed.

(** One connection replaced by what it has become. *)
Lemma update_ok s i p p2 sh2 :
  sys_ok s -> sy_peers s !! i = Some p -> pr_uid p2 = pr_uid p ->
  sh_unauth sh2 = sh_unauth (sy_shared s) - b2z (pr_unauth p) + b2z (pr_unauth p2) -> sh_unauth sh2 <= MaxUnauth ->
  sh_auth sh2 = sh_auth (sy_shared s) - b2z (pr_auth p) + b2z (pr_auth p2) -> sh_auth sh2 <= MaxAuth ->
  (sh_lookups sh2 = sh_lookups (sy_shared s) /\ pr_asked p2 = pr_asked p /\ (pr_done p2 = pr_done p \/ pr_done p2 = None)
   \/ exists uid, sh_lookups sh2 = sh_lookups (sy_shared s) ++ [(i, uid)] /\ pr_uid p = Some uid
      /\ zlen (sh_lookups (sy_shared s)) < MaxUnauth /\ pr_asked p = false /\ pr_asked p2 = true /\ pr_done p2 = pr_done p) ->
  sh_denied (sy_shared s) `prefix_of` sh_denied sh2 ->
  peer_ok (sy_answers s) (sh_denied sh2) p2 ->
  sys_ok {| sy_shared := sh2; sy_workers := sy_workers s; sy_peers := <[i := p2]> (sy_peers s); sy_answers := sy_answers s |}.
Proof.
  intros [[Hu Hu'] [Ha Ha'] Hq Hp Hpe Hroom Hd Hans] Hi Huid HU HU' HA HA' HL HD Hp2.
  assert (Hget : forall j q, <[i := p2]> (sy_peers s) !! j = Some q ->
    (j = i /\ q = p2) \/ (j <> i /\ sy_peers s !! j = Some q)).
  { intros j q Hj. apply list_lookup_insert_Some in Hj as [(-> & -> & _)|[Hne Hj]]; auto. }
  assert (Hkeep : forall x, (exists q, sy_peers s !! x.1 = Some q /\ pr_uid q = Some x.2) ->
    exists q, <[i := p2]> (sy_peers s) !! (x : nat * Z).1 = Some q /\ pr_uid q = Some x.2).
  { intros x (q & Hx & Hx2). destruct (decide (x.1 = i)) as [E|E].
    - exists p2. rewrite E, list_lookup_insert_eq by (by eapply lookup_lt_Some). split; [done|].
      rewrite E, Hi in Hx. injection Hx as ->. congruence.
    - exists q. by rewrite list_lookup_insert_ne. }
  assert (Hdone : forall m, pr_done p2 = Some m -> pr_done p = Some m).
  { destruct HL as [(_ & _ & [-> | ->])|(uid & _ & _ & _ & _ & _ & ->)]; done. }
  split; cbn [sy_shared sy_peers sy_answers sy_workers].
  - rewrite (count_insert _ _ _ _ _ Hi). lia.
  - rewrite (count_insert _ _ _ _ _ Hi). lia.
  - destruct HL as [(-> & _)|(uid & -> & _ & Hz & _)]; [done|]. rewrite zlen_app, zlen_cons, zlen_nil. lia.
  - apply Forall_insert; [|done]. eapply Forall_impl; [exact Hp|]. intros q Hq'.
    rewrite <- (app_nil_r (sy_answers s)). by eapply peer_ok_grows.
  - unfold pending in *. cbn [sy_shared sy_workers]. apply Forall_app in Hpe as [Hl Hw]. apply Forall_app. split.
    + destruct HL as [(-> & _)|(uid & -> & Hpu & _)]; [by eapply Forall_impl|].
      apply Forall_app. split; [by eapply Forall_impl|]. constructor; [|constructor]. apply Hkeep. cbn. eauto.
    + by eapply Forall_impl.
  - intros j q Hj. unfold pending. cbn [sy_shared sy_workers]. destruct (Hget j q Hj) as [[-> ->]|[Hne Hj']].
    + specialize (Hroom i p Hi). unfold pending in Hroom. rewrite count_app in *.
      destruct HL as [(-> & -> & Hdn)|(uid & -> & _ & _ & E1 & -> & ->)].
      * destruct Hdn as [-> | ->]; [done|]. rewrite (bool_decide_eq_false_2 (is_Some None)) by (by intros [? ?]).
        cbn [b2z]. destruct (bool_decide _) in Hroom; cbn [b2z] in Hroom; lia.
      * rewrite count_app, asked_one, bool_decide_eq_true_2 by done. rewrite E1 in Hroom. cbn [b2z] in *. lia.
    + specialize (Hroom j q Hj'). unfold pending in Hroom. rewrite count_app in *.
      destruct HL as [(-> & _)|(uid & -> & _)]; [done|]. rewrite count_app, asked_one, bool_decide_eq_false_2 by congruence. cbn [b2z]. lia.
  - apply Forall_insert; [done|]. intros m Hm. rewrite Forall_forall in Hd.
    destruct (Hd p (list_elem_of_lookup_2 _ _ _ Hi) m (Hdone m Hm)) as (uid & ? & ?). exists uid. split; [congruence | done].
  - done.
Qed.

Lemma held_token f (l : list peer) i p : l !! i = Some p -> f p = true -> 0 < count f l.
Proof. apply count_in. Qed.

(** The slots and the identity are as the call left them; the queue, the audit
    records and the peer itself remain to be looked at. *)
Ltac update s i p :=
  apply (update_ok s i p); [assumption | assumption | reflexivity
    | cbn; repeat match goal with H : _ p = _ |- _ => rewrite H end; cbn [b2z]; lia | cbn; lia
    | cbn; repeat match goal with H : _ p = _ |- _ => rewrite H end; cbn [b2z]; lia | cbn; lia
    | try by left; auto | try reflexivity | ].

Lemma peer_step_ok s i p B (c : peer_call B) k f r p' sh :
  sys_ok s -> sy_peers s !! i = Some p -> pr_prog p = Do c k -> run_peer f i (sy_shared s) p c = Some (r, p', sh) ->
  sys_ok {| sy_shared := sh; sy_workers := sy_workers s;
            sy_peers := <[i := with_prog (pr_open p') (k r) p']> (sy_peers s); sy_answers := sy_answers s |}.
Proof.
  intros Hs Hi Hprog Hrun. destruct (Forall_lookup_1 _ _ _ _ (ok_peers _ Hs) Hi) as (v & rec & Hl & Hv & Hr).
  pose proof (ok_unauth _ Hs) as [HU HU']. pose proof (ok_auth _ Hs) as [HA HA'].
  assert (Hcu := count_nonneg pr_unauth (sy_peers s)). assert (Hca := count_nonneg pr_auth (sy_peers s)).
  rewrite Hprog in Hl. destruct c as [|uid| |uid name| | | |B c|]; cbn [lawful run_peer] in Hl, Hrun.
  - injection Hrun as <- <- <-. update s i p. by exists v, rec.
  - destruct Hl as (Hu & Hask & Hl). cbn in Hu, Hask.
    destruct (ch_ok f && _) eqn:Hroom; injection Hrun as <- <- <-.
    + apply andb_true_iff in Hroom as [_ Hroom%Z.ltb_lt]. update s i p.
      * right. by exists uid.
      * exists v, rec. split; [apply (Hl true) | auto].
    + update s i p. exists v, rec. split; [|auto].
      specialize (Hl false). unfold standing_of. cbn. rewrite Hask. exact Hl.
  - destruct Hl as (Hv0 & Hl). cbn in Hv0. subst v. destruct (ch_ok f).
    + destruct (pr_done p) as [m|] eqn:Hm; [|done]. injection Hrun as <- <- <-.
      update s i p. exists (Some m), rec. split; [apply (Hl (Some m))|].
      split; [|done]. intros m' [= <-]. pose proof (Forall_lookup_1 _ _ _ _ (ok_done _ Hs) Hi m Hm) as (uid & ? & ?). by exists uid.
    + injection Hrun as <- <- <-. update s i p.
      exists None, rec. split; [apply (Hl None) | auto].
  - destruct Hl as (Hu & (m & Hvm & Hname & Hbad) & Hl). cbn in Hu, Hvm. subst v name. destruct (ch_ok f); injection Hrun as <- <- <-.
    + update s i p; [by eexists|]. exists (Some m), true.
      split; [apply (Hl true)|]. split; [exact Hv|]. intros _. destruct (Hv m eq_refl) as (uid' & Hu' & Hin).
      assert (uid' = uid) as -> by congruence. exists uid, m, (ch_now f). split; [done|]. split; [done|]. split; [done|]. set_solver.
    + update s i p. exists (Some m), false. split; [apply (Hl false)|].
      split; [exact Hv | done].
  - destruct Hl as (Ha & Hl). cbn in Ha. destruct (_ <? _) eqn:Hroom; injection Hrun as <- <- <-.
    + apply Z.ltb_lt in Hroom. update s i p.
      exists v, rec. split; [apply (Hl true) | auto].
    + update s i p. exists v, rec. split; [|auto].
      specialize (Hl false). unfold standing_of. cbn. rewrite Ha. exact Hl.
  - destruct Hl as (Hu & Hl). cbn in Hu. destruct (0 <? _); [|done]. injection Hrun as <- <- <-.
    update s i p. exists v, rec. split; [exact Hl | auto].
  - destruct Hl as (Ha & Hl). cbn in Ha. destruct (0 <? _); [|done]. injection Hrun as <- <- <-.
    update s i p. exists v, rec. split; [exact Hl | auto].
  - destruct Hl as (_ & Hl). destruct (run_conn B _ _ c) as [r' w]. injection Hrun as <- <- <-.
    update s i p. exists v, rec. split; [apply Hl | auto].
  - injection Hrun as <- <- <-. update s i p. by exists v, rec.
Qed.

Lemma accept_ok s n uid inp ws :
  sys_ok s -> sh_unauth (sy_shared s) < MaxUnauth ->
  sys_ok {|
    sy_shared := {| sh_unauth := sh_unauth (sy_shared s) + 1; sh_auth := sh_auth (sy_shared s);
      sh_lookups := sh_lookups (sy_shared s); sh_denied := sh_denied (sy_shared s); sh_state := sh_state (sy_shared s) |};
    sy_workers := sy_workers s; sy_peers := sy_peers s ++ [accepted n uid inp ws]; sy_answers := sy_answers s |}.
Proof.
  intros [[Hu Hu'] [Ha Ha'] Hq Hp Hpe Hroom Hd Hans] Hlt.
  split; cbn [sy_shared sy_peers sy_answers sy_workers sh_unauth sh_auth sh_lookups sh_denied].
  - rewrite count_app, count_cons. cbn [accepted pr_unauth b2z]. unfold count at 2. cbn. rewrite (@zlen_nil peer). lia.
  - rewrite count_app, count_cons. cbn [accepted pr_auth b2z]. unfold count at 2. cbn. rewrite (@zlen_nil peer). lia.
  - done.
  - apply Forall_app. split; [done|]. constructor; [|constructor]. exists None, false. split; [apply handle_lawful | done].
  - eapply Forall_impl; [exact Hpe|]. intros x (p & Hx & Hx2). exists p. split; [|done]. by apply lookup_app_l_Some.
  - intros i p Hi. apply lookup_app_Some in Hi as [Hi|[Hlen Hi]]; [by apply Hroom|].
    apply list_lookup_singleton_Some in Hi as [Hi <-]. cbn [accepted pr_done pr_asked b2z].
    rewrite bool_decide_eq_false_2 by (by intros [? ?]). cbn [b2z].
    enough (count (asked_by i) (pending s) = 0) as E by (unfold pending in *; cbn [sy_shared sy_workers sh_lookups] in *; lia).
    unfold count. enough (filter (fun x => asked_by i x = true) (pending s) = []) as -> by done.
    destruct (filter _ (pending s)) as [|x l] eqn:E; [done|]. exfalso.
    assert (x ∈ filter (fun x => asked_by i x = true) (pending s)) as [Hx Hin]%list_elem_of_filter by (rewrite E; by left). rewrite Forall_forall in Hpe.
    destruct (Hpe x Hin) as (p & Hp1 & _). apply bool_decide_eq_true in Hx. rewrite Hx in Hp1. apply lookup_lt_Some in Hp1. lia.
  - apply Forall_app. split; [done|]. by constructor.
  - done.
Qed.

Lemma take_ok s w i uid q :
  sys_ok s -> sy_workers s !! w = Some None -> sh_lookups (sy_shared s) = (i, uid) :: q ->
  sys_ok {|
    sy_shared := {| sh_unauth := sh_unauth (sy_shared s); sh_auth := sh_auth (sy_shared s); sh_lookups := q;
      sh_denied := sh_denied (sy_shared s); sh_state := sh_state (sy_shared s) |};
    sy_workers := <[w := Some (i, uid)]> (sy_workers s); sy_peers := sy_peers s; sy_answers := sy_answers s |}.
Proof.
  intros [Hu Ha Hq Hp Hpe Hroom Hd Hans] Hw Hl.
  match goal with |- sys_ok ?s' => assert (Hperm : pending s' ≡ₚ pending s) end.
  { unfold pending. cbn [sy_shared sy_workers sh_lookups]. rewrite Hl, (omap_busy _ _ _ Hw). cbn [app].
    by rewrite Permutation_middle. }
  split; try done.
  - cbn. rewrite Hl, zlen_cons in Hq. lia.
  - by rewrite Hperm.
  - intros j p Hj. rewrite (count_perm _ _ _ Hperm). by apply Hroom.
Qed.

Lemma answer_ok s w i uid p lookup :
  sys_ok s -> sy_workers s !! w = Some (Some (i, uid)) -> sy_peers s !! i = Some p -> pr_done p = None ->
  let m := currentMembership lookup uid groupID in
  sys_ok {|
    sy_shared := sy_shared s; sy_workers := <[w := None]> (sy_workers s);
    sy_peers := <[i := with_lookup (pr_asked p) (Some m) p]> (sy_peers s); sy_answers := sy_answers s ++ [(uid, m)] |}.
Proof.
  intros [[Hu Hu'] [Ha Ha'] Hq Hp Hpe Hroom Hd Hans] Hw Hi Hdn m.
  match goal with |- sys_ok ?s' => assert (Hperm : pending s ≡ₚ (i, uid) :: pending s') end.
  { unfold pending. cbn [sy_shared sy_workers sh_lookups]. rewrite (omap_idle _ _ _ Hw). by rewrite Permutation_middle. }
  assert (Hpu : pr_uid p = Some uid).
  { rewrite Forall_forall in Hpe. destruct (Hpe (i, uid)) as (p' & Hp1 & Hp2); [rewrite Hperm; by left|].
    cbn in Hp1. rewrite Hi in Hp1. injection Hp1 as ->. exact Hp2. }
  split; cbn [sy_shared sy_peers sy_answers].
  - rewrite (count_insert _ _ _ _ _ Hi). cbn. lia.
  - rewrite (count_insert _ _ _ _ _ Hi). cbn. lia.
  - done.
  - assert (Hg : forall q, peer_ok (sy_answers s) (sh_denied (sy_shared s)) q ->
      peer_ok (sy_answers s ++ [(uid, m)]) (sh_denied (sy_shared s)) q) by (intros q; by apply peer_ok_grows).
    apply Forall_insert; [exact (Forall_impl _ _ _ Hp Hg)|]. apply (Hg (with_lookup (pr_asked p) (Some m) p)).
    exact (Forall_lookup_1 _ _ _ _ Hp Hi).
  - rewrite Hperm in Hpe. apply Forall_cons in Hpe as [_ Hpe]. eapply Forall_impl; [exact Hpe|].
    intros x (q & Hx & Hx2). destruct (decide (x.1 = i)) as [E|E].
    + eexists. rewrite E, list_lookup_insert_eq by (by eapply lookup_lt_Some). split; [done|].
      rewrite E, Hi in Hx. by injection Hx as ->.
    + exists q. by rewrite list_lookup_insert_ne.
  - intros j q Hj. apply list_lookup_insert_Some in Hj as [(-> & <- & _)|[Hne Hj]].
    + specialize (Hroom j p Hi). rewrite (count_perm _ _ _ Hperm), count_cons in Hroom. unfold asked_by at 1 in Hroom.
      rewrite (bool_decide_eq_true_2 ((j, uid).1 = j)) in Hroom by done. cbn [with_lookup pr_done pr_asked].
      rewrite bool_decide_eq_true_2 by eauto. rewrite Hdn in Hroom.
      rewrite (bool_decide_eq_false_2 (is_Some None)) in Hroom by (by intros [? ?]). cbn [b2z] in *. lia.
    + specialize (Hroom j q Hj). rewrite (count_perm _ _ _ Hperm), count_cons in Hroom. unfold asked_by at 1 in Hroom.
      rewrite (bool_decide_eq_false_2 ((i, uid).1 = j)) in Hroom by (cbn; congruence). cbn [b2z] in Hroom. lia.
  - apply Forall_insert.
    + eapply Forall_impl; [exact Hd|]. intros q Hq' m' Hm'. by apply found_grows, Hq'.
    + cbn. intros m' [= <-]. exists uid. split; [done|]. set_solver.
  - apply Forall_app. split; [done|]. constructor; [|constructor]. by exists lookup.
Qed.

Lemma reachable_ok s0 s : 0 <= MaxUnauth -> 0 <= MaxAuth -> reachable s0 s -> sys_ok s.
Proof.
  intros Hu Ha. induction 1 as [|s s' _ IH Hstep]; [by apply system_start_ok|].
  destruct Hstep; [by apply accept_ok | by eapply peer_step_ok | by apply take_ok | by apply answer_ok].
Qed.

Lemma server_reachable_ok s0 s : server_ok cfg -> reachable s0 s -> sys_ok s.
Proof.
  intros Hcfg. pose proof (so_numbers _ Hcfg) as H. unfold numbers_ok in H.
  apply reachable_ok; unfold MaxUnauth, MaxAuth; lia.
Qed.

Lemma run_peer_lasting B f i sh p (c : peer_call B) k r p' sh' :
  run_peer f i sh p c = Some (r, p', sh') -> lasting (zlen (pr_in p)) (Do c k) -> lasting (zlen (pr_in p')) (k r).
Proof.
  intros Hrun Hl. destruct c as [|uid| |uid name| | | |B c|]; cbn [run_peer] in Hrun; cbn in Hl; last first.
  1: { injection Hrun as <- <- <-. apply Hl. }
  1: { destruct c as [n|b|d|h a b]; cbn [run_conn] in Hrun.
    - destruct Hl as [Hn Hs]. cbn [incoming] in Hrun. destruct (n <=? _) eqn:E; injection Hrun as <- <- <-; [|exact Hn].
      apply Z.leb_le in E. cbn [with_bytes pr_in incoming]. replace (zlen _) with (zlen (pr_in p) - Z.max 0 n); [by apply Hs|].
      unfold zlen in *. rewrite length_drop. lia.
    - destruct (write_to b _) as [r' w] eqn:E. injection Hrun as <- <- <-. revert E. unfold write_to. cbn [writes incoming with_bytes pr_in].
      destruct (pr_writes p) as [|[]]; intros [= <- <-]; apply Hl.
    - injection Hrun as <- <- <-. apply Hl.
    - cbn [state] in Hrun. destruct (h a b _) as [r' w]. injection Hrun as <- <- <-. apply Hl. }
  all: repeat match type of Hrun with context [match ?x with _ => _ end] => destruct x end; try done; injection Hrun as <- <- <-; apply Hl.
Qed.

Lemma reachable_lasting s0 s : reachable s0 s -> Forall (fun p => lasting (zlen (pr_in p)) (pr_prog p)) (sy_peers s).
Proof.
  induction 1 as [|s s' _ IH Hstep]; [by apply Forall_nil|].
  destruct Hstep as [s n uid inp ws Hroom Hn|s i p B c k f r p' sh Hi Hprog Hrun| |s w i uid p lookup Hw Hi Hd m]; cbn [sy_peers].
  - apply Forall_app. split; [done|]. constructor; [|done]. apply handle_lasting. pose proof (zlen_nonneg inp). cbn. lia.
  - apply Forall_insert; [done|]. pose proof (Forall_lookup_1 _ _ _ _ IH Hi) as Hl. cbn in Hl. rewrite Hprog in Hl.
    by apply (run_peer_lasting _ _ _ _ _ _ _ _ _ _ Hrun).
  - done.
  - apply Forall_insert; [done|]. exact (Forall_lookup_1 _ _ _ _ IH Hi).
Qed.

Lemma peer_ready s i p v r B (c : peer_call B) k :
  sh_unauth (sy_shared s) = count pr_unauth (sy_peers s) -> sh_auth (sy_shared s) = count pr_auth (sy_peers s) ->
  sy_peers s !! i = Some p -> lawful (standing_of p v r) (Do c k) ->
  exists f r p' sh, run_peer f i (sy_shared s) p c = Some (r, p', sh).
Proof.
  intros Hu Ha Hi Hl. exists (Build_choice false 0 id). destruct c; cbn [run_peer ch_ok andb lawful] in Hl |- *; try by do 3 eexists.
  - destruct (_ <? _); by do 3 eexists.
  - destruct Hl as [Hup _]. cbn in Hup. rewrite Hu, (proj2 (Z.ltb_lt _ _) (count_in _ _ _ _ Hi Hup)). by do 3 eexists.
  - destruct Hl as [Hap _]. cbn in Hap. rewrite Ha, (proj2 (Z.ltb_lt _ _) (count_in _ _ _ _ Hi Hap)). by do 3 eexists.
  - destruct (run_conn _ _ _ c) as [r' w]. by do 3 eexists.
Qed.

(** ** What holds of the operator socket *)

(** C17. However connections come and go and whatever their peers send, each slot
    channel holds exactly one token per connection that has a slot, never more
    than the configured number; the queue of lookups is bounded too; and a
    connection that has ended holds no slot. *)
Theorem slots_bounded s0 s :
  server_ok cfg -> reachable s0 s ->
  sh_unauth (sy_shared s) = count pr_unauth (sy_peers s) /\ 0 <= sh_unauth (sy_shared s) <= MaxUnauth
  /\ sh_auth (sy_shared s) = count pr_auth (sy_peers s) /\ 0 <= sh_auth (sy_shared s) <= MaxAuth
  /\ zlen (sh_lookups (sy_shared s)) <= MaxUnauth
  /\ (forall i p, sy_peers s !! i = Some p -> pr_prog p = Return tt -> pr_unauth p = false /\ pr_auth p = false).
Proof.
  intros Hcfg H. apply (server_reachable_ok _ _ Hcfg) in H as [Hu Ha Hq Hp _ _ _ _].
  pose proof (count_nonneg pr_unauth (sy_peers s)). pose proof (count_nonneg pr_auth (sy_peers s)).
  repeat (split; [lia|]). intros i p Hi Hend. destruct (Forall_lookup_1 _ _ _ _ Hp Hi) as (v & r & Hl & _).
  by rewrite Hend in Hl.
Qed.

(** A worker's lookup of the peer's uid, as the kernel gave it, that found it in
    the admin group. *)
Definition found_authorized (s : system) (p : peer) (m : membershipResult) : Prop :=
  exists uid lookup, pr_uid p = Some uid /\ (uid, m) ∈ sy_answers s /\ m = currentMembership lookup uid groupID
    /\ mr_err m = false /\ mr_authorized m = true.


(** C18. No connection is ever stuck: it has ended, or what it is to do next can
    happen, the return of a slot included, since its token is there to be taken back; a
    worker with an answer always finds room for it, so none waits for a
    connection that has given up; and when every connection has ended every slot
    is free again. *)
Theorem no_connection_stuck s0 s :
  server_ok cfg -> reachable s0 s ->
  (forall i p, sy_peers s !! i = Some p -> pr_prog p = Return tt \/
     exists B (c : peer_call B) k f r p' sh,
       pr_prog p = Do c k /\ run_peer f i (sy_shared s) p c = Some (r, p', sh))
  /\ (forall w i uid, sy_workers s !! w = Some (Some (i, uid)) ->
       exists p, sy_peers s !! i = Some p /\ pr_uid p = Some uid /\ pr_done p = None)
  /\ (Forall (fun p => pr_prog p = Return tt) (sy_peers s) -> sh_unauth (sy_shared s) = 0 /\ sh_auth (sy_shared s) = 0).
Proof.
  intros Hcfg Hreach. pose proof (server_reachable_ok _ _ Hcfg Hreach) as [[Hu _] [Ha _] _ Hp Hpe Hroom _ _].
  split; [|split].
  - intros i p Hi. destruct (Forall_lookup_1 _ _ _ _ Hp Hi) as (v & r & Hl & _).
    pose proof (Forall_lookup_1 _ _ _ _ (reachable_lasting _ _ Hreach) Hi) as Hlast. cbn in Hlast.
    destruct (pr_prog p) as [[]|B c k|] eqn:Hprog; [by left | right | done].
    enough (exists f r p' sh, run_peer f i (sy_shared s) p c = Some (r, p', sh)) as (f & r' & p' & sh & H)
      by (by exists B, c, k, f, r', p', sh).
    by apply (peer_ready s i p v r B c k).
  - intros w i uid Hw. assert (Hin : (i, uid) ∈ pending s).
    { apply elem_of_app. right. apply list_elem_of_omap. exists (Some (i, uid)). split; [by eapply list_elem_of_lookup_2 | done]. }
    rewrite Forall_forall in Hpe. destruct (Hpe _ Hin) as (p & Hi & Hup). cbn in Hi, Hup. exists p. split; [done|]. split; [done|].
    apply list_elem_of_lookup in Hin as [j Hj]. specialize (Hroom i p Hi).
    pose proof (count_in (asked_by i) _ _ _ Hj (bool_decide_eq_true_2 _ eq_refl)).
    destruct (pr_done p); [|done]. rewrite bool_decide_eq_true_2 in Hroom by eauto. destruct (pr_asked p); cbn [b2z] in Hroom; lia.
  - intros Hend. assert (Hz : forall f : peer -> bool, (forall p, p ∈ sy_peers s -> f p = false) -> count f (sy_peers s) = 0).
    { intros f Hf. unfold count. destruct (filter _ _) as [|x l] eqn:E; [done|].
      assert (x ∈ filter (fun x => f x = true) (sy_peers s)) as [Hx Hin]%list_elem_of_filter by (rewrite E; by left).
      by rewrite (Hf x Hin) in Hx. }
    assert (Hflags : forall p, p ∈ sy_peers s -> pr_unauth p = false /\ pr_auth p = false).
    { intros p [i Hi]%list_elem_of_lookup. destruct (Forall_lookup_1 _ _ _ _ Hp Hi) as (v & r & Hl & _).
      by rewrite (Forall_lookup_1 _ _ _ _ Hend Hi) in Hl. }
    rewrite Hu, Ha. split; apply Hz; intros p Hin; by apply Hflags.
Qed.
End Admission.

(** ** An executable run *)

Inductive move (S : Type) :=
  | Accept (n : nat) (uid : option Z) (inp : bytes) (ws : list (option Z))
  | Proceed (i : nat) (f : choice (S := S))
  | Take (w : nat)
  | Reply (w : nat) (lookup : string -> option user).
Arguments Accept {S} _ _ _ _.
Arguments Proceed {S} _ _.
Arguments Take {S} _.
Arguments Reply {S} _ _.

Section Run.
Context {S : Type} (cfg : Server) (groupID : Z) (handlers : gmap string (Handler S)).

Definition make_move (s : system (S := S)) (m : move S) : option (system (S := S)) :=
  let sh := sy_shared s in
  match m with
  | Accept n uid inp ws =>
      if (sh_unauth sh <? MaxUnauth cfg) && (zlen inp <? 4 * Z.of_nat n)
      then Some {|
        sy_shared := {| sh_unauth := sh_unauth sh + 1; sh_auth := sh_auth sh; sh_lookups := sh_lookups sh;
                        sh_denied := sh_denied sh; sh_state := sh_state sh |};
        sy_workers := sy_workers s; sy_peers := sy_peers s ++ [accepted cfg handlers n uid inp ws]; sy_answers := sy_answers s |}
      else None
  | Proceed i f =>
      p ← sy_peers s !! i;
      match pr_prog p with
      | Do c k =>
          '(r, p', sh') ← run_peer cfg f i sh p c;
          Some {| sy_shared := sh'; sy_workers := sy_workers s;
                  sy_peers := <[i := with_prog (pr_open p') (k r) p']> (sy_peers s); sy_answers := sy_answers s |}
      | _ => None
      end
  | Take w =>
      match sy_workers s !! w, sh_lookups sh with
      | Some None, (i, uid) :: q =>
          Some {|
            sy_shared := {| sh_unauth := sh_unauth sh; sh_auth := sh_auth sh; sh_lookups := q;
                            sh_denied := sh_denied sh; sh_state := sh_state sh |};
            sy_workers := <[w := Some (i, uid)]> (sy_workers s); sy_peers := sy_peers s; sy_answers := sy_answers s |}
      | _, _ => None
      end
  | Reply w lookup =>
      match sy_workers s !! w with
      | Some (Some (i, uid)) =>
          p ← sy_peers s !! i;
          match pr_done p with
          | None =>
              let m := currentMembership lookup uid groupID in
              Some {| sy_shared := sh; sy_workers := <[w := None]> (sy_workers s);
                      sy_peers := <[i := with_lookup (pr_asked p) (Some m) p]> (sy_peers s);
                      sy_answers := sy_answers s ++ [(uid, m)] |}
          | Some _ => None
          end
      | _ => None
      end
  end.

Fixpoint make_moves (s : system (S := S)) (ms : list (move S)) : option (system (S := S)) :=
  match ms with
  | [] => Some s
  | m :: ms => s' ← make_move s m; make_moves s' ms
  end.

Lemma make_move_step s m s' : make_move s m = Some s' -> sys_step cfg groupID handlers s s'.
Proof.
  destruct m as [n uid inp ws|i f|w|w lookup]; cbn [make_move].
  - destruct (_ && _) eqn:E; [|done]. intros [= <-]. apply andb_true_iff in E as [?%Z.ltb_lt ?%Z.ltb_lt]. by constructor.
  - destruct (sy_peers s !! i) as [p|] eqn:Hi; cbn; [|done]. destruct (pr_prog p) as [|B c k|] eqn:Hp; [done | | done].
    destruct (run_peer cfg f i _ p c) as [[[r p'] sh']|] eqn:Hr; cbn; [|done]. intros [= <-]. by eapply step_peer.
  - destruct (sy_workers s !! w) as [[|]|] eqn:Hw; [done | | done]. destruct (sh_lookups _) as [|[i uid] q] eqn:Hq; [done|].
    intros [= <-]. by eapply step_take.
  - destruct (sy_workers s !! w) as [[[i uid]|]|] eqn:Hw; [|done..]. destruct (sy_peers s !! i) as [p|] eqn:Hi; cbn; [|done].
    destruct (pr_done p) eqn:Hd; [done|]. intros [= <-]. by eapply (step_answer _ _ _ s w i uid p lookup).
Qed.

Lemma make_moves_reachable s0 ms s s' :
  reachable cfg groupID handlers s0 s -> make_moves s ms = Some s' -> reachable cfg groupID handlers s0 s'.
Proof.
  revert s. induction ms as [|m ms IH]; intros s Hs; cbn [make_moves]; [by intros [= <-]|].
  destruct (make_move s m) as [s1|] eqn:E; cbn; [|done]. apply IH. eapply reach_step; [exact Hs | by apply (make_move_step _ m)].
Qed.
End Run.

(** ** A member of the group is served while a stranger is denied *)

Definition etc_group (uid : string) : option user :=
  if bool_decide (uid = "1000"%string) then Some {| us_Username := "ada"; us_GroupIds := Some ["100"%string; "27"%string] |}
  else if bool_decide (uid = "1001"%string) then Some {| us_Username := "eve"; us_GroupIds := Some ["100"%string] |}
  else None.

Definition going : choice (S := Z) := {| ch_ok := true; ch_now := 5; ch_others := id |}.
Definition demo_moves : list (move Z) :=
  [Accept 32 (Some 1000) (frame count_request) []; Accept 32 (Some 1001) (frame count_request) [];
   Proceed 0 going; Proceed 1 going; Proceed 1 going; Proceed 0 going; Take 3; Take 0; Reply 0 etc_group; Reply 3 etc_group;
   Proceed 1 going; Proceed 0 going; Proceed 0 going; Proceed 0 going; Proceed 1 going; Proceed 0 going; Proceed 0 going].
Definition demo_start : system (S := Z) := start sample_server 7.
Definition demo_end : system (S := Z) := default demo_start (make_moves sample_server 27 count_handlers demo_start demo_moves).

Lemma default_reachable s0 ms s :
  reachable sample_server 27 count_handlers s0 s -> bool_decide (is_Some (make_moves sample_server 27 count_handlers s ms)) = true ->
  reachable sample_server 27 count_handlers s0 (default s (make_moves sample_server 27 count_handlers s ms)).
Proof. intros Hs [s' E]%bool_decide_eq_true. rewrite E. by apply (make_moves_reachable _ _ _ _ ms s). Qed.

Lemma demo_reachable : reachable sample_server 27 count_handlers 7 demo_end.
Proof. apply default_reachable; [apply reach_start | vm_cast_no_check (@eq_refl bool true)]. Qed.

(** The handler a connection is about to run, for whom and on what; or what it is
    about to write. *)
Definition about_to {S} (q : io (peer_call (S := S)) unit) : option (Actor * bytes + bytes) :=
  match q with
  | Do c _ => match c with
              | OnConn c => match c with
                            | Invoke _ actor body => Some (inl (actor, body))
                            | WriteAll b => Some (inr b)
                            | _ => None
                            end
              | _ => None
              end
  | _ => None
  end.
Lemma about_to_invoke {S} (q : io (peer_call (S := S)) unit) actor body :
  about_to q = Some (inl (actor, body)) -> exists h k, q = Do (OnConn (Invoke h actor body)) k.
Proof. destruct q as [|B [| | | | | | |B' c|] k|]; try done. destruct c; try done. intros [= -> ->]. by do 2 eexists. Qed.

Lemma demo_invokes :
  (sy_peers demo_end !! 0%nat ≫= fun p => about_to (pr_prog p))
  = Some (inl ({| UID := 1000; UsernameSnapshot := Some "ada"%string |}, count_request)).
Proof. vm_cast_no_check (@eq_refl _ (Some (inl ({| UID := 1000; UsernameSnapshot := Some "ada"%string |}, count_request)) : option (Actor * bytes + bytes))). Qed.
Lemma demo_tokens : (sh_unauth (sy_shared demo_end), sh_auth (sy_shared demo_end)) = (1, 1).
Proof. vm_cast_no_check (@eq_refl _ (1, 1)). Qed.

Lemma slots_bounded_witness : count pr_unauth (sy_peers demo_end) = 1 /\ count pr_auth (sy_peers demo_end) = 1.
Proof.
  destruct (slots_bounded sample_server 27 count_handlers 7 demo_end sample_server_ok demo_reachable) as (Hu & _ & Ha & _).
  exact (conj (eq_trans (eq_sym Hu) (f_equal fst demo_tokens)) (eq_trans (eq_sym Ha) (f_equal snd demo_tokens))).
Defined.

Lemma demo_peer : exists p h k, sy_peers demo_end !! 0%nat = Some p
  /\ pr_prog p = Do (OnConn (Invoke h {| UID := 1000; UsernameSnapshot := Some "ada"%string |} count_request)) k.
Proof.
  pose proof demo_invokes as H. destruct (sy_peers demo_end !! 0%nat) as [p|]; [|discriminate H].
  apply about_to_invoke in H as (h & k & Hk). exists p, h, k. exact (conj eq_refl Hk).
Qed.


Lemma no_connection_stuck_witness : exists p, sy_peers demo_end !! 0%nat = Some p /\ (pr_prog p = Return tt \/
  exists B (c : peer_call B) k f r p' sh, pr_prog p = Do c k /\ run_peer sample_server f 0 (sy_shared demo_end) p c = Some (r, p', sh)).
Proof.
  destruct demo_peer as (p & h & k & Hp & Hk). exists p.
  exact (conj Hp (proj1 (no_connection_stuck sample_server 27 count_handlers 7 demo_end sample_server_ok demo_reachable) 0%nat p Hp)).
Defined.
