(* ===== verification/Listen.v ===== *)
(** * Where the operator socket stands

    Models [New], [Listen], [prepareDirectory] and [recoverStaleSocket] of
    [internal/operator/server.go]: the two objects of the file system the
    operator socket needs and the checks under which the server takes, replaces
    or refuses them. *)
From S2P Require Import Prelude GoBytes GoText Config Effects.

Inductive listen_err :=
  | NoSuchGroup | InvalidGroupId
  | NotRoot
  | UnsafeDirectory    (** [must be a root-owned directory writable only by root] *)
  | UnsafeObject       (** [refusing to replace unsafe object] *)
  | SocketLive         (** [operator socket is already live] *)
  | NotProvenStale     (** [cannot prove operator socket stale] *)
  | OsFault.

(** [New]: the admin group's number; [groups] is the group database. *)
Definition New (cfg : Server) (groups : string -> option string) : result listen_err Z :=
  gid ← of_option (groups (op_AdminGroup (sc_Operator cfg))) NoSuchGroup;
  of_option (ParseInt64 gid) InvalidGroupId.

(** ** The objects and the calls *)

Inductive kind := Directory | Symlink (to_directory : bool) | Socket (live : bool) | OtherKind.
#[export] Instance kind_eq_dec : EqDecision kind.
Proof. solve_decision. Defined.
Record object := { o_kind : kind; o_uid : Z; o_gid : Z; o_perm : Z }.

Definition o_owned (uid gid : Z) (o : object) : object :=
  {| o_kind := o_kind o; o_uid := uid; o_gid := gid; o_perm := o_perm o |}.
Definition o_moded (perm : Z) (o : object) : object :=
  {| o_kind := o_kind o; o_uid := o_uid o; o_gid := o_gid o; o_perm := perm |}.

Inductive stat_err := StatNotExist | StatOther.
Inductive dial_outcome := Connected | Refused | DialOther.

Inductive listen_call : Type -> Type :=
  | Geteuid : listen_call Z
  | MkdirAll (mode : Z) : listen_call bool
  | LstatDir : listen_call (result stat_err object)
  | ChownDir (uid gid : Z) : listen_call bool
  | ChmodDir (mode : Z) : listen_call bool
  | LstatSocket : listen_call (result stat_err object)
  | DialTimeout : listen_call dial_outcome
  | RemoveSocket : listen_call bool
  | ListenUnix : listen_call bool
  | ChownSocket (uid gid : Z) : listen_call bool
  | ChmodSocket (mode : Z) : listen_call bool
  (** closing the listener removes its socket *)
  | CloseListener : listen_call unit.

Definition done_or (c : listen_call bool) : io listen_call (result listen_err unit) :=
  ok ← perform c; Return (if (ok : bool) then Ok tt else Err OsFault).

Definition is_directory (k : kind) : bool := match k with Directory => true | _ => false end.
Definition is_symlink (k : kind) : bool := match k with Symlink _ => true | _ => false end.
Definition is_socket (k : kind) : bool := match k with Socket _ => true | _ => false end.

Section Listening.
Context (groupID : Z).

Definition prepareDirectory : io listen_call (result listen_err unit) :=
  call? done_or (MkdirAll 488);
  info ← perform LstatDir;
  match info with
  | Err _ => Return (Err OsFault)
  | Ok info =>
      if is_symlink (o_kind info) || negb (is_directory (o_kind info)) || negb (o_uid info =? 0)
         || negb (Z.land (o_perm info) 18 =? 0)
      then Return (Err UnsafeDirectory)
      else
        call? done_or (ChownDir 0 groupID);
        done_or (ChmodDir 488)
  end.

Definition recoverStaleSocket : io listen_call (result listen_err unit) :=
  info ← perform LstatSocket;
  match info with
  | Err StatNotExist => Return (Ok tt)
  | Err StatOther => Return (Err OsFault)
  | Ok info =>
      if negb (is_socket (o_kind info)) || negb (o_uid info =? 0) then Return (Err UnsafeObject)
      else
        c ← perform DialTimeout;
        match c with
        | Connected => Return (Err SocketLive)
        | DialOther => Return (Err NotProvenStale)
        | Refused => done_or RemoveSocket
        end
  end.

Definition Listen : io listen_call (result listen_err unit) :=
  euid ← perform Geteuid;
  if negb (euid =? 0) then Return (Err NotRoot)
  else
    call? prepareDirectory;
    call? recoverStaleSocket;
    call? done_or ListenUnix;
    ok ← perform (ChownSocket 0 groupID);
    if negb ok then _ ← perform CloseListener; Return (Err OsFault)
    else
      ok ← perform (ChmodSocket 432);
      if negb ok then _ ← perform CloseListener; Return (Err OsFault)
      else Return (Ok tt).
End Listening.

(** ** The host *)

(** The objects at [SocketDir] and [SocketPath], what was removed from the
    second, and who runs the server under which umask. *)
Record host := {
  h_euid : Z; h_umask : Z; h_dir : option object; h_sock : option object; h_removed : list object }.
Definition with_dir d h := {| h_euid := h_euid h; h_umask := h_umask h; h_dir := d; h_sock := h_sock h; h_removed := h_removed h |}.
Definition with_sock s h := {| h_euid := h_euid h; h_umask := h_umask h; h_dir := h_dir h; h_sock := s; h_removed := h_removed h |}.

Definition on_object (f : object -> object) (o : option object) (put : option object -> host -> host) (ok : bool) (h : host) : bool * host :=
  match o with
  | Some x => if ok then (true, put (Some (f x)) h) else (false, h)
  | None => (false, h)
  end.

(** [ok]: whether a call that may fail for reasons of its own succeeds. *)
Definition run_host (B : Type) (ok : bool) (h : host) (c : listen_call B) : B * host :=
  match c in listen_call B return B * host with
  | Geteuid => (h_euid h, h)
  | MkdirAll mode =>
      match h_dir h with
      | Some o => (ok && match o_kind o with Directory | Symlink true => true | _ => false end, h)
      | None => if ok then (true, with_dir (Some {| o_kind := Directory; o_uid := h_euid h; o_gid := h_euid h;
                                                    o_perm := Z.land mode (Z.lnot (h_umask h)) |}) h)
                else (false, h)
      end
  | LstatDir => (match h_dir h with None => Err StatNotExist | Some o => if ok then Ok o else Err StatOther end, h)
  | ChownDir uid gid => on_object (o_owned uid gid) (h_dir h) with_dir ok h
  | ChmodDir mode => on_object (o_moded mode) (h_dir h) with_dir ok h
  | LstatSocket => (match h_sock h with None => Err StatNotExist | Some o => if ok then Ok o else Err StatOther end, h)
  | DialTimeout =>
      (match h_sock h with
       | Some o => match o_kind o with
                   | Socket true => if ok then Connected else DialOther
                   | Socket false => if ok then Refused else DialOther
                   | _ => DialOther
                   end
       | None => DialOther
       end, h)
  | RemoveSocket =>
      match h_sock h with
      | Some o => if ok then (true, {| h_euid := h_euid h; h_umask := h_umask h; h_dir := h_dir h; h_sock := None;
                                       h_removed := h_removed h ++ [o] |})
                  else (false, h)
      | None => (false, h)
      end
  | ListenUnix =>
      match h_sock h with
      | Some _ => (false, h)
      | None => if ok then (true, with_sock (Some {| o_kind := Socket true; o_uid := h_euid h; o_gid := h_euid h;
                                                     o_perm := Z.land 511 (Z.lnot (h_umask h)) |}) h)
                else (false, h)
      end
  | ChownSocket uid gid => on_object (o_owned uid gid) (h_sock h) with_sock ok h
  | ChmodSocket mode => on_object (o_moded mode) (h_sock h) with_sock ok h
  | CloseListener => (tt, with_sock None h)
  end.

(** ** What the server takes, replaces or leaves alone *)

(** A directory only root can write in; a socket of root's that no one serves. *)
Definition safe_directory (o : object) : bool :=
  bool_decide (o_kind o = Directory) && (o_uid o =? 0) && (Z.land (o_perm o) 18 =? 0).
Definition stale (o : object) : bool := bool_decide (o_kind o = Socket false) && (o_uid o =? 0).

Record careful (h0 h : host) : Prop := {
  ca_self : h_euid h = h_euid h0 /\ h_umask h = h_umask h0;
  ca_removed : exists r, h_removed h = h_removed h0 ++ r /\ Forall (fun o => stale o = true) r;
  ca_socket : forall o, h_sock h0 = Some o -> stale o = false -> h_sock h = Some o;
  ca_dir : forall o, h_dir h0 = Some o -> safe_directory o = false -> h_dir h = Some o /\ h_sock h = h_sock h0 /\ h_removed h = h_removed h0 }.

(** Before the socket is looked at. *)
Record prepared (h0 h : host) : Prop := {
  pr_self : h_euid h = h_euid h0 /\ h_umask h = h_umask h0;
  pr_same : h_sock h = h_sock h0 /\ h_removed h = h_removed h0;
  pr_dir : forall o, h_dir h0 = Some o -> safe_directory o = false -> h_dir h = Some o }.

Lemma prepared_careful h0 h : prepared h0 h -> careful h0 h.
Proof.
  intros [Hs [H1 H2] Hd]. split; [done | exists []; by rewrite app_nil_r | by rewrite H1 |].
  intros o Ho Hn. by rewrite (Hd o Ho Hn).
Qed.

Definition safe_start (h0 : host) : Prop := forall o, h_dir h0 = Some o -> safe_directory o = true.

(** The test the program makes is the one for a safe directory. *)
Lemma directory_test o :
  is_symlink (o_kind o) || negb (is_directory (o_kind o)) || negb (o_uid o =? 0) || negb (Z.land (o_perm o) 18 =? 0)
  = negb (safe_directory o).
Proof.
  unfold safe_directory. destruct o as [k u g p]; cbn. rewrite !negb_andb. destruct k; by cbn.
Qed.

Lemma socket_test o : is_socket (o_kind o) = true -> (o_uid o =? 0) = true -> o_kind o = Socket false -> stale o = true.
Proof. intros _ Hu Hk. unfold stale. by rewrite Hk, Hu. Qed.

(** The checks, once the directory is [o]. *)
Lemma directory_checked gid um d0 o s rm :
  (forall o', d0 = Some o' -> o' = o) ->
  let h0 := {| h_euid := 0; h_umask := um; h_dir := d0; h_sock := s; h_removed := rm |} in
  wpc run_host (prepared h0)
    (info ← perform LstatDir;
     match info with
     | Err _ => Return (Err OsFault)
     | Ok info =>
         if is_symlink (o_kind info) || negb (is_directory (o_kind info)) || negb (o_uid info =? 0)
            || negb (Z.land (o_perm info) 18 =? 0)
         then Return (Err UnsafeDirectory)
         else call? done_or (ChownDir 0 gid); done_or (ChmodDir 488)
     end)
    (fun r h => r = Ok tt -> safe_start h0 /\ h_dir h = Some {| o_kind := Directory; o_uid := 0; o_gid := gid; o_perm := 488 |})
    (with_dir (Some o) h0).
Proof.
  intros Hd h0. assert (Hp : forall d', (safe_directory o = false -> d' = Some o) -> prepared h0 (with_dir d' h0)).
  { intros d' Hd'. split; [done | done |]. cbn. intros o' Ho Hf. rewrite (Hd o' Ho) in *. auto. }
  split; [by apply Hp|]. intros [|]; cbn; [|split; [by apply Hp | done]]. rewrite directory_test.
  destruct (safe_directory o) eqn:Hsafe; cbn [negb]; [|split; [by apply Hp | done]].
  split; [by apply Hp|]. intros [|]; cbn; (split; [by apply Hp|]); [|done]. intros [|]; cbn; (split; [by apply Hp|]); [|done].
  intros _. split; [intros o' Ho; by rewrite (Hd o' Ho)|]. unfold safe_directory in Hsafe. bool_to_prop. res_inv.
  destruct o as [k u g p]; cbn in *. bool_to_prop. by subst.
Qed.

Lemma prepareDirectory_wpc gid h0 :
  h_euid h0 = 0 ->
  wpc run_host (prepared h0) (prepareDirectory gid)
    (fun r h => r = Ok tt -> safe_start h0 /\ h_dir h = Some {| o_kind := Directory; o_uid := 0; o_gid := gid; o_perm := 488 |}) h0.
Proof.
  destruct h0 as [eu um d s rm]. cbn [h_euid]. intros ->. assert (Hr : prepared (Build_host 0 um d s rm) (Build_host 0 um d s rm)) by by split.
  split; [done|]. intros ok. destruct d as [o|]; cbn [run_host h_dir].
  - destruct (ok && _); cbn [fst snd]; [|by split]. apply (directory_checked gid um (Some o) o). congruence.
  - destruct ok; cbn [fst snd]; [|by split]. by apply (directory_checked gid um None).
Qed.

Lemma careful_sock h0 h x :
  careful h0 h -> safe_start h0 -> (forall o, h_sock h0 = Some o -> stale o = true) -> careful h0 (with_sock x h).
Proof.
  intros [H1 H2 H3 H4] Hs Hst. split; cbn [with_sock h_euid h_umask h_removed h_sock h_dir]; try done.
  - intros o Ho Hn. by rewrite (Hst o Ho) in Hn.
  - intros o Ho Hn. by rewrite (Hs o Ho) in Hn.
Qed.

(** Afterwards no socket stands there, and the one that did was stale. *)
Lemma recoverStaleSocket_wpc h0 h :
  prepared h0 h -> safe_start h0 ->
  wpc run_host (careful h0) recoverStaleSocket
    (fun r h' => h_dir h' = h_dir h /\ h_euid h' = h_euid h
      /\ (r = Ok tt -> h_sock h' = None /\ forall o, h_sock h0 = Some o -> stale o = true)) h.
Proof.
  intros Hp Hs. pose proof (prepared_careful _ _ Hp) as Hc. destruct Hp as [Hself [Hsock Hrm] _].
  split; [done|]. intros ok. cbn [run_host fst snd]. destruct (h_sock h) as [o|] eqn:Eo.
  2: { split; [exact Hc|]. split; [done|]. split; [done|]. intros _. split; [done|]. intros o Ho. congruence. }
  destruct ok; [|by split]. cbn. destruct (_ || _) eqn:Ht; [by split|]. res_inv.
  split; [done|]. intros ok. cbn [run_host fst snd]. rewrite Eo. destruct (o_kind o) as [| |live|] eqn:Ek; try discriminate.
  destruct live, ok; cbn; try by split.
  assert (Hst : stale o = true) by (unfold stale; rewrite Ek; by apply andb_true_iff).
  split; [done|]. intros [|]; cbn [run_host fst snd]; rewrite Eo; cbn; [|by split].
  assert (Hst' : forall o', h_sock h0 = Some o' -> stale o' = true) by (intros o' Ho; rewrite Hsock in Eo; congruence).
  split; [|done]. destruct Hc as [H1 (r & H2 & H3) H4 H5]. split; cbn; try done.
  - exists (r ++ [o]). rewrite H2, <- app_assoc. split; [done|]. apply Forall_app. by split; [|constructor].
  - intros o' Ho Hn. by rewrite (Hst' o' Ho) in Hn.
  - intros o' Ho Hn. by rewrite (Hs o' Ho) in Hn.
Qed.

Lemma Listen_wpc gid h0 :
  wpc run_host (careful h0) (Listen gid)
    (fun r h => r = Ok tt ->
       h_euid h0 = 0 /\ safe_start h0 /\ (forall o, h_sock h0 = Some o -> stale o = true)
       /\ h_dir h = Some {| o_kind := Directory; o_uid := 0; o_gid := gid; o_perm := 488 |}
       /\ h_sock h = Some {| o_kind := Socket true; o_uid := 0; o_gid := gid; o_perm := 432 |}) h0.
Proof.
  assert (H0 : careful h0 h0) by (apply prepared_careful; by split).
  unfold Listen. apply wpc_call; [done|]. intros ok. cbn [run_host fst snd]. destruct (h_euid h0 =? 0) eqn:He; cbn [negb]; [|by split]. apply Z.eqb_eq in He.
  apply wpc_try. eapply wpc_mono; [apply prepared_careful | | by apply (prepareDirectory_wpc gid)].
  intros [[]|e] h1 Hp H1 _; [|done]. destruct (H1 eq_refl) as [Hs Hd].
  apply wpc_try. eapply wpc_mono; [done | | by apply recoverStaleSocket_wpc].
  intros [[]|e] h2 _ (Hd2 & He2 & H2) Hc; [|done]. destruct (H2 eq_refl) as [Hn Hst]. clear H1 H2 H0.
  assert (Hc' : forall x, careful h0 (with_sock x h2)) by (intros x; by apply careful_sock).
  assert (He1 : h_euid h2 = 0) by (rewrite He2, (proj1 (pr_self _ _ Hp)); done).
  assert (Hd' : h_dir h2 = Some {| o_kind := Directory; o_uid := 0; o_gid := gid; o_perm := 488 |}) by congruence. clear He2 Hd2 Hp.
  split; [done|]. intros [|]; cbn [run_host fst snd]; rewrite Hn; cbn [fst snd]; [|by split].
  split; [apply Hc'|]. intros [|]; cbn.
  - split; [apply (Hc' (Some _))|]. intros [|]; cbn.
    + split; [apply (Hc' (Some _)) | by auto].
    + split; [apply (Hc' (Some _))|]. intros _. split; [apply (Hc' None) | done].
  - split; [apply (Hc' (Some _))|]. intros _. split; [apply (Hc' None) | done].
Qed.

(** C8. Whatever fails on the way, [Listen] removes nothing but stale sockets of
    root's, leaves any other object at the socket's path as it was, and leaves a
    directory that is a link, not root's or writable by others alone, with all
    in it.  When it returns nil the server runs as root, its directory is root's
    and the admin group's with mode 0750, and the socket that now stands there,
    live, is root's and the group's with mode 0660: nobody else can connect. *)
Theorem Listen_careful gid h0 h p :
  exec run_host h0 (Listen gid) h p ->
  careful h0 h
  /\ (p = Return (Ok tt) ->
      h_euid h0 = 0 /\ safe_start h0 /\ (forall o, h_sock h0 = Some o -> stale o = true)
      /\ h_dir h = Some {| o_kind := Directory; o_uid := 0; o_gid := gid; o_perm := 488 |}
      /\ h_sock h = Some {| o_kind := Socket true; o_uid := 0; o_gid := gid; o_perm := 432 |}).
Proof.
  intros Hex. pose proof (wpc_exec run_host _ _ _ _ _ _ Hex (Listen_wpc gid h0)) as Hw.
  split; [by eapply wpc_now|]. intros ->. by apply Hw.
Qed.

(** ** A socket left by a server that was killed *)

Definition stale_socket : object := {| o_kind := Socket false; o_uid := 0; o_gid := 27; o_perm := 432 |}.
Definition killed_host : host := {|
  h_euid := 0; h_umask := 18; h_dir := Some {| o_kind := Directory; o_uid := 0; o_gid := 0; o_perm := 493 |};
  h_sock := Some stale_socket; h_removed := [] |}.

Lemma Listen_careful_witness :
  let h := (play run_host (replicate 12 true) killed_host (Listen 27)).1 in
  h_sock h = Some {| o_kind := Socket true; o_uid := 0; o_gid := 27; o_perm := 432 |} /\ careful killed_host h
  /\ h_removed h = [stale_socket].
Proof.
  cbv zeta. destruct (Listen_careful 27 killed_host _ _ (play_exec run_host (replicate 12 true) killed_host (Listen 27))) as [Hc H].
  destruct (H ltac:(vm_compute; reflexivity)) as (_ & _ & _ & _ & Hs). split; [exact Hs|]. split; [exact Hc|]. vm_compute. reflexivity.
Defined.
Example Listen_live : (play run_host (replicate 12 true)
    {| h_euid := 0; h_umask := 18; h_dir := None; h_sock := Some (o_owned 0 0 {| o_kind := Socket true; o_uid := 1; o_gid := 1; o_perm := 0 |});
       h_removed := [] |} (Listen 27)).2 = Return (Err SocketLive).
Proof. vm_compute. reflexivity. Qed.
