(* ===== verification/Tls.v ===== *)
(** * The broker's TLS identity

    Models [internal/natsauth/tls.go]: the lifetimes of the two certificates,
    the CA and the broker certificate it signs, the broker configuration's
    [tls] section and how a client is told to verify.  Elliptic-curve keys and
    X.509 encodings are an interface with laws; the templates, their validity
    and their names are the source's. *)
From S2P Require Import Prelude GoBytes GoTime GoText GoPath Json Nats Issue.

Definition DefaultCALifetime : Duration := 5 * 365 * 24 * Hour.
Definition DefaultBrokerCertLifetime : Duration := 365 * 24 * Hour.
Definition clockAllowance : Duration := 5 * Minute.

Definition TLSDir : string := "tls".
Definition CACertFile : string := "ca.pem".
Definition BrokerCertFile : string := "broker.pem".
Definition BrokerKeyFile : string := "broker-key.pem".
Definition certificateMode : Z := 420.
Definition certificatePEMType : string := "CERTIFICATE".
Definition privateKeyPEMType : string := "PRIVATE KEY".

Inductive tls_err :=
  | ErrBrokerNames
  | ErrLifetime
  | KeyGeneration      (** an error of [ecdsa.GenerateKey] *)
  | SerialFault        (** an error of [rand.Int] *)
  | SigningFault       (** an error of [x509.CreateCertificate] *)
  | ParseFault         (** an error of [x509.ParseCertificate] *)
  | KeyEncoding        (** an error of [x509.MarshalPKCS8PrivateKey] *)
  | NoCACertificate.

(** ** Lifetimes *)

Definition certificateLifetimes (caLifetime brokerLifetime : Duration) : result tls_err (Duration * Duration) :=
  if caLifetime <? 0 then Err ErrLifetime
  else if brokerLifetime <? 0 then Err ErrLifetime
  else
    let caLifetime := if caLifetime =? 0 then DefaultCALifetime else caLifetime in
    if brokerLifetime =? 0 then Ok (caLifetime, Z.min DefaultBrokerCertLifetime caLifetime)
    else if caLifetime <? brokerLifetime then Err ErrLifetime
    else Ok (caLifetime, brokerLifetime).

(** ** Certificates *)

Inductive key_usage := KeyUsageCertSign | KeyUsageCRLSign | KeyUsageDigitalSignature.
Inductive ext_key_usage := ExtKeyUsageServerAuth.

(** The fields of [x509.Certificate] the templates set. *)
Record Certificate := {
  SerialNumber : Z; CommonName : string; NotBefore : Time; NotAfter : Time;
  IsCA : bool; BasicConstraintsValid : bool; MaxPathLen : Z; MaxPathLenZero : bool;
  KeyUsage : list key_usage; ExtKeyUsage : list ext_key_usage;
  IPAddresses : list bytes; DNSNames : list string }.

(** [crypto/ecdsa], [crypto/x509], [encoding/pem] and [net/netip]. *)
Class X509 := {
  ec_key : Type; ec_public : Type;
  ecdsa_GenerateKey : bytes -> option ec_key;
  ec_PublicKey : ec_key -> ec_public;
  (** what a signature draws, the template, the parent, the subject's public
      key and the signer's key *)
  CreateCertificate : bytes -> Certificate -> Certificate -> ec_public -> ec_key -> option bytes;
  ParseCertificate : bytes -> option Certificate;
  MarshalPKCS8PrivateKey : ec_key -> option bytes;
  EncodeToMemory : string -> bytes -> bytes;
  (** the certificates of a PEM text that parse *)
  AppendCertsFromPEM : bytes -> list Certificate;
  ParseAddr : string -> option bytes;
}.

(** A certificate's times are whole seconds. *)
Definition encoded_template (t : Certificate) : Certificate := {|
  SerialNumber := SerialNumber t; CommonName := CommonName t;
  NotBefore := t_truncate_second (NotBefore t); NotAfter := t_truncate_second (NotAfter t);
  IsCA := IsCA t; BasicConstraintsValid := BasicConstraintsValid t; MaxPathLen := MaxPathLen t;
  MaxPathLenZero := MaxPathLenZero t; KeyUsage := KeyUsage t; ExtKeyUsage := ExtKeyUsage t;
  IPAddresses := IPAddresses t; DNSNames := DNSNames t |}.

Class X509Laws (X : X509) : Prop := {
  create_parse r t parent pub k der :
    CreateCertificate r t parent pub k = Some der -> ParseCertificate der = Some (encoded_template t);
  pem_certificate der c :
    ParseCertificate der = Some c -> AppendCertsFromPEM (EncodeToMemory certificatePEMType der) = [c];
}.

Section Tls.
Context {X : X509}.

Record TLSMaterial := {
  CACertPEM : bytes; BrokerCertPEM : bytes; BrokerKeyPEM : bytes; BrokerNames : list string }.

(** What one call draws from the random source, in order. *)
Record tls_draws := {
  dr_caKey : bytes; dr_caSerial : option bytes; dr_caSign : bytes;
  dr_brokerKey : bytes; dr_brokerSerial : option bytes; dr_brokerSign : bytes }.

(** [rand.Int] below [2^127]: sixteen bytes, the topmost bit cleared. *)
Definition serial (rnd : option bytes) : result tls_err Z :=
  of_option ((fun b => be_get b mod 2 ^ 127) <$> rnd) SerialFault.

Definition caTemplate (serial : Z) (notBefore caNotAfter : Time) : Certificate := {|
  SerialNumber := serial; CommonName := "Keystone broker CA"; NotBefore := notBefore; NotAfter := caNotAfter;
  IsCA := true; BasicConstraintsValid := true; MaxPathLen := 0; MaxPathLenZero := true;
  KeyUsage := [KeyUsageCertSign; KeyUsageCRLSign]; ExtKeyUsage := []; IPAddresses := []; DNSNames := [] |}.

Definition brokerTemplate (serial : Z) (names : list string) (notBefore brokerNotAfter : Time) : Certificate := {|
  SerialNumber := serial; CommonName := hd ""%string names; NotBefore := notBefore; NotAfter := brokerNotAfter;
  IsCA := false; BasicConstraintsValid := false; MaxPathLen := 0; MaxPathLenZero := false;
  KeyUsage := [KeyUsageDigitalSignature]; ExtKeyUsage := [ExtKeyUsageServerAuth];
  IPAddresses := omap ParseAddr names;
  DNSNames := filter (fun n => ParseAddr n = None) names |}.

(** The TLS material, and the CA's private key apart. *)
Definition newTLS (names : list string) (caLifetime brokerLifetime : Duration) (now : Time) (d : tls_draws)
  : result tls_err (TLSMaterial * bytes) :=
  _ ← ensure (negb (zlen names =? 0)) ErrBrokerNames;
  _ ← ensure (forallb (fun n => negb (bool_decide (n = ""%string))) names) ErrBrokerNames;
  '(caLifetime, brokerLifetime) ← certificateLifetimes caLifetime brokerLifetime;
  let notBefore := t_add now (- clockAllowance) in
  let caNotAfter := t_add now caLifetime in
  let brokerNotAfter := t_add now brokerLifetime in
  caKey ← of_option (ecdsa_GenerateKey (dr_caKey d)) KeyGeneration;
  caSerial ← serial (dr_caSerial d);
  let template := caTemplate caSerial notBefore caNotAfter in
  caDER ← of_option (CreateCertificate (dr_caSign d) template template (ec_PublicKey caKey) caKey) SigningFault;
  ca ← of_option (ParseCertificate caDER) ParseFault;
  brokerKey ← of_option (ecdsa_GenerateKey (dr_brokerKey d)) KeyGeneration;
  brokerSerial ← serial (dr_brokerSerial d);
  brokerDER ← of_option (CreateCertificate (dr_brokerSign d) (brokerTemplate brokerSerial names notBefore brokerNotAfter)
                           ca (ec_PublicKey brokerKey) caKey) SigningFault;
  brokerKeyDER ← of_option (MarshalPKCS8PrivateKey brokerKey) KeyEncoding;
  caKeyDER ← of_option (MarshalPKCS8PrivateKey caKey) KeyEncoding;
  mret ({| CACertPEM := EncodeToMemory certificatePEMType caDER;
           BrokerCertPEM := EncodeToMemory certificatePEMType brokerDER;
           BrokerKeyPEM := EncodeToMemory privateKeyPEMType brokerKeyDER;
           BrokerNames := names |},
        EncodeToMemory privateKeyPEMType caKeyDER).

(** ** How a client verifies *)

Definition VersionTLS13 : Z := 772.
Record tls_config := { RootCAs : list Certificate; cfg_ServerName : string; MinVersion : Z }.

Definition ClientTLSConfig (caCertPEM : bytes) (brokerName : string) : result tls_err tls_config :=
  _ ← ensure (negb (bool_decide (brokerName = ""%string))) ErrBrokerNames;
  let pool := AppendCertsFromPEM caCertPEM in
  _ ← ensure (negb (zlen pool =? 0)) NoCACertificate;
  mret {| RootCAs := pool; cfg_ServerName := brokerName; MinVersion := VersionTLS13 |}.

(** ** The broker's configuration *)

(** [strconv.Quote]'s escape of one rune of [n] bytes ([n = 0]: a byte that
    starts none). *)
Definition hex_pad (width : nat) (r : Z) : bytes :=
  map (fun i => hex_digit (Z.shiftr r (4 * Z.of_nat i) mod 16)) (rev (seq 0 width)).
Definition quote_rune `{Unicode} (r : Z) (raw : bytes) : bytes :=
  if (r =? 34) || (r =? 92) then x5c :: raw
  else if IsPrint r then raw
  else
    let short (c : byte) := [x5c; c] in
    if r =? 7 then short x61 else if r =? 8 then short x62 else if r =? 12 then short x66
    else if r =? 10 then short x6e else if r =? 13 then short x72 else if r =? 9 then short x74
    else if r =? 11 then short x76
    else if (r <? 32) || (r =? 127) then x5c :: x78 :: hex_pad 2 r
    else if r <? 65536 then x5c :: x75 :: hex_pad 4 r
    else x5c :: x55 :: hex_pad 8 r.
Fixpoint quote_fuel `{Unicode} (fuel : nat) (s : bytes) : bytes :=
  match s, fuel with
  | [], _ | _, O => []
  | c :: s', S fuel' =>
      match rune_width s with
      | Some n => quote_rune (rune_value s n) (take n s) ++ quote_fuel fuel' (drop n s)
      | None => (x5c :: x78 :: hex_pad 2 (byte_val c)) ++ quote_fuel fuel' s'
      end
  end.
Definition Quote `{Unicode} (s : string) : string :=
  of_bytes (x22 :: quote_fuel (String.length s) (to_bytes s) ++ [x22]).

Definition nl : string := of_bytes [x0a].
Definition quotes (s : string) : string := of_bytes (x22 :: to_bytes s ++ [x22]).

Definition tlsBlock `{Unicode} (runtimeDir : string) : string :=
  let dir := Join [runtimeDir; TLSDir] in
  "tls {" +:+ nl
  +:+ "  cert_file: " +:+ Quote (Join [dir; BrokerCertFile]) +:+ nl
  +:+ "  key_file: " +:+ Quote (Join [dir; BrokerKeyFile]) +:+ nl
  +:+ "  handshake_first: true" +:+ nl
  +:+ "  min_version: " +:+ quotes "1.3" +:+ nl
  +:+ "}" +:+ nl.

(** ** What is issued *)

Lemma certificateLifetimes_ok ca b ca' b' :
  certificateLifetimes ca b = Ok (ca', b') -> 0 < b' <= ca' /\ (ca <> 0 -> ca' = ca) /\ (b <> 0 -> b' = b).
Proof.
  unfold certificateLifetimes, DefaultCALifetime, DefaultBrokerCertLifetime, Hour, Minute, Second, Millisecond.
  repeat case_match; intros [= <- <-]; lia.
Qed.

Lemma certificateLifetimes_err ca b :
  is_ok (certificateLifetimes ca b) = false
  <-> ca < 0 \/ b < 0 \/ (if ca =? 0 then DefaultCALifetime else ca) < b.
Proof.
  unfold certificateLifetimes, DefaultCALifetime, DefaultBrokerCertLifetime, Hour, Minute, Second, Millisecond.
  repeat case_match; cbn [is_ok]; split; try done; lia.
Qed.

Lemma certificateLifetimes_fault ca b e : certificateLifetimes ca b = Err e -> e = ErrLifetime.
Proof. unfold certificateLifetimes. repeat case_match; congruence. Qed.

Lemma truncate_le t u : t <= u -> t_truncate_second t <= t_truncate_second u.
Proof.
  intros H. unfold t_truncate_second. apply Z.mul_le_mono_nonneg_r; [unfold Second, Millisecond; lia|].
  apply Z.div_le_mono; [unfold Second, Millisecond; lia | done].
Qed.

Lemma serial_range rnd n : serial rnd = Ok n -> 0 <= n < 2 ^ 127.
Proof. unfold serial. destruct rnd; cbn; [|done]. intros [= <-]. by apply Z.mod_pos_bound. Qed.

Context {XL : X509Laws X}.

(** The CA certificate [ca] and the broker's [broker], issued at [now]. *)
Record issued_pair (names : list string) (caLifetime brokerLifetime : Duration) (now : Time)
    (ca broker : Certificate) : Prop := {
  ip_ca : IsCA ca = true /\ BasicConstraintsValid ca = true /\ MaxPathLen ca = 0 /\ MaxPathLenZero ca = true
          /\ KeyUsage ca = [KeyUsageCertSign; KeyUsageCRLSign];
  ip_broker : IsCA broker = false /\ KeyUsage broker = [KeyUsageDigitalSignature]
          /\ ExtKeyUsage broker = [ExtKeyUsageServerAuth];
  ip_names : CommonName broker = hd ""%string names
    /\ (forall n, n ∈ names -> match ParseAddr n with Some a => a ∈ IPAddresses broker | None => n ∈ DNSNames broker end);
  ip_only : (forall n, n ∈ DNSNames broker -> n ∈ names)
    /\ (forall a, a ∈ IPAddresses broker -> exists n, n ∈ names /\ ParseAddr n = Some a);
  ip_serials : 0 <= SerialNumber ca < 2 ^ 127 /\ 0 <= SerialNumber broker < 2 ^ 127;
  ip_start : NotBefore ca = NotBefore broker /\ NotBefore broker <= now - clockAllowance;
  ip_end : NotAfter broker <= NotAfter ca <= now + caLifetime /\ NotAfter broker <= now + brokerLifetime;
  ip_valid : Second <= brokerLifetime -> NotBefore broker <= now <= NotAfter broker }.

Lemma templates_issued names caL bL now sca sb :
  0 < bL <= caL -> 0 <= sca < 2 ^ 127 -> 0 <= sb < 2 ^ 127 ->
  issued_pair names caL bL now
    (encoded_template (caTemplate sca (t_add now (- clockAllowance)) (t_add now caL)))
    (encoded_template (brokerTemplate sb names (t_add now (- clockAllowance)) (t_add now bL))).
Proof.
  intros Hb Hca Hsb. pose proof (truncate_bounds (now - clockAllowance)). pose proof (truncate_bounds (now + bL)).
  pose proof (truncate_bounds (now + caL)). unfold t_add. rewrite <- Z.sub_opp_r, Z.opp_involutive.
  split; cbn -[Z.pow t_truncate_second clockAllowance Second]; try done.
  - split; [done|]. intros n Hn. destruct (ParseAddr n) as [a|] eqn:E.
    + apply list_elem_of_omap. by exists n.
    + by apply list_elem_of_filter.
  - split; [by intros n [_ Hn]%list_elem_of_filter | by intros a (n & Hn & E)%list_elem_of_omap; exists n].
  - split; [done | lia].
  - pose proof (truncate_le (now + bL) (now + caL) ltac:(lia)). lia.
  - unfold clockAllowance, Minute in *. unfold Second, Millisecond in *. lia.
Qed.

Lemma newTLS_issues names caL bL now d m caKeyPEM :
  newTLS names caL bL now d = Ok (m, caKeyPEM) ->
  exists caL' bL' ca broker, certificateLifetimes caL bL = Ok (caL', bL')
    /\ AppendCertsFromPEM (CACertPEM m) = [ca] /\ AppendCertsFromPEM (BrokerCertPEM m) = [broker]
    /\ BrokerNames m = names /\ issued_pair names caL' bL' now ca broker.
Proof.
  unfold newTLS. intros H. res_inv.
  match goal with p : (Z * Z)%type |- _ => destruct p as [caL' bL'] end. res_inv.
  repeat match goal with H : CreateCertificate _ _ _ _ _ = Some _ |- _ => apply create_parse in H end.
  match goal with H : certificateLifetimes _ _ = Ok _ |- _ => rename H into Hl end.
  exists caL', bL'. do 2 eexists. split; [done|]. split; [by apply pem_certificate|]. split; [by apply pem_certificate|].
  split; [done|]. apply certificateLifetimes_ok in Hl as (Hb & _). simplify_eq. apply templates_issued; [done | by eapply serial_range..].
Qed.

(** What refuses the names or the lifetimes. *)
Definition bad_names (names : list string) : Prop := names = [] \/ ""%string ∈ names.
Definition bad_lifetimes (ca broker : Duration) : Prop :=
  ca < 0 \/ broker < 0 \/ (if ca =? 0 then DefaultCALifetime else ca) < broker.

Lemma names_tests names :
  negb (zlen names =? 0) && forallb (fun n => negb (bool_decide (n = ""%string))) names = true <-> ~ bad_names names.
Proof.
  unfold bad_names. rewrite andb_true_iff, forallb_forall. split.
  - intros [H1 H2] [->|Hin]; [done|]. specialize (H2 _ (proj1 (list_elem_of_In _ _) Hin)). done.
  - intros H. split.
    + destruct names; [by destruct H; left|]. rewrite zlen_cons. pose proof (zlen_nonneg names). by rewrite (proj2 (Z.eqb_neq _ _)) by lia.
    + intros n Hn%list_elem_of_In. apply negb_true_iff, bool_decide_eq_false. intros ->. apply H. by right.
Qed.

Lemma err_step {A B} (o : option A) e (k : A -> result tls_err B) x :
  of_option o e ≫= k = Err x -> x = e \/ exists a, k a = Err x.
Proof. destruct o as [a|]; [|by intros [= <-]; left]. intros H. right. by exists a. Qed.

(** The first two checks decide before anything is drawn. *)
Lemma newTLS_checks names caL bL now d :
  match newTLS names caL bL now d with
  | Err ErrBrokerNames => bad_names names
  | Err ErrLifetime => ~ bad_names names /\ bad_lifetimes caL bL
  | _ => ~ bad_names names /\ ~ bad_lifetimes caL bL
  end.
Proof.
  pose proof (names_tests names) as Hn. pose proof (certificateLifetimes_err caL bL) as Hl. fold (bad_lifetimes caL bL) in Hl.
  unfold newTLS. destruct (negb (zlen names =? 0)); cbn [andb ensure] in *; [rewrite ok_bind|rewrite err_bind].
  2: { destruct (decide (names = [])); [by left|]. unfold bad_names in *. destruct (decide (""%string ∈ names)); [by right|]. exfalso; naive_solver. }
  destruct (forallb _ names); cbn [ensure] in *; [rewrite ok_bind|rewrite err_bind].
  2: { unfold bad_names in *. destruct (decide (names = [])); [by left|]. destruct (decide (""%string ∈ names)); [by right|]. exfalso; naive_solver. }
  assert (Hg : ~ bad_names names) by tauto.
  destruct (certificateLifetimes caL bL) as [[ca b]|e] eqn:E; cbn [is_ok] in Hl; [rewrite ok_bind|rewrite err_bind].
  2: { rewrite (certificateLifetimes_fault _ _ _ E). split; [done | by apply Hl]. }
  assert (Hgl : ~ bad_lifetimes caL bL) by (intros H; apply Hl in H; done).
  match goal with |- match ?r with _ => _ end =>
    assert (Hr : forall e, r = Err e -> e <> ErrBrokerNames /\ e <> ErrLifetime) by
      (intros e H; repeat (apply err_step in H as [->|[? H]]; [by split|]); discriminate H);
    clear -Hg Hgl Hr; destruct r as [|[]]; try done; by edestruct Hr
  end.
Qed.

End Tls.

(** ** An instance of the interface

    A certificate spelled out in bits: it models the laws, not X.509. *)

Definition usage_code (u : key_usage) : Z :=
  match u with KeyUsageCertSign => 0 | KeyUsageCRLSign => 1 | KeyUsageDigitalSignature => 2 end.
Definition usage_of (n : Z) : key_usage :=
  if n =? 0 then KeyUsageCertSign else if n =? 1 then KeyUsageCRLSign else KeyUsageDigitalSignature.

Definition cert_tuple (c : Certificate) :=
  (SerialNumber c, CommonName c, NotBefore c, NotAfter c, (IsCA c, BasicConstraintsValid c, MaxPathLen c, MaxPathLenZero c),
   map usage_code (KeyUsage c), map (fun _ => 0) (ExtKeyUsage c), map (map byte_val) (IPAddresses c), DNSNames c).
Definition tuple_cert (t : Z * string * Z * Z * (bool * bool * Z * bool) * list Z * list Z * list (list Z) * list string) : Certificate :=
  let '(s, n, b, a, (ca, bc, mp, mz), ku, eu, ip, dns) := t in
  {| SerialNumber := s; CommonName := n; NotBefore := b; NotAfter := a; IsCA := ca; BasicConstraintsValid := bc;
     MaxPathLen := mp; MaxPathLenZero := mz; KeyUsage := map usage_of ku; ExtKeyUsage := map (fun _ => ExtKeyUsageServerAuth) eu;
     IPAddresses := map (map byte_of) ip; DNSNames := dns |}.

Lemma map_id_on {A B} (f : A -> B) g (l : list A) : (forall x, g (f x) = x) -> map g (map f l) = l.
Proof. intros H. rewrite map_map. induction l as [|x l IH]; [done|]. cbn. by rewrite H, IH. Qed.

Lemma cert_tuple_inv c : tuple_cert (cert_tuple c) = c.
Proof.
  destruct c as [? ? ? ? ? ? ? ? ku eu ip ?]. unfold cert_tuple, tuple_cert. cbn.
  rewrite !map_id_on; [done | | | by intros []].
  - intros b. apply map_id_on. intros x. apply byte_of_val.
  - by intros [].
Qed.

Definition spell_cert (c : Certificate) : bytes := spell (encode (cert_tuple c)).
Definition unspell_cert (b : bytes) : option Certificate := tuple_cert <$> (unspell b ≫= decode).
Lemma unspell_spell_cert c : unspell_cert (spell_cert c) = Some c.
Proof. unfold unspell_cert, spell_cert. rewrite unspell_spell. cbn [mbind option_bind]. rewrite decode_encode. exact (f_equal Some (cert_tuple_inv c)). Qed.

Definition ToyX509 : X509 := {|
  ec_key := bytes; ec_public := bytes;
  ecdsa_GenerateKey r := Some r; ec_PublicKey k := k;
  CreateCertificate r t parent pub k := Some (spell_cert (encoded_template t));
  ParseCertificate := unspell_cert;
  MarshalPKCS8PrivateKey k := Some k;
  EncodeToMemory _ b := b;
  AppendCertsFromPEM b := match unspell_cert b with Some c => [c] | None => [] end;
  ParseAddr s := if String.eqb s "10.0.0.7" then Some [x0a; x00; x00; x07] else None |}.

Lemma ToyX509Laws : X509Laws ToyX509.
Proof.
  split.
  - intros r t parent pub k der [= <-]. apply unspell_spell_cert.
  - intros der c H. cbn [AppendCertsFromPEM EncodeToMemory ParseCertificate ToyX509] in *. by rewrite H.
Qed.

Definition tls_sample_draws : tls_draws := {|
  dr_caKey := [x01]; dr_caSerial := Some [xff; x02]; dr_caSign := []; dr_brokerKey := [x02];
  dr_brokerSerial := Some [x05]; dr_brokerSign := [] |}.
Definition tls_sample_now : Time := 1700000000 * Second + 5.
Abbreviation sample_tls := (@newTLS ToyX509 ["nats"%string; "10.0.0.7"%string] 0 Hour tls_sample_now tls_sample_draws).

Lemma sample_tls_ok : is_ok sample_tls = true.
Proof. vm_cast_no_check (@eq_refl bool true). Qed.

