(* ===== verification/Deploy.v ===== *)
(** * Generating a deployment

    Models [internal/natsauth/generate.go]: what a deployment is generated from,
    the checks of its inputs, the operator, the two accounts, the identities of
    the services, agents and bootstrap tokens, and the offline revocation.
    Every call draws its own randomness and reads the clock once: [gen_draws]
    names what each one gets. *)
From S2P Require Import Prelude GoBytes GoTime GoText GoPath Vocabulary Subjects Limits Nats Mint Tls.

(** [claims.Revoke]: an entry of the account's revocation list, at an instant. *)
Class Revocation := Revoke : Time -> string -> AccountClaims -> AccountClaims.
Class RevocationLaws (R : Revocation) : Prop := {
  revoke_entry now pub c : is_Some (Revocations (Revoke now pub c) !! pub);
  revoke_others now pub q c : q <> pub -> Revocations (Revoke now pub c) !! q = Revocations c !! q;
  revoke_rest now pub c :
    let c' := Revoke now pub c in
    ac_Subject c' = ac_Subject c /\ ac_Name c' = ac_Name c /\ SigningKeys c' = SigningKeys c /\ ac_Limits c' = ac_Limits c;
}.

Inductive gen_err :=
  | AgentRefused (e : mint_err)    (** [ErrIdentifier] or [ErrAgentPublicKey] *)
  | TokenRefused                   (** [enrollment token: ErrIdentifier] *)
  | LimitsRefused (e : limits_err)
  | ErrRuntimeDir
  | TlsRefused (e : tls_err)
  | GenKeyFault                    (** an error of [nkeys] *)
  | GenEncodeFault                 (** an error of [claims.Encode] *)
  | MintRefused (e : mint_err)
  | AccountUnreadable              (** [decode keystone account] *)
  | RevokeUnknown (token : string).

Record Config := {
  cf_FleetSize : Z; cf_Agents : list AgentKey; cf_Tokens : list string; RevokedTokens : list string;
  BootstrapTTL : Duration; cf_Limits : option Limits; cf_BrokerNames : list string; RuntimeDir : string;
  CALifetime : Duration; BrokerCertLifetime : Duration }.

Section Generating.
Context {K : Nkeys} {J : Jwt K} {X : X509} {R : Revocation}.

Record Account := {
  acc_Name : string; acc_PublicKey : string; acc_JWT : string; acc_Seed : bytes;
  SigningSeed : bytes; acc_SigningKey : string }.

Record Deployment := {
  OperatorSeed : bytes; OperatorPublicKey : string; OperatorJWT : string; CAKey : bytes;
  d_TLS : TLSMaterial; d_RuntimeDir : string; System : Account; Keystone : Account;
  d_Services : gmap string Identity; Agents : gmap string Identity; Bootstraps : gmap string Identity;
  Revoked : list string; d_Limits : Limits }.

(** ** Accounts *)

Record account_draws := { ad_key : bytes; ad_signing : bytes; ad_stamp : Time }.

Definition NewAccountClaims (pub : string) : AccountClaims := {|
  ac_Subject := pub; ac_Issuer := ""; ac_Name := ""; SigningKeys := []; ac_Limits := default_account_limits;
  Revocations := ∅ |}.

Definition newAccount (name : string) (operator : KeyPair) (limits : option Limits) (d : account_draws)
  : result gen_err Account :=
  kp ← of_option (CreateAccount (ad_key d)) GenKeyFault;
  pub ← of_option (PublicKey kp) GenKeyFault;
  seed ← of_option (Seed kp) GenKeyFault;
  signing ← of_option (CreateAccount (ad_signing d)) GenKeyFault;
  signingPub ← of_option (PublicKey signing) GenKeyFault;
  signingSeed ← of_option (Seed signing) GenKeyFault;
  let claims := NewAccountClaims pub in
  let claims := {| ac_Subject := ac_Subject claims; ac_Issuer := ac_Issuer claims; ac_Name := name;
                   SigningKeys := [signingPub];
                   ac_Limits := match limits with Some l => applyAccountLimits l | None => ac_Limits claims end;
                   Revocations := Revocations claims |} in
  encoded ← of_option (encode_account (ad_stamp d) claims operator) GenEncodeFault;
  mret {| acc_Name := name; acc_PublicKey := pub; acc_JWT := encoded; acc_Seed := seed;
          SigningSeed := signingSeed; acc_SigningKey := signingPub |}.

(** ** Revocation *)

(** The claims and the keys revoked so far, over the tokens left; [nows] are the
    instants the entries are made at. *)
Fixpoint revoke_each (bootstraps : gmap string Identity) (nows : nat -> Time) (tokens : list string)
    (claims : AccountClaims) (revoked : list string) : result gen_err (AccountClaims * list string) :=
  match tokens with
  | [] => Ok (claims, revoked)
  | token :: tokens =>
      identity ← of_option (bootstraps !! token) (RevokeUnknown token);
      revoke_each bootstraps (fun i => nows (S i)) tokens (Revoke (nows 0%nat) (id_PublicKey identity) claims)
        (revoked ++ [id_PublicKey identity])
  end.

Definition with_keystone (d : Deployment) (revoked : list string) (jwt : string) : Deployment := {|
  OperatorSeed := OperatorSeed d; OperatorPublicKey := OperatorPublicKey d; OperatorJWT := OperatorJWT d; CAKey := CAKey d;
  d_TLS := d_TLS d; d_RuntimeDir := d_RuntimeDir d; System := System d;
  Keystone := {| acc_Name := acc_Name (Keystone d); acc_PublicKey := acc_PublicKey (Keystone d); acc_JWT := jwt;
                 acc_Seed := acc_Seed (Keystone d); SigningSeed := SigningSeed (Keystone d);
                 acc_SigningKey := acc_SigningKey (Keystone d) |};
  d_Services := d_Services d; Agents := Agents d; Bootstraps := Bootstraps d; Revoked := revoked; d_Limits := d_Limits d |}.

Definition revoke (d : Deployment) (tokens : list string) (operator : KeyPair) (nows : nat -> Time) (stamp : Time)
  : result gen_err Deployment :=
  if zlen tokens =? 0 then Ok d
  else
    claims ← of_option (DecodeAccountClaims (acc_JWT (Keystone d))) AccountUnreadable;
    '(claims, revoked) ← revoke_each (Bootstraps d) nows tokens claims (Revoked d);
    encoded ← of_option (encode_account stamp claims operator) GenEncodeFault;
    mret (with_keystone d (merge_sort String.le revoked) encoded).

(** ** Generation *)

Record gen_draws := {
  g_tls : tls_draws; g_tls_now : Time; g_operator : bytes; g_system : account_draws; g_keystone : account_draws;
  g_operator_stamp : Time; g_service : string -> Time * bytes; g_agent : nat -> Time;
  (** for each token: the instant its expiry counts from, the one its claims are
      stamped with, and its key *)
  g_token : nat -> Time * Time * bytes;
  g_revoke : nat -> Time; g_revoke_stamp : Time }.

Fixpoint check_agents (agents : list AgentKey) : result gen_err unit :=
  match agents with
  | [] => Ok tt
  | agent :: agents =>
      _ ← ensure (ValidateAgentIdentifier (ak_ID agent)) (AgentRefused ErrIdentifier);
      _ ← ensure (IsValidPublicUserKey (ak_PublicKey agent)) (AgentRefused ErrAgentPublicKey);
      check_agents agents
  end.

Definition check_tokens (tokens : list string) : result gen_err unit :=
  ensure (forallb ValidateAgentIdentifier tokens) TokenRefused.

(** [m[key] = identity] for each element, in order. *)
Fixpoint mint_each {A} (key : A -> string) (mint : nat -> A -> result mint_err Identity) (l : list A)
    (m : gmap string Identity) : result gen_err (gmap string Identity) :=
  match l with
  | [] => Ok m
  | x :: l =>
      identity ← map_err MintRefused (mint 0%nat x);
      mint_each key (fun i => mint (S i)) l (<[key x := identity]> m)
  end.

Definition bootstrap_ttl (cfg : Config) : Duration :=
  if BootstrapTTL cfg <=? 0 then 15 * Minute else BootstrapTTL cfg.
Definition chosen_limits (cfg : Config) : Limits := default (DefaultLimits (cf_FleetSize cfg)) (cf_Limits cfg).

Definition Generate (cfg : Config) (g : gen_draws) : result gen_err Deployment :=
  _ ← check_agents (cf_Agents cfg);
  _ ← check_tokens (cf_Tokens cfg);
  let ttl := bootstrap_ttl cfg in
  let limits := chosen_limits cfg in
  _ ← map_err LimitsRefused (Validate limits);
  _ ← ensure (IsAbs (RuntimeDir cfg)) ErrRuntimeDir;
  '(tlsMaterial, caKey) ← map_err TlsRefused
     (newTLS (cf_BrokerNames cfg) (CALifetime cfg) (BrokerCertLifetime cfg) (g_tls_now g) (g_tls g));
  operator ← of_option (CreateOperator (g_operator g)) GenKeyFault;
  operatorPub ← of_option (PublicKey operator) GenKeyFault;
  operatorSeed ← of_option (Seed operator) GenKeyFault;
  system ← newAccount "SYS" operator None (g_system g);
  keystone ← newAccount "KEYSTONE" operator (Some limits) (g_keystone g);
  let operatorClaims := {| oc_Subject := operatorPub; oc_Issuer := ""; oc_Name := "keystone";
                           SystemAccount := acc_PublicKey system |} in
  operatorJWT ← of_option (encode_operator (g_operator_stamp g) operatorClaims operator) GenEncodeFault;
  minter ← map_err MintRefused (NewMinter (acc_PublicKey keystone) (SigningSeed keystone));
  services ← mint_each id (fun _ p => newUser (g_service g p).1 (g_service g p).2 p (serviceGrants p) minter t_zero) Services ∅;
  agents ← mint_each ak_ID (fun i agent => Agent (g_agent g i) minter agent) (cf_Agents cfg) ∅;
  bootstraps ← mint_each id (fun i token => let '(now, stamp, rnd) := g_token g i in
                                            Bootstrap stamp rnd minter token (t_add now ttl)) (cf_Tokens cfg) ∅;
  revoke {| OperatorSeed := operatorSeed; OperatorPublicKey := operatorPub; OperatorJWT := operatorJWT; CAKey := caKey;
            d_TLS := tlsMaterial; d_RuntimeDir := RuntimeDir cfg; System := system; Keystone := keystone;
            d_Services := services; Agents := agents; Bootstraps := bootstraps; Revoked := []; d_Limits := limits |}
    (RevokedTokens cfg) operator (g_revoke g) (g_revoke_stamp g).

(** ** What is generated *)

Context {KL : NkeysLaws K} {JL : JwtLaws K J} {XL : X509Laws X} {RL : RevocationLaws R}.

Lemma check_agents_ok l :
  check_agents l = Ok tt <-> Forall (fun a => issuable (PAgent (ak_ID a)) = true /\ IsValidPublicUserKey (ak_PublicKey a) = true) l.
Proof.
  induction l as [|a l IH]; cbn [check_agents]; [by split|]. rewrite Forall_cons, <- IH. cbn [issuable].
  destruct (ValidateAgentIdentifier _), (IsValidPublicUserKey _); cbn; naive_solver.
Qed.

Lemma mint_each_all {A} (P : string -> Identity -> Prop) key (mint : nat -> A -> result mint_err Identity) l m m' :
  mint_each key mint l m = Ok m' -> (forall i x y, x ∈ l -> mint i x = Ok y -> P (key x) y) -> map_Forall P m ->
  map_Forall P m' /\ dom m' ≡ dom m ∪ list_to_set (map key l).
Proof.
  revert mint m. induction l as [|x l IH]; intros mint m; cbn [mint_each].
  - intros [= <-] _ Hm. split; [done|]. set_solver.
  - destruct (mint 0%nat x) as [y|e] eqn:Hy; cbn [map_err]; [rewrite ok_bind | by rewrite err_bind].
    intros H HP Hm. apply IH in H as [H1 H2].
    + split; [done|]. rewrite H2, dom_insert. set_solver.
    + intros i z w Hz. apply HP. by right.
    + apply map_Forall_insert_2; [|done]. apply (HP 0%nat); [by left | done].
Qed.

(** An account of the operator [pub], as its token says. *)
Definition account_says (a : Account) (operator : string) (limits : account_claim_limits) (revoked : list string) : Prop :=
  exists c, DecodeAccountClaims (acc_JWT a) = Some c
    /\ ac_Subject c = acc_PublicKey a /\ ac_Issuer c = operator /\ ac_Name c = acc_Name a
    /\ SigningKeys c = [acc_SigningKey a] /\ ac_Limits c = limits
    /\ (forall pub, is_Some (Revocations c !! pub) <-> pub ∈ revoked).

Lemma newAccount_says name operator limits d a pub :
  newAccount name operator limits d = Ok a -> PublicKey operator = Some pub ->
  account_says a pub (match limits with Some l => applyAccountLimits l | None => default_account_limits end) []
  /\ acc_Name a = name
  /\ exists kp, CreateAccount (ad_signing d) = Some kp /\ PublicKey kp = Some (acc_SigningKey a) /\ Seed kp = Some (SigningSeed a).
Proof.
  unfold newAccount. intros H Hpub. res_inv. cbn. split; [|by eauto].
  match goal with H : encode_account _ _ _ = Some _ |- _ => pose proof (account_roundtrip _ _ _ _ _ H Hpub) as Hd end.
  eexists. split; [exact Hd|]. repeat (split; [reflexivity|]). intros q. cbn. rewrite lookup_empty. split; [by intros []|]. by intros ?%elem_of_nil.
Qed.

Lemma revoke_each_spec bs nows tokens c revoked c' revoked' :
  revoke_each bs nows tokens c revoked = Ok (c', revoked') ->
  exists ids, mapM (fun t => bs !! t) tokens = Some ids /\ revoked' = revoked ++ map id_PublicKey ids
    /\ ac_Subject c' = ac_Subject c /\ ac_Name c' = ac_Name c /\ SigningKeys c' = SigningKeys c /\ ac_Limits c' = ac_Limits c
    /\ (forall pub, is_Some (Revocations c' !! pub) <-> is_Some (Revocations c !! pub) \/ pub ∈ map id_PublicKey ids).
Proof.
  revert nows c revoked. induction tokens as [|t ts IH]; intros nows c revoked; cbn [revoke_each mapM].
  - intros [= <- <-]. exists []. rewrite app_nil_r. repeat (split; [done|]). set_solver.
  - destruct (bs !! t) as [i|]; cbn [of_option]; [rewrite ok_bind | by rewrite err_bind].
    intros (ids & Hm & -> & H1 & H2 & H3 & H4 & Hr)%IH. destruct (revoke_rest (nows 0%nat) (id_PublicKey i) c) as (E1 & E2 & E3 & E4).
    exists (i :: ids). cbn [mbind option_bind map]. rewrite Hm. split; [done|]. rewrite <- app_assoc. split; [done|].
    rewrite H1, H2, H3, H4. do 4 (split; [done|]). intros pub. rewrite Hr.
    destruct (decide (pub = id_PublicKey i)) as [->|Hne].
    + pose proof (revoke_entry (nows 0%nat) (id_PublicKey i) c). set_solver.
    + rewrite revoke_others by done. set_solver.
Qed.

Lemma account_says_any a op l r r' : (forall x, x ∈ r <-> x ∈ r') -> account_says a op l r -> account_says a op l r'.
Proof. intros E (c & H1 & H2 & H3 & H4 & H5 & H6 & H7). exists c. repeat (split; [done|]). intros pub. by rewrite H7. Qed.

Lemma revoke_says d tokens operator nows stamp d' pub l :
  revoke d tokens operator nows stamp = Ok d' -> PublicKey operator = Some pub -> Revoked d = [] ->
  account_says (Keystone d) pub l [] ->
  exists ids jwt, mapM (fun t => Bootstraps d !! t) tokens = Some ids
    /\ d' = with_keystone d (Revoked d') jwt /\ Revoked d' ≡ₚ map id_PublicKey ids /\ StronglySorted String.le (Revoked d')
    /\ account_says (Keystone d') pub l (Revoked d').
Proof.
  unfold revoke. intros H Hpub Hr Hs. destruct (zlen tokens =? 0) eqn:Hz.
  - injection H as <-. assert (tokens = []) as -> by (destruct tokens; [done|]; rewrite zlen_cons in Hz; pose proof (zlen_nonneg tokens); lia).
    exists [], (acc_JWT (Keystone d)). rewrite Hr. split; [done|]. split; [|split; [done | split; [constructor | done]]].
    destruct d as [? ? ? ? ? ? ? [] ? ? ? ? ?]. cbn in *. by subst.
  - destruct Hs as (c & Hc & H1 & _ & H3 & H4 & H5 & H6). rewrite Hc in H. cbn [of_option] in H. rewrite ok_bind in H.
    destruct (revoke_each _ _ _ _ _) as [[c' revoked]|] eqn:He; [rewrite ok_bind in H | by rewrite err_bind in H].
    res_inv. match goal with H : encode_account _ _ _ = Some _ |- _ => pose proof (account_roundtrip _ _ _ _ _ H Hpub) as Hd end.
    apply revoke_each_spec in He as (ids & Hm & -> & E1 & E2 & E3 & E4 & Er). rewrite Hr in *. cbn [app] in *.
    exists ids. eexists. split; [done|]. split; [reflexivity|]. cbn [Revoked with_keystone].
    split; [apply merge_sort_Permutation|]. split; [apply StronglySorted_merge_sort; apply _|].
    eexists. split; [exact Hd|]. cbn. rewrite E1, E2, E3, E4. do 5 (split; [done|]).
    intros q. rewrite Er, H6, merge_sort_Permutation. set_solver.
Qed.

(** The identities are the principals', signed for the account [acc] by [iss]. *)
Record identities_ok (cfg : Config) (m : Minter) (iss : string) (g : gen_draws) (d : Deployment) : Prop := {
  io_services : dom (d_Services d) ≡ list_to_set Services
    /\ map_Forall (fun p i => issued_as m iss i (PService p) 0 /\ id_Name i = p
                              /\ exists now rnd, newUser now rnd p (serviceGrants p) m t_zero = Ok i) (d_Services d);
  io_agents : dom (Agents d) ≡ list_to_set (map ak_ID (cf_Agents cfg))
    /\ map_Forall (fun id i => issued_as m iss i (PAgent id) 0 /\ id_Name i = id /\ id_Seed i = []
                               /\ exists a, a ∈ cf_Agents cfg /\ ak_ID a = id /\ ak_PublicKey a = id_PublicKey i) (Agents d);
  io_bootstraps : dom (Bootstraps d) ≡ list_to_set (cf_Tokens cfg)
    /\ map_Forall (fun t i => (exists now, issued_as m iss i (PBootstrap t) (Unix_of (t_add now (bootstrap_ttl cfg))))
                              /\ id_Name i = t /\ id_Seed i <> []) (Bootstraps d) }.

Record inputs_ok (cfg : Config) : Prop := {
  in_agents : Forall (fun a => issuable (PAgent (ak_ID a)) = true /\ IsValidPublicUserKey (ak_PublicKey a) = true) (cf_Agents cfg);
  in_tokens : Forall (fun t => issuable (PBootstrap t) = true) (cf_Tokens cfg);
  in_limits : bounded (chosen_limits cfg);
  in_dir : IsAbs (RuntimeDir cfg) = true;
  in_tls : ~ bad_names (cf_BrokerNames cfg) /\ ~ bad_lifetimes (CALifetime cfg) (BrokerCertLifetime cfg);
  in_revoked : Forall (fun t => t ∈ cf_Tokens cfg) (RevokedTokens cfg) }.

Lemma bootstrap_ttl_positive cfg : 0 < bootstrap_ttl cfg.
Proof. unfold bootstrap_ttl, Minute, Second, Millisecond. case_match; lia. Qed.

Lemma services_minted m iss g services :
  PublicKey (signing m) = Some iss ->
  mint_each id (fun _ p => newUser (g_service g p).1 (g_service g p).2 p (serviceGrants p) m t_zero) Services ∅ = Ok services ->
  dom services ≡ list_to_set Services
  /\ map_Forall (fun p i => issued_as m iss i (PService p) 0 /\ id_Name i = p
                            /\ exists now rnd, newUser now rnd p (serviceGrants p) m t_zero = Ok i) services.
Proof.
  intros Hiss H. eapply mint_each_all in H as [H1 H2]; [| |apply map_Forall_empty].
  - split; [rewrite H2, dom_empty, map_id; set_solver | exact H1].
  - intros _ p i _ Hp. pose proof (newUser_issued _ _ _ (PService p) _ _ _ _ Hp Hiss) as (Hi & Hn & _). eauto.
Qed.

Lemma agents_minted cfg m iss g agents :
  PublicKey (signing m) = Some iss -> mint_each ak_ID (fun i agent => Agent (g_agent g i) m agent) (cf_Agents cfg) ∅ = Ok agents ->
  dom agents ≡ list_to_set (map ak_ID (cf_Agents cfg))
  /\ map_Forall (fun id i => issued_as m iss i (PAgent id) 0 /\ id_Name i = id /\ id_Seed i = []
                             /\ exists a, a ∈ cf_Agents cfg /\ ak_ID a = id /\ ak_PublicKey a = id_PublicKey i) agents.
Proof.
  intros Hiss H. eapply mint_each_all in H as [H1 H2]; [| |apply map_Forall_empty].
  - split; [rewrite H2, dom_empty; set_solver | exact H1].
  - intros j a i Ha Hi. apply (Agent_issued _ _ _ _ _ Hi) in Hiss as (H3 & H4 & H5 & H6 & _). eauto 8.
Qed.

Lemma bootstraps_minted cfg m iss g bs :
  PublicKey (signing m) = Some iss ->
  mint_each id (fun i token => let '(now, stamp, rnd) := g_token g i in
                               Bootstrap stamp rnd m token (t_add now (bootstrap_ttl cfg))) (cf_Tokens cfg) ∅ = Ok bs ->
  dom bs ≡ list_to_set (cf_Tokens cfg)
  /\ map_Forall (fun t i => (exists now, issued_as m iss i (PBootstrap t) (Unix_of (t_add now (bootstrap_ttl cfg))))
                            /\ id_Name i = t /\ id_Seed i <> []) bs.
Proof.
  intros Hiss H. eapply mint_each_all in H as [H1 H2]; [| |apply map_Forall_empty].
  - split; [rewrite H2, dom_empty, map_id; set_solver | exact H1].
  - intros j t i Ht Hi. destruct (g_token g j) as [[now stamp] rnd]. eapply Bootstrap_issued in Hi as (? & ? & ? & _); [|exact Hiss]. eauto.
Qed.

Lemma mapM_tokens (bs : gmap string Identity) tokens revoked ids :
  dom bs ≡ list_to_set tokens -> mapM (fun t => bs !! t) revoked = Some ids -> Forall (fun t => t ∈ tokens) revoked.
Proof.
  intros Hd Hm. apply mapM_Some in Hm. apply Forall_forall. intros t [i Hi]%list_elem_of_lookup.
  destruct (Forall2_lookup_l _ _ _ _ _ Hm Hi) as (y & _ & Hy). apply (elem_of_list_to_set (C := gset string)). rewrite <- Hd. by eapply elem_of_dom_2.
Qed.

(** The deployment [d] is what [cfg] asks for. *)
Record deployed (cfg : Config) (g : gen_draws) (d : Deployment) : Prop := {
  dp_inputs : inputs_ok cfg;
  dp_minter : exists m, NewMinter (acc_PublicKey (Keystone d)) (SigningSeed (Keystone d)) = Ok m
       /\ PublicKey (signing m) = Some (acc_SigningKey (Keystone d))
       /\ identities_ok cfg m (acc_SigningKey (Keystone d)) g d;
  dp_seed : trim_space (SigningSeed (Keystone d)) = SigningSeed (Keystone d);
  dp_keystone : account_says (Keystone d) (OperatorPublicKey d) (applyAccountLimits (chosen_limits cfg)) (Revoked d);
  dp_system : account_says (System d) (OperatorPublicKey d) default_account_limits [];
  dp_revoked : exists ids, mapM (fun t => Bootstraps d !! t) (RevokedTokens cfg) = Some ids /\ Revoked d ≡ₚ map id_PublicKey ids;
  dp_tls : exists ca broker caL bL, AppendCertsFromPEM (CACertPEM (d_TLS d)) = [ca]
       /\ issued_pair (cf_BrokerNames cfg) caL bL (g_tls_now g) ca broker }.

Lemma Generate_deployed cfg g d : Generate cfg g = Ok d -> deployed cfg g d.
Proof.
  unfold Generate. intros H. apply bind_ok_inv in H as ([] & Hag & H). apply bind_ok_inv in H as ([] & Htok & H).
  apply bind_ok_inv in H as ([] & Hl%map_err_ok_inv%Validate_bounded & H). apply bind_ok_inv in H as ([] & Hdir%ensure_ok_inv & H).
  apply bind_ok_inv in H as ([tls caKey] & Htls%map_err_ok_inv & H). apply bind_ok_inv in H as (operator & Hop%of_option_ok_inv & H).
  apply bind_ok_inv in H as (pub & Hpub%of_option_ok_inv & H). apply bind_ok_inv in H as (seed & _ & H).
  apply bind_ok_inv in H as (system & Hsys & H). apply bind_ok_inv in H as (keystone & Hks & H).
  apply bind_ok_inv in H as (jwt & _ & H). apply bind_ok_inv in H as (m & Hm%map_err_ok_inv & H).
  apply bind_ok_inv in H as (services & Hs & H). apply bind_ok_inv in H as (agents & Ha & H).
  apply bind_ok_inv in H as (bs & Hb & H).
  destruct (newAccount_says _ _ _ _ _ _ Hks Hpub) as (Hsays & _ & kp & Hkp & Hkpub & Hkseed).
  destruct (newAccount_says _ _ _ _ _ _ Hsys Hpub) as (Hsyssays & _).
  assert (Hiss : PublicKey (signing m) = Some (acc_SigningKey keystone)).
  { apply NewMinter_iff in Hm as (_ & _ & Hf & _). apply created_account in Hkp as (? & ? & ? & ? & _ & _ & Hfs). by simplify_eq. }
  eapply revoke_says in H as (ids & jwt' & Hids & -> & Hrev & _ & Hsays'); [|exact Hpub | done | exact Hsays].
  cbn [Bootstraps with_keystone System OperatorPublicKey] in *.
  destruct (services_minted _ _ _ _ Hiss Hs) as [Hs1 Hs2]. destruct (agents_minted _ _ _ _ _ Hiss Ha) as [Ha1 Ha2].
  destruct (bootstraps_minted _ _ _ _ _ Hiss Hb) as [Hb1 Hb2].
  split; [| | | done | done | by exists ids |].
  - split; [by apply check_agents_ok | | done | done | | by eapply mapM_tokens].
    + unfold check_tokens in Htok. apply ensure_ok_inv in Htok. rewrite forallb_forall in Htok. apply Forall_forall.
      intros t Ht%list_elem_of_In. by apply Htok.
    + pose proof (newTLS_checks (cf_BrokerNames cfg) (CALifetime cfg) (BrokerCertLifetime cfg) (g_tls_now g) (g_tls g)) as Hc.
      by rewrite Htls in Hc.
  - exists m. split; [done|]. split; [done|]. by split.
  - apply created_account in Hkp as Hc. by apply (account_seed_solid _ _ _ Hkp).
  - apply newTLS_issues in Htls as (caL & bL & ca & broker & _ & Hca & _ & _ & Hp). by exists ca, broker, caL, bL.
Qed.

(** C12. Everything [Generate] returns is one deployment.  Its inputs were all
    admissible: identifiers, the agents' own public keys, limits, the broker's
    names and lifetimes, an absolute directory, and only generated tokens
    revoked.  The Keystone account's token is signed by the operator, names one
    signing key, carries the chosen limits and exactly the revoked keys; that
    signing key is the one the deployment's seed mints with, and every identity
    is issued by it for that account: the five services, the configured agents,
    without a seed and under their own keys, and the tokens, expiring. *)
Theorem Generate_deployment cfg g d :
  Generate cfg g = Ok d ->
  inputs_ok cfg
  /\ (exists m, NewMinter (acc_PublicKey (Keystone d)) (SigningSeed (Keystone d)) = Ok m
       /\ PublicKey (signing m) = Some (acc_SigningKey (Keystone d))
       /\ identities_ok cfg m (acc_SigningKey (Keystone d)) g d)
  /\ account_says (Keystone d) (OperatorPublicKey d) (applyAccountLimits (chosen_limits cfg)) (Revoked d)
  /\ account_says (System d) (OperatorPublicKey d) default_account_limits []
  /\ exists ids, mapM (fun t => Bootstraps d !! t) (RevokedTokens cfg) = Some ids /\ Revoked d ≡ₚ map id_PublicKey ids.
Proof. intros [? ? ? ? ? ? ?]%Generate_deployed. repeat (split; [done|]). done. Qed.
End Generating.

(** ** An instance, and a deployment *)

Definition ToyRevocation : Revocation := fun now pub c => {|
  ac_Subject := ac_Subject c; ac_Issuer := ac_Issuer c; ac_Name := ac_Name c; SigningKeys := SigningKeys c;
  ac_Limits := ac_Limits c; Revocations := <[pub := Unix_of now]> (Revocations c) |}.
Lemma ToyRevocationLaws : RevocationLaws ToyRevocation.
Proof. split; cbn; intros; [rewrite lookup_insert_eq; eauto | by rewrite lookup_insert_ne | done]. Qed.

Definition demo_config : Config := {|
  cf_FleetSize := 2; cf_Agents := [{| ak_ID := "web-1"; ak_PublicKey := "UAB" |}];
  cf_Tokens := ["t1"%string; "t2"%string]; RevokedTokens := ["t2"%string]; BootstrapTTL := 0; cf_Limits := None;
  cf_BrokerNames := ["nats"%string]; RuntimeDir := "/etc/nats"; CALifetime := 0; BrokerCertLifetime := 0 |}.
Definition demo_draws : gen_draws := {|
  g_tls := tls_sample_draws; g_tls_now := tls_sample_now; g_operator := [x01];
  g_system := {| ad_key := [x02]; ad_signing := [x03]; ad_stamp := 0 |};
  g_keystone := {| ad_key := [x04]; ad_signing := [x05]; ad_stamp := 0 |};
  g_operator_stamp := 0; g_service p := (0, to_bytes p); g_agent _ := 0;
  g_token i := (tls_sample_now, 0, [byte_of (Z.of_nat i + 16)]); g_revoke _ := 9 * Second; g_revoke_stamp := 0 |}.
Abbreviation demo_generate := (@Generate ToyNkeys ToyJwt ToyX509 ToyRevocation demo_config demo_draws).

Lemma demo_generated : is_ok demo_generate = true.
Proof. vm_cast_no_check (@eq_refl bool true). Qed.

Lemma Generate_deployment_witness : exists d, demo_generate = Ok d /\ @inputs_ok ToyNkeys demo_config
  /\ @account_says ToyNkeys ToyJwt (Keystone d) (OperatorPublicKey d) (applyAccountLimits (DefaultLimits 2)) (Revoked d).
Proof.
  pose proof demo_generated as Hok. destruct demo_generate as [d|e] eqn:E; [|discriminate Hok].
  destruct (@Generate_deployment ToyNkeys ToyJwt ToyX509 ToyRevocation ToyNkeysLaws ToyJwtLaws ToyX509Laws ToyRevocationLaws
    demo_config demo_draws d E) as (Hin & _ & Hs & _).
  exists d. exact (conj eq_refl (conj Hin Hs)).
Defined.
