(* ===== verification/DeployFiles.v ===== *)
(** * Writing a deployment

    Models [internal/natsauth/write.go]: the credential set, the broker's
    configuration and the files [Write] leaves.  A tree of files is what the
    paths, as [Join] leaves them, hold; a file keeps the mode it was created
    with, and a failed write may leave it truncated. *)
From S2P Require Import Prelude GoBytes GoTime GoText GoPath Vocabulary Subjects Limits Nats Mint Issue Tls Deploy Effects.

Definition ServerConfigFile : string := "nats-server.conf".
Definition CredentialsDir : string := "creds".
Definition configMode : Z := 384.
Definition credentialMode : Z := 384.
Definition directoryMode : Z := 448.
Definition credentialsExt : string := ".creds".
Definition bootstrapPrefix : string := "bootstrap-".
Definition signingFile : string := "account-signing.nk".

(** ** The file system *)

Inductive dir_call : Type -> Type :=
  | MkdirAll (path : string) (mode : Z) : dir_call bool
  | WriteFile (path : string) (content : bytes) (mode : Z) : dir_call bool.

Record tree := Tree { dirs : gmap string Z; files : gmap string (bytes * Z) }.

(** How a call fares: it fails before it did anything ([Some None]) or partway
    ([Some (Some n)]: after [n] directories, or with [n] bytes written). *)
Abbreviation dir_fate := (option (option nat)).

(** The path and the directories above it, outermost first. *)
Fixpoint above (fuel : nat) (p : string) : list string :=
  match fuel with
  | O => [p]
  | S fuel => if bool_decide (Dir p = p) then [p] else above fuel (Dir p) ++ [p]
  end.
Definition ancestors (p : string) : list string := above (String.length p) (Clean p).

Section Running.
Context (umask : Z).
Definition masked (mode : Z) : Z := Z.land mode (Z.lnot umask).

(** Missing directories are made; a file in the way is an error. *)
Fixpoint make_dirs (mode : Z) (ps : list string) (t : tree) : bool * tree :=
  match ps with
  | [] => (true, t)
  | p :: ps =>
      match files t !! p, dirs t !! p with
      | Some _, _ => (false, t)
      | None, Some _ => make_dirs mode ps t
      | None, None => make_dirs mode ps (Tree (<[p := masked mode]> (dirs t)) (files t))
      end
  end.

Definition put_file (path : string) (content : bytes) (mode : Z) (t : tree) : tree :=
  Tree (dirs t) (<[path := (content, match files t !! path with Some (_, m) => m | None => masked mode end)]> (files t)).

Definition run_dir (B : Type) (f : dir_fate) (t : tree) (c : dir_call B) : B * tree :=
  match c in dir_call B return B * tree with
  | MkdirAll path mode =>
      match f with
      | None => make_dirs mode (ancestors path) t
      | Some None => (false, t)
      | Some (Some n) => (false, (make_dirs mode (take n (ancestors path)) t).2)
      end
  | WriteFile path content mode =>
      if bool_decide (is_Some (dirs t !! path)) || negb (bool_decide (is_Some (dirs t !! Dir path))) then (false, t)
      else match f with
           | None => (true, put_file path content mode t)
           | Some None => (false, t)
           | Some (Some n) => (false, put_file path (take n content) mode t)
           end
  end.
End Running.

Definition path_of (f : string * bytes * Z) : string := f.1.1.

Section Writing.
Context {K : Nkeys} {J : Jwt K} {X : X509} {R : Revocation} {U : Unicode}.

(** ** The broker's configuration *)

Definition preload_entry (kv : string * string) : string := "  " +:+ kv.1 +:+ ": " +:+ kv.2 +:+ nl.

Definition ServerConfig (d : Deployment) : string :=
  let system := (acc_PublicKey (System d), acc_JWT (System d)) in
  let keystone := (acc_PublicKey (Keystone d), acc_JWT (Keystone d)) in
  let preload := if String.ltb (acc_PublicKey (Keystone d)) (acc_PublicKey (System d)) then [keystone; system] else [system; keystone] in
  "# Generated by internal/natsauth. ADR-0010 section 3 forbids a" +:+ nl
  +:+ "# test-only authorization adapter, so this is the configuration a" +:+ nl
  +:+ "# deployment runs and the one the contract measures." +:+ nl
  +:+ "#" +:+ nl
  +:+ "# No operator seed appears here. The operator JWT below is public." +:+ nl +:+ nl
  +:+ "operator: " +:+ OperatorJWT d +:+ nl +:+ nl
  +:+ "system_account: " +:+ acc_PublicKey (System d) +:+ nl +:+ nl
  +:+ "resolver: MEMORY" +:+ nl +:+ nl
  +:+ "resolver_preload: {" +:+ nl
  +:+ String.concat "" (map preload_entry preload)
  +:+ "}" +:+ nl +:+ nl
  +:+ tlsBlock (d_RuntimeDir d)
  +:+ nl
  +:+ "jetstream {" +:+ nl
  +:+ "  max_memory_store: " +:+ FormatInt 0 +:+ nl
  +:+ "  max_file_store: " +:+ FormatInt (MaxJetStreamDiskByte (Limits.Account (d_Limits d))) +:+ nl
  +:+ "}" +:+ nl.

(** ** The credential files *)

Definition credentialSet (d : Deployment) : gmap string Identity :=
  kmap (fun token => bootstrapPrefix +:+ token) (Bootstraps d) ∪ d_Services d.

Inductive write_err := CreateDir | FormatCredentials (name : string) | WriteError (path : string).

Definition or_else {E} (c : dir_call bool) (e : E) : io dir_call (result E unit) :=
  ok ← perform c; Return (if (ok : bool) then Ok tt else Err e).

Definition credential_path (credsDir name : string) : string := Join [credsDir; name +:+ credentialsExt].

Fixpoint write_credentials (credsDir : string) (order : list (string * Identity)) : io dir_call (result write_err unit) :=
  match order with
  | [] => Return (Ok tt)
  | (name, identity) :: order =>
      match FormatUserConfig (id_JWT identity) (id_Seed identity) with
      | None => Return (Err (FormatCredentials name))
      | Some content =>
          let path := credential_path credsDir name in
          call? or_else (WriteFile path content credentialMode) (WriteError path);
          write_credentials credsDir order
      end
  end.

Fixpoint write_each (dir : string) (fs : list (string * bytes * Z)) : io dir_call (result write_err unit) :=
  match fs with
  | [] => Return (Ok tt)
  | (name, content, mode) :: fs =>
      let path := Join [dir; name] in
      call? or_else (WriteFile path content mode) (WriteError path);
      write_each dir fs
  end.

Definition tls_files (m : TLSMaterial) : list (string * bytes * Z) :=
  [(CACertFile, CACertPEM m, certificateMode); (BrokerCertFile, BrokerCertPEM m, certificateMode);
   (BrokerKeyFile, BrokerKeyPEM m, credentialMode)].

(** [order] is the order the map of credentials is ranged over in: any. *)
Definition Write (d : Deployment) (dir : string) (order : list (string * Identity)) : io dir_call (result write_err unit) :=
  call? or_else (MkdirAll dir directoryMode) CreateDir;
  let credsDir := Join [dir; CredentialsDir] in
  call? or_else (MkdirAll credsDir directoryMode) CreateDir;
  call? write_credentials credsDir order;
  let signingPath := Join [credsDir; signingFile] in
  call? or_else (WriteFile signingPath (SigningSeed (Keystone d)) credentialMode) (WriteError signingPath);
  let tlsDir := Join [dir; TLSDir] in
  call? or_else (MkdirAll tlsDir directoryMode) CreateDir;
  call? write_each tlsDir (tls_files (d_TLS d));
  let configPath := Join [dir; ServerConfigFile] in
  or_else (WriteFile configPath (to_bytes (ServerConfig d)) configMode) (WriteError configPath).

(** ** What is left behind *)

Context (umask : Z).
Abbreviation run := (run_dir umask).

(** The files written: name, contents, mode they are created with. *)
Definition credential_file (credsDir : string) (x : string * Identity) : option (string * bytes * Z) :=
  content ← FormatUserConfig (id_JWT x.2) (id_Seed x.2);
  Some (credential_path credsDir x.1, content, credentialMode).
Definition other_files (d : Deployment) (dir : string) : list (string * bytes * Z) :=
  (Join [Join [dir; CredentialsDir]; signingFile], SigningSeed (Keystone d), credentialMode)
  :: map (fun f => (Join [Join [dir; TLSDir]; f.1.1], f.1.2, f.2)) (tls_files (d_TLS d))
  ++ [(Join [dir; ServerConfigFile], to_bytes (ServerConfig d), configMode)].

(** The paths a run may write and the modes it creates them with. *)
Definition targets (d : Deployment) (dir : string) : list (string * Z) :=
  map (fun x => (credential_path (Join [dir; CredentialsDir]) x.1, credentialMode)) (map_to_list (credentialSet d))
  ++ map (fun f => (f.1.1, f.2)) (other_files d dir).

(** Nothing but the targets is written; a file that was there keeps its mode, a
    new one has its own; directories are only added. *)
Record kept (L : list (string * Z)) (t0 t : tree) : Prop := {
  kept_others : forall p, (p ∉ L.*1) -> files t !! p = files t0 !! p;
  kept_files : forall p, is_Some (files t0 !! p) -> is_Some (files t !! p);
  kept_modes : forall p c m, files t !! p = Some (c, m) ->
    match files t0 !! p with Some (_, m0) => m = m0 | None => exists mode, (p, mode) ∈ L /\ m = masked umask mode end;
  kept_dirs : forall p m, dirs t0 !! p = Some m -> dirs t !! p = Some m;
  kept_new_dirs : forall p m, dirs t !! p = Some m -> dirs t0 !! p = Some m \/ m = masked umask directoryMode }.

Definition holds (W : list (string * bytes * Z)) (t : tree) : Prop :=
  Forall (fun f => fst <$> files t !! f.1.1 = Some f.1.2) W.

Lemma kept_put L t0 t p c mode :
  kept L t0 t -> (p, mode) ∈ L -> kept L t0 (put_file umask p c mode t).
Proof.
  intros [H1 Hf H2 H3 H4] Hin. split; cbn [put_file files dirs]; try done.
  - intros q Hq. rewrite lookup_insert_ne; [by apply H1|]. intros <-. apply Hq. apply list_elem_of_fmap. by exists (p, mode).
  - intros q Hq. destruct (decide (q = p)) as [->|Hne]; [rewrite lookup_insert_eq; eauto | rewrite lookup_insert_ne; auto].
  - intros q c' m. destruct (decide (q = p)) as [->|Hne]; [|rewrite lookup_insert_ne by done; apply H2].
    rewrite lookup_insert_eq. intros [= <- <-]. destruct (files t !! p) as [[c1 m1]|] eqn:E; [by apply (H2 p c1 m1)|].
    destruct (files t0 !! p) as [[c0 m0]|] eqn:E0; [|by exists mode].
    destruct (Hf p) as [? Hs]; [by rewrite E0 | by rewrite E in Hs].
Qed.

Lemma make_dirs_files m ps t : files (make_dirs umask m ps t).2 = files t.
Proof.
  revert t. induction ps as [|p ps IH]; intros t; [done|]. cbn [make_dirs].
  destruct (files t !! p); [done|]. destruct (dirs t !! p); [apply IH | by rewrite IH].
Qed.

Lemma kept_make L t0 t ps : kept L t0 t -> kept L t0 (make_dirs umask directoryMode ps t).2.
Proof.
  revert t. induction ps as [|p ps IH]; intros t Hk; [done|]. cbn [make_dirs].
  destruct (files t !! p); [done|]. destruct (dirs t !! p) as [m|] eqn:E; [by apply IH|]. apply IH.
  destruct Hk as [H1 Hf H2 H3 H4]. split; cbn [files dirs]; try done.
  - intros q m Hq. destruct (decide (q = p)) as [->|]; [by rewrite (H3 _ _ Hq) in E | rewrite lookup_insert_ne; auto].
  - intros q m. destruct (decide (q = p)) as [->|]; [rewrite lookup_insert_eq; intros [= <-]; by right | rewrite lookup_insert_ne by done; apply H4].
Qed.

Lemma holds_put W p c mode t : Forall (fun f => f.1.1 <> p) W -> holds W t -> holds W (put_file umask p c mode t).
Proof.
  unfold holds. intros Hp HW. apply Forall_forall. intros f Hf. rewrite Forall_forall in Hp, HW. cbn [put_file files].
  rewrite lookup_insert_ne by (intros E; by apply (Hp f Hf)). by apply HW.
Qed.

(** A step that writes [f], and one that makes a directory, after [W]. *)
Lemma wpc_write L t0 t W p c mode {E} (e : E) :
  kept L t0 t -> holds W t -> (p, mode) ∈ L -> Forall (fun f => f.1.1 <> p) W ->
  wpc run (kept L t0) (or_else (WriteFile p c mode) e)
    (fun r t' => r = Ok tt -> holds (W ++ [(p, c, mode)]) t') t.
Proof.
  intros Hk HW Hin Hp. split; [done|]. intros f. cbn [run_dir].
  destruct (_ || _); [by split|]. destruct f as [[n|]|]; cbn [fst snd]; (split; [by try apply kept_put|]); try done.
  intros _. apply Forall_app. split; [by apply holds_put|]. constructor; [|done]. cbn [put_file files fst snd]. by rewrite lookup_insert_eq.
Qed.

Lemma wpc_mkdir L t0 t W p {E} (e : E) :
  kept L t0 t -> holds W t ->
  wpc run (kept L t0) (or_else (MkdirAll p directoryMode) e) (fun r t' => r = Ok tt -> holds W t') t.
Proof.
  intros Hk HW. split; [done|]. intros f. assert (forall ps, holds W (make_dirs umask directoryMode ps t).2) as HW'.
  { intros ps. unfold holds. by rewrite make_dirs_files. }
  cbn [run_dir]. destruct f as [[n|]|]; cbn [fst snd].
  - split; [by apply kept_make | done].
  - by split.
  - pose proof (kept_make L t0 t (ancestors p) Hk) as Hk'. specialize (HW' (ancestors p)).
    destruct (make_dirs _ _ _ _) as [b t']. by split.
Qed.

(** One step after another, for what holds when none failed. *)
Lemma wpc_seq {E} (I : tree -> Prop) (p q : io dir_call (result E unit)) (P Q : tree -> Prop) t :
  wpc run I p (fun r t' => r = Ok tt -> P t') t ->
  (forall t', I t' -> P t' -> wpc run I q (fun r t' => r = Ok tt -> Q t') t') ->
  wpc run I (call? p; q) (fun r t' => r = Ok tt -> Q t') t.
Proof.
  intros Hp Hq. apply wpc_try. eapply wpc_mono; [done | | exact Hp]. intros [[]|e] t' HI HP; auto. done.
Qed.

Lemma distinct_next (W : list (string * bytes * Z)) p rest :
  NoDup (map path_of W ++ p :: rest) -> Forall (fun f => f.1.1 <> p) W.
Proof.
  intros (_ & Hd & _)%NoDup_app. apply Forall_forall. intros f Hf E. apply (Hd p); [|by left].
  rewrite <- E. by apply (list_elem_of_fmap_2 path_of).
Qed.

Lemma distinct_step (W : list (string * bytes * Z)) p c m rest :
  NoDup (map path_of W ++ p :: rest) -> NoDup (map path_of (W ++ [(p, c, m)]) ++ rest).
Proof. rewrite map_app. cbn [map]. by rewrite <- app_assoc. Qed.

Lemma wpc_credentials L t0 credsDir order t W rest :
  kept L t0 t -> holds W t ->
  Forall (fun x => (credential_path credsDir x.1, credentialMode) ∈ L) order ->
  NoDup (map path_of W ++ map (fun x => credential_path credsDir x.1) order ++ rest) ->
  wpc run (kept L t0) (write_credentials credsDir order)
    (fun r t' => r = Ok tt -> exists fs, mapM (credential_file credsDir) order = Some fs
                              /\ map path_of fs = map (fun x => credential_path credsDir x.1) order /\ holds (W ++ fs) t') t.
Proof.
  revert t W. induction order as [|[name i] order IH]; intros t W Hk HW Hin Hnd; cbn [write_credentials].
  { split; [done|]. intros _. exists []. rewrite app_nil_r. done. }
  apply Forall_cons in Hin as [Hp Hin]. cbn [map app fst] in Hnd, Hp.
  destruct (FormatUserConfig _ _) as [content|] eqn:Hf; [|by split].
  eapply wpc_seq; [apply (wpc_write L t0 t W); [done | done | exact Hp | by eapply distinct_next]|].
  intros t' Hk' Hr.
  eapply wpc_mono; [done | | apply (IH _ _ Hk' Hr Hin); exact (distinct_step _ _ content credentialMode _ Hnd)].
  intros [[]|e] t'' _ Hrest; [|done]. intros _. destruct (Hrest eq_refl) as (fs & Hfs & Hpaths & Hh).
  exists ((credential_path credsDir name, content, credentialMode) :: fs). split.
  { assert (credential_file credsDir (name, i) = Some (credential_path credsDir name, content, credentialMode)) as Hc
      by (unfold credential_file; cbn [fst snd]; by rewrite Hf).
    cbn [mapM]. rewrite Hc. cbn [mbind option_bind]. by rewrite Hfs. }
  split; [cbn [map path_of fst]; by rewrite Hpaths|]. by rewrite <- app_assoc in Hh.
Qed.

Lemma wpc_each L t0 dir fs t W rest :
  kept L t0 t -> holds W t ->
  let placed := map (fun f => (Join [dir; f.1.1], f.1.2, f.2)) fs in
  Forall (fun f => (f.1.1, f.2) ∈ L) placed ->
  NoDup (map path_of W ++ map path_of placed ++ rest) ->
  wpc run (kept L t0) (write_each dir fs) (fun r t' => r = Ok tt -> holds (W ++ placed) t') t.
Proof.
  cbv zeta. revert t W. induction fs as [|[[name c] m] fs IH]; intros t W Hk HW Hin Hnd; cbn [write_each map fst snd].
  { split; [done|]. intros _. by rewrite app_nil_r. }
  cbn [map fst snd] in Hin, Hnd. apply Forall_cons in Hin as [Hp Hin]. cbn [fst snd] in Hp. cbn [app] in Hnd.
  eapply wpc_seq; [apply (wpc_write L t0 t W); [done | done | exact Hp | by eapply distinct_next]|].
  intros t' Hk' Hr.
  eapply wpc_mono; [done | | apply (IH _ _ Hk' Hr Hin); exact (distinct_step _ _ c m _ Hnd)].
  intros [[]|e] t'' _ Hrest; [|done]. intros _. specialize (Hrest eq_refl). by rewrite <- app_assoc in Hrest.
Qed.

(** No two of the paths [Write] writes are the same. *)
Definition written_paths (d : Deployment) (dir : string) (order : list (string * Identity)) : list string :=
  map (fun x => credential_path (Join [dir; CredentialsDir]) x.1) order ++ map path_of (other_files d dir).

Lemma Write_wpc d dir order t0 :
  order ≡ₚ map_to_list (credentialSet d) -> NoDup (written_paths d dir order) ->
  wpc run (kept (targets d dir) t0) (Write d dir order)
    (fun r t => r = Ok tt -> exists fs, mapM (credential_file (Join [dir; CredentialsDir])) order = Some fs
                             /\ holds (fs ++ other_files d dir) t) t0.
Proof.
  intros Hperm Hnd. set (L := targets d dir).
  assert (Hkept : kept L t0 t0).
  { split; try done; [|by left]. intros p c m H. by rewrite H. }
  assert (Hcreds : Forall (fun x => (credential_path (Join [dir; CredentialsDir]) x.1, credentialMode) ∈ L) order).
  { rewrite Hperm. apply Forall_forall. intros x Hx. apply elem_of_app. left.
    by apply (list_elem_of_fmap_2 (fun x => (credential_path (Join [dir; CredentialsDir]) x.1, credentialMode))). }
  assert (Hothers : Forall (fun f => (f.1.1, f.2) ∈ L) (other_files d dir)).
  { apply Forall_forall. intros f Hf. apply elem_of_app. right. by apply (list_elem_of_fmap_2 (fun f : string * bytes * Z => (f.1.1, f.2))). }
  unfold written_paths, other_files in Hnd. cbn [map] in Hnd. rewrite map_app in Hnd.
  unfold other_files in Hothers. apply Forall_cons in Hothers as [Hsign Hothers]. apply Forall_app in Hothers as [Htls Hconf].
  rewrite <- (app_nil_r (map _ order ++ _)) in Hnd.
  unfold Write. eapply wpc_seq; [apply (wpc_mkdir L t0 t0 []); [done | constructor]|]. intros t1 Hk1 _.
  eapply wpc_seq; [apply (wpc_mkdir L t0 t1 []); [done | constructor]|]. intros t2 Hk2 _.
  rewrite <- app_assoc in Hnd.
  eapply wpc_seq; [eapply (wpc_credentials L t0 _ order t2 []); [done | constructor | done | exact Hnd]|].
  intros t3 Hk3 (fs & Hfs & Hpaths & Hh3). rewrite <- Hpaths in Hnd. cbn [app] in Hh3, Hnd.
  set (sign := (Join [Join [dir; CredentialsDir]; signingFile], SigningSeed (Keystone d), credentialMode)) in *.
  eapply wpc_seq; [apply (wpc_write L t0 t3 fs); [done | done | exact Hsign | by eapply distinct_next]|].
  intros t4 Hk4 Hh4. apply (distinct_step _ _ (SigningSeed (Keystone d)) credentialMode) in Hnd. rewrite <- app_assoc in Hnd.
  eapply wpc_seq; [apply (wpc_mkdir L t0 t4); [done | exact Hh4]|]. intros t5 Hk5 Hh5.
  eapply wpc_seq; [eapply (wpc_each L t0 _ _ t5); [done | exact Hh5 | exact Htls | exact Hnd]|]. intros t6 Hk6 Hh6.
  eapply wpc_mono; [done | | apply (wpc_write L t0 t6); [done | exact Hh6 | exact (proj1 (Forall_singleton _ _) Hconf) |]].
  - intros r t _ Hr E. exists fs. split; [done|]. specialize (Hr E). rewrite <- !app_assoc in Hr. exact Hr.
  - apply (distinct_next _ _ []). rewrite map_app, <- app_assoc. exact Hnd.
Qed.

(** ** Names *)

Lemma id_no_slash id : ValidIdentifier id = true -> slash ∉ to_bytes id.
Proof. intros H. by apply (ValidIdentifier_no_byte id). Qed.

Lemma creds_plain name : slash ∉ to_bytes name -> plain_name (to_bytes (name +:+ credentialsExt)).
Proof.
  intros H. rewrite to_bytes_app. split; [|split; [|split]].
  - intros [Hin|Hin]%elem_of_app; [done|]. exact (bool_decide_unpack (slash ∉ to_bytes credentialsExt) ltac:(vm_compute; exact I) Hin).
  - by destruct (to_bytes name).
  - by destruct (to_bytes name) as [|? [|]].
  - by destruct (to_bytes name) as [|? [|? [|]]].
Qed.

Definition other_names : list string := [signingFile; CACertFile; BrokerCertFile; BrokerKeyFile; ServerConfigFile].

Lemma other_plain : Forall (fun n => plain_name (to_bytes n)) other_names.
Proof. apply (bool_decide_unpack _). vm_compute. exact I. Qed.

Definition base_of (p : string) : string := of_bytes (last_elem (to_bytes p)).
Lemma base_of_Join d n : plain_name (to_bytes n) -> base_of (Join [d; n]) = n.
Proof. intros H. unfold base_of. by rewrite Join_last, of_to_bytes. Qed.

Definition well_named (d : Deployment) : Prop := forall n, n ∈ dom (credentialSet d) -> slash ∉ to_bytes n.

Lemma creds_apart n m : m ∈ other_names -> n +:+ credentialsExt <> m.
Proof.
  intros Hm E. assert (last (to_bytes m) = Some x73) as Hl by (rewrite <- E, to_bytes_app, last_app; done).
  revert Hl. unfold other_names in Hm. rewrite !elem_of_cons, elem_of_nil in Hm. destruct Hm as [->|[->|[->|[->|[->|[]]]]]]; by vm_compute.
Qed.

Lemma written_distinct d dir order :
  well_named d -> order ≡ₚ map_to_list (credentialSet d) -> NoDup (written_paths d dir order).
Proof.
  intros Hw Hperm. apply (NoDup_fmap_1 base_of). unfold written_paths. rewrite fmap_app.
  assert (Hn : forall x, x ∈ order -> slash ∉ to_bytes x.1).
  { intros x Hx. apply Hw. rewrite Hperm in Hx. destruct x as [n i]. apply elem_of_map_to_list in Hx. by eapply elem_of_dom_2. }
  assert (E1 : base_of <$> map (fun x => credential_path (Join [dir; CredentialsDir]) x.1) order = map (fun x => x.1 +:+ credentialsExt) order).
  { etransitivity; [exact (map_map (fun x => credential_path (Join [dir; CredentialsDir]) x.1) base_of order)|]. apply map_ext_in. intros x Hx. apply base_of_Join, creds_plain, Hn, list_elem_of_In, Hx. }
  assert (E2 : base_of <$> map path_of (other_files d dir) = other_names).
  { pose proof other_plain as Hp. unfold other_names in Hp. rewrite !Forall_cons in Hp. destruct Hp as (H1 & H2 & H3 & H4 & H5 & _).
    unfold other_files, tls_files, path_of. cbn [map app fst snd fmap list_fmap]. by rewrite !base_of_Join. }
  rewrite E1, E2. apply NoDup_app. split; [|split].
  - assert (NoDup order.*1) as Hk by (rewrite Hperm; apply NoDup_fst_map_to_list).
    rewrite <- (map_map fst (fun n => n +:+ credentialsExt)). apply (NoDup_fmap_2_strong _ (order.*1)); [|done].
    intros x y _ _ E. apply to_bytes_inj. apply (f_equal to_bytes) in E. rewrite !to_bytes_app in E. by apply app_inv_tail in E.
  - intros x Hx Ho. apply list_elem_of_In, in_map_iff in Hx as (y & <- & _). by apply (creds_apart y.1 _ Ho).
  - apply (bool_decide_unpack _). vm_compute. exact I.
Qed.

Lemma credentialSet_lookup d n i :
  credentialSet d !! n = Some i ->
  (exists t, n = bootstrapPrefix +:+ t /\ Bootstraps d !! t = Some i) \/ d_Services d !! n = Some i.
Proof.
  unfold credentialSet. intros [H|[_ H]]%lookup_union_Some_raw; [left | by right].
  by apply lookup_kmap_Some in H as (t & -> & H); [exists t|apply _].
Qed.

Context {KL : NkeysLaws K} {JL : JwtLaws K J} {XL : X509Laws X} {RL : RevocationLaws R}.

Lemma services_plain : Forall (fun p => slash ∉ to_bytes p) Services.
Proof. apply (bool_decide_unpack _). vm_compute. exact I. Qed.

Lemma generated_names cfg g d : Generate cfg g = Ok d -> well_named d.
Proof.
  intros [Hin (m & _ & _ & [[Hs _] _ [Hb _]]) _ _ _ _ _]%Generate_deployed n Hn.
  apply elem_of_dom in Hn as [i [(t & -> & Ht)|Hp]%credentialSet_lookup].
  - assert (t ∈ cf_Tokens cfg) as Ht'.
    { apply (elem_of_list_to_set (C := gset string)). rewrite <- Hb. by eapply elem_of_dom_2. }
    pose proof (in_tokens _ Hin) as Hf. rewrite Forall_forall in Hf. specialize (Hf _ Ht'). cbn [issuable] in Hf.
    unfold ValidateAgentIdentifier in Hf. apply andb_true_iff in Hf as [Hf _]. apply id_no_slash in Hf.
    rewrite to_bytes_app. intros [Hx|Hx]%elem_of_app; [|done].
    exact (bool_decide_unpack (slash ∉ to_bytes bootstrapPrefix) ltac:(vm_compute; exact I) Hx).
  - pose proof services_plain as Hf. rewrite Forall_forall in Hf. apply Hf.
    apply (elem_of_list_to_set (C := gset string)). rewrite <- Hs. by eapply elem_of_dom_2.
Qed.

Lemma private_mode m : Z.land m 63 = 0 -> Z.land (masked umask m) 63 = 0.
Proof. unfold masked. intros H. rewrite <- Z.land_assoc, (Z.land_comm _ 63), Z.land_assoc, H. apply Z.land_0_l. Qed.

Definition certificates (dir : string) : list string :=
  [Join [Join [dir; TLSDir]; CACertFile]; Join [Join [dir; TLSDir]; BrokerCertFile]].

Lemma targets_private d dir p mode : (p, mode) ∈ targets d dir -> (p ∉ certificates dir) -> Z.land mode 63 = 0.
Proof.
  unfold targets. intros [H|H]%elem_of_app Hp.
  - by apply list_elem_of_In, in_map_iff in H as (x & [= <- <-] & _).
  - apply list_elem_of_In, in_map_iff in H as (f & [= <- <-] & Hf). unfold other_files, tls_files in Hf. cbn [map app fst snd] in Hf.
    destruct Hf as [<-|[<-|[<-|[<-|[<-|[]]]]]]; try done; destruct Hp; cbn; set_solver.
Qed.

(** Every file in place. *)
Definition complete (d : Deployment) (dir : string) (t : tree) : Prop :=
  (forall name i, credentialSet d !! name = Some i ->
     exists content, FormatUserConfig (id_JWT i) (id_Seed i) = Some content
       /\ fst <$> files t !! credential_path (Join [dir; CredentialsDir]) name = Some content)
  /\ holds (other_files d dir) t.

Lemma Write_leaves d dir order t0 t p' :
  well_named d -> order ≡ₚ map_to_list (credentialSet d) -> exec run t0 (Write d dir order) t p' ->
  kept (targets d dir) t0 t /\ (p' = Return (Ok tt) -> complete d dir t).
Proof.
  intros Hn Hperm Hex. pose proof (written_distinct d dir order Hn Hperm) as Hnd.
  pose proof (wpc_exec run _ _ _ _ _ _ Hex (Write_wpc d dir order t0 Hperm Hnd)) as Hw.
  split; [by eapply wpc_now|].
  intros ->. destruct Hw as [_ Hw]. destruct (Hw eq_refl) as (fs & Hfs & Hh). apply Forall_app in Hh as [Hh Ho]. split; [|done].
  intros name i Hi. apply elem_of_map_to_list in Hi. rewrite <- Hperm in Hi. apply list_elem_of_lookup in Hi as [j Hj].
  apply mapM_Some in Hfs. destruct (Forall2_lookup_l _ _ _ _ _ Hfs Hj) as (f & Hf & Hc).
  pose proof (Forall_lookup_1 _ _ _ _ Hh Hf) as Hfile. unfold credential_file in Hc. cbn [fst snd] in Hc.
  destruct (FormatUserConfig _ _) as [content|]; [|done]. injection Hc as <-. by exists content.
Qed.

(** C26. Stopped anywhere, [Write] has touched nothing but the deployment's own
    paths and directories, and every private file it created can be read by its
    owner alone; a file that was there keeps the mode it had.  When it returns
    nil every one of them is in place, whatever order the credentials were taken
    in: a credential file for each service and bootstrap token and none for an
    agent, the signing seed, the broker's TLS files and its configuration, none
    written over another. *)
Theorem Write_files cfg g d dir order t0 t p' :
  Generate cfg g = Ok d -> order ≡ₚ map_to_list (credentialSet d) ->
  exec run t0 (Write d dir order) t p' ->
  kept (targets d dir) t0 t
  /\ (forall p c m, files t !! p = Some (c, m) -> files t0 !! p = None -> (p ∉ certificates dir) -> Z.land m 63 = 0)
  /\ (p' = Return (Ok tt) -> complete d dir t)
  /\ dom (credentialSet d) ≡ list_to_set (Services ++ map (fun t => bootstrapPrefix +:+ t) (cf_Tokens cfg)).
Proof.
  intros Hg Hperm Hex. destruct (Write_leaves _ _ _ _ _ _ (generated_names _ _ _ Hg) Hperm Hex) as [Hk Hc].
  split; [done|]. split; [|split; [done|]].
  - intros p c m Hp H0 Hn. pose proof (kept_modes _ _ _ Hk p c m Hp) as Hm. rewrite H0 in Hm. destruct Hm as (mode & Hin & ->).
    apply private_mode. by eapply targets_private.
  - apply Generate_deployed in Hg as [_ (m & _ & _ & [[Hs _] _ [Hb _]]) _ _ _ _ _].
    unfold credentialSet. rewrite dom_union, Hs, (dom_kmap (D := gset string)), Hb by apply _.
    rewrite list_to_set_app. intros x. rewrite !elem_of_union, elem_of_map, !elem_of_list_to_set.
    setoid_rewrite elem_of_list_to_set. rewrite !list_elem_of_In, in_map_iff. setoid_rewrite list_elem_of_In. split; [intros [(t' & -> & Ht)|H]; [right; by exists t' | by left] | intros [H|(t' & <- & Ht)]; [by right | left; by exists t']].
Qed.
End Writing.

(** ** A deployment written under a umask of 022 *)

Definition demo_tree : tree := Tree {["/"%string := 493]} ∅.
Definition finished {A E} (p : io dir_call (result E A)) : bool :=
  match p with Return (Ok _) => true | _ => false end.
Lemma finished_spec {E} (p : io dir_call (result E unit)) : finished p = true -> p = Return (Ok tt).
Proof. by destruct p as [[[]|]| |]. Qed.

Abbreviation demo_write d :=
  (@Write ToyNkeys ToyJwt ascii_tables d "/srv/nats" (map_to_list (credentialSet d))).
Abbreviation demo_run d := (play (run_dir 18) (replicate 40 None) demo_tree (demo_write d)).

Lemma demo_written : (match demo_generate with Ok d => finished (demo_run d).2 | Err _ => false end) = true.
Proof. vm_cast_no_check (@eq_refl bool true). Qed.

Lemma Write_files_witness : exists d t, demo_generate = Ok d /\ kept 18 (@targets ascii_tables d "/srv/nats") demo_tree t
  /\ @complete ToyNkeys ToyJwt ascii_tables d "/srv/nats" t.
Proof.
  pose proof demo_written as Hok. destruct demo_generate as [d|e] eqn:E; [|discriminate Hok].
  apply finished_spec in Hok.
  destruct (@Write_files ToyNkeys ToyJwt ToyX509 ToyRevocation ascii_tables 18 ToyNkeysLaws ToyJwtLaws ToyX509Laws ToyRevocationLaws
    demo_config demo_draws d "/srv/nats" (map_to_list (credentialSet d)) demo_tree (demo_run d).1 (demo_run d).2 E (Permutation_refl _)
    (play_exec _ _ _ _)) as (Hk & _ & Hh & _).
  exists d, (demo_run d).1. exact (conj eq_refl (conj Hk (Hh Hok))).
Defined.
