(* ===== verification/Files.v ===== *)
(** * Files that survive a crash

    The operating system's files as [internal/enrollment/artifact.go] and
    [keys.go] use them, with what a crash leaves: an entry of a directory that
    has not been synced may be any it has held since, a file that has not been
    synced may hold anything.  [WriteAtomic], [readPrivate] and [readKeyFile]
    are programs over the calls. *)
From S2P Require Import Prelude GoBytes GoText GoPath Effects.

Inductive os_err := ErrNotExist | ErrIO.
#[export] Instance os_err_eq_dec : EqDecision os_err.
Proof. solve_decision. Defined.

Record inode := Inode { i_data : bytes; i_mode : Z; i_regular : bool; i_synced : bool }.
#[export] Instance inode_eq_dec : EqDecision inode.
Proof. solve_decision. Defined.

(** What each path names now, and what else it has named since its directory
    was last synced. *)
Record fs := Fs { inodes : gmap nat inode; live : gmap string nat; older : gmap string (list (option nat)) }.

Inductive fs_call : Type -> Type :=
  | OpenFile (path : string) : fs_call (result os_err nat)
  | Stat (h : nat) : fs_call (result os_err inode)
  (** at most [n] bytes from the start *)
  | ReadAt (h : nat) (n : Z) : fs_call (result os_err bytes)
  | CreateTemp (dir pattern : string) : fs_call (result os_err (string * nat))
  | Chmod (h : nat) (mode : Z) : fs_call (result os_err unit)
  | WriteTo (h : nat) (b : bytes) : fs_call (result os_err unit)
  | SyncFile (h : nat) : fs_call (result os_err unit)
  | CloseFile (h : nat) : fs_call (result os_err unit)
  | Rename (old new : string) : fs_call (result os_err unit)
  | Remove (path : string) : fs_call (result os_err unit)
  (** the directory opened and synced *)
  | SyncDir (dir : string) : fs_call (result os_err unit).

(** How a call fares: whether it succeeds, the random part of a temporary name,
    and how much of a failed write got through. *)
Record fate := Fate { f_ok : bool; f_suffix : string; f_len : nat }.

Definition older_at (s : fs) (p : string) : list (option nat) := default [] (older s !! p).
Definition possible (s : fs) (p : string) : list (option nat) := (live s !! p) :: older_at s p.

Definition set_entry (p : string) (e : option nat) (s : fs) : fs :=
  {| inodes := inodes s;
     live := match e with Some i => <[p := i]> (live s) | None => delete p (live s) end;
     older := <[p := possible s p]> (older s) |}.
Definition set_inode (h : nat) (i : inode) (s : fs) : fs :=
  {| inodes := <[h := i]> (inodes s); live := live s; older := older s |}.

Definition new_inode : inode := Inode [] 384 true false.
Definition with_data (b : bytes) (i : inode) : inode := Inode b (i_mode i) (i_regular i) false.
Definition with_mode (m : Z) (i : inode) : inode := Inode (i_data i) m (i_regular i) false.
Definition synced (i : inode) : inode := Inode (i_data i) (i_mode i) (i_regular i) true.

(** [os.CreateTemp]'s name: the random part goes where the last star is. *)
Definition star : byte := x2a.
Definition temp_base (pattern suffix : string) : bytes :=
  match rev (split_on star (to_bytes pattern)) with
  | last :: ((_ :: _) as front) => join_with star (rev front) ++ to_bytes suffix ++ last
  | _ => to_bytes pattern ++ to_bytes suffix
  end.
Definition temp_name (dir pattern suffix : string) : string :=
  of_bytes (to_bytes dir ++ (if HasSuffix dir "/" then [] else [slash]) ++ temp_base pattern suffix).

Definition on_inode (s : fs) (h : nat) (f : inode -> result os_err unit * inode) : result os_err unit * fs :=
  match inodes s !! h with
  | Some i => let '(r, i') := f i in (r, set_inode h i' s)
  | None => (Err ErrIO, s)
  end.

Definition run_fs (B : Type) (f : fate) (s : fs) (c : fs_call B) : B * fs :=
  match c in fs_call B return B * fs with
  | OpenFile p =>
      match live s !! p with
      | None => (Err (if f_ok f then ErrNotExist else ErrIO), s)
      | Some h => (if f_ok f then Ok h else Err ErrIO, s)
      end
  | Stat h => (if f_ok f then of_option (inodes s !! h) ErrIO else Err ErrIO, s)
  | ReadAt h n =>
      (if f_ok f then i ← of_option (inodes s !! h) ErrIO; Ok (take (Z.to_nat n) (i_data i)) else Err ErrIO, s)
  | CreateTemp dir pattern =>
      let p := temp_name dir pattern (f_suffix f) in
      if negb (f_ok f) || bool_decide (slash ∈ temp_base pattern (f_suffix f)) || bool_decide (is_Some (live s !! p))
      then (Err ErrIO, s)
      else let h := fresh (dom (inodes s)) in (Ok (p, h), set_entry p (Some h) (set_inode h new_inode s))
  | Chmod h m => on_inode s h (fun i => if f_ok f then (Ok tt, with_mode m i) else (Err ErrIO, i))
  | WriteTo h b =>
      on_inode s h (fun i => if f_ok f then (Ok tt, with_data (i_data i ++ b) i)
                             else (Err ErrIO, with_data (i_data i ++ take (f_len f) b) i))
  | SyncFile h => on_inode s h (fun i => if f_ok f then (Ok tt, synced i) else (Err ErrIO, i))
  | CloseFile _ => (if f_ok f then Ok tt else Err ErrIO, s)
  | Rename old new =>
      match live s !! old with
      | None => (Err ErrNotExist, s)
      | Some h => if f_ok f then (Ok tt, if bool_decide (old = new) then s
                                         else set_entry old None (set_entry new (Some h) s))
                  else (Err ErrIO, s)
      end
  | Remove p =>
      match live s !! p with
      | None => (Err ErrNotExist, s)
      | Some _ => if f_ok f then (Ok tt, set_entry p None s) else (Err ErrIO, s)
      end
  | SyncDir dir =>
      if f_ok f
      then (Ok tt, {| inodes := inodes s; live := live s;
                      older := filter (fun kv => Dir kv.1 <> dir) (older s) |})
      else (Err ErrIO, s)
  end.

(** What is at a path: nothing, or a file. *)
Definition at_path (s : fs) (p : string) : option inode := live s !! p ≫= fun h => inodes s !! h.

(** A crash: every entry settles on one it may have, every synced file is as it
    was, and what comes back is all on the disk. *)
Record crashes (s s' : fs) : Prop := {
  cr_entries : forall p, live s' !! p ∈ possible s p;
  cr_settled : older s' = ∅;
  cr_synced : forall h i, inodes s !! h = Some i -> i_synced i = true -> inodes s' !! h = Some i;
  cr_files : forall h i, inodes s' !! h = Some i -> i_synced i = true;
  cr_dom : dom (inodes s') = dom (inodes s) }.

(** The entries name files. *)
Definition fs_ok (s : fs) : Prop := forall p h, Some h ∈ possible s p -> h ∈ dom (inodes s).

(** All of a path is on the disk. *)
Definition settled (s : fs) (p : string) : Prop :=
  older_at s p = [] /\ forall h, live s !! p = Some h -> exists i, inodes s !! h = Some i /\ i_synced i = true.

(** ** The programs *)

Definition ArtifactMode : Z := 384.  (* 0600 *)
Definition group_other : Z := 63.    (* 0077 *)

(** A call whose failure closes the file. *)
Definition or_close (f : nat) (c : fs_call (result os_err unit)) : io fs_call (result os_err unit) :=
  r ← perform c;
  match r with
  | Ok _ => Return (Ok tt)
  | Err e => _ ← perform (CloseFile f); Return (Err e)
  end.

Definition WriteAtomic (path : string) (b : bytes) : io fs_call (result os_err unit) :=
  let dir := Dir path in
  created ←? perform (CreateTemp dir ("." +:+ Base path +:+ ".*"));
  let '(tmp, f) := created in
  r ← (call? or_close f (Chmod f ArtifactMode);
       call? or_close f (WriteTo f b);
       call? or_close f (SyncFile f);
       call? perform (CloseFile f);
       call? perform (Rename tmp path);
       perform (SyncDir dir));
  _ ← perform (Remove tmp);
  Return r.

(** The errors of reading an artifact, and of reading a key file. *)
Inductive artifact_err := ArtifactFs (e : os_err) | ErrArtifact | KeysUnavailable.
Inductive keyfile_err := KeyFileFs (e : os_err) | ErrKeyFile | ErrKeyFilePermissions.

Definition os_call {E B} (wrap : os_err -> E) (c : fs_call (result os_err B)) : io fs_call (result E B) :=
  r ← perform c; Return (map_err wrap r).

(** The deferred close of a file only read. *)
Definition with_file {E B} (wrap : os_err -> E) (path : string) (body : nat -> io fs_call (result E B))
  : io fs_call (result E B) :=
  f ←? os_call wrap (OpenFile path);
  r ← body f;
  _ ← perform (CloseFile f);
  Return r.

Definition accessible_to_others (i : inode) : bool := negb (Z.land (Z.land (i_mode i) 511) group_other =? 0).

Definition readPrivate (path : string) : io fs_call (result artifact_err bytes) :=
  with_file ArtifactFs path (fun f =>
    info ←? os_call ArtifactFs (Stat f);
    if negb (i_regular info) || accessible_to_others info then Return (Err ErrArtifact)
    else
      let size := zlen (i_data info) in
      r ← perform (ReadAt f size);
      match r with
      | Ok b => Return (Ok b)
      | Err e => if 0 <? size then Return (Err (ArtifactFs e)) else Return (Ok [])
      end).

Definition maxKeyFile : Z := Z.shiftl 16 10.

Definition readKeyFile (path : string) (private : bool) : io fs_call (result keyfile_err bytes) :=
  with_file KeyFileFs path (fun f =>
    info ←? os_call KeyFileFs (Stat f);
    if negb (i_regular info) then Return (Err ErrKeyFile)
    else if private && accessible_to_others info then Return (Err ErrKeyFilePermissions)
    else
      b ←? os_call KeyFileFs (ReadAt f (maxKeyFile + 1));
      if maxKeyFile <? zlen b then Return (Err ErrKeyFile)
      else match b64_decode_string (TrimSpace (of_bytes b)) with
           | None => Return (Err ErrKeyFile)
           | Some raw => Return (Ok raw)
           end).

(** ** What a crash may leave at a path *)

Definition leaves (s : fs) (p : string) (o : option inode) : Prop :=
  exists e, e ∈ possible s p /\
    match e with
    | None => o = None
    | Some h => exists i i', inodes s !! h = Some i /\ o = Some i' /\ i_synced i' = true
                  /\ (i_synced i = true -> i' = i)
    end.

Lemma crash_leaves s s' p : fs_ok s -> crashes s s' -> leaves s p (at_path s' p).
Proof.
  intros Hok [He _ Hsy Hf Hd]. exists (live s' !! p). split; [apply He|]. unfold at_path.
  destruct (live s' !! p) as [h|] eqn:E; [|done]. cbn.
  assert (Hdom : h ∈ dom (inodes s)) by (apply (Hok p); rewrite <- E; apply He).
  apply elem_of_dom in Hdom as [i Hi]. pose proof (elem_of_dom_2 _ _ _ Hi) as Hdom.
  rewrite <- Hd in Hdom. apply elem_of_dom in Hdom as [i' Hi']. exists i, i'. rewrite Hi'.
  split_and!; try done; [by eapply Hf | intros Hs; specialize (Hsy _ _ Hi Hs); congruence].
Qed.

Lemma crashed_settled s s' p : fs_ok s -> crashes s s' -> fs_ok s' /\ settled s' p.
Proof.
  intros Hok [He Hse Hsy Hf Hd].
  assert (Hold : forall q, older_at s' q = []) by (intros q; unfold older_at; by rewrite Hse, lookup_empty).
  assert (Hok' : fs_ok s').
  { intros q h [Hq|Hq]%elem_of_cons; [|by rewrite Hold in Hq; apply not_elem_of_nil in Hq].
    rewrite Hd. apply (Hok q). rewrite Hq. apply He. }
  split; [done|]. split; [apply Hold|]. intros h Hh.
  assert (Hdom : h ∈ dom (inodes s')) by (apply (Hok' p); rewrite <- Hh; by constructor).
  apply elem_of_dom in Hdom as [i Hi]. exists i. split; [done | by eapply Hf].
Qed.

(** ** [WriteAtomic] *)

Lemma temp_base_eq base suffix :
  temp_base ("." +:+ base +:+ ".*") suffix = x2e :: to_bytes base ++ x2e :: to_bytes suffix.
Proof.
  unfold temp_base. rewrite !to_bytes_app. change (to_bytes ".*") with [x2e; star].
  change (to_bytes ".") with [x2e].
  replace ([x2e] ++ to_bytes base ++ [x2e; star]) with ((x2e :: to_bytes base ++ [x2e]) ++ star :: [])
    by (cbn; by rewrite <- app_assoc).
  rewrite split_on_cat. change (split_on star []) with [@nil byte]. rewrite rev_unit.
  pose proof (split_on_nonempty star (x2e :: to_bytes base ++ [x2e])) as Hne.
  destruct (rev (split_on star (x2e :: to_bytes base ++ [x2e]))) as [|y r] eqn:E.
  { apply (f_equal (@rev _)) in E. by rewrite rev_involutive in E. }
  rewrite <- E, rev_involutive, join_split, app_nil_r. cbn. by rewrite <- app_assoc.
Qed.

(** The temporary name is not the path's own. *)
Lemma temp_name_ne path suffix :
  slash ∉ temp_base ("." +:+ Base path +:+ ".*") suffix ->
  temp_name (Dir path) ("." +:+ Base path +:+ ".*") suffix <> path.
Proof.
  intros Hs H. apply (f_equal (fun p => last_elem (to_bytes p))) in H. revert H.
  unfold temp_name. rewrite to_of_bytes.
  assert (Hl : forall d, HasSuffix d "/" = true -> exists x, to_bytes d = x ++ [slash]).
  { intros d. unfold HasSuffix. change (rev (to_bytes "/")) with [slash].
    destruct (rev (to_bytes d)) as [|c r] eqn:E; [done|]. cbn. rewrite andb_true_r.
    intros <-%bool_decide_eq_true. exists (rev r). apply (f_equal (@rev _)) in E.
    by rewrite rev_involutive in E. }
  assert (He : last_elem (to_bytes (Dir path) ++ (if HasSuffix (Dir path) "/" then [] else [slash])
      ++ temp_base ("." +:+ Base path +:+ ".*") suffix) = temp_base ("." +:+ Base path +:+ ".*") suffix).
  { destruct (HasSuffix (Dir path) "/") eqn:E.
    - destruct (Hl _ E) as [x ->]. cbn [app]. rewrite <- app_assoc. cbn [app].
      by rewrite last_elem_cat, last_elem_plain.
    - cbn [app]. by rewrite last_elem_cat, last_elem_plain. }
  rewrite He, temp_base_eq. intros H. pose proof (Base_last path) as Hb. rewrite <- H in Hb.
  specialize (Hb ltac:(done)). apply (f_equal (@length _)) in Hb. cbn in Hb.
  rewrite length_app in Hb. cbn in Hb. lia.
Qed.

Section WriteAtomic.
Context (path : string) (b : bytes) (s0 : fs).

Definition whole : inode := Inode b ArtifactMode true true.

Definition temp_of (tmp : string) : Prop :=
  exists suffix, tmp = temp_name (Dir path) ("." +:+ Base path +:+ ".*") suffix.
(** A path the publication never touches. *)
Definition apart (q : string) : Prop := q <> path /\ ~ temp_of q.

(** The other paths and every file there was are as they were. *)
Record keeps (s : fs) : Prop := {
  kp_live : forall q h, q <> path -> live s0 !! q = Some h ->
    live s !! q = Some h /\ forall e, e ∈ older_at s q -> e ∈ older_at s0 q;
  kp_apart : forall q, apart q -> live s !! q = live s0 !! q /\ forall e, e ∈ older_at s q -> e ∈ older_at s0 q;
  kp_inodes : forall h i, inodes s0 !! h = Some i -> inodes s !! h = Some i }.

(** What holds at every moment: at [path] there is what there was, or the whole of
    [b], and a crash leaves there what it would have left before, or that. *)
Definition atomic (s : fs) : Prop :=
  fs_ok s /\ keeps s /\ (at_path s path = at_path s0 path \/ at_path s path = Some whole)
  /\ forall o, leaves s path o -> leaves s0 path o \/ o = Some whole.

Definition written (s : fs) : Prop :=
  exists h, live s !! path = Some h /\ inodes s !! h = Some whole /\ older_at s path = [].

Context (Hok : fs_ok s0).

(** Up to the rename: one new file under one new name. *)
Record writing (tmp : string) (h : nat) (i : inode) (s : fs) : Prop := {
  wr_tmp : tmp <> path /\ live s0 !! tmp = None /\ temp_of tmp;
  wr_h : h ∉ dom (inodes s0);
  wr_inodes : inodes s = <[h := i]> (inodes s0);
  wr_live : live s = <[tmp := h]> (live s0);
  wr_older : older s = <[tmp := possible s0 tmp]> (older s0) }.

Lemma start_ok : atomic s0.
Proof. split; [done|]. split; [by split|]. split; by left. Qed.

(** A state whose entries are [s0]'s but for [tmp] and [path], and whose files are
    [s0]'s and one more, [h]. *)
Lemma near s tmp h i :
  tmp <> path -> live s0 !! tmp = None -> temp_of tmp -> h ∉ dom (inodes s0) -> inodes s = <[h := i]> (inodes s0) ->
  (forall q, q <> tmp -> q <> path -> live s !! q = live s0 !! q /\ forall e, e ∈ older_at s q -> e ∈ older_at s0 q) ->
  (forall e, e ∈ possible s tmp -> e = None \/ e = Some h \/ e ∈ possible s0 tmp) ->
  (live s !! path = live s0 !! path \/ live s !! path = Some h /\ i = whole) ->
  (forall e, e ∈ older_at s path -> e ∈ possible s0 path) ->
  atomic s.
Proof.
  intros Hne Ht Hto Hh Hi Hq Htmp Hlive Holder.
  assert (Hpath : forall e, e ∈ possible s path -> e ∈ possible s0 path \/ e = Some h /\ i = whole).
  { intros e [->|He]%elem_of_cons; [|left; by apply Holder].
    destruct Hlive as [->|]; [left; by constructor | by right]. }
  assert (Hold : forall h' j, inodes s0 !! h' = Some j -> inodes s !! h' = Some j).
  { intros h' j Hj. rewrite Hi, lookup_insert_ne; [done|]. intros ->. by apply Hh, elem_of_dom. }
  assert (Hdom : forall q h', Some h' ∈ possible s0 q -> h' ∈ dom (inodes s)).
  { intros q h' H%Hok. rewrite Hi, dom_insert. set_solver. }
  assert (Hhd : h ∈ dom (inodes s)) by (rewrite Hi, dom_insert; set_solver).
  split; [|split; [split; [| |done]|split]].
  - intros q h' He. destruct (decide (q = tmp)) as [->|]; [|destruct (decide (q = path)) as [->|]].
    + apply Htmp in He as [?|[?|?]]; naive_solver.
    + apply Hpath in He as [?|[? _]]; naive_solver.
    + destruct (Hq q) as [E Ho]; [done..|]. apply (Hdom q). unfold possible in *. rewrite <- E.
      apply elem_of_cons in He as [He|He]; apply elem_of_cons; [by left | right; by apply Ho].
  - intros q h' Hqp E. destruct (decide (q = tmp)) as [->|]; [congruence|].
    destruct (Hq q) as [E' Ho]; [done..|]. by rewrite E'.
  - intros q [Hqp Hqt]. apply Hq; [by intros -> | done].
  - unfold at_path. destruct Hlive as [->|[-> ->]].
    + left. destruct (live s0 !! path) as [h'|] eqn:E; [|done]. cbn.
      assert (Some h' ∈ possible s0 path) as [j Hj]%Hok%elem_of_dom by (rewrite <- E; by constructor).
      by rewrite Hj, (Hold _ _ Hj).
    + right. cbn. by rewrite Hi, lookup_insert_eq.
  - intros o (e & He & H). apply Hpath in He as [He|[-> ->]].
    + left. exists e. split; [done|]. destruct e as [h'|]; [|done].
      destruct H as (j & j' & Hj & ? & ? & ?). exists j, j'. split; [|done].
      pose proof (Hok _ _ He) as [j0 Hj0]%elem_of_dom. rewrite (Hold _ _ Hj0) in Hj. congruence.
    + right. destruct H as (j & j' & Hj & -> & _ & Hs). rewrite Hi, lookup_insert_eq in Hj.
      injection Hj as <-. by rewrite Hs.
Qed.

Lemma writing_atomic tmp h i s : writing tmp h i s -> atomic s.
Proof.
  intros [(Hne & Ht & Hto) Hh Hi Hl Ho]. apply (near s tmp h i); try done; unfold possible, older_at; rewrite ?Hl, ?Ho.
  - intros q Hq _. by rewrite !lookup_insert_ne.
  - intros e. rewrite !lookup_insert_eq. cbn. rewrite elem_of_cons. naive_solver.
  - left. by rewrite lookup_insert_ne.
  - intros e. rewrite !lookup_insert_ne by done. by right.
Qed.

Lemma writing_inode tmp h i s f :
  writing tmp h i s -> (on_inode s h f).1 = (f i).1 /\ writing tmp h (f i).2 (on_inode s h f).2.
Proof.
  intros [Ht Hh Hi Hl Ho]. unfold on_inode. rewrite Hi, lookup_insert_eq. destruct (f i) as [r i'].
  split; [done|]. split; try done. cbn. by rewrite Hi, insert_insert_eq.
Qed.

Lemma created dir pattern f :
  dir = Dir path -> pattern = ("." +:+ Base path +:+ ".*")%string ->
  match run_fs _ f s0 (CreateTemp dir pattern) with
  | (Ok (tmp, h), s) => writing tmp h new_inode s
  | (Err _, s) => s = s0
  end.
Proof.
  intros -> ->. cbn [run_fs]. destruct (_ || _) eqn:E; [done|]. res_inv. bool_to_prop.
  split; [|apply is_fresh | done | done | done].
  split; [by apply temp_name_ne|]. split; [by apply eq_None_not_Some | by eexists].
Qed.

Lemma removed tmp h i s f :
  writing tmp h i s -> atomic (run_fs _ f s (Remove tmp)).2.
Proof.
  intros Hw. pose proof (writing_atomic _ _ _ _ Hw) as Ha. destruct Hw as [(Hne & Ht & Hto) Hh Hi Hl Ho].
  cbn [run_fs]. rewrite Hl, lookup_insert_eq. destruct (f_ok f); [|done]. cbn [snd].
  apply (near _ tmp h i); try done; unfold possible, older_at; cbn [set_entry live older]; rewrite ?Hl, ?Ho.
  - intros q Hq _. by rewrite lookup_delete_ne, !lookup_insert_ne.
  - intros e. rewrite lookup_delete_eq, lookup_insert_eq. unfold possible, older_at. rewrite Hl, Ho, !lookup_insert_eq.
    cbn [default from_option id]. intros [->|[->|He]%elem_of_cons]%elem_of_cons; auto.
  - left. by rewrite lookup_delete_ne, lookup_insert_ne.
  - intros e. rewrite !lookup_insert_ne by done. by right.
Qed.
(** From the rename on. *)
Record renamed (tmp : string) (h : nat) (s : fs) : Prop := {
  rn_atomic : atomic s;
  rn_tmp : live s !! tmp = None;
  rn_live : live s !! path = Some h;
  rn_file : inodes s !! h = Some whole }.

Lemma rename_step tmp h s f :
  writing tmp h whole s ->
  match run_fs _ f s (Rename tmp path) with
  | (Ok _, s') => renamed tmp h s' /\ (forall f', renamed tmp h (run_fs _ f' s' (SyncDir (Dir path))).2
      /\ ((run_fs _ f' s' (SyncDir (Dir path))).1 = Ok tt ->
          older_at (run_fs _ f' s' (SyncDir (Dir path))).2 path = []))
  | (Err _, s') => s' = s
  end.
Proof.
  intros [(Hne & Ht & Hto) Hh Hi Hl Ho]. cbn [run_fs]. rewrite Hl, lookup_insert_eq.
  destruct (f_ok f); [|done]. rewrite bool_decide_eq_false_2 by done.
  set (s' := set_entry tmp None (set_entry path (Some h) s)).
  assert (Hi' : inodes s' = <[h := whole]> (inodes s0)) by done.
  assert (Hlive : forall q, q <> tmp -> q <> path -> live s' !! q = live s0 !! q).
  { intros q H1 H2. cbn. by rewrite Hl, lookup_delete_ne, !lookup_insert_ne by done. }
  assert (Hpath : live s' !! path = Some h) by (cbn; by rewrite lookup_delete_ne, lookup_insert_eq).
  assert (Htmp : live s' !! tmp = None) by (cbn; by rewrite lookup_delete_eq).
  assert (Hofar : forall q, q <> tmp -> q <> path -> older s' !! q = older s0 !! q).
  { intros q H1 H2. cbn. by rewrite Ho, !lookup_insert_ne. }
  assert (Hop : older s' !! path = Some (possible s0 path)).
  { cbn. rewrite lookup_insert_ne, lookup_insert_eq by done. unfold possible, older_at.
    by rewrite Hl, Ho, !lookup_insert_ne. }
  assert (Hot : forall e, e ∈ older_at s' tmp -> e = Some h \/ e ∈ possible s0 tmp).
  { intros e. unfold older_at at 1. cbn. rewrite lookup_insert_eq. unfold possible at 1, older_at.
    cbn [set_entry live older default from_option id]. rewrite lookup_insert_ne by done.
    rewrite Hl, Ho, lookup_insert_eq, lookup_insert_ne, lookup_insert_eq by done.
    cbn [default from_option id]. intros [->|?]%elem_of_cons; auto. }
  assert (Hnear : forall s1, live s1 = live s' -> inodes s1 = inodes s' ->
    (forall q l, older s1 !! q = Some l -> older s' !! q = Some l) -> renamed tmp h s1).
  { intros s1 El Ei Eo. split; [|by rewrite El | by rewrite El | by rewrite Ei, Hi', lookup_insert_eq].
    assert (Ho1 : forall q e, e ∈ older_at s1 q -> e ∈ older_at s' q).
    { intros q e. unfold older_at. destruct (older s1 !! q) as [l|] eqn:E; [|by intros ?%not_elem_of_nil].
      by rewrite (Eo _ _ E). }
    apply (near s1 tmp h whole); try done; [by rewrite Ei | | | |].
    - intros q H1 H2. rewrite El. split; [by apply Hlive|]. intros e He%Ho1. unfold older_at in *.
      by rewrite Hofar in He.
    - intros e [->|He%Ho1%Hot]%elem_of_cons; [rewrite El; by left | naive_solver].
    - right. by rewrite El.
    - intros e He%Ho1. unfold older_at in He. by rewrite Hop in He. }
  split; [by apply Hnear|]. intros f'. cbn [run_fs]. destruct (f_ok f'); [|by split; [apply Hnear|]].
  cbn [fst snd]. split.
  - apply Hnear; [done..|]. cbn. intros q l [? _]%map_lookup_filter_Some. done.
  - intros _. unfold older_at. cbn. destruct (filter _ _ !! path) eqn:E; [|done].
    by apply map_lookup_filter_Some in E as [_ []].
Qed.

Lemma or_close_spec tmp h i s c g :
  writing tmp h i s -> (forall f, run_fs _ f s c = on_inode s h (g f)) ->
  wpc run_fs atomic (or_close h c)
    (fun r s' => exists f, writing tmp h (g f i).2 s' /\ is_ok r = is_ok (g f i).1) s.
Proof.
  intros Hw Hc. split; [by eapply writing_atomic|]. intros f. cbn [perform].
  destruct (writing_inode tmp h i s (g f) Hw) as [E1 E2]. rewrite <- Hc in E1, E2.
  pose proof (writing_atomic _ _ _ _ E2). cbn [io_then]. rewrite E1.
  destruct (g f i).1 as [[]|e] eqn:E.
  - split; [done|]. exists f. by rewrite E.
  - split; [done|]. intros f'. split; [done|]. exists f. cbn [run_fs fst snd]. by rewrite E.
Qed.

(** Whatever fails, and wherever the run is cut off. *)
Lemma WriteAtomic_spec :
  wpc run_fs atomic (WriteAtomic path b) (fun r s => r = Ok tt -> written s) s0.
Proof.
  apply wpc_try_call; [apply start_ok|]. intros x.
  pose proof (created (Dir path) _ x eq_refl eq_refl) as Hc.
  destruct (run_fs _ x s0 (CreateTemp _ _)) as [[[tmp h]|e] s1]; cbn [fst snd];
    [|subst; by split; [apply start_ok|]].
  assert (Hout : forall i s (e : os_err), writing tmp h i s ->
    (fun r s => (exists i, writing tmp h i s /\ r <> Ok tt)
       \/ renamed tmp h s /\ (r = Ok tt -> older_at s path = [])) (Err e) s) by (left; eauto).
  apply wpc_then. eapply (wpc_mono _ atomic _ _ (fun r s => (exists i, writing tmp h i s /\ r <> Ok tt)
       \/ renamed tmp h s /\ (r = Ok tt -> older_at s path = []))); [done | |].
  { intros r s _ [(i & Hw & Hr)|[Hr Hs]] HI; (split; [done|]); intros f.
    - split; [by eapply removed|]. by intros ->.
    - cbn [run_fs]. rewrite (rn_tmp _ _ _ Hr). cbn [fst snd]. split; [done|]. intros ->.
      exists h. split_and!; [by apply rn_live with tmp | by apply rn_file with tmp | by apply Hs]. }
  apply wpc_try. eapply wpc_mono; [done | | by eapply (or_close_spec _ _ _ _ (Chmod h _))].
  intros [[]|e] s _ (f & Hw & Hf) _; [|by eapply Hout]. cbn in Hw, Hf. destruct (f_ok f); [|done].
  apply wpc_try. eapply wpc_mono; [done | | by eapply (or_close_spec _ _ _ _ (WriteTo h _))].
  intros [[]|e] s' _ (f' & Hw' & Hf') _; [|by eapply Hout]. cbn in Hw', Hf'. destruct (f_ok f'); [|done].
  apply wpc_try. eapply wpc_mono; [done | | by eapply (or_close_spec _ _ _ _ (SyncFile h))].
  intros [[]|e] s2 _ (f2 & Hw2 & Hf2) _; [|by eapply Hout]. cbn in Hw2, Hf2. destruct (f_ok f2); [|done].
  cbn in Hw2. pose proof (writing_atomic _ _ _ _ Hw2) as HI.
  apply wpc_try_call; [done|]. intros f3. cbn [run_fs]. destruct (f_ok f3); cbn [fst snd]; [|split; [done | by eapply Hout]].
  apply wpc_try_call; [done|]. intros f4. pose proof (rename_step _ _ _ f4 Hw2) as Hr.
  destruct (run_fs _ f4 s2 (Rename tmp path)) as [[[]|e] s3]; cbn [fst snd]; [|subst; split; [done | by eapply Hout]].
  destruct Hr as [Hr Hs]. split; [apply Hr|]. intros f5. destruct (Hs f5) as [Hr5 Ho5].
  split; [apply Hr5 | right; auto].
Qed.
End WriteAtomic.

(** *** What the publication leaves *)

Lemma leaves_live s p : fs_ok s -> exists o, leaves s p o /\ (live s !! p = None -> o = None).
Proof.
  intros Hok. destruct (live s !! p) as [h|] eqn:E.
  - assert (Some h ∈ possible s p) as [i Hi]%Hok%elem_of_dom by (rewrite <- E; by constructor).
    exists (Some (synced i)). split; [|done]. exists (Some h). rewrite <- E. split; [by constructor|].
    exists i, (synced i). repeat split; try done. destruct i; cbn. by intros ->.
  - exists None. split; [|done]. exists None. split; [rewrite <- E; by constructor | done].
Qed.

Lemma settled_leaves s p o : fs_ok s -> settled s p -> leaves s p o -> o = at_path s p.
Proof.
  intros Hok [Ho Hsy] (e & He & H). unfold possible in He. rewrite Ho in He.
  apply list_elem_of_singleton in He. subst e. unfold at_path.
  destruct (live s !! p) as [h|] eqn:E; [|done]. destruct H as (i & i' & Hi & -> & _ & Hs).
  destruct (Hsy h eq_refl) as (j & Hj & Hjs). cbn. rewrite Hi in Hj |- *. injection Hj as ->. f_equal. auto.
Qed.

Lemma settled_leaves_at s p : fs_ok s -> settled s p -> leaves s p (at_path s p).
Proof. intros Hok Hs. destruct (leaves_live s p Hok) as (o & Ho & _). by rewrite <- (settled_leaves s p o). Qed.

Lemma apart_leaves path b s0 s q o : fs_ok s0 -> atomic path b s0 s -> apart path q -> leaves s q o -> leaves s0 q o.
Proof.
  intros Hok (_ & [_ Ha Hi] & _) Hq (e & He & H). destruct (Ha q Hq) as [El Eo].
  assert (He0 : e ∈ possible s0 q).
  { unfold possible in *. rewrite <- El. apply elem_of_cons in He as [->|He]; [by constructor | constructor; auto]. }
  exists e. split; [done|]. destruct e as [h|]; [|done]. destruct H as (i & i' & Hh & ? & ? & ?).
  exists i, i'. split; [|done]. apply Hok, elem_of_dom in He0 as [j Hj]. rewrite (Hi _ _ Hj) in Hh. congruence.
Qed.

Lemma apart_settled path b s0 s q : atomic path b s0 s -> apart path q -> settled s0 q -> settled s q.
Proof.
  intros (_ & [_ Ha Hi] & _) Hq [Ho Hs]. destruct (Ha q Hq) as [El Eo]. rewrite Ho in Eo. split.
  - destruct (older_at s q) as [|e l]; [done|]. by destruct (not_elem_of_nil e); apply Eo; constructor.
  - intros h. rewrite El. intros (i & Hh & Hsy)%Hs. exists i. auto.
Qed.

Lemma written_leaves path b s o : written path b s -> leaves s path o -> o = Some (whole b).
Proof.
  intros (h & Hh & Hi & Ho) (e & He & H). unfold possible in He. rewrite Ho, Hh in He.
  apply list_elem_of_singleton in He. subst e. destruct H as (i & i' & Hj & -> & _ & Hs).
  rewrite Hi in Hj. injection Hj as <-. by rewrite Hs.
Qed.

(** ** Reading *)

(** What reading finds, when the system does not fail. *)
Definition private_at (s : fs) (path : string) : result artifact_err bytes :=
  match at_path s path with
  | None => Err (ArtifactFs ErrNotExist)
  | Some i => if negb (i_regular i) || accessible_to_others i then Err ErrArtifact else Ok (i_data i)
  end.

(** A failure of the system that says nothing of the file. *)
Definition system_failure {B} (r : result artifact_err B) : Prop := r = Err (ArtifactFs ErrIO).

Lemma wpc_os_call {E B C} (I : fs -> Prop) (w : os_err -> E) (c : fs_call (result os_err B))
    (f : B -> io fs_call (result E C)) Q s :
  I s -> (forall x, (run_fs _ x s c).2 = s) ->
  (forall x, match (run_fs _ x s c).1 with Ok a => wpc run_fs I (f a) Q s | Err e => Q (Err (w e)) s end) ->
  wpc run_fs I (io_try (os_call w c) f) Q s.
Proof.
  intros HI Hs H. split; [done|]. intros x. specialize (H x). rewrite Hs. cbn [io_then perform].
  by destruct (run_fs _ x s c).1.
Qed.

Lemma at_path_live s path h : fs_ok s -> live s !! path = Some h -> exists i, inodes s !! h = Some i /\ at_path s path = Some i.
Proof.
  intros Hok H. assert (Some h ∈ possible s path) as [i Hi]%Hok%elem_of_dom by (rewrite <- H; by constructor).
  exists i. unfold at_path. by rewrite H.
Qed.

Lemma readPrivate_spec (I : fs -> Prop) path s :
  fs_ok s -> I s ->
  wpc run_fs I (readPrivate path) (fun r s' => s' = s /\ (r = private_at s path \/ system_failure r)) s.
Proof.
  intros Hok HI. unfold readPrivate, with_file. apply wpc_os_call; [done | intros x; cbn; by destruct (live s !! path)|].
  intros x. cbn [run_fs]. destruct (live s !! path) as [h|] eqn:E; cbn [fst].
  2: { split; [done|]. unfold private_at, at_path. rewrite E. destruct (f_ok x); [by left | by right]. }
  destruct (f_ok x); [|split; [done | by right]].
  destruct (at_path_live s path h Hok E) as (i & Hi & Hat). unfold private_at. rewrite Hat.
  apply wpc_then. apply (wpc_mono _ I _ _ (fun r s' => s' = s /\ (r = (if negb (i_regular i) || accessible_to_others i
    then Err ErrArtifact else Ok (i_data i)) \/ system_failure r))); [done | |].
  { intros r s' _ [-> H] _. split; [done|]. intros y. by split. }
  apply wpc_os_call; [done..|]. intros y. cbn [run_fs fst]. rewrite Hi.
  destruct (f_ok y); cbn [of_option]; [|split; [done | by right]].
  destruct (_ || _); [split; [done|]; split; [done | by left]|].
  split; [done|]. intros z. cbn [run_fs fst snd io_then perform]. rewrite Hi.
  destruct (f_ok z); cbn [of_option mbind result_bind].
  - split; [done|]. split; [done|]. left. unfold zlen. by rewrite Nat2Z.id, firstn_all.
  - destruct (0 <? zlen (i_data i)) eqn:Hz; (split; [done|]); (split; [done|]); [by right|].
    left. apply Z.ltb_ge in Hz. by rewrite (zlen_zero (i_data i)) by (pose proof (zlen_nonneg (i_data i)); lia).
Qed.

(** When no call fails, reading finds what is there. *)
Definition no_fault : fate := Fate true "" 0.

Lemma readPrivate_quiet s path :
  fs_ok s -> run_with run_fs no_fault (readPrivate path) s = Some (private_at s path, s).
Proof.
  intros Hok. unfold readPrivate, with_file, os_call, private_at, at_path. cbn [mbind io_bind io_try io_then perform run_with run_fs f_ok no_fault].
  destruct (live s !! path) as [h|] eqn:E; [|done]. destruct (at_path_live s path h Hok E) as (i & Hi & _).
  cbn [map_err mbind option_bind io_then run_with run_fs f_ok no_fault]. rewrite Hi. cbn [of_option map_err io_then mbind option_bind].
  destruct (_ || _); [done|]. cbn [io_then run_with run_fs f_ok no_fault]. rewrite Hi. cbn [of_option mbind result_bind io_then run_with run_fs f_ok no_fault].
  unfold zlen. by rewrite Nat2Z.id, firstn_all.
Qed.

(** C6. Publishing an artifact is atomic.  Whatever call of [WriteAtomic] fails
    and wherever the run is cut off, a reader finds at the path what was there or
    the whole of the new bytes with mode 0600, and so does whoever comes after a
    crash; once it has returned without an error, no crash takes the new file
    away.  Every other file that had a name keeps it, unchanged. *)
Theorem WriteAtomic_all_or_nothing path b s0 s p :
  fs_ok s0 -> exec run_fs s0 (WriteAtomic path b) s p ->
  (at_path s path = at_path s0 path \/ at_path s path = Some (Inode b ArtifactMode true true))
  /\ (forall s', crashes s s' ->
       leaves s0 path (at_path s' path) \/ at_path s' path = Some (Inode b ArtifactMode true true))
  /\ (p = Return (Ok tt) -> forall s', crashes s s' -> at_path s' path = Some (Inode b ArtifactMode true true))
  /\ (forall q i, q <> path -> at_path s0 q = Some i -> at_path s q = Some i).
Proof.
  intros Hok He. pose proof (wpc_exec _ _ _ _ _ _ _ He (WriteAtomic_spec path b s0 Hok)) as Hw.
  pose proof (wpc_now _ _ _ _ _ Hw) as (Hs & [Hl _ Hi] & Hat & Hlv). split; [done|]. split; [|split].
  - intros s' Hc. by apply Hlv, crash_leaves.
  - intros -> s' Hc. destruct Hw as [_ (h & Hh & Hf & Ho)]; [done|].
    unfold at_path. pose proof (cr_entries _ _ Hc path) as E. unfold possible in E. rewrite Ho, Hh in E.
    apply list_elem_of_singleton in E. rewrite E. cbn. by apply (cr_synced _ _ Hc _ _ Hf).
  - intros q i Hq. unfold at_path. destruct (live s0 !! q) as [h|] eqn:E; [|done]. cbn. intros Hh.
    destruct (Hl q h Hq E) as [-> _]. cbn. by apply Hi.
Qed.

(** ** A concrete publication: a new artifact over an old one *)

Definition old_file : inode := Inode (to_bytes "old") ArtifactMode true true.
Definition sample_fs : fs := Fs {[0%nat := old_file]} {["/k/keys.json"%string := 0%nat]} ∅.
Definition sample_publication : fs * io fs_call (result os_err unit) :=
  play run_fs (replicate 9 (Fate true "7" 0)) sample_fs (WriteAtomic "/k/keys.json" (to_bytes "new")).

Lemma sample_fs_ok : fs_ok sample_fs.
Proof.
  intros p h Hp. unfold possible, older_at in Hp. cbn in Hp. rewrite lookup_empty in Hp.
  apply list_elem_of_singleton in Hp. symmetry in Hp. apply lookup_singleton_Some in Hp as [_ <-]. set_solver.
Qed.

Lemma WriteAtomic_all_or_nothing_witness :
  at_path sample_publication.1 "/k/keys.json" = Some (Inode (to_bytes "new") ArtifactMode true true)
  /\ forall s', crashes sample_publication.1 s' ->
     at_path s' "/k/keys.json" = Some (Inode (to_bytes "new") ArtifactMode true true).
Proof.
  split; [vm_compute; reflexivity|].
  destruct (WriteAtomic_all_or_nothing "/k/keys.json" (to_bytes "new") sample_fs sample_publication.1
    (Return (Ok tt)) sample_fs_ok) as (_ & _ & Hd & _); [|by apply Hd].
  exact (play_exec run_fs (replicate 9 (Fate true "7" 0)) sample_fs (WriteAtomic "/k/keys.json" (to_bytes "new"))).
Defined.
