(* ===== verification/Artifacts.v ===== *)
(** * The agent's artifacts and the service's keys

    Models [internal/enrollment/artifact.go] but for the file calls of [Files],
    and [keys.go]: the key artifact and the identity artifact, written and read
    back, bound to each other by a digest; the service's key files. *)
From S2P Require Import Prelude GoBytes GoText GoPath Primitives Keys Encryption Json Nats Wire Issue Effects Files.

(** [crypto/sha256]: only that it is a function is used. *)
Class Sha256 := sum256 : bytes -> bytes.

Record KeyArtifact := {
  ka_Version : Z; ka_AgentID : string; ka_NATSSeed : string;
  ka_SigningPrivateKey : string; ka_DecryptionPrivateKey : string }.
Definition zero_KeyArtifact : KeyArtifact :=
  {| ka_Version := 0; ka_AgentID := ""; ka_NATSSeed := ""; ka_SigningPrivateKey := ""; ka_DecryptionPrivateKey := "" |}.

Definition json_of_key_artifact (a : KeyArtifact) : json :=
  JObj (member "version" (jint (ka_Version a)) ++ member "agent_id" (jstring (ka_AgentID a))
        ++ member "nats_seed" (jstring (ka_NATSSeed a))
        ++ member "signing_private_key" (jstring (ka_SigningPrivateKey a))
        ++ member "decryption_private_key" (jstring (ka_DecryptionPrivateKey a)) ++ []).

Definition set_key_artifact (f : KeyArtifact -> Z * string * string * string * string) (a : KeyArtifact) :=
  let '(v, i, n, s, d) := f a in
  {| ka_Version := v; ka_AgentID := i; ka_NATSSeed := n; ka_SigningPrivateKey := s; ka_DecryptionPrivateKey := d |}.
Definition key_artifact_fields : struct_fields KeyArtifact :=
  [("version"%string, set_int (fun x => set_key_artifact (fun a =>
      (x, ka_AgentID a, ka_NATSSeed a, ka_SigningPrivateKey a, ka_DecryptionPrivateKey a))));
   ("agent_id"%string, set_string (fun x => set_key_artifact (fun a =>
      (ka_Version a, x, ka_NATSSeed a, ka_SigningPrivateKey a, ka_DecryptionPrivateKey a))));
   ("nats_seed"%string, set_string (fun x => set_key_artifact (fun a =>
      (ka_Version a, ka_AgentID a, x, ka_SigningPrivateKey a, ka_DecryptionPrivateKey a))));
   ("signing_private_key"%string, set_string (fun x => set_key_artifact (fun a =>
      (ka_Version a, ka_AgentID a, ka_NATSSeed a, x, ka_DecryptionPrivateKey a))));
   ("decryption_private_key"%string, set_string (fun x => set_key_artifact (fun a =>
      (ka_Version a, ka_AgentID a, ka_NATSSeed a, ka_SigningPrivateKey a, x))))].

Record IdentityArtifact := {
  ia_Version : Z; ia_AgentID : string; PermanentCredentials : string; AgentKeySHA256 : string;
  ia_ServiceSigningPublicKey : string; ia_ResultEncryptionPublicKey : string }.
Definition zero_IdentityArtifact : IdentityArtifact :=
  {| ia_Version := 0; ia_AgentID := ""; PermanentCredentials := ""; AgentKeySHA256 := "";
     ia_ServiceSigningPublicKey := ""; ia_ResultEncryptionPublicKey := "" |}.

Definition json_of_identity (a : IdentityArtifact) : json :=
  JObj (member "version" (jint (ia_Version a)) ++ member "agent_id" (jstring (ia_AgentID a))
        ++ member "permanent_credentials" (jstring (PermanentCredentials a))
        ++ member "agent_key_sha256" (jstring (AgentKeySHA256 a))
        ++ member "service_signing_public_key" (jstring (ia_ServiceSigningPublicKey a))
        ++ member "result_encryption_public_key" (jstring (ia_ResultEncryptionPublicKey a)) ++ []).

Definition set_identity (f : IdentityArtifact -> Z * string * string * string * string * string)
    (a : IdentityArtifact) :=
  let '(v, i, c, h, s, e) := f a in
  {| ia_Version := v; ia_AgentID := i; PermanentCredentials := c; AgentKeySHA256 := h;
     ia_ServiceSigningPublicKey := s; ia_ResultEncryptionPublicKey := e |}.
Definition identity_fields : struct_fields IdentityArtifact :=
  [("version"%string, set_int (fun x => set_identity (fun a => (x, ia_AgentID a, PermanentCredentials a,
      AgentKeySHA256 a, ia_ServiceSigningPublicKey a, ia_ResultEncryptionPublicKey a))));
   ("agent_id"%string, set_string (fun x => set_identity (fun a => (ia_Version a, x, PermanentCredentials a,
      AgentKeySHA256 a, ia_ServiceSigningPublicKey a, ia_ResultEncryptionPublicKey a))));
   ("permanent_credentials"%string, set_string (fun x => set_identity (fun a => (ia_Version a, ia_AgentID a, x,
      AgentKeySHA256 a, ia_ServiceSigningPublicKey a, ia_ResultEncryptionPublicKey a))));
   ("agent_key_sha256"%string, set_string (fun x => set_identity (fun a => (ia_Version a, ia_AgentID a,
      PermanentCredentials a, x, ia_ServiceSigningPublicKey a, ia_ResultEncryptionPublicKey a))));
   ("service_signing_public_key"%string, set_string (fun x => set_identity (fun a => (ia_Version a, ia_AgentID a,
      PermanentCredentials a, AgentKeySHA256 a, x, ia_ResultEncryptionPublicKey a))));
   ("result_encryption_public_key"%string, set_string (fun x => set_identity (fun a => (ia_Version a, ia_AgentID a,
      PermanentCredentials a, AgentKeySHA256 a, ia_ServiceSigningPublicKey a, x))))].

(** What decodes as base64 is text. *)
Lemma b64_val_ascii c x : b64_val c = Some x -> byte_val c < 128.
Proof.
  unfold b64_val. cbv zeta. intros Hv. pose proof (byte_val_range c).
  repeat match type of Hv with context [if ?b then _ else _] => destruct b eqn:?; [res_inv; bool_to_prop; lia|] end.
  done.
Qed.

Lemma b64_quanta_ascii s b : b64_quanta s = Some b -> ascii s.
Proof.
  remember (length s) as n eqn:Hn. revert s b Hn. induction (lt_wf n) as [n _ IH]. intros s b ->.
  destruct s as [|c1 [|c2 [|c3 [|c4 rest]]]]; cbn [b64_quanta]; try done; [intros; constructor|].
  destruct (b64_val c1) eqn:E1; [|done]. destruct (b64_val c2) eqn:E2; [|done]. cbn [mbind option_bind].
  assert (byte_val b64_pad < 128) by by vm_compute.
  apply b64_val_ascii in E1, E2. destruct (b64_val c3) eqn:E3.
  - apply b64_val_ascii in E3. destruct (b64_val c4) eqn:E4.
    + apply b64_val_ascii in E4. destruct (b64_quanta rest) eqn:Er; [|done]. intros _.
      repeat (constructor; [done|]). eapply (IH (length rest)); [cbn; lia | done | exact Er].
    + case_bool_decide as Hc; [|done]. destruct Hc as [-> ->]. intros _. by repeat constructor.
  - case_bool_decide as Hc; [|done]. destruct Hc as (-> & -> & ->). intros _. by repeat constructor.
Qed.

Lemma DecodeKey_ascii s b : DecodeKey s = Some b -> ascii (to_bytes s).
Proof.
  unfold DecodeKey, b64_decode_string, b64_decode. intros Hf%b64_quanta_ascii. unfold ascii in *.
  rewrite Forall_forall in *. intros c Hc. destruct (is_newline c) eqn:E.
  - unfold is_newline in E. apply bool_decide_eq_true in E. destruct E as [-> | ->]; by vm_compute.
  - apply Hf, list_elem_of_filter. by split.
Qed.

Section Artifacts.
Context `{SS : SignatureScheme} `{ES : EncryptionScheme} {K : Nkeys} {H : Sha256}.

Record AgentKeys := { NATS : KeyPair; ak_Signing : SigningKey; Decryption : DecryptionKey; Digest : string }.

(** [NATSPublicKey] drops the error and gives the empty string. *)
Definition NATSPublicKey (k : AgentKeys) : string := default ""%string (PublicKey (NATS k)).

(** What the random source gives the three generators. *)
Record key_draws := { kd_nats : bytes; kd_s1 : entropy; kd_s2 : entropy; kd_e1 : e_entropy; kd_e2 : e_entropy }.

Definition GenerateAgentKeys (d : key_draws) : result artifact_err AgentKeys :=
  kp ← of_option (CreateUser (kd_nats d)) KeysUnavailable;
  signing ← of_option (GenerateSigningKey (kd_s1 d) (kd_s2 d)) KeysUnavailable;
  decryption ← of_option (GenerateDecryptionKey (kd_e1 d) (kd_e2 d)) KeysUnavailable;
  Ok {| NATS := kp; ak_Signing := signing; Decryption := decryption; Digest := "" |}.

Definition digest (b : bytes) : string := hex_encode_string (sum256 b).

(** The artifact's bytes, and the keys with the digest of them. *)
Definition key_artifact_bytes (agentID : string) (seed : bytes) (k : AgentKeys) : bytes :=
  json_Marshal (json_of_key_artifact
    {| ka_Version := 1; ka_AgentID := agentID; ka_NATSSeed := of_bytes seed;
       ka_SigningPrivateKey := EncodeKey (MarshalSigningKey (ak_Signing k));
       ka_DecryptionPrivateKey := EncodeKey (MarshalDecryptionKey (Decryption k)) |}).
Definition with_digest (b : bytes) (k : AgentKeys) : AgentKeys :=
  {| NATS := NATS k; ak_Signing := ak_Signing k; Decryption := Decryption k; Digest := digest b |}.

Definition WriteKeyArtifact (path agentID : string) (k : AgentKeys)
  : io fs_call (result artifact_err AgentKeys) :=
  match Seed (NATS k) with
  | None => Return (Err KeysUnavailable)
  | Some seed =>
      let b := key_artifact_bytes agentID seed k in
      r ← WriteAtomic path b;
      Return (match r with Ok _ => Ok (with_digest b k) | Err e => Err (ArtifactFs e) end)
  end.

Definition parse_key_artifact (b : bytes) (agentID : string) : result artifact_err AgentKeys :=
  a ← of_option (strictJSON key_artifact_fields zero_KeyArtifact b) ErrArtifact;
  _ ← ensure (negb (negb (ka_Version a =? 1) || negb (bool_decide (ka_AgentID a = agentID)))) ErrArtifact;
  kp ← of_option (FromSeed (to_bytes (ka_NATSSeed a))) ErrArtifact;
  raw ← of_option (DecodeKey (ka_SigningPrivateKey a)) ErrArtifact;
  signing ← or_err (ParseSigningKey raw) ErrArtifact;
  raw ← of_option (DecodeKey (ka_DecryptionPrivateKey a)) ErrArtifact;
  decryption ← or_err (ParseDecryptionKey raw) ErrArtifact;
  Ok {| NATS := kp; ak_Signing := signing; Decryption := decryption; Digest := digest b |}.

Definition ReadKeyArtifact (path agentID : string) : io fs_call (result artifact_err AgentKeys) :=
  b ←? readPrivate path; Return (parse_key_artifact b agentID).

Definition parse_identity (b : bytes) (keys : AgentKeys) : result artifact_err IdentityArtifact :=
  a ← of_option (strictJSON identity_fields zero_IdentityArtifact b) ErrArtifact;
  _ ← ensure (ia_Version a =? 1) ErrArtifact;
  _ ← ensure (bool_decide (AgentKeySHA256 a = Digest keys)) ErrArtifact;
  Ok a.

Definition ReadIdentityArtifact (path : string) (keys : AgentKeys)
  : io fs_call (result artifact_err IdentityArtifact) :=
  b ←? readPrivate path; Return (parse_identity b keys).

(** ** The service's key files *)

Definition LoadServiceKeys (signingPath resultPath : string) : io fs_call (result keyfile_err ServiceKeys) :=
  raw ←? readKeyFile signingPath true;
  match ParseSigningKey raw with
  | Err _ => Return (Err ErrKeyFile)
  | Ok signing =>
      raw ←? readKeyFile resultPath false;
      match ParseRecipientKey raw with
      | Err _ => Return (Err ErrKeyFile)
      | Ok recipient => Return (Ok {| Issue.Signing := signing; ResultRecipient := recipient |})
      end
  end.
(** ** Written and read back *)

Context {SL : SignatureLaws SS} {EL : EncryptionLaws ES} {KL : NkeysLaws K}.

Lemma decode_key_artifact a :
  0 <= ka_Version a < 2 ^ 63 ->
  decode_struct true key_artifact_fields (json_of_key_artifact a) zero_KeyArtifact = Some a.
Proof.
  intros Hv. unfold json_of_key_artifact, decode_struct.
  erewrite set_members_int by (done || reflexivity). erewrite !set_members_string by reflexivity. by destruct a.
Qed.

Lemma decode_identity a :
  0 <= ia_Version a < 2 ^ 63 ->
  decode_struct true identity_fields (json_of_identity a) zero_IdentityArtifact = Some a.
Proof.
  intros Hv. unfold json_of_identity, decode_struct.
  erewrite set_members_int by (done || reflexivity). erewrite !set_members_string by reflexivity. by destruct a.
Qed.

Ltac clean_object :=
  apply clean_members; apply clean_member; [member_names | apply clean_jint; lia|];
  repeat (apply clean_member; [member_names | by apply clean_jstring|]); constructor.

Definition ascii_identity (a : IdentityArtifact) : Prop :=
  ascii (to_bytes (ia_AgentID a)) /\ ascii (to_bytes (PermanentCredentials a)) /\ ascii (to_bytes (AgentKeySHA256 a))
  /\ ascii (to_bytes (ia_ServiceSigningPublicKey a)) /\ ascii (to_bytes (ia_ResultEncryptionPublicKey a)).

Lemma clean_identity a :
  0 <= ia_Version a < 2 ^ 63 -> ascii_identity a -> clean (json_of_identity a).
Proof. intros Hv (?&?&?&?&?). clean_object. Qed.

Lemma parse_identity_written a k :
  ia_Version a = 1 -> ascii_identity a -> AgentKeySHA256 a = Digest k ->
  parse_identity (json_Marshal (json_of_identity a)) k = Ok a.
Proof.
  intros Hv Ha Hd. unfold parse_identity.
  rewrite (strictJSON_Marshal _ _ _ a); [|apply clean_identity; [lia | done] | by vm_compute | apply decode_identity; lia].
  cbn. by rewrite Hv, Hd, bool_decide_eq_true_2.
Qed.

Lemma strictJSON_key_artifact a :
  ka_Version a = 1 -> ascii (to_bytes (ka_AgentID a)) -> ascii (to_bytes (ka_NATSSeed a)) ->
  ascii (to_bytes (ka_SigningPrivateKey a)) -> ascii (to_bytes (ka_DecryptionPrivateKey a)) ->
  strictJSON key_artifact_fields zero_KeyArtifact (json_Marshal (json_of_key_artifact a)) = Some a.
Proof.
  intros Hv H1 H2 H3 H4. apply strictJSON_Marshal; [| by vm_compute | apply decode_key_artifact; lia]. clean_object.
Qed.

Lemma parse_key_written agentID other seed k :
  ascii (to_bytes agentID) -> Seed (NATS k) = Some seed -> FromSeed seed = Some (NATS k) ->
  parse_key_artifact (key_artifact_bytes agentID seed k) other =
    if bool_decide (agentID = other) then Ok (with_digest (key_artifact_bytes agentID seed k) k)
    else Err ErrArtifact.
Proof.
  intros Ha Hs Hf. pose proof (seed_ascii _ _ Hs) as Hsa. unfold parse_key_artifact, with_digest.
  generalize (digest (key_artifact_bytes agentID seed k)). intros d. unfold key_artifact_bytes.
  rewrite strictJSON_key_artifact; cbn; rewrite ?to_of_bytes; auto using ascii_EncodeKey.
  case_bool_decide; [|done]. cbn. rewrite Hf. cbn.
  unfold DecodeKey, EncodeKey. rewrite !b64_decode_encode_string. cbn.
  rewrite ParseSigningKey_Marshal. cbn. by rewrite ParseDecryptionKey_Marshal.
Qed.

Lemma generated_seed d k :
  GenerateAgentKeys d = Ok k -> exists seed, Seed (NATS k) = Some seed /\ FromSeed seed = Some (NATS k)
    /\ IsValidPublicUserKey (NATSPublicKey k) = true.
Proof.
  unfold GenerateAgentKeys, NATSPublicKey. intros Hg. res_inv. cbn.
  match goal with H : CreateUser _ = Some _ |- _ => destruct (created_user _ _ H) as (pub & seed & Hp & Hs & _ & _ & Hu & Hf) end.
  exists seed. by rewrite Hp.
Qed.
End Artifacts.
