(* ===== verification/ServerOpen.v ===== *)
(** * Opening the server's enrollment side

    Models [Open] of [internal/enrollment/server.go]: the credentials, the
    signing seed, the trust anchor and the service keys a server reads before it
    serves, and the checks that they are one deployment.  What the theorems tie
    together is the generator's [Write] and this reader. *)
From S2P Require Import Prelude GoBytes GoTime GoText GoPath Vocabulary Primitives Keys Signature Encryption Subjects Limits.
From S2P Require Import Toy Nats Mint Config ServerConfig Issue Tls Deploy Effects DeployFiles Files Artifacts.

Inductive open_err :=
  | ReadFault (path : string)
  | EnrollmentCredential (e : mint_err)
  | PresenceCredential (e : mint_err)
  | SigningSeedRefused (e : mint_err)
  | ErrMismatchedDeployment
  | CAFileRefused (e : tls_err)
  | ServiceKeysRefused (e : keyfile_err).

Inductive open_call : Type -> Type :=
  (** [os.ReadFile] *)
  | ReadFile (path : string) : open_call (option bytes)
  | OnFile {B : Type} (c : fs_call B) : open_call B.

Section Opening.
Context `{SS : SignatureScheme} `{ES : EncryptionScheme} {K : Nkeys} {J : Jwt K} {X : X509}.

(** [Server], without the store. *)
Record EnrollServer := {
  es_Issuer : Issuer; es_Keys : ServiceKeys; es_Enrollment : ServiceCredential; es_Presence : ServiceCredential;
  es_CAPEM : bytes; es_URL : string; es_ServerName : string }.

Definition read_file (path : string) : io open_call (result open_err bytes) :=
  r ← perform (ReadFile path); Return (of_option r (ReadFault path)).
Definition pure_step {A} (r : result open_err A) : io open_call (result open_err A) := Return r.

Definition Open (cfg : Server) : io open_call (result open_err EnrollServer) :=
  let n := sc_NATS cfg in
  enrollmentFile ←? read_file (EnrollmentCredentials n);
  enrollmentCred ←? pure_step (map_err EnrollmentCredential (ReadServiceCredential EnrollmentService enrollmentFile));
  presenceFile ←? read_file (PresenceCredentials n);
  presenceCred ←? pure_step (map_err PresenceCredential (ReadServiceCredential PresenceConsumer presenceFile));
  seed ←? read_file (AccountSigningSeed n);
  minter ←? pure_step (map_err SigningSeedRefused (NewMinter (sc_Account enrollmentCred) (trim_space seed)));
  if negb (bool_decide (sc_Account presenceCred = sc_Account enrollmentCred))
     || negb (bool_decide (sc_Issuer enrollmentCred = Minter_SigningKey minter))
     || negb (bool_decide (sc_Issuer presenceCred = Minter_SigningKey minter))
  then Return (Err ErrMismatchedDeployment)
  else
    ca ←? read_file (nt_CAFile n);
    call? pure_step (map_err CAFileRefused (ClientTLSConfig ca (nt_ServerName n)));
    keys ←? (r ← io_map (@OnFile) (LoadServiceKeys (SigningPrivateKeyFile (sc_Service cfg))
                                     (ResultEncryptionPublicKeyFile (sc_Service cfg)));
             pure_step (map_err ServiceKeysRefused r));
    Return (Ok {| es_Issuer := {| Issue.minter := minter; Issue.keys := keys |}; es_Keys := keys;
                  es_Enrollment := enrollmentCred; es_Presence := presenceCred; es_CAPEM := ca;
                  es_URL := nt_URL n; es_ServerName := nt_ServerName n |}).

(** ** The outside

    What a file holds when it is read is the outside's choice: files may change
    between two reads. *)
Record open_fate := { of_content : option bytes; of_fate : fate }.
Definition run_open (B : Type) (f : open_fate) (w : fs) (c : open_call B) : B * fs :=
  match c in open_call B return B * fs with
  | ReadFile _ => (of_content f, w)
  | OnFile c => run_fs _ (of_fate f) w c
  end.

(** Files that stay as they are. *)
Definition run_still (t : tree) (B : Type) (f : fate) (w : fs) (c : open_call B) : B * fs :=
  match c in open_call B return B * fs with
  | ReadFile p => (fst <$> files t !! p, w)
  | OnFile c => run_fs _ f w c
  end.

(** ** What an opened server holds *)

(** Both credentials are their slots' own, of the account the minter mints for
    and issued by the key it signs with; the broker is verified. *)
Record one_deployment (n : Config.NATS) (s : EnrollServer) : Prop := {
  od_enrollment : exists file, ReadServiceCredential EnrollmentService file = Ok (es_Enrollment s);
  od_presence : exists file, ReadServiceCredential PresenceConsumer file = Ok (es_Presence s);
  od_minter : exists seed, NewMinter (sc_Account (es_Enrollment s)) seed = Ok (Issue.minter (es_Issuer s));
  od_account : sc_Account (es_Presence s) = sc_Account (es_Enrollment s);
  od_issuer : sc_Issuer (es_Enrollment s) = Minter_SigningKey (Issue.minter (es_Issuer s))
              /\ sc_Issuer (es_Presence s) = Minter_SigningKey (Issue.minter (es_Issuer s));
  od_broker : exists c, ClientTLSConfig (es_CAPEM s) (es_ServerName s) = Ok c;
  od_keys : es_Keys s = Issue.keys (es_Issuer s);
  od_config : es_URL s = nt_URL n /\ es_ServerName s = nt_ServerName n }.

Lemma wpc_read {E} I path (k : bytes -> io open_call (result open_err E)) Q w :
  I w -> (forall b, wpc run_open I (k b) Q w) -> Q (Err (ReadFault path)) w -> wpc run_open I (x ←? read_file path; k x) Q w.
Proof. intros HI Hk HQ. split; [done|]. intros f. cbn. destruct (of_content f) as [b|]; cbn; [apply Hk | by split]. Qed.

Lemma wpc_pure {A E} I (r : result open_err A) (k : A -> io open_call (result open_err E)) Q w :
  I w -> (forall a, r = Ok a -> wpc run_open I (k a) Q w) -> (forall e, r = Err e -> Q (Err e) w) ->
  wpc run_open I (x ←? pure_step r; k x) Q w.
Proof. intros HI Hk HQ. unfold pure_step, io_try. cbn [io_then]. destruct r as [a|e]; [by apply Hk | split; auto]. Qed.

Lemma wpc_any {C : Type -> Type} {W F} (run : forall B, F -> W -> C B -> B * W) {A} (p : io C A) w : wpc run (fun _ => True) p (fun _ _ => True) w.
Proof. revert w. induction p; cbn; auto. Qed.

Lemma Open_wpc cfg w :
  wpc run_open (fun _ => True) (Open cfg) (fun r _ => forall s, r = Ok s -> one_deployment (sc_NATS cfg) s) w.
Proof.
  unfold Open.
  apply wpc_read; [done | intros ef | done]. apply wpc_pure; [done | intros ec Hec%map_err_ok_inv | done].
  apply wpc_read; [done | intros pf | done]. apply wpc_pure; [done | intros pc Hpc%map_err_ok_inv | done].
  apply wpc_read; [done | intros sf | done]. apply wpc_pure; [done | intros m Hm%map_err_ok_inv | done].
  destruct (_ || _) eqn:Hsame; [by split|]. res_inv. bool_to_prop.
  apply wpc_read; [done | intros ca | done]. apply wpc_pure; [done | intros tls Htls%map_err_ok_inv | done].
  apply wpc_try, wpc_then. eapply wpc_mono; [done | | apply wpc_any].
  intros r w' _ _ _. split; [done|]. intros _. destruct r as [ks|e]; cbn [map_err]; [|done].
  split; [done|]. intros s [= <-]. by split; cbn; eauto.
Qed.

Context {KL : NkeysLaws K} {JL : JwtLaws K J}.

(** C13. However its files change while it reads them, a server that opens has
    one deployment: each credential names its own slot's service and grants, both
    are of the account the issuer mints for and issued by the key it signs with,
    and so is every agent identity it will mint; it trusts at least one CA
    certificate and has a name to verify the broker by. *)
Theorem Open_one_deployment cfg w w' s :
  exec run_open w (Open cfg) w' (Return (Ok s)) ->
  one_deployment (sc_NATS cfg) s
  /\ (forall slot cred, (slot, cred) ∈ [(EnrollmentService, es_Enrollment s); (PresenceConsumer, es_Presence s)] ->
      exists claims, DecodeUserClaims (default ""%string (ParseDecoratedJWT (sc_File cred))) = Some claims
        /\ uc_Name claims = slot /\ Nats.Issuer claims = sc_Issuer (es_Enrollment s)
        /\ IssuerAccount claims = Minter_Account (Issue.minter (es_Issuer s)))
  /\ (forall now k i, Mint.Agent now (Issue.minter (es_Issuer s)) k = Ok i ->
      exists claims, DecodeUserClaims (id_JWT i) = Some claims
        /\ IssuerAccount claims = sc_Account (es_Enrollment s) /\ Nats.Issuer claims = sc_Issuer (es_Enrollment s)).
Proof.
  intros Hex. pose proof (proj2 (wpc_exec run_open _ _ _ _ _ _ Hex (Open_wpc cfg w)) s eq_refl) as Hs.
  pose proof Hs as [[ef He] [pf Hp] [seed Hm] Hacc [Hi1 Hi2] _ _ _].
  apply NewMinter_iff in Hm as (_ & Hma & _ & pub & Hpub & _).
  assert (Hkey : Minter_SigningKey (Issue.minter (es_Issuer s)) = pub) by (unfold Minter_SigningKey; by rewrite Hpub).
  split; [done|]. split.
  - intros slot cred Hin. assert (exists file, ReadServiceCredential slot file = Ok cred
      /\ sc_Account cred = sc_Account (es_Enrollment s) /\ sc_Issuer cred = sc_Issuer (es_Enrollment s)) as (file & Hr & Ha & Hi).
    { rewrite !elem_of_cons, elem_of_nil in Hin. destruct Hin as [[= -> ->]|[[= -> ->]|[]]]; [by exists ef|].
      exists pf. split; [done|]. split; [done | congruence]. }
    apply ReadServiceCredential_inv in Hr as (token & claims & kp & Ht & Hc & _ & _ & Hn & _ & _ & _ & _ & _ & ->).
    cbn in *. rewrite Ht. exists claims. unfold Minter_Account. split; [done|]. split; [done|]. split; congruence.
  - intros now k i Hi. apply (Agent_issued _ _ _ _ _ Hi) in Hpub as ((Hd & _) & _).
    eexists. split; [exact Hd|]. cbn. split; congruence.
Qed.

(** ** What the generator writes, opened *)

(** The configuration that names a deployment's files where [Write] put them. *)
Record configured (dir : string) (n : Config.NATS) : Prop := {
  cn_enrollment : EnrollmentCredentials n = credential_path (Join [dir; CredentialsDir]) EnrollmentService;
  cn_presence : PresenceCredentials n = credential_path (Join [dir; CredentialsDir]) PresenceConsumer;
  cn_seed : AccountSigningSeed n = Join [Join [dir; CredentialsDir]; signingFile];
  cn_ca : nt_CAFile n = Join [Join [dir; TLSDir]; CACertFile];
  cn_name : nt_ServerName n <> ""%string }.

Lemma run_still_files {A} t f (p : io fs_call A) w :
  run_with (run_still t) f (io_map (@OnFile) p) w = run_with run_fs f p w.
Proof.
  revert w. induction p as [a|B c k IH|]; intros w; cbn [io_map run_with run_still]; [done | | done].
  destruct (run_fs B f w c) as [r w']. apply IH.
Qed.

Lemma run_read {E} t f path b (k : bytes -> io open_call (result open_err E)) w :
  fst <$> files t !! path = Some b ->
  run_with (run_still t) f (x ←? read_file path; k x) w = run_with (run_still t) f (k b) w.
Proof. intros H. unfold read_file. cbn. by rewrite H. Qed.

Lemma run_pure {A E} t f (r : result open_err A) a (k : A -> io open_call (result open_err E)) w :
  r = Ok a -> run_with (run_still t) f (x ←? pure_step r; k x) w = run_with (run_still t) f (k a) w.
Proof. by intros ->. Qed.

Context {X5 : X509Laws X} {R : Revocation} {RL : RevocationLaws R} {U : Unicode}.

(** A service's credential file, as its slot reads it. *)
Lemma service_file cfg g d dir t p :
  deployed cfg g d -> complete d dir t -> p ∈ Services ->
  exists file cred, fst <$> files t !! credential_path (Join [dir; CredentialsDir]) p = Some file
    /\ ReadServiceCredential p file = Ok cred
    /\ sc_Account cred = acc_PublicKey (Keystone d) /\ sc_Issuer cred = acc_SigningKey (Keystone d).
Proof.
  intros [_ (m & Hm & Hiss & [[Hs Hsi] _ _]) _ _ _ _ _] [Hc _] Hp.
  apply NewMinter_iff in Hm as (Hv & Hma & _ & _).
  assert (exists i, d_Services d !! p = Some i) as [i Hi].
  { apply (elem_of_dom (D := gset string)). rewrite Hs. by apply elem_of_list_to_set. }
  destruct (map_Forall_lookup_1 _ _ _ _ Hsi Hi) as (_ & _ & now & rnd & Hnew).
  assert (Hset : credentialSet d !! p = Some i).
  { unfold credentialSet. apply lookup_union_Some_raw. right. split; [|done]. apply lookup_kmap_None; [apply _|].
    intros t' ->. exfalso. revert Hp. unfold Services. rewrite !elem_of_cons, elem_of_nil. by intros [?|[?|[?|[?|[?|[]]]]]]. }
  destruct (Hc p i Hset) as (file & Hf & Hfile).
  assert (Hcred : Credentials i = Ok file).
  { unfold Credentials. destruct (newUser_issued _ _ _ (PService p) _ _ _ _ Hnew Hiss) as (_ & _ & kp & (? & ? & ? & Hseed & Hne & _)%created_user & _ & Hs2).
    simplify_eq. destruct (id_Seed i); [done|]. cbn. by rewrite Hf. }
  pose proof (issued_credential_read _ _ _ _ _ _ _ p Hiss ltac:(rewrite Hma; by apply account_key_nonempty) Hnew Hcred) as Hr.
  rewrite bool_decide_eq_true_2 in Hr by done. exists file. eexists. split; [done|]. split; [exact Hr | by rewrite <- Hma].
Qed.

(** C3. A server configured with the files a generated deployment was written to
    opens: [Generate], [Write] and [Open] agree on what a deployment is.  What it
    opens is that deployment, and the chain of trust holds: every agent identity
    it mints names the account of the Keystone account token and is issued by a
    signing key that token, signed by the operator, lists. *)
Theorem Open_accepts_generated cfg g d dir order umask t0 t scfg f w ks w' :
  Generate cfg g = Ok d -> order ≡ₚ map_to_list (credentialSet d) ->
  exec (run_dir umask) t0 (Write d dir order) t (Return (Ok tt)) -> configured dir (sc_NATS scfg) ->
  run_with run_fs f (LoadServiceKeys (SigningPrivateKeyFile (sc_Service scfg))
                       (ResultEncryptionPublicKeyFile (sc_Service scfg))) w = Some (Ok ks, w') ->
  exists s, run_with (run_still t) f (Open scfg) w = Some (Ok s, w')
    /\ sc_Account (es_Enrollment s) = acc_PublicKey (Keystone d) /\ es_Keys s = ks /\ es_CAPEM s = CACertPEM (d_TLS d)
    /\ exists account, DecodeAccountClaims (acc_JWT (Keystone d)) = Some account /\ ac_Issuer account = OperatorPublicKey d
      /\ forall now k i, Mint.Agent now (Issue.minter (es_Issuer s)) k = Ok i ->
           exists claims, DecodeUserClaims (id_JWT i) = Some claims /\ Subject claims = ak_PublicKey k
             /\ IssuerAccount claims = ac_Subject account /\ Nats.Issuer claims ∈ SigningKeys account.
Proof.
  intros Hg Hperm Hex [He Hp Hsd Hca Hname] Hks. pose proof (Generate_deployed _ _ _ Hg) as Hd.
  destruct (Write_leaves umask _ _ _ _ _ _ (generated_names _ _ _ Hg) Hperm Hex) as [_ Hc]. specialize (Hc eq_refl).
  destruct (service_file _ _ _ _ _ EnrollmentService Hd Hc) as (ef & ec & Hef & Hec & Hea & Hei); [by repeat constructor|].
  destruct (service_file _ _ _ _ _ PresenceConsumer Hd Hc) as (pf & pc & Hpf & Hpc & Hpa & Hpi); [by repeat constructor|].
  destruct Hd as [_ (m & Hm & Hiss & _) Htrim (ac & Hac & Has & Hai & _ & Hak & _) _ _ (ca & broker & caL & bL & Hpem & _)].
  destruct Hc as [_ Ho]. unfold other_files, tls_files, holds in Ho. cbn [map app fst snd] in Ho. rewrite !Forall_cons in Ho. cbn [fst snd] in Ho.
  destruct Ho as (Hseed & Hcaf & _).
  assert (Hkey : Minter_SigningKey m = acc_SigningKey (Keystone d)) by (unfold Minter_SigningKey; by rewrite Hiss).
  eexists. split; [|split; [|split; [|split]]].
  - unfold Open. cbv zeta. rewrite He. erewrite run_read by exact Hef. erewrite run_pure by (by rewrite Hec).
    rewrite Hp. erewrite run_read by exact Hpf. erewrite run_pure by (by rewrite Hpc).
    rewrite Hsd. erewrite run_read by exact Hseed. erewrite run_pure by (by rewrite Htrim, Hea, Hm).
    rewrite !bool_decide_eq_true_2 by congruence. cbn [negb orb].
    rewrite Hca. erewrite run_read by exact Hcaf.
    erewrite run_pure by (unfold ClientTLSConfig; by rewrite bool_decide_eq_false_2, Hpem).
    erewrite run_with_try; [reflexivity|]. erewrite run_with_then; [|rewrite run_still_files; exact Hks]. reflexivity.
  - exact Hea.
  - reflexivity.
  - reflexivity.
  - exists ac. split; [done|]. split; [done|]. intros now k i Hi. cbn [es_Issuer Issue.minter] in Hi.
    apply NewMinter_iff in Hm as (_ & Hma & _). apply (Agent_issued _ _ _ _ _ Hi) in Hiss as ((Hdec & _) & _ & Hpk & _).
    eexists. split; [exact Hdec|]. cbn. rewrite Hak, Has. split; [done|]. split; [done | by left].
Qed.
End Opening.

(** ** The demonstration deployment, opened *)

Definition demo_server : Server := {|
  sc_Operator := sc_Operator sample_server; StorePath := StorePath sample_server; sc_Faults := sc_Faults sample_server;
  sc_NATS := {| nt_URL := "tls://nats:4222"; nt_CAFile := "/srv/nats/tls/ca.pem"; nt_ServerName := "nats";
    EnrollmentCredentials := "/srv/nats/creds/enrollment-service.creds";
    PresenceCredentials := "/srv/nats/creds/presence-consumer.creds";
    AccountSigningSeed := "/srv/nats/creds/account-signing.nk" |};
  sc_Service := {| SigningPrivateKeyFile := "/etc/k/sign"; ResultEncryptionPublicKeyFile := "/etc/k/enc" |} |}.

Definition demo_keys : fs := {|
  inodes := {[ 0%nat := Inode (b64_encode (@MarshalSigningKey ToySignature toy_signer)) 384 true true;
               1%nat := Inode (b64_encode (@RecipientKey_Bytes ToyEncryption sample_recipient)) 420 true true ]};
  live := {[ "/etc/k/sign"%string := 0%nat; "/etc/k/enc"%string := 1%nat ]}; older := ∅ |}.
Definition demo_fate : fate := Fate true "" 0.

Lemma demo_configured : configured "/srv/nats" (sc_NATS demo_server).
Proof. by split; vm_compute. Qed.

Abbreviation demo_load := (run_with run_fs demo_fate
  (LoadServiceKeys (SS := ToySignature) (ES := ToyEncryption) "/etc/k/sign" "/etc/k/enc") demo_keys).
Lemma demo_loaded : (match demo_load with Some (Ok _, _) => true | _ => false end) = true.
Proof. vm_cast_no_check (@eq_refl bool true). Qed.

Lemma Open_accepts_generated_witness : exists d t s w', demo_generate = Ok d
  /\ run_with (run_still t) demo_fate
       (Open (SS := ToySignature) (ES := ToyEncryption) (J := ToyJwt) (X := ToyX509) demo_server) demo_keys = Some (Ok s, w')
  /\ sc_Account (es_Enrollment s) = acc_PublicKey (Keystone d).
Proof.
  pose proof demo_written as Hok. pose proof demo_loaded as Hl.
  destruct demo_generate as [d|e] eqn:E; [|discriminate Hok]. apply finished_spec in Hok.
  destruct demo_load as [[[ks|e] w']|] eqn:El; [|discriminate Hl..].
  assert (Hex : exec (run_dir 18) demo_tree (demo_write d) (demo_run d).1 (Return (Ok tt))).
  { pose proof (play_exec (run_dir 18) (replicate 40 None) demo_tree (demo_write d)) as H. rewrite Hok in H. exact H. }
  destruct (@Open_accepts_generated ToySignature ToyEncryption ToyNkeys ToyJwt ToyX509 ToyNkeysLaws ToyJwtLaws ToyX509Laws
    ToyRevocation ToyRevocationLaws ascii_tables demo_config demo_draws d "/srv/nats" (map_to_list (credentialSet d)) 18
    demo_tree (demo_run d).1 demo_server demo_fate demo_keys ks w' E (Permutation_refl _) Hex demo_configured El)
    as (s & Hs & Ha & _).
  exists d, (demo_run d).1, s, w'. exact (conj eq_refl (conj Hs Ha)).
Defined.

Lemma still_exec {A} t f (p : io open_call A) w a w' :
  run_with (run_still t) f p w = Some (a, w') -> exec run_open w p w' (Return a).
Proof.
  revert w. induction p as [x|B c k IH|]; intros w; cbn [run_with]; [intros [= -> ->]; constructor | | done].
  destruct c as [path|B c]; cbn [run_still].
  - intros H. apply (exec_call _ _ _ _ _ {| of_content := fst <$> files t !! path; of_fate := f |} w' w'); [by apply IH | done].
  - destruct (run_fs B f w c) as [r w1] eqn:E. intros H.
    apply (exec_call _ _ _ _ _ {| of_content := None; of_fate := f |} w' w'); [|done]. cbn [run_open of_fate]. rewrite E. by apply IH.
Qed.

Abbreviation demo_open d := (run_with (run_still (demo_run d).1) demo_fate
  (Open (SS := ToySignature) (ES := ToyEncryption) (J := ToyJwt) (X := ToyX509) demo_server) demo_keys).
Lemma demo_opened :
  (match demo_generate with Ok d => match demo_open d with Some (Ok _, _) => true | _ => false end | Err _ => false end) = true.
Proof. vm_cast_no_check (@eq_refl bool true). Qed.

Lemma Open_one_deployment_witness : exists d s w', demo_generate = Ok d /\ demo_open d = Some (Ok s, w')
  /\ @one_deployment ToySignature ToyEncryption ToyNkeys ToyJwt ToyX509 (sc_NATS demo_server) s.
Proof.
  pose proof demo_opened as Hok. destruct demo_generate as [d|e] eqn:E; [|discriminate Hok].
  destruct (demo_open d) as [[[s|e] w']|] eqn:Eo; [|discriminate Hok..].
  exists d, s, w'. refine (conj eq_refl (conj Eo _)).
  exact (proj1 (@Open_one_deployment ToySignature ToyEncryption ToyNkeys ToyJwt ToyX509 ToyJwtLaws
    demo_server demo_keys w' s (still_exec _ _ _ _ _ _ Eo))).
Defined.
