(* ===== verification/ServiceStart.v ===== *)
(** * Starting the enrollment service

    Models [Start], [connect], [ClientOptions] and [Close] of
    [internal/enrollment/service.go]: the two connections the service runs on,
    how each authenticates and verifies the broker, for how long it is tried,
    and what is closed again when starting fails.  The NATS client is calls that
    succeed or fail. *)
From S2P Require Import Prelude GoBytes GoTime Primitives Toy Subjects Nats Mint Config ConfigText Wire Issue Tls Deploy Effects.
From S2P Require Import DeployFiles ServerOpen.

Definition ConnectTimeout : Duration := 15 * Second.

(** [nats.Option], those the program passes. *)
Inductive nats_option :=
  | Secure (c : tls_config)
  | TLSHandshakeFirst
  | UserJWTAndSeed (jwt : string) (seed : bytes)
  | NatsName (name : string)
  | MaxReconnects (n : Z).

Inductive start_err := BadTls (e : tls_err) | NoToken | NoKeyPair | NoSeed | CannotConnect | SubscribeFault | FlushFault.
(** The handler of a subscription. *)
Inductive msg_handler := OnRequest | OnPresence.

Inductive nats_call : Type -> Type :=
  (** [nats.Connect]: the connection's number *)
  | Connect (url : string) (opts : list nats_option) : nats_call (option nat)
  (** [Subscribe]; the broker learns of it with the next flush *)
  | Subscribe (c : nat) (subject : string) (h : msg_handler) : nats_call bool
  | FlushTimeout (c : nat) (d : Duration) : nats_call bool
  | CloseConn (c : nat) : nats_call unit
  | Now : nats_call Time
  (** [ctx.Err() != nil] *)
  | ContextDone : nats_call bool
  | Sleep (d : Duration) : nats_call unit.

Section Starting.
Context `{SS : SignatureScheme} `{ES : EncryptionScheme} {K : Nkeys} {J : Jwt K} {X : X509}.

Definition ClientOptions (caPEM : bytes) (serverName : string) (creds : bytes) : result start_err (list nats_option) :=
  tlsConfig ← map_err BadTls (ClientTLSConfig caPEM serverName);
  token ← of_option (ParseDecoratedJWT creds) NoToken;
  kp ← of_option (ParseDecoratedNKey creds) NoKeyPair;
  seed ← of_option (Seed kp) NoSeed;
  Ok [Secure tlsConfig; TLSHandshakeFirst; UserJWTAndSeed token seed].

(** [n] attempts at most. *)
Fixpoint dial (n : nat) (url : string) (opts : list nats_option) (deadline : Time) : io nats_call (result start_err nat) :=
  match n with
  | O => Looping
  | S n =>
      c ← perform (Connect url opts);
      match c with
      | Some c => Return (Ok c)
      | None =>
          t ← perform Now;
          over ← (if deadline <? t then Return true else perform ContextDone);
          if (over : bool) then Return (Err CannotConnect)
          else _ ← perform (Sleep (500 * Millisecond)); dial n url opts deadline
      end
  end.

Definition connect (n : nat) (s : EnrollServer) (cred : ServiceCredential) (name : string) : io nats_call (result start_err nat) :=
  match ClientOptions (es_CAPEM s) (es_ServerName s) (sc_File cred) with
  | Err e => Return (Err e)
  | Ok opts =>
      t ← perform Now;
      dial n (es_URL s) (opts ++ [NatsName name; MaxReconnects (-1)]) (t_add t ConnectTimeout)
  end.

(** How the agent asks for a connection: [connect] of [agent.go], and [Run] of
    [reconnect.go] with the permanent credential. *)
Definition agent_options (ca : bytes) (n : AgentNATS) (creds : bytes) (name : string) : result start_err (string * list nats_option) :=
  opts ← ClientOptions ca (an_ServerName n) creds;
  Ok (an_URL n, opts ++ [NatsName name; MaxReconnects (-1)]).

Record running := { sv_enroll : nat; sv_presence : nat; sv_hold : Duration }.

Definition Close (svc : running) : io nats_call unit :=
  _ ← perform (CloseConn (sv_enroll svc)); perform (CloseConn (sv_presence svc)).
(** [svc.Close(); return nil, err] unless the call succeeds. *)
Definition or_close (svc : running) (c : nats_call bool) (e : start_err) : io nats_call (result start_err unit) :=
  ok ← perform c;
  if (ok : bool) then Return (Ok tt) else _ ← Close svc; Return (Err e).

Definition Start (n : nat) (s : EnrollServer) (hold : Duration) : io nats_call (result start_err running) :=
  enroll ←? connect n s (es_Enrollment s) "keystone-server enrollment-service";
  presence ← connect n s (es_Presence s) "keystone-server presence-consumer";
  match presence with
  | Err e => _ ← perform (CloseConn enroll); Return (Err e)
  | Ok presence =>
      let svc := {| sv_enroll := enroll; sv_presence := presence; sv_hold := hold |} in
      call? or_close svc (Subscribe enroll RequestSubjects OnRequest) SubscribeFault;
      call? or_close svc (Subscribe presence PresenceSubjects OnPresence) SubscribeFault;
      call? or_close svc (FlushTimeout enroll ConnectTimeout) FlushFault;
      call? or_close svc (FlushTimeout presence ConnectTimeout) FlushFault;
      Return (Ok svc)
  end.
End Starting.

(** ** The outside *)

Record nats_conn := {
  nc_url : string; nc_opts : list nats_option; nc_open : bool;
  nc_asked : list (string * msg_handler); nc_known : list (string * msg_handler) }.
(** The clock, every connection that came about, and every attempt at one. *)
Record nats_world := { nw_now : Time; nw_conns : list nats_conn; nw_tried : list (string * list nats_option) }.
(** Whether a call succeeds, and how long it takes. *)
Record nats_fate := { nf_ok : bool; nf_took : N }.

Definition passed (d : Z) (w : nats_world) : nats_world :=
  {| nw_now := nw_now w + d; nw_conns := nw_conns w; nw_tried := nw_tried w |}.
Definition on_conn (c : nat) (f : nats_conn -> nats_conn) (w : nats_world) : nats_world :=
  {| nw_now := nw_now w; nw_conns := alter f c (nw_conns w); nw_tried := nw_tried w |}.
Definition subscribed (x : string * msg_handler) (c : nats_conn) : nats_conn :=
  {| nc_url := nc_url c; nc_opts := nc_opts c; nc_open := nc_open c; nc_asked := nc_asked c ++ [x]; nc_known := nc_known c |}.
Definition flushed (c : nats_conn) : nats_conn :=
  {| nc_url := nc_url c; nc_opts := nc_opts c; nc_open := nc_open c; nc_asked := nc_asked c; nc_known := nc_asked c |}.
Definition closed (c : nats_conn) : nats_conn :=
  {| nc_url := nc_url c; nc_opts := nc_opts c; nc_open := false; nc_asked := nc_asked c; nc_known := nc_known c |}.
Definition dialled (url : string) (opts : list nats_option) : nats_conn :=
  {| nc_url := url; nc_opts := opts; nc_open := true; nc_asked := []; nc_known := [] |}.

Definition run_nats (B : Type) (f : nats_fate) (w : nats_world) (c : nats_call B) : B * nats_world :=
  let w := passed (Z.of_N (nf_took f)) w in
  match c in nats_call B return B * nats_world with
  | Connect url opts =>
      let tried := nw_tried w ++ [(url, opts)] in
      if nf_ok f then (Some (length (nw_conns w)),
                       {| nw_now := nw_now w; nw_conns := nw_conns w ++ [dialled url opts]; nw_tried := tried |})
      else (None, {| nw_now := nw_now w; nw_conns := nw_conns w; nw_tried := tried |})
  | Subscribe c subject h => (nf_ok f, if nf_ok f then on_conn c (subscribed (subject, h)) w else w)
  | FlushTimeout c _ => (nf_ok f, if nf_ok f then on_conn c flushed w else w)
  | CloseConn c => (tt, on_conn c closed w)
  | Now => (nw_now w, w)
  | ContextDone => (nf_ok f, w)
  | Sleep d => (tt, passed d w)
  end.

(** ** What a start does *)

Section Started.
Context `{SS : SignatureScheme} `{ES : EncryptionScheme} {K : Nkeys} {J : Jwt K} {X : X509}.
Context (s : EnrollServer).

(** What every connection verifies the broker by, and authenticates with. *)
Record verified (ca : bytes) (server : string) (creds : bytes) (opts : list nats_option) : Prop := {
  vf_name : server <> ""%string;
  vf_anchor : AppendCertsFromPEM ca <> [];
  vf_opts : exists token kp seed,
    ParseDecoratedJWT creds = Some token /\ ParseDecoratedNKey creds = Some kp /\ Seed kp = Some seed
    /\ opts = [Secure {| RootCAs := AppendCertsFromPEM ca; cfg_ServerName := server; MinVersion := VersionTLS13 |};
               TLSHandshakeFirst; UserJWTAndSeed token seed] }.

Lemma ClientOptions_exact ca server creds opts : ClientOptions ca server creds = Ok opts <-> verified ca server creds opts.
Proof.
  unfold ClientOptions, ClientTLSConfig. split.
  - intros (tls & Htls%map_err_ok_inv & (token & Ht%of_option_ok_inv & (kp & Hk%of_option_ok_inv & (seed & Hs%of_option_ok_inv &
      [= <-])%bind_ok_inv)%bind_ok_inv)%bind_ok_inv)%bind_ok_inv.
    res_inv. bool_to_prop. split; [done | | by exists token, kp, seed]. intros E. by rewrite E in *.
  - intros [Hn Ha (token & kp & seed & Ht & Hk & Hs & ->)]. rewrite bool_decide_eq_false_2 by done.
    destruct (AppendCertsFromPEM ca) eqn:E; [done|]. rewrite Ht, Hk. cbn. by rewrite Hs.
Qed.

(** The agent's connections are asked for as the server's are: there is no
    configuration with which one is not verified. *)
Lemma agent_options_exact ca n creds name url opts :
  agent_options ca n creds name = Ok (url, opts) <->
  url = an_URL n /\ exists o, verified ca (an_ServerName n) creds o /\ opts = o ++ [NatsName name; MaxReconnects (-1)].
Proof.
  unfold agent_options. setoid_rewrite <-ClientOptions_exact. split.
  - intros (o & Ho & [= <- <-])%bind_ok_inv. eauto.
  - intros (-> & o & Ho & ->). by rewrite Ho.
Qed.

(** How a connection of the server's is asked for. *)
Record proper (cred : ServiceCredential) (url : string) (opts : list nats_option) : Prop := {
  pr_url : url = es_URL s;
  pr_name : es_ServerName s <> ""%string;
  pr_anchor : AppendCertsFromPEM (es_CAPEM s) <> [];
  pr_opts : exists token kp seed name,
    ParseDecoratedJWT (sc_File cred) = Some token /\ ParseDecoratedNKey (sc_File cred) = Some kp /\ Seed kp = Some seed
    /\ opts = [Secure {| RootCAs := AppendCertsFromPEM (es_CAPEM s); cfg_ServerName := es_ServerName s; MinVersion := VersionTLS13 |};
               TLSHandshakeFirst; UserJWTAndSeed token seed; NatsName name; MaxReconnects (-1)] }.
Definition tried_properly (w : nats_world) : Prop :=
  Forall (fun x => exists cred, cred ∈ [es_Enrollment s; es_Presence s] /\ proper cred x.1 x.2) (nw_tried w).

Lemma ClientOptions_ok cred name opts :
  ClientOptions (es_CAPEM s) (es_ServerName s) (sc_File cred) = Ok opts ->
  proper cred (es_URL s) (opts ++ [NatsName name; MaxReconnects (-1)]).
Proof.
  intros [Hn Ha (token & kp & seed & Ht & Hk & Hs & ->)]%ClientOptions_exact. split; [done..|]. by exists token, kp, seed, name.
Qed.

Lemma dial_wpc cred n url opts deadline w :
  cred ∈ [es_Enrollment s; es_Presence s] -> proper cred url opts -> tried_properly w ->
  wpc run_nats tried_properly (dial n url opts deadline)
    (fun r w' => match r with
                 | Ok c => c = length (nw_conns w) /\ nw_conns w' = nw_conns w ++ [dialled url opts]
                 | Err _ => nw_conns w' = nw_conns w
                 end) w.
Proof.
  intros Hin Hp. revert w. induction n as [|n IH]; intros w Hw; [done|]. cbn [dial].
  assert (Hw1 : Forall (fun x => exists cred, cred ∈ [es_Enrollment s; es_Presence s] /\ proper cred x.1 x.2) (nw_tried w ++ [(url, opts)])).
  { apply Forall_app. split; [exact Hw|]. constructor; [by exists cred | done]. }
  split; [exact Hw|]. intros f1. cbn [run_nats fst snd mbind io_bind io_then]. destruct (nf_ok f1); cbn [fst snd].
  { split; [exact Hw1|]. split; done. }
  split; [exact Hw1|]. intros f2. cbn [run_nats fst snd mbind io_bind io_then]. destruct (deadline <? _); cbn [mbind io_bind io_then].
  { split; [exact Hw1 | done]. }
  split; [exact Hw1|]. intros f3. cbn [run_nats fst snd mbind io_bind io_then]. destruct (nf_ok f3).
  { split; [exact Hw1 | done]. }
  split; [exact Hw1|]. intros f4. cbn [run_nats fst snd].
  match goal with |- wpc _ _ _ _ ?v => exact (IH v Hw1) end.
Qed.

Lemma connect_wpc cred name n w :
  cred ∈ [es_Enrollment s; es_Presence s] -> tried_properly w ->
  wpc run_nats tried_properly (connect n s cred name)
    (fun r w' => match r with
                 | Ok c => c = length (nw_conns w) /\ exists opts, proper cred (es_URL s) opts
                     /\ nw_conns w' = nw_conns w ++ [dialled (es_URL s) opts]
                 | Err _ => nw_conns w' = nw_conns w
                 end) w.
Proof.
  intros Hin Hw. unfold connect. destruct (ClientOptions _ _ _) as [opts|e] eqn:Ho; [|by split].
  split; [done|]. intros f. cbn [run_nats fst snd mbind io_bind io_then].
  apply (ClientOptions_ok cred name) in Ho as Hp.
  eapply wpc_mono; [done | | apply (dial_wpc cred n _ _ _ (passed (Z.of_N (nf_took f)) w)); [done | exact Hp | exact Hw]].
  intros [c|e] w' _; [|done]. intros [-> Hc]. split; [done|]. by exists (opts ++ [NatsName name; MaxReconnects (-1)]).
Qed.

(** What stands when starting succeeded, and when it did not. *)
Definition established (r : result start_err running) (w : nats_world) : Prop :=
  match r with
  | Err _ => Forall (fun c => nc_open c = false) (nw_conns w)
  | Ok svc => exists c1 c2, nw_conns w = [c1; c2] /\ sv_enroll svc = 0%nat /\ sv_presence svc = 1%nat
      /\ proper (es_Enrollment s) (nc_url c1) (nc_opts c1) /\ proper (es_Presence s) (nc_url c2) (nc_opts c2)
      /\ nc_open c1 = true /\ nc_open c2 = true
      /\ nc_known c1 = [(RequestSubjects, OnRequest)] /\ nc_known c2 = [(PresenceSubjects, OnPresence)]
  end.

(** A call on one of two connections: it changes that one, or both get closed. *)
Lemma or_close_wpc {A} (svc : running) call e (k : unit -> io nats_call (result start_err A)) f1 f2 Q w c1 c2 :
  sv_enroll svc = 0%nat -> sv_presence svc = 1%nat -> nw_conns w = [c1; c2] -> tried_properly w ->
  (forall f, (run_nats _ f w call).1 = true -> nw_conns (run_nats _ f w call).2 = [f1 c1; f2 c2]) ->
  (forall f, (run_nats _ f w call).1 = false -> nw_conns (run_nats _ f w call).2 = [c1; c2]) ->
  (forall f, nw_tried (run_nats _ f w call).2 = nw_tried w) ->
  (forall w', nw_conns w' = [f1 c1; f2 c2] -> tried_properly w' -> wpc run_nats tried_properly (k tt) Q w') ->
  (forall w', nw_conns w' = [closed c1; closed c2] -> Q (Err e) w') ->
  wpc run_nats tried_properly (call? or_close svc call e; k tt) Q w.
Proof.
  intros H1 H2 Hc Hw Hok Hno Ht Hk HQ. split; [done|]. intros f. specialize (Hok f). specialize (Hno f). specialize (Ht f).
  destruct (run_nats _ f w call) as [b w1]. cbn [fst snd] in *.
  assert (Hw1 : tried_properly w1) by (unfold tried_properly; by rewrite Ht).
  cbn [mbind io_bind io_then]. destruct b; [by apply Hk; [apply Hok|]|].
  specialize (Hno eq_refl). unfold Close. cbn. rewrite H1, H2.
  split; [done|]. intros f3. split; [done|]. intros f4. split; [done|]. apply HQ. cbn. by rewrite Hno.
Qed.
Lemma Start_wpc n hold w :
  nw_conns w = [] -> tried_properly w ->
  wpc run_nats tried_properly (Start n s hold) established w.
Proof.
  intros Hc Hw. unfold Start. apply wpc_try.
  eapply wpc_mono; [done | | apply connect_wpc; [by left | done]]. intros [e1|e] w1 _ H1 Ht1; cbn beta iota in H1; rewrite Hc in H1.
  2: { cbn. rewrite H1. constructor. }
  destruct H1 as (-> & o1 & Hp1 & H1). cbn [app length] in *.
  apply wpc_then. eapply wpc_mono; [done | | apply connect_wpc; [by right; left | done]]. intros [e2|e] w2 _ H2 Ht2; cbn beta iota in H2; rewrite H1 in H2.
  2: { split; [done|]. intros f. split; [done|]. cbn. rewrite H2. cbn. by repeat constructor. }
  destruct H2 as (-> & o2 & Hp2 & H2). cbn [app length] in *.
  set (svc := {| sv_enroll := 0; sv_presence := 1; sv_hold := hold |}).
  set (c1 := dialled (es_URL s) o1). set (c2 := dialled (es_URL s) o2) in *.
  assert (Hclosed : forall (c1 c2 : nats_conn) e w, nw_conns w = [closed c1; closed c2] -> established (Err e) w).
  { intros c1' c2' e w' H. cbn. rewrite H. by repeat constructor. }
  apply (or_close_wpc svc _ _ (fun _ => _) (subscribed (RequestSubjects, OnRequest)) id _ _ c1 c2); try done; try (intros f; cbn; by destruct (nf_ok f); cbn; rewrite ?H2); [|by apply Hclosed].
  intros w3 H3 Ht3.
  apply (or_close_wpc svc _ _ (fun _ => _) id (subscribed (PresenceSubjects, OnPresence)) _ _ (subscribed (RequestSubjects, OnRequest) c1) (id c2));
    try done; try (intros f; cbn; by destruct (nf_ok f); cbn; rewrite ?H3); [|by apply Hclosed].
  intros w4 H4 Ht4.
  apply (or_close_wpc svc _ _ (fun _ => _) flushed id _ _ (subscribed (RequestSubjects, OnRequest) c1) (subscribed (PresenceSubjects, OnPresence) c2));
    try done; try (intros f; cbn; by destruct (nf_ok f); cbn; rewrite ?H4); [|by apply Hclosed].
  intros w5 H5 Ht5.
  apply (or_close_wpc svc _ _ (fun _ => _) id flushed _ _ (flushed (subscribed (RequestSubjects, OnRequest) c1)) (subscribed (PresenceSubjects, OnPresence) c2));
    try done; try (intros f; cbn; by destruct (nf_ok f); cbn; rewrite ?H5); [|by apply Hclosed].
  intros w6 H6 Ht6. split; [done|]. cbn. eexists _, _. split; [exact H6|]. by repeat (split; [done|]).
Qed.

(** C14. Starting the service, stopped anywhere: whatever connection was ever
    tried, was tried at the configured address with the broker verified against
    the configured CA and name at TLS 1.3, TLS first, as one of the two service
    credentials.  When [Start] returns nil the service has exactly its two
    connections, each the right principal's, and the broker knows of the one
    subscription of each; when it returns an error every connection it made is
    closed again. *)
Theorem Start_connections n hold w w' p :
  nw_conns w = [] -> nw_tried w = [] -> exec run_nats w (Start n s hold) w' p ->
  tried_properly w' /\ forall r, p = Return r -> established r w'.
Proof.
  intros Hc Ht He. assert (H0 : tried_properly w) by (unfold tried_properly; rewrite Ht; constructor).
  pose proof (wpc_exec _ _ _ _ _ _ _ He (Start_wpc n hold w Hc H0)) as Hw.
  split; [by apply wpc_now in Hw|]. intros r ->. by destruct Hw.
Qed.

(** ** Starting ends *)

(** An attempt is over by the deadline, or leaves half a second less of it. *)
Lemma dial_returns n url opts deadline w :
  deadline < nw_now w + Z.of_nat n * (500 * Millisecond) ->
  returns run_nats (dial (S n) url opts deadline) (fun _ _ => True) w.
Proof.
  revert w. induction n as [|n IH]; intros w Hn; cbn [dial returns perform mbind io_bind io_then];
    intros f1; cbn [run_nats fst snd]; (destruct (nf_ok f1); [done|]); cbn [returns];
    intros f2; cbn [run_nats fst snd passed nw_now]; destruct (Z.ltb_spec deadline (nw_now w + Z.of_N (nf_took f1) + Z.of_N (nf_took f2)));
    try done; [lia|].
  cbn [mbind io_bind io_then perform returns]. intros f3. cbn [run_nats fst snd]. destruct (nf_ok f3); [done|]. intros f4.
  apply IH. cbn [run_nats fst snd passed nw_now]. lia.
Qed.

Lemma connect_returns n cred name w :
  ConnectTimeout < Z.of_nat n * (500 * Millisecond) ->
  returns run_nats (connect (S n) s cred name) (fun _ _ => True) w.
Proof.
  intros Hn. unfold connect. destruct (ClientOptions _ _ _); [|done]. intros f. cbn [run_nats fst snd].
  apply dial_returns. unfold t_add. cbn [passed nw_now]. lia.
Qed.

Lemma or_close_returns svc call e w : returns run_nats (or_close svc call e) (fun _ _ => True) w.
Proof. intros f. cbn. destruct (run_nats _ f w call) as [[] w1]; cbn; [done|]. by intros f1 f2. Qed.

Lemma returns_try {E A B} (p : io nats_call (result E A)) (k : A -> io nats_call (result E B)) w :
  returns run_nats p (fun _ _ => True) w -> (forall a w', returns run_nats (k a) (fun _ _ => True) w') ->
  returns run_nats (io_try p k) (fun _ _ => True) w.
Proof. intros Hp Hk. apply returns_then. eapply returns_mono; [|exact Hp]. intros [a|e] w' _; [apply Hk | done]. Qed.

(** C39. Starting ends: with the broker away or refusing for ever, each of the two
    connections is given up after at most 32 attempts, for a quarter of a minute
    of half-second pauses fits no more of them; so against any endless sequence
    of answers and delays [Start] has returned after finitely many calls. *)
Theorem Start_ends n hold w (fates : nat -> nats_fate) :
  (32 <= n)%nat -> exists k r w', play run_nats (map fates (seq 0 k)) w (Start n s hold) = (w', Return r).
Proof.
  intros Hn. assert (returns run_nats (Start n s hold) (fun _ _ => True) w) as Hr.
  { destruct n as [|n]; [lia|]. assert (ConnectTimeout < Z.of_nat n * (500 * Millisecond)) as Hd.
    { assert (31 * (500 * Millisecond) <= Z.of_nat n * (500 * Millisecond)) by (apply Z.mul_le_mono_nonneg_r; [by vm_compute | lia]).
      assert (ConnectTimeout < 31 * (500 * Millisecond)) by by vm_compute. lia. }
    unfold Start. apply returns_try; [by apply connect_returns|]. intros c1 w1. apply returns_then.
    eapply returns_mono; [|by apply connect_returns]. intros [c2|e] w2 _; [|by intros f].
    do 4 (apply returns_try; [apply or_close_returns|]; intros [] ?). done. }
  destruct (returns_stream run_nats _ _ _ fates Hr) as (k & r & w' & Hp & _). by exists k, r, w'.
Qed.
End Started.

(** ** The demonstration server's service, started *)

Definition nats_idle : nats_world := {| nw_now := 0; nw_conns := []; nw_tried := [] |}.
Definition away : nats_fate := {| nf_ok := false; nf_took := 0 |}.
Definition there : nats_fate := {| nf_ok := true; nf_took := 1000 |}.
(** The broker comes up at the second attempt. *)
Definition broker_late : list nats_fate := [there; away; there; away; there] ++ replicate 10 there.

Abbreviation demo_service s := (play run_nats broker_late nats_idle
  (Start (SS := ToySignature) (ES := ToyEncryption) (J := ToyJwt) (X := ToyX509) 32 s 0)).
Definition started_service {C} (p : io C (result start_err running)) : bool :=
  match p with Return (Ok _) => true | _ => false end.
Lemma started_service_spec {C} (p : io C (result start_err running)) : started_service p = true -> exists svc, p = Return (Ok svc).
Proof. destruct p as [[svc|]| |]; try done. by exists svc. Qed.

Lemma demo_service_starts :
  (match demo_generate with
   | Ok d => match demo_open d with Some (Ok s, _) => started_service (demo_service s).2 | _ => false end
   | Err _ => false end) = true.
Proof. vm_cast_no_check (@eq_refl bool true). Qed.

Lemma Start_connections_witness : exists d s w' c1 c2, demo_generate = Ok d /\ demo_open d = Some (Ok s, w')
  /\ nw_conns (demo_service s).1 = [c1; c2]
  /\ nc_known c1 = [(RequestSubjects, OnRequest)] /\ nc_known c2 = [(PresenceSubjects, OnPresence)].
Proof.
  pose proof demo_service_starts as Hok. destruct demo_generate as [d|e] eqn:E; [|discriminate Hok].
  destruct (demo_open d) as [[[s|e] w']|] eqn:Eo; [|discriminate Hok..].
  apply started_service_spec in Hok as [svc Hp].
  destruct (Start_connections (SS := ToySignature) (ES := ToyEncryption) (J := ToyJwt) (X := ToyX509) s 32 0 nats_idle
    _ _ eq_refl eq_refl (play_exec run_nats broker_late nats_idle (Start 32 s 0))) as [_ H].
  destruct (H _ Hp) as (c1 & c2 & Hc & _ & _ & _ & _ & _ & _ & H1 & H2).
  exists d, s, w', c1, c2. exact (conj eq_refl (conj Eo (conj Hc (conj H1 H2)))).
Defined.

Lemma Start_ends_witness : exists d s w', demo_generate = Ok d /\ demo_open d = Some (Ok s, w')
  /\ exists k r w, play run_nats (map (fun _ => away) (seq 0 k)) nats_idle
       (Start (SS := ToySignature) (ES := ToyEncryption) (J := ToyJwt) (X := ToyX509) 32 s 0) = (w, Return r).
Proof.
  pose proof demo_opened as Hok. destruct demo_generate as [d|e] eqn:E; [|discriminate Hok].
  destruct (demo_open d) as [[[s|e] w']|] eqn:Eo; [|discriminate Hok..].
  exists d, s, w'. refine (conj eq_refl (conj Eo _)).
  exact (Start_ends (SS := ToySignature) (ES := ToyEncryption) (J := ToyJwt) (X := ToyX509) s 32 0 nats_idle (fun _ => away) (le_n 32)).
Defined.
