(* ===== verification/Startup.v ===== *)
(** * Starting the server

    Models [run] of [cmd/keystone-server/main.go]: what must have happened, in
    which order, before the operator socket exists, and what is given back when
    the server stops. *)
From S2P Require Import Prelude GoBytes GoTime Primitives Toy Nats Mint Config ConfigText ServerConfig Issue Tls Deploy Service Effects DeployFiles.
From S2P Require Import Files Create Commands Listen ServerOpen.

Definition ActionFaultPrefix : string := "fault.enabled:".

Section Main.
Context `{SS : SignatureScheme} `{ES : EncryptionScheme} {K : Nkeys} {J : Jwt K} {X : X509}.

(** ** The calls *)

Inductive main_call : Type -> Type :=
  | OpenStore (path : string) : main_call bool
  | OnOpen {B : Type} (c : open_call B) : main_call B
  (** [AppendAuditRecord] of an enabled fault *)
  | AppendFault (action : string) : main_call bool
  (** [enroll.Start]: connected and subscribed *)
  | StartService (s : EnrollServer) (hold : Duration) : main_call bool
  | LookupGroup (name : string) : main_call (option string)
  | OnListen {B : Type} (c : listen_call B) : main_call B
  (** [srv.Serve], until the listener is closed or fails; whether the create
      operation was registered *)
  | Serve (create : bool) : main_call bool
  | CloseServer : main_call unit
  | CloseService : main_call unit
  | CloseStore : main_call unit.

(** [defer cleanup] *)
Definition deferring {A} (cleanup : main_call unit) (p : io main_call A) : io main_call A :=
  r ← p; _ ← perform cleanup; Return r.
Definition or_local (ok : bool) (p : io main_call Code) : io main_call Code := if ok then p else Return Local.

(** The fault points, in the order they are recorded. *)
Definition fault_keys (cfg : Server) : list (string * bool) :=
  let f := sc_Faults cfg in
  [("operator_hold_before_decision_ms"%string, 0 <? OperatorHoldBeforeDecision f);
   ("operator_hold_before_response_ms"%string, 0 <? OperatorHoldBeforeResponse f);
   (FaultHoldAfterActivation, 0 <? EnrollmentHoldAfterActivation f)].
Definition enabled_faults (cfg : Server) : list string :=
  map (fun f => ActionFaultPrefix +:+ f.1) (filter (fun f => f.2 = true) (fault_keys cfg)).

Fixpoint record_faults (faults : list (string * bool)) (p : io main_call Code) : io main_call Code :=
  match faults with
  | [] => p
  | (key, on) :: faults =>
      if negb on then record_faults faults p
      else ok ← perform (AppendFault (ActionFaultPrefix +:+ key)); or_local ok (record_faults faults p)
  end.

(** ** The server *)

Definition serve_socket (cfg : Server) (create : bool) : io main_call Code :=
  group ← perform (LookupGroup (op_AdminGroup (sc_Operator cfg)));
  match New cfg (fun _ => group) with
  | Err _ => Return Local
  | Ok gid =>
      r ← io_map (@OnListen) (Listen gid);
      match r with
      | Err _ => Return Local
      | Ok _ => deferring CloseServer (ok ← perform (Serve create); Return (if (ok : bool) then OK else Local))
      end
  end.

Definition with_store (cfg : Server) : io main_call Code :=
  enroll ← (if Enrollment cfg then r ← io_map (@OnOpen) (Open cfg); Return (Some r) else Return None);
  match enroll with
  | Some (Err _) => Return Local
  | None => record_faults (fault_keys cfg) (serve_socket cfg false)
  | Some (Ok s) =>
      record_faults (fault_keys cfg)
        (ok ← perform (StartService s (EnrollmentHoldAfterActivation (sc_Faults cfg)));
         or_local ok (deferring CloseService (serve_socket cfg true)))
  end.

(** What is printed, if anything, and the exit code. *)
Definition run (args : list string) (version : string) (env : string -> string) (stat : string -> option bool)
    (file : string -> option (bytes * bool)) : io main_call (option string * Code) :=
  match answered RoleServer (fst <$> main_parse args) version env stat with
  | Some r => Return r
  | None =>
      match Locate RoleServer env stat with
      | Err _ => Return (None, Local)
      | Ok path =>
          match LoadServer (file path) with
          | Err _ => Return (None, Local)
          | Ok cfg =>
              ok ← perform (OpenStore (StorePath cfg));
              if negb ok then Return (None, Local)
              else code ← deferring CloseStore (with_store cfg); Return (None, code)
          end
      end
  end.

(** ** What has happened *)

Inductive event :=
  | StoreOpened | FaultRecorded (action : string) | ServiceStarted (s : EnrollServer)
  | SocketBound | Served (create : bool) | ServerClosed | ServiceClosed | StoreClosed.

Record main_world := { mw_fs : fs; mw_host : host; mw_log : list event }.
Definition log_if (ok : bool) (e : event) (w : main_world) : main_world :=
  {| mw_fs := mw_fs w; mw_host := mw_host w; mw_log := if ok then mw_log w ++ [e] else mw_log w |}.
Definition set_fs (s : fs) (w : main_world) : main_world := {| mw_fs := s; mw_host := mw_host w; mw_log := mw_log w |}.

Record main_fate := { ma_ok : bool; ma_group : option string; ma_open : open_fate }.

(** A listener that is closed leaves the log as its server would. *)
Definition listen_events {B} (c : listen_call B) : B -> list event :=
  match c in listen_call B return B -> list event with
  | ListenUnix => fun ok => if ok then [SocketBound] else []
  | CloseListener => fun _ => [ServerClosed]
  | _ => fun _ => []
  end.

Definition run_main (B : Type) (f : main_fate) (w : main_world) (c : main_call B) : B * main_world :=
  match c in main_call B return B * main_world with
  | OpenStore _ => (ma_ok f, log_if (ma_ok f) StoreOpened w)
  | OnOpen c => let '(b, s) := run_open _ (ma_open f) (mw_fs w) c in (b, set_fs s w)
  | AppendFault action => (ma_ok f, log_if (ma_ok f) (FaultRecorded action) w)
  | StartService s _ => (ma_ok f, log_if (ma_ok f) (ServiceStarted s) w)
  | LookupGroup _ => (ma_group f, w)
  | OnListen c =>
      let '(b, h) := run_host _ (ma_ok f) (mw_host w) c in
      (b, {| mw_fs := mw_fs w; mw_host := h; mw_log := mw_log w ++ listen_events c b |})
  | Serve create => (ma_ok f, log_if true (Served create) w)
  | CloseServer => (tt, log_if true ServerClosed w)
  | CloseService => (tt, log_if true ServiceClosed w)
  | CloseStore => (tt, log_if true StoreClosed w)
  end.

(** ** What every log says *)

Definition recorded (cfg : Server) (l : list event) : Prop :=
  StoreOpened ∈ l /\ forall a, a ∈ enabled_faults cfg -> FaultRecorded a ∈ l.
(** What comes before an event. *)
Definition earned (cfg : Server) (l : list event) (e : event) : Prop :=
  match e with
  | ServiceStarted s => recorded cfg l /\ Enrollment cfg = true /\ one_deployment (sc_NATS cfg) s
  | SocketBound => recorded cfg l /\ (Enrollment cfg = true -> exists s, ServiceStarted s ∈ l)
  | Served create => SocketBound ∈ l /\ create = Enrollment cfg
  | _ => True
  end.
Definition orderly (cfg : Server) (l : list event) : Prop := forall l1 e l2, l = l1 ++ e :: l2 -> earned cfg l1 e.
(** What was opened is closed. *)
Definition tidy (l : list event) : Prop :=
  (StoreOpened ∈ l -> StoreClosed ∈ l) /\ (forall s, ServiceStarted s ∈ l -> ServiceClosed ∈ l) /\ (SocketBound ∈ l -> ServerClosed ∈ l).

Lemma orderly_snoc cfg l e : orderly cfg l -> earned cfg l e -> orderly cfg (l ++ [e]).
Proof.
  intros Hl He l1 e' l2 E. destruct l2 as [|x l2 _] using rev_ind.
  - apply app_inj_tail in E as [-> ->]. exact He.
  - rewrite app_comm_cons, app_assoc in E. apply app_inj_tail in E as [E _]. by eapply Hl.
Qed.
Lemma orderly_app cfg l x : orderly cfg l -> Forall (fun e => match e with ServerClosed | ServiceClosed | StoreClosed => True | _ => False end) x -> orderly cfg (l ++ x).
Proof.
  intros Hl Hx. induction x as [|e x IH] using rev_ind; [by rewrite app_nil_r|]. apply Forall_app in Hx as [Hx He].
  rewrite app_assoc. apply orderly_snoc; [by apply IH|]. apply (proj1 (Forall_singleton _ e)) in He. by destruct e.
Qed.

Abbreviation orderly_world cfg := (fun w => orderly cfg (mw_log w)).

(** The log and nothing else matters to [orderly_world]. *)
Lemma wpc_opening cfg w :
  wpc run_main (fun w' => mw_log w' = mw_log w) (io_map (@OnOpen) (Open cfg))
    (fun r w' => mw_log w' = mw_log w /\ forall s, r = Ok s -> one_deployment (sc_NATS cfg) s) w.
Proof.
  eapply (wpc_lift run_open run_main (@OnOpen) mw_fs set_fs ma_open); [| | | | | | apply (Open_wpc cfg)].
  - intros B x v c. cbn [run_main]. by destruct (run_open B (ma_open x) (mw_fs v) c).
  - done.
  - done.
  - by intros [].
  - done.
  - intros r w' _ H. by split.
Qed.

(** A part of [Listen] that neither binds nor closes. *)
Fixpoint quiet {A} (p : io listen_call A) : Prop :=
  match p with
  | Do c k => match c with ListenUnix | CloseListener => False | _ => True end /\ forall r, quiet (k r)
  | _ => True
  end.

Lemma prepareDirectory_quiet gid : quiet (prepareDirectory gid).
Proof.
  split; [done|]. intros [|]; cbn; [|done]. split; [done|]. intros [o|]; [|done]. destruct (_ || _); [done|].
  split; [done|]. intros [|]; cbn; [|done]. by split.
Qed.
Lemma recoverStaleSocket_quiet : quiet recoverStaleSocket.
Proof.
  split; [done|]. intros [o|[]]; cbn; try done. destruct (_ || _); [done|]. split; [done|]. by intros [].
Qed.

Lemma wpc_quiet {A} cfg l (p : io listen_call A) w :
  quiet p -> orderly cfg l -> mw_log w = l ->
  wpc run_main (orderly_world cfg) (io_map (@OnListen) p) (fun _ w' => mw_log w' = l) w.
Proof.
  intros Hq Hl. revert w. induction p as [a|B c k IH|]; intros w Hw; cbn [io_map wpc]; (split; [by rewrite Hw|]); try done.
  destruct Hq as [Hc Hk]. intros f. cbn [run_main]. destruct (run_host B (ma_ok f) (mw_host w) c) as [b h]. cbn [fst snd].
  apply IH; [apply Hk|]. cbn [mw_log]. rewrite Hw. destruct c; try done; apply app_nil_r.
Qed.

(** One call: the log grows by what the call says happened. *)
Lemma wpc_log_call {B A} cfg (c : listen_call B) (k : B -> io listen_call A) Q w :
  orderly cfg (mw_log w) ->
  (forall b w', mw_log w' = mw_log w ++ listen_events c b -> wpc run_main (orderly_world cfg) (io_map (@OnListen) (k b)) Q w') ->
  wpc run_main (orderly_world cfg) (io_map (@OnListen) (perform c ≫= k)) Q w.
Proof. intros Hl Hk. split; [done|]. intros f. cbn [run_main]. destruct (run_host _ _ _ _) as [b h]. by apply Hk. Qed.

Lemma wpc_listening cfg gid w :
  orderly cfg (mw_log w) -> earned cfg (mw_log w) SocketBound ->
  wpc run_main (orderly_world cfg) (io_map (@OnListen) (Listen gid))
    (fun r w' => (r = Ok tt /\ mw_log w' = mw_log w ++ [SocketBound])
                 \/ (r <> Ok tt /\ (mw_log w' = mw_log w \/ mw_log w' = mw_log w ++ [SocketBound; ServerClosed]))) w.
Proof.
  intros Hl He. set (l := mw_log w) in *. unfold Listen. apply wpc_log_call; [done|]. intros euid w1 H1. rewrite app_nil_r in H1. fold l in H1.
  destruct (negb _); [cbn; rewrite H1; auto|].
  apply wpc_map_try. apply (wpc_mono run_main (orderly_world cfg) _ _ (fun _ w' => mw_log w' = l)); [done | | by apply (wpc_quiet cfg l); [apply prepareDirectory_quiet|..]].
  intros [[]|e] w2 _ H2 _; [|right; split; [done | by left]].
  apply wpc_map_try. apply (wpc_mono run_main (orderly_world cfg) _ _ (fun _ w' => mw_log w' = l)); [done | | by apply (wpc_quiet cfg l); [apply recoverStaleSocket_quiet|..]].
  intros [[]|e] w3 _ H3 _; [|right; split; [done | by left]].
  assert (Hb : orderly cfg (l ++ [SocketBound])) by by apply orderly_snoc.
  assert (Hbc : orderly cfg (l ++ [SocketBound; ServerClosed])) by (change [SocketBound; ServerClosed] with ([SocketBound] ++ [ServerClosed]); rewrite app_assoc; by apply orderly_snoc).
  assert (Hclose : forall w4 (e : listen_err), mw_log w4 = l ++ [SocketBound] ->
    wpc run_main (orderly_world cfg) (io_map (@OnListen) (_ ← perform CloseListener; Return (Err e)))
      (fun (r : result listen_err unit) w' => (r = Ok tt /\ mw_log w' = l ++ [SocketBound])
         \/ (r <> Ok tt /\ (mw_log w' = l \/ mw_log w' = l ++ [SocketBound; ServerClosed]))) w4).
  { intros w4 e H4. apply wpc_log_call; [by rewrite H4|]. intros [] w5 H5. rewrite H4, <- app_assoc in H5.
    split; [by rewrite H5|]. right. split; [done | by right]. }
  apply wpc_map_try. apply wpc_log_call; [by rewrite H3|]. intros b4 w4 H4. rewrite H3 in H4. destruct b4.
  2: { cbn in H4. rewrite app_nil_r in H4. split; [by rewrite H4|]. intros _. right. split; [done | by left]. }
  split; [by rewrite H4|]. intros _. apply wpc_log_call; [by rewrite H4|]. intros b5 w5 H5. cbn in H5. rewrite app_nil_r, H4 in H5.
  destruct b5; cbn [negb]; [|by apply Hclose].
  apply wpc_log_call; [by rewrite H5|]. intros b6 w6 H6. cbn in H6. rewrite app_nil_r, H5 in H6. destruct b6; cbn [negb]; [|by apply Hclose].
  split; [by rewrite H6|]. by left.
Qed.

(** ** The whole run *)

(** What a part of the run adds to the log [l]: it closes what it opened. *)
Definition adds (l : list event) (code : Code) (w : main_world) : Prop :=
  exists x, mw_log w = l ++ x /\ (SocketBound ∈ x -> ServerClosed ∈ x) /\ (forall s, ServiceStarted s ∈ x -> ServiceClosed ∈ x)
    /\ (StoreOpened ∈ x -> StoreClosed ∈ x) /\ (code = OK \/ code = Local) /\ (code = OK -> exists create, Served create ∈ x).

Lemma adds_nothing l w : mw_log w = l -> adds l Local w.
Proof. intros H. exists []. rewrite app_nil_r. split; [done|]. split; [set_solver|]. split; [intros s; set_solver|]. split; [set_solver|]. split; [by right | done]. Qed.

Lemma wpc_local cfg l w : orderly cfg l -> mw_log w = l -> wpc run_main (orderly_world cfg) (Return Local) (adds l) w.
Proof. intros Hl Hw. split; [by rewrite Hw | by apply adds_nothing]. Qed.

Lemma wpc_serve_socket cfg l w :
  orderly cfg l -> earned cfg l SocketBound -> mw_log w = l ->
  wpc run_main (orderly_world cfg) (serve_socket cfg (Enrollment cfg)) (adds l) w.
Proof.
  intros Hl He Hw. split; [by rewrite Hw|]. intros f. cbn [run_main fst snd]. cbn [io_bind io_then mbind].
  destruct (New _ _) as [gid|e]; [|by apply wpc_local].
  apply wpc_then. rewrite <- Hw in Hl, He. eapply (wpc_mono run_main (orderly_world cfg) (orderly_world cfg)); [done | | by apply (wpc_listening cfg gid w)].
  intros [[]|e] w1 H1 [[Hr Hlog]|[Hr Hlog]] _; try done.
  - rewrite Hw in Hlog. apply wpc_then. split; [done|]. intros f2. cbn [run_main fst snd io_bind io_then mbind].
    assert (Hs : orderly cfg (l ++ [SocketBound; Served (Enrollment cfg)])).
    { change [SocketBound; Served (Enrollment cfg)] with ([SocketBound] ++ [Served (Enrollment cfg)]). rewrite app_assoc.
      apply orderly_snoc; [by rewrite <- Hlog|]. split; [set_solver | done]. }
    split; [cbn; by rewrite Hlog, <- app_assoc|]. intros H2. split; [done|]. intros f3. cbn [run_main fst snd log_if mw_log].
    split; [cbn; rewrite Hlog, <- !app_assoc; cbn; change [SocketBound; Served (Enrollment cfg); ServerClosed] with ([SocketBound; Served (Enrollment cfg)] ++ [ServerClosed]); rewrite app_assoc; by apply orderly_snoc|].
    exists [SocketBound; Served (Enrollment cfg); ServerClosed]. cbn. rewrite Hlog, <- !app_assoc. split; [done|].
    split; [set_solver|]. split; [intros s; set_solver|]. split; [set_solver|].
    split; [destruct (ma_ok f2); auto|]. intros _. exists (Enrollment cfg). set_solver.
  - split; [done|]. destruct Hlog as [Hlog|Hlog]; rewrite Hw in Hlog; [by apply adds_nothing|].
    exists [SocketBound; ServerClosed]. split; [done|]. split; [set_solver|]. split; [intros s; set_solver|]. split; [set_solver|].
    split; [by right | done].
Qed.

Lemma adds_after l e code w :
  match e with FaultRecorded _ => True | _ => False end -> adds (l ++ [e]) code w -> adds l code w.
Proof.
  intros He (x & Hx & H1 & H2 & H3 & H4 & H5). exists (e :: x). rewrite Hx, <- app_assoc. split; [done|]. destruct e; try done.
  split; [set_solver|]. split; [intros s; specialize (H2 s); set_solver|]. split; [set_solver|]. split; [done|].
  intros Hc. destruct (H5 Hc) as [create Hin]. exists create. by right.
Qed.

Definition prefixed (f : string * bool) : string := ActionFaultPrefix +:+ f.1.

Lemma wpc_record cfg fs (p : io main_call Code) l w :
  orderly cfg l -> mw_log w = l ->
  (forall l' w', orderly cfg l' -> mw_log w' = l' -> (forall e, e ∈ l -> e ∈ l') ->
     (forall f, f ∈ fs -> f.2 = true -> FaultRecorded (prefixed f) ∈ l') -> wpc run_main (orderly_world cfg) p (adds l') w') ->
  wpc run_main (orderly_world cfg) (record_faults fs p) (adds l) w.
Proof.
  revert l w. induction fs as [|[key on] fs IH]; intros l w Hl Hw Hp; cbn [record_faults].
  { apply Hp; try done. by intros f ?%elem_of_nil. }
  destruct on; cbn [negb].
  - split; [by rewrite Hw|]. intros f. cbn [run_main fst snd mbind io_bind io_then]. destruct (ma_ok f); cbn [or_local log_if].
    + assert (Hl' : orderly cfg (l ++ [FaultRecorded (ActionFaultPrefix +:+ key)])) by by apply orderly_snoc.
      eapply (wpc_mono run_main (orderly_world cfg) (orderly_world cfg)); [done | |
        apply (IH (l ++ [FaultRecorded (ActionFaultPrefix +:+ key)])); [done | by rewrite <- Hw|]].
      * intros code w' _. by apply adds_after.
      * intros l' w' Ho Hw' Hsub Hrec. apply Hp; try done; [set_solver|]. intros g [->|Hg]%elem_of_cons Hon; [|by apply Hrec].
        apply Hsub, elem_of_app. right. by left.
    + apply wpc_local; [done|]. done.
  - apply IH; try done. intros l' w' Ho Hw' Hsub Hrec. apply Hp; try done. intros g [->|Hg]%elem_of_cons Hon; [done | by apply Hrec].
Qed.

Lemma enabled_in cfg a : a ∈ enabled_faults cfg -> exists f, f ∈ fault_keys cfg /\ f.2 = true /\ a = prefixed f.
Proof.
  unfold enabled_faults. intros (f & <- & Hf)%list_elem_of_In%in_map_iff. apply list_elem_of_In, list_elem_of_filter in Hf as [H1 H2].
  by exists f.
Qed.

Lemma wpc_serve_create cfg create l w :
  create = Enrollment cfg -> orderly cfg l -> earned cfg l SocketBound -> mw_log w = l ->
  wpc run_main (orderly_world cfg) (serve_socket cfg create) (adds l) w.
Proof. intros ->. apply wpc_serve_socket. Qed.

Lemma wpc_with_store cfg l w :
  orderly cfg l -> StoreOpened ∈ l -> mw_log w = l ->
  wpc run_main (orderly_world cfg) (with_store cfg) (adds l) w.
Proof.
  intros Hl Hst Hw.
  assert (Hrec : forall l', (forall e, e ∈ l -> e ∈ l') ->
    (forall f, f ∈ fault_keys cfg -> f.2 = true -> FaultRecorded (prefixed f) ∈ l') -> recorded cfg l').
  { intros l' Hsub Hf. split; [by apply Hsub|]. intros a (f & Hin & Hon & ->)%enabled_in. by apply Hf. }
  unfold with_store. destruct (Enrollment cfg) eqn:Henr.
  - apply wpc_then, wpc_then. eapply (wpc_mono run_main (fun w' => mw_log w' = mw_log w) (orderly_world cfg)); [intros w' E; cbn beta; by rewrite E, Hw | | apply wpc_opening].
    intros r w1 _ [Hlog Hr] Ho. rewrite Hw in Hlog. split; [done|]. intros _. destruct r as [s|e]; [|by apply wpc_local].
    apply wpc_record; [done | done|]. intros l' w2 Ho2 Hw2 Hsub Hf. pose proof (Hrec l' Hsub Hf) as Hready.
    split; [by rewrite Hw2|]. intros f. cbn [run_main fst snd mbind io_bind io_then]. destruct (ma_ok f); cbn [or_local log_if].
    2: { apply wpc_local; [done|]. done. }
    set (l2 := l' ++ [ServiceStarted s]).
    assert (Ho3 : orderly cfg l2) by (apply orderly_snoc; [done|]; split; [done|]; split; [done | by apply Hr]).
    apply wpc_then. eapply (wpc_mono run_main (orderly_world cfg) (orderly_world cfg)); [done | |
      apply (wpc_serve_create cfg true l2); [done | done | | cbn; by rewrite Hw2]].
    + intros code w3 _ (x & Hx & H1 & H2 & H3 & H4 & H5) Ho4.
      split; [done|]. intros f4. cbn [run_main fst snd io_bind io_then mbind].
      assert (Ho5 : orderly cfg (mw_log w3 ++ [ServiceClosed])) by by apply orderly_snoc.
      split; [done|]. exists (ServiceStarted s :: x ++ [ServiceClosed]). unfold l2 in Hx. cbn [log_if mw_log]. rewrite Hx, <- !app_assoc.
      split; [done|]. split; [set_solver|]. split; [intros s'; set_solver|]. split; [set_solver|]. split; [done|].
      intros Hc. destruct (H5 Hc) as [create Hin]. exists create. set_solver.
    + destruct Hready as [Hr1 Hr2]. split; [split; [set_solver | intros a Ha; specialize (Hr2 a Ha); set_solver]|].
      intros _. exists s. set_solver.
  - apply wpc_then. split; [by rewrite Hw|]. intros _. apply wpc_record; [done | done|]. intros l' w2 Ho2 Hw2 Hsub Hf.
    apply wpc_serve_create; [done | done | | done]. split; [by apply Hrec | by rewrite Henr].
Qed.
(** The configuration the run found, and the log it left. *)
Definition started (env : string -> string) (stat : string -> option bool) (file : string -> option (bytes * bool)) (l : list event) : Prop :=
  l = [] \/ exists path cfg, Locate RoleServer env stat = Ok path /\ LoadServer (file path) = Ok cfg /\ orderly cfg l.
Abbreviation started_world env stat file := (fun w => started env stat file (mw_log w)).

(** A return before anything has happened. *)
Ltac quits := split; [assumption|]; split; [assumption|]; split; [by auto | done].

Lemma wpc_run args version env stat file w :
  mw_log w = [] ->
  wpc run_main (started_world env stat file) (run args version env stat file)
    (fun r w' => tidy (mw_log w') /\ (r.2 = OK \/ r.2 = Local)
       /\ (r = (None, OK) -> exists create, Served create ∈ mw_log w')) w.
Proof.
  intros Hw. unfold run.
  assert (Hempty : tidy (mw_log w)) by (rewrite Hw; repeat split; set_solver).
  assert (Hs : started env stat file (mw_log w)) by by left.
  destruct (answered _ _ _ _ _) as [r|] eqn:Ha.
  { apply answered_code in Ha as [? ?]. by quits. }
  destruct (Locate RoleServer env stat) as [path|e] eqn:Hp; [|by quits].
  destruct (LoadServer (file path)) as [cfg|e] eqn:Hc; [|by quits].
  assert (HI : forall w', orderly cfg (mw_log w') -> started env stat file (mw_log w')) by (intros w' H; right; eauto).
  assert (Hnil : orderly cfg []) by (intros l1 e l2 E; by destruct l1).
  split; [done|]. intros f. cbn [run_main fst snd mbind io_bind io_then]. destruct (ma_ok f); cbn [negb log_if].
  2: by quits.
  assert (Ho : orderly cfg [StoreOpened]) by by apply (orderly_snoc cfg []).
  apply wpc_then, wpc_then. eapply (wpc_mono run_main (orderly_world cfg) (started_world env stat file)); [done | |
    apply (wpc_with_store cfg [StoreOpened]); [done | set_solver | cbn; by rewrite Hw]].
  intros code w3 Ho3 (x & Hx & H1 & H2 & H3 & H4 & H5) _. split; [by apply HI|]. intros f4. cbn [run_main fst snd mbind io_bind io_then].
  assert (Ho4 : orderly cfg (mw_log w3 ++ [StoreClosed])) by by apply orderly_snoc.
  split; [by apply HI|]. intros _. split; [by apply HI|]. cbn [log_if mw_log]. rewrite Hx.
  split; [|split; [done|]].
  - split; [set_solver|]. split; [intros s; set_solver|]. set_solver.
  - intros [= ->]. destruct (H5 eq_refl) as [create Hin]. exists create. set_solver.
Qed.

End Main.

(** ** The demonstration server, started *)

Definition demo_fate_of (content : option bytes) : main_fate :=
  {| ma_ok := true; ma_group := Some "27"%string; ma_open := {| of_content := content; of_fate := demo_fate |} |}.
(** Every call succeeds, and every file of the deployment holds what was written. *)
Definition demo_fates (t : tree) : list main_fate :=
  demo_fate_of None
  :: map (fun p => demo_fate_of (fst <$> files t !! p))
       [EnrollmentCredentials (sc_NATS demo_server); PresenceCredentials (sc_NATS demo_server);
        AccountSigningSeed (sc_NATS demo_server); nt_CAFile (sc_NATS demo_server)]
  ++ replicate 60 (demo_fate_of None).
Definition demo_stat (p : string) : option bool := Some false.
Definition demo_file (p : string) : option (bytes * bool) := Some (file_text (server_text demo_server), true).
Definition demo_world : main_world (SS := ToySignature) (ES := ToyEncryption) (K := ToyNkeys) :=
  {| mw_fs := demo_keys;
     mw_host := {| h_euid := 0; h_umask := 18; h_dir := None; h_sock := None; h_removed := [] |}; mw_log := [] |}.
Definition shape (e : event (SS := ToySignature) (ES := ToyEncryption) (K := ToyNkeys)) : string :=
  match e with
  | StoreOpened => "store" | FaultRecorded a => a | ServiceStarted _ => "service" | SocketBound => "socket"
  | Served true => "served with create" | Served false => "served" | ServerClosed => "socket closed"
  | ServiceClosed => "service closed" | StoreClosed => "store closed"
  end.
Abbreviation demo_started d := (play run_main (demo_fates (demo_run d).1) demo_world
  (run (SS := ToySignature) (ES := ToyEncryption) (J := ToyJwt) (X := ToyX509) []
     (Version_String "" None) (fun _ => ""%string) demo_stat demo_file)).
Definition demo_log : list string :=
  ["store"; "fault.enabled:operator_hold_before_response_ms"; "service"; "socket"; "served with create"; "socket closed";
   "service closed"; "store closed"]%string.
Lemma demo_starts :
  (match demo_generate with
   | Ok d => match demo_started d with (w, Return (None, OK)) => bool_decide (map shape (mw_log w) = demo_log) | _ => false end
   | Err _ => false end) = true.
Proof. vm_cast_no_check (@eq_refl bool true). Qed.

