(* ===== verification/Agent.v ===== *)
(** * The enrolling agent

    Models [internal/enrollment/agent.go], [faults.go] and [reconnect.go]: a run
    of enrollment from wherever a previous one stopped, as a program over the
    file system, the broker, the clock, the random source and the fault journal;
    and the start of an enrolled agent.  What holds, holds at every point a run
    can be cut off at, and across any number of runs. *)
From S2P Require Import Prelude GoBytes GoTime GoText GoPath Vocabulary Primitives Toy Keys Envelope Signature Encryption Headers.
From S2P Require Import Json Config Store Nats Wire Issue Service Effects Files Artifacts.

(** ** Configuration and errors *)

Definition FaultEnabled : string := "enabled".
Definition FaultReached : string := "reached".

Inductive conn_err := ErrAuthorization | ErrAuthExpired | ErrConnectionClosed | OtherConnError.

Inductive agent_err :=
  | ErrRefused
  | BadBundle
  | BadArtifact (e : artifact_err)
  | OthersCredential   (* the service returned a credential for another identity *)
  | ConnError (e : conn_err)
  | SealError | FormatError | LedgerError | JournalError | CAError.

(** ** What the agent asks of the outside *)

(** [select] over the deadline, the timer and the replies. *)
Inductive event := DeadlineOver | TimerFired | Received (data : bytes).

Section Agent.
Context `{SS : SignatureScheme} `{ES : EncryptionScheme} {K : Nkeys} {J : Jwt K} {H : Sha256}.

Inductive agent_call : Type -> Type :=
  | AFile {B} (c : fs_call B) : agent_call B
  | AKeyDraws : agent_call key_draws
  | ARandom : agent_call (bytes * entropy)
  | AClock : agent_call Time
  | AConnect (creds : bytes) (name : string) : agent_call (result conn_err unit)
  (** [ChanSubscribe], then [Flush] *)
  | ASubscribe (subject : string) : agent_call (result conn_err unit)
  | APublish (m : message) : agent_call (result conn_err unit)
  | AFlush : agent_call (result conn_err unit)
  | ASelect : agent_call event
  | AOpenLedger (path : string) : agent_call (result unit unit)
  | ARecord (event fault : string) : agent_call (result unit unit)
  (** the wait of a hold; [true] when the deadline ended it *)
  | AHold (d : Duration) : agent_call bool
  | AIsConnected : agent_call bool
  (** the next tick, or [true] when the context is done *)
  | ATick : agent_call bool.

Record agent_world := { aw_fs : fs; aw_published : list message; aw_received : list bytes }.

(** How the outside answers a call, whichever it is. *)
Record answer_from := {
  an_fate : fate; an_draws : key_draws; an_random : bytes * entropy; an_time : Time;
  an_conn : result conn_err unit; an_event : event; an_ok : bool }.

Definition put_fs (s : fs) (w : agent_world) : agent_world :=
  {| aw_fs := s; aw_published := aw_published w; aw_received := aw_received w |}.
Definition publish (m : message) (w : agent_world) : agent_world :=
  {| aw_fs := aw_fs w; aw_published := m :: aw_published w; aw_received := aw_received w |}.
Definition receive (e : event) (w : agent_world) : agent_world :=
  {| aw_fs := aw_fs w; aw_published := aw_published w;
     aw_received := match e with Received b => b :: aw_received w | _ => aw_received w end |}.

(** A publication that reports an error may have gone out all the same. *)
Definition run_agent (B : Type) (f : answer_from) (w : agent_world) (c : agent_call B) : B * agent_world :=
  match c in agent_call B return B * agent_world with
  | @AFile B c => let '(b, s) := run_fs B (an_fate f) (aw_fs w) c in (b, put_fs s w)
  | AKeyDraws => (an_draws f, w)
  | ARandom => (an_random f, w)
  | AClock => (an_time f, w)
  | AConnect _ _ => (an_conn f, w)
  | ASubscribe _ => (an_conn f, w)
  | APublish m => (an_conn f, publish m w)
  | AFlush => (an_conn f, w)
  | ASelect => (an_event f, receive (an_event f) w)
  | AOpenLedger _ => (if an_ok f then Ok tt else Err tt, w)
  | ARecord _ _ => (if an_ok f then Ok tt else Err tt, w)
  | AHold _ | AIsConnected | ATick => (an_ok f, w)
  end.

Definition on_files {A} (p : io fs_call A) : io agent_call A := io_map (@AFile) p.
Abbreviation run_io A := (io agent_call (result agent_err A)).

Definition wrap {E A} (f : E -> agent_err) (p : io agent_call (result E A)) : run_io A :=
  r ← p; Return (map_err f r).

(** The random bytes a signer reads are as many as it asks for. *)
Definition random_read (r : bytes) (n : Z) : option bytes :=
  Some (take (Z.to_nat n) (r ++ replicate (Z.to_nat n) x00)).

Definition seal_and_publish (k : SigningKey) (class sender correlation subject : string) (payload : bytes) : run_io unit :=
  t ← perform AClock;
  '(r1, r2) ← perform ARandom;
  match Seal (random_read r1) r2 k class sender correlation payload t with
  | Err _ => Return (Err SealError)
  | Ok b => wrap ConnError (perform (APublish
      {| msg_Subject := subject; msg_Data := b;
         msg_Header := [(HeaderVersion, FormatUint Version); (HeaderClass, class)] |}))
  end.

(** One signed presence: S3's proof, and an enrolled agent's sign of life. *)
Definition Presence (agent : string) (k : SigningKey) : run_io unit :=
  call? seal_and_publish k ClassPresence agent "" (PresenceSubject agent) (to_bytes "{}");
  wrap ConnError (perform AFlush).

(** ** An enrolled agent *)

Inductive enrolled_err := ErrNoIdentity | ErrCAFile.
Record Enrolled := { en_keys : AgentKeys; en_identity : IdentityArtifact }.

Definition head_fields : struct_fields string := [("agent_id"%string, set_string (fun s _ => s))].

Definition LoadEnrolled (paths : AgentPaths) (ca : option bytes) : io fs_call (result enrolled_err Enrolled) :=
  let no_identity {A} (p : io fs_call (result artifact_err A)) : io fs_call (result enrolled_err A) :=
    r ← p; Return (or_err r ErrNoIdentity) in
  raw ←? no_identity (readPrivate (IdentityPath paths));
  match json_Unmarshal raw ≫= fun v => decode_struct false head_fields v ""%string with
  | None => Return (Err ErrNoIdentity)
  | Some agent =>
      if bool_decide (agent = ""%string) then Return (Err ErrNoIdentity)
      else
        k ←? no_identity (ReadKeyArtifact (PrivateKeysPath paths) agent);
        i ←? no_identity (ReadIdentityArtifact (IdentityPath paths) k);
        Return (match ca with
                | Some _ => Ok {| en_keys := k; en_identity := i |}
                | None => Err ErrCAFile
                end)
  end.

(** [Run], [n] periods of it. *)
Fixpoint Run_loop (n : nat) (e : Enrolled) : run_io unit :=
  match n with
  | O => Looping
  | S n' =>
      connected ← perform AIsConnected;
      r ← (if connected : bool then Presence (ia_AgentID (en_identity e)) (ak_Signing (en_keys e)) else Return (Ok tt));
      match r with
      | Ok _ | Err (ConnError ErrConnectionClosed) =>
          over ← perform ATick;
          if over : bool then Return (Ok tt) else Run_loop n' e
      | Err x => Return (Err x)
      end
  end.
Definition Run (n : nat) (e : Enrolled) : run_io unit :=
  call? wrap ConnError (perform (AConnect (to_bytes (PermanentCredentials (en_identity e))) "keystone-agent"));
  Run_loop n e.

(** ** The agent *)

Record Agent := {
  a_paths : AgentPaths; a_faults : AgentFaults; a_bundle : Bundle; a_service : VerifyingKey; a_expires : Time }.

(** [NewAgent]; the certificate file's reading comes last. *)
Definition NewAgent (paths : AgentPaths) (f : AgentFaults) (bundleBytes : bytes) (ca : option bytes)
  : result agent_err Agent :=
  '(bundle, service) ← map_err (fun _ => BadBundle) (ParseBundle bundleBytes);
  token ← of_option (ParseDecoratedJWT (to_bytes (bd_BootstrapCredentials bundle))) BadBundle;
  claims ← of_option (DecodeUserClaims token) BadBundle;
  _ ← ensure (negb (Expires claims =? 0)) BadBundle;
  _ ← of_option ca CAError;
  Ok {| a_paths := paths; a_faults := f; a_bundle := bundle; a_service := service;
        a_expires := Expires claims * Second |}.

Context (a : Agent).
Definition agent_id : string := bd_AgentID (a_bundle a).
Definition token_id : string := bd_TokenID (a_bundle a).

(** *** Fault points *)

Fixpoint enabled (holds : list (string * Duration)) : run_io unit :=
  match holds with
  | [] => Return (Ok tt)
  | (key, d) :: rest =>
      if 0 <? d then call? wrap (fun _ => JournalError) (perform (ARecord FaultEnabled key)); enabled rest
      else enabled rest
  end.

Fixpoint hold_at (key : string) (holds : list (string * Duration)) : run_io unit :=
  match holds with
  | [] => Return (Ok tt)
  | (k, d) :: rest =>
      if negb (bool_decide (k = key)) || (d <=? 0) then hold_at key rest
      else
        call? wrap (fun _ => JournalError) (perform (ARecord FaultReached key));
        over ← perform (AHold d);
        if over : bool then Return (Err ErrRefused) else hold_at key rest
  end.
Definition hold (key : string) : run_io unit := hold_at key (AgentHolds (a_faults a)).

(** *** Keys and requests *)

Definition agent_keys : run_io AgentKeys :=
  k ← on_files (ReadKeyArtifact (PrivateKeysPath (a_paths a)) agent_id);
  match k with
  | Err (ArtifactFs ErrNotExist) =>
      d ← perform AKeyDraws;
      match GenerateAgentKeys d with
      | Err e => Return (Err (BadArtifact e))
      | Ok fresh => wrap BadArtifact (on_files (WriteKeyArtifact (PrivateKeysPath (a_paths a)) agent_id fresh))
      end
  | _ => Return (map_err BadArtifact k)
  end.

Definition request_of (k : AgentKeys) (kind : string) : Request :=
  {| rq_NATSPublicKey := NATSPublicKey k;
     rq_SigningPublicKey := EncodeKey (VerifyingKey_Bytes (Verifying (ak_Signing k)));
     rq_EncryptionPublicKey := EncodeKey (RecipientKey_Bytes (Recipient (Decryption k))); rq_Kind := kind |}.

Definition request (k : AgentKeys) (kind : string) : run_io unit :=
  seal_and_publish (ak_Signing k) ClassEnrollmentRequest agent_id token_id (RequestSubject token_id)
    (json_Marshal (json_of_request (request_of k kind))).

(** *** Replies *)

(** What [await] does with one message. *)
Inductive verdict := Ignored | Denied | Accepted (r : Reply).

Definition judge (data : bytes) : verdict :=
  match OpenEnvelope data ClassEnrollmentReply SenderEnrollmentService with
  | Err _ => Ignored
  | Ok e =>
      if negb (bool_decide (Envelope.CorrelationID e = token_id)) || negb (is_ok (Wire.Verify (a_service a) e))
      then Ignored
      else match strictJSON reply_fields zero_Reply (Envelope.Payload e) with
           | None => Ignored
           | Some r =>
               if bool_decide (rp_Kind r = KindDenied) then Denied
               else if negb (bool_decide (rp_AgentID r = agent_id)) then Ignored
               else Accepted r
           end
  end.

(** [n] messages at most. *)
Fixpoint await (n : nat) : run_io (option Reply) :=
  match n with
  | O => Looping
  | S n' =>
      e ← perform ASelect;
      match e with
      | DeadlineOver => Return (Err ErrRefused)
      | TimerFired => Return (Ok None)
      | Received data =>
          match judge data with
          | Ignored => await n'
          | Denied => Return (Err ErrRefused)
          | Accepted r => Return (Ok (Some r))
          end
      end
  end.

(** *** Stages *)

Definition identity_for (k : AgentKeys) (creds : bytes) : IdentityArtifact :=
  {| ia_Version := 1; ia_AgentID := agent_id; PermanentCredentials := of_bytes creds;
     AgentKeySHA256 := Digest k; ia_ServiceSigningPublicKey := bd_ServiceSigningPublicKey (a_bundle a);
     ia_ResultEncryptionPublicKey := bd_ResultEncryptionPublicKey (a_bundle a) |}.

(** S2, once the service has answered. *)
Definition take_credential (k : AgentKeys) (jwt : string) : run_io IdentityArtifact :=
  match DecodeUserClaims jwt with
  | None => Return (Err OthersCredential)
  | Some claims =>
      if negb (bool_decide (Subject claims = NATSPublicKey k)) || negb (bool_decide (uc_Name claims = agent_id))
      then Return (Err OthersCredential)
      else
        call? hold "enrollment_agent_hold_after_credential_reply_ms";
        match Seed (NATS k) with
        | None => Return (Err FormatError)
        | Some seed =>
            match FormatUserConfig jwt seed with
            | None => Return (Err FormatError)
            | Some creds =>
                let identity := identity_for k creds in
                call? wrap (fun e => BadArtifact (ArtifactFs e))
                  (on_files (WriteAtomic (IdentityPath (a_paths a)) (json_Marshal (json_of_identity identity))));
                call? wrap (fun _ => LedgerError) (perform (AOpenLedger (LedgerPath (a_paths a))));
                Return (Ok identity)
            end
        end
  end.

(** [n] requests at most, [n] messages for each. *)
Fixpoint credential (n m : nat) (k : AgentKeys) : run_io IdentityArtifact :=
  match n with
  | O => Looping
  | S n' =>
      call? request k KindCredential;
      r ←? await m;
      match r with
      | None => credential n' m k
      | Some rp => if bool_decide (rp_Kind rp = KindCredential) then take_credential k (rp_PermanentJWT rp)
                   else credential n' m k
      end
  end.

Definition is_confirmation (r : Reply) : bool :=
  bool_decide (rp_Kind r = KindConfirmation) && bool_decide (rp_Identity r = StateActive)
  && bool_decide (rp_Token r = StateSpent).

Fixpoint confirm_loop (n m : nat) (k : AgentKeys) : run_io unit :=
  match n with
  | O => Looping
  | S n' =>
      call? Presence agent_id (ak_Signing k);
      call? request k KindConfirmation;
      r ←? await m;
      match r with
      | Some rp => if is_confirmation rp then Return (Ok tt) else confirm_loop n' m k
      | None => confirm_loop n' m k
      end
  end.

Definition confirm (n m : nat) (k : AgentKeys) : run_io unit :=
  call? Presence agent_id (ak_Signing k);
  call? hold "enrollment_agent_hold_after_permanent_proof_ms";
  call? hold "enrollment_agent_hold_before_confirmation_ms";
  confirm_loop n m k.

Definition bootstrap : run_io unit :=
  c ← perform (AConnect (to_bytes (bd_BootstrapCredentials (a_bundle a))) "keystone-agent bootstrap");
  match c with
  | Err ErrAuthorization | Err ErrAuthExpired => Return (Err ErrRefused)
  | Err e => Return (Err (ConnError e))
  | Ok _ => wrap ConnError (perform (ASubscribe (ReplySubject token_id)))
  end.

(** The identity of an earlier run, or a new one. *)
Definition identity_stage (n m : nat) (k : AgentKeys) : run_io IdentityArtifact :=
  i ← on_files (ReadIdentityArtifact (IdentityPath (a_paths a)) k);
  match i with
  | Err (ArtifactFs ErrNotExist) =>
      i ←? credential n m k;
      call? hold "enrollment_agent_hold_after_identity_write_ms";
      Return (Ok i)
  | Err e => Return (Err (BadArtifact e))
  | Ok i => if bool_decide (ia_AgentID i = agent_id) then Return (Ok i) else Return (Err (BadArtifact ErrArtifact))
  end.

Definition permanent (i : IdentityArtifact) : run_io unit :=
  wrap ConnError (perform (AConnect (to_bytes (PermanentCredentials i)) "keystone-agent")).

Definition Enroll (n m : nat) : run_io unit :=
  call? enabled (AgentHolds (a_faults a));
  k ←? agent_keys;
  call? hold "enrollment_agent_hold_before_request_ms";
  call? bootstrap;
  i ←? identity_stage n m k;
  call? permanent i;
  confirm n m k.
End Agent.
