(* ===== verification/Resume.v ===== *)
(** * Enrollment cut off anywhere and run again

    The agent of [Agent] on a host that loses what is not on its disk whenever a
    run is cut off.  What its artifacts may hold at any moment ([intact]), that
    every run keeps it, and what follows: the public halves presented never
    change, and success means an identity that survives. *)
From S2P Require Import Prelude GoBytes GoTime GoText GoPath Vocabulary Primitives Toy Keys Envelope Signature Encryption Headers.
From S2P Require Import Json Config Store Nats Mint Wire Issue Service Effects Files Artifacts Agent.

(** One call of a program, its answer at hand. *)
Ltac io_step := cbn [mbind io_bind io_then io_try perform run_agent fst snd].

Section Resume.
Context `{SS : SignatureScheme} `{ES : EncryptionScheme} {K : Nkeys} {J : Jwt K} {H : Sha256}.
Context {SL : SignatureLaws SS} {EL : EncryptionLaws ES} {KL : NkeysLaws K} {JL : JwtLaws K J}.
Context (a : Agent).
Abbreviation keys_path := (PrivateKeysPath (a_paths a)).
Abbreviation identity_path := (IdentityPath (a_paths a)).

(** What [NewAgent] has checked of the bundle. *)
Record bundle_ok : Prop := {
  bo_token : token64 (token_id a) = true;
  bo_agent : agent32 (agent_id a) = true;
  bo_signing : ascii (to_bytes (bd_ServiceSigningPublicKey (a_bundle a)));
  bo_result : ascii (to_bytes (bd_ResultEncryptionPublicKey (a_bundle a))) }.

(** The two paths have nothing to do with each other. *)
Definition paths_apart : Prop := apart keys_path identity_path /\ apart identity_path keys_path.

(** *** What the agent writes *)

Definition own_keys (k : AgentKeys) (seed : bytes) : Prop :=
  Seed (NATS k) = Some seed /\ FromSeed seed = Some (NATS k) /\ IsValidPublicUserKey (NATSPublicKey k) = true.

Definition key_file (k : AgentKeys) (o : option inode) : Prop :=
  exists k0 seed, own_keys k0 seed /\ let b := key_artifact_bytes (agent_id a) seed k0 in
    k = with_digest b k0 /\ o = Some (whole b).

Definition own_identity (i : IdentityArtifact) : Prop :=
  ia_Version i = 1 /\ ascii_identity i /\ ia_AgentID i = agent_id a.
Definition identity_file (i : IdentityArtifact) (o : option inode) : Prop :=
  own_identity i /\ o = Some (whole (json_Marshal (json_of_identity i))).

(** All a crash could leave at the key path is the artifact of [k]; at the
    identity path, [i]. *)
Definition held (k : AgentKeys) (s : fs) : Prop := forall o, leaves s keys_path o -> key_file k o.
Definition identified (i : IdentityArtifact) (s : fs) : Prop := forall o, leaves s identity_path o -> identity_file i o.

Definition sealed_by (k : AgentKeys) (data : bytes) : Prop :=
  exists kind r1 r2 t, (kind = KindCredential \/ kind = KindConfirmation)
    /\ Seal (random_read r1) r2 (ak_Signing k) ClassEnrollmentRequest (agent_id a) (token_id a)
         (json_Marshal (json_of_request (request_of k kind))) t = Ok data.

(** A reply [await] hands on came in and was accepted. *)
Definition heard (rp : Reply) (w : agent_world) : Prop := exists data, data ∈ aw_received w /\ judge a data = Accepted rp.

(** The identity came by the wire: a credential reply brought it, for the keys
    the agent holds. *)
Definition came_by (i : IdentityArtifact) (w : agent_world) : Prop :=
  exists k rp claims seed creds,
    held k (aw_fs w) /\ heard rp w /\ rp_Kind rp = KindCredential
    /\ DecodeUserClaims (rp_PermanentJWT rp) = Some claims
    /\ Subject claims = NATSPublicKey k /\ uc_Name claims = agent_id a
    /\ Seed (NATS k) = Some seed /\ FormatUserConfig (rp_PermanentJWT rp) seed = Some creds
    /\ i = identity_for a k creds.

(** What a crash could leave at the identity path, with where it came from. *)
Definition own_or_none (w : agent_world) (o : option inode) : Prop :=
  o = None \/ exists i, identity_file i o /\ came_by i w.

(** The invariant: every artifact is the agent's own and whole, the identity
    came in a reply, and once a request is out the keys it presented are there
    to stay. *)
Record intact (w : agent_world) : Prop := {
  in_fs : fs_ok (aw_fs w);
  in_keys : forall o, leaves (aw_fs w) keys_path o -> o = None \/ exists k, key_file k o;
  in_identity : forall o, leaves (aw_fs w) identity_path o -> own_or_none w o;
  in_requests : forall m, m ∈ aw_published w -> msg_Subject m = RequestSubject (token_id a) ->
    exists k, held k (aw_fs w) /\ sealed_by k (msg_Data m) }.

(** What was heard stays heard, and an identity where it came from. *)
Lemma heard_later rp w w' : aw_received w ⊆ aw_received w' -> heard rp w -> heard rp w'.
Proof. intros Hsub (data & Hd & Hj). exists data. auto. Qed.

Lemma own_later w w' o :
  (forall k, held k (aw_fs w) -> held k (aw_fs w')) -> aw_received w ⊆ aw_received w' ->
  own_or_none w o -> own_or_none w' o.
Proof.
  intros Hh Hsub [->|(i & Hf & k & rp & claims & seed & creds & Hk & Hr & H')]; [by left|].
  right. exists i. split; [done|]. exists k, rp, claims, seed, creds. split; [auto|]. split; [by eapply heard_later | done].
Qed.

Lemma received_grows {A} (p : io agent_call A) w :
  wpc run_agent (fun w' => aw_received w ⊆ aw_received w') p (fun _ w' => aw_received w ⊆ aw_received w') w.
Proof.
  enough (forall w', aw_received w ⊆ aw_received w' ->
    wpc run_agent (fun w' => aw_received w ⊆ aw_received w') p (fun _ w' => aw_received w ⊆ aw_received w') w') as Hg by by apply Hg.
  induction p as [x|B c k IH|]; intros w' Hw; cbn [wpc]; (split; [done|]); [done | | done].
  intros f. apply IH. destruct c; cbn; try done; [by destruct (run_fs _ _ _ _)|].
  destruct (an_event f); cbn; try done. set_solver.
Qed.

(** What was heard before a program is heard after it. *)
Lemma still_heard {A} rp I (p : io agent_call A) Q w :
  heard rp w -> wpc run_agent I p Q w -> wpc run_agent I p (fun r w' => Q r w' /\ heard rp w') w.
Proof.
  intros Hr Hp. eapply wpc_mono; [| | exact (wpc_both _ _ _ _ _ _ _ Hp (received_grows p w))].
  - by intros w' [? _].
  - intros r w' _ [HQ Hw]. split; [done | by eapply heard_later].
Qed.

(** *** Steps that leave the files alone *)

(** [intact] with a condition on the files added. *)
Definition intact_and (R : fs -> Prop) (w : agent_world) : Prop := intact w /\ R (aw_fs w).

Section Quiet.
Context (R : fs -> Prop).

Lemma intact_receive e w : intact_and R w -> intact_and R (receive e w).
Proof.
  intros [[H1 H2 H3 H4] HR]. repeat split; try done. intros o Ho. apply (own_later w); [done | | by apply H3].
  destruct e; cbn; set_solver.
Qed.

Lemma intact_other m w : msg_Subject m <> RequestSubject (token_id a) -> intact_and R w -> intact_and R (publish m w).
Proof.
  intros Hs [[H1 H2 H3 H4] HR]. repeat split; try done. intros x [->|Hx]%elem_of_cons; [done | auto].
Qed.

Lemma intact_request k m w :
  (forall s, R s -> held k s) -> sealed_by k (msg_Data m) -> intact_and R w -> intact_and R (publish m w).
Proof.
  intros Hk Hm [[H1 H2 H3 H4] HR]. repeat split; try done. intros x [->|Hx]%elem_of_cons; [eauto | auto].
Qed.

Abbreviation stays := (wpc run_agent (intact_and R)).
Abbreviation any := (fun _ _ => True).

Lemma wpc_wrap {E A} I (f : E -> agent_err) p (Q : result agent_err A -> agent_world -> Prop) w :
  wpc run_agent I p (fun r w => Q (map_err f r) w) w -> wpc run_agent I (wrap f p) Q w.
Proof. intros Hp. apply wpc_then. eapply wpc_mono; [done | | exact Hp]. intros r w' HI HQ _. by split. Qed.

Lemma seal_and_publish_stays k class sender corr subject payload w :
  intact_and R w ->
  (forall r1 r2 t b, Seal (random_read r1) r2 k class sender corr payload t = Ok b ->
     forall w, intact_and R w -> intact_and R (publish {| msg_Subject := subject; msg_Data := b;
        msg_Header := [(HeaderVersion, FormatUint Version); (HeaderClass, class)] |} w)) ->
  stays (seal_and_publish k class sender corr subject payload) any w.
Proof.
  intros HI Hp. split; [done|]. intros f. split; [done|]. intros g. io_step.
  destruct (an_random g) as [r1 r2]. destruct (Seal (random_read r1) r2 k class sender corr payload (an_time f)) as [b|e] eqn:E; [|by split].
  apply wpc_wrap. split; [done|]. intros x. split; [|done]. by eapply Hp.
Qed.

Lemma request_stays k kind w :
  (forall s, R s -> held k s) -> kind = KindCredential \/ kind = KindConfirmation ->
  intact_and R w -> stays (request a k kind) any w.
Proof.
  intros Hk Hkind HI. apply seal_and_publish_stays; [done|]. intros r1 r2 t b Hb w' HI'.
  apply (intact_request k); try done. exists kind, r1, r2, t. auto.
Qed.

Lemma Presence_stays agent k w : intact_and R w -> stays (Presence agent k) any w.
Proof.
  intros HI. apply wpc_try. eapply wpc_mono; [done | | apply seal_and_publish_stays; [done|]].
  - intros [[]|e] w' HI' _ _; [|done]. apply wpc_wrap. split; [done|]. by intros f.
  - intros r1 r2 t b _ w' HI'. by apply intact_other.
Qed.

Lemma record_stays e fault w : intact_and R w -> stays (wrap (fun _ => JournalError) (perform (ARecord e fault))) any w.
Proof. intros HI. apply wpc_wrap. split; [done|]. by intros f. Qed.

Lemma hold_stays key w : intact_and R w -> stays (hold a key) any w.
Proof.
  unfold hold. generalize (AgentHolds (a_faults a)) as hs. intros hs. revert w.
  induction hs as [|[k d] hs IH]; intros w HI; [by split|]. cbn [hold_at]. destruct (_ || _); [by apply IH|].
  apply wpc_try. eapply wpc_mono; [done | | by apply record_stays].
  intros [[]|e] w' HI' _ _; [|done]. split; [done|]. intros f. io_step.
  destruct (an_ok f); [by split | by apply IH].
Qed.

Lemma enabled_stays hs w : intact_and R w -> stays (enabled hs) any w.
Proof.
  revert w. induction hs as [|[k d] hs IH]; intros w HI; [by split|]. cbn [enabled].
  destruct (0 <? d); [|by apply IH]. apply wpc_try. eapply wpc_mono; [done | | by apply record_stays].
  intros [[]|e] w' HI' _ _; [by apply IH | done].
Qed.

Lemma await_stays n w :
  intact_and R w -> stays (await a n) (fun r w => forall rp, r = Ok (Some rp) -> heard rp w) w.
Proof.
  revert w. induction n as [|n IH]; intros w HI; [by split|]. split; [done|]. intros f.
  io_step. pose proof (intact_receive (an_event f) w HI) as HI'.
  destruct (an_event f) as [| |data] eqn:Ev; [by split | by split |].
  destruct (judge a data) as [| |r] eqn:Ej; [by apply IH | by split |].
  split; [done|]. intros rp [= <-]. exists data. split; [cbn; by constructor | done].
Qed.

Lemma confirm_loop_stays n m k w :
  (forall s, R s -> held k s) -> intact_and R w ->
  stays (confirm_loop a n m k) (fun r w => r = Ok tt -> exists rp, heard rp w /\ is_confirmation rp = true) w.
Proof.
  intros Hk. revert w. induction n as [|n IH]; intros w HI; [by split|]. cbn [confirm_loop].
  apply wpc_try. eapply wpc_mono; [done | | by apply Presence_stays]. intros [[]|e] w1 _ _ HI1; [|done].
  apply wpc_try. eapply wpc_mono; [done | | apply request_stays; eauto]. intros [[]|e] w2 _ _ HI2; [|done].
  apply wpc_try. eapply wpc_mono; [done | | by apply await_stays]. intros [[rp|]|e] w3 _ Hr HI3; [| |done].
  - destruct (is_confirmation rp) eqn:E; [|by apply IH]. split; [done|]. intros _. exists rp. eauto.
  - by apply IH.
Qed.

Lemma confirm_stays n m k w :
  (forall s, R s -> held k s) -> intact_and R w ->
  stays (confirm a n m k) (fun r w => r = Ok tt -> exists rp, heard rp w /\ is_confirmation rp = true) w.
Proof.
  intros Hk HI. apply wpc_try. eapply wpc_mono; [done | | by apply Presence_stays]. intros [[]|e] w1 _ _ HI1; [|done].
  apply wpc_try. eapply wpc_mono; [done | | by apply hold_stays]. intros [[]|e] w2 _ _ HI2; [|done].
  apply wpc_try. eapply wpc_mono; [done | | by apply hold_stays]. intros [[]|e] w3 _ _ HI3; [|done].
  by apply confirm_loop_stays.
Qed.

Lemma bootstrap_stays w : intact_and R w -> stays (bootstrap a) any w.
Proof.
  intros HI. split; [done|]. intros f. io_step.
  destruct (an_conn f) as [[]|[]]; try (by split).
Qed.
End Quiet.
(** *** Stages on the files *)

Context (Hbundle : bundle_ok) (Hpaths : paths_apart).

Lemma on_files_wpc {A} I (I' : agent_world -> Prop) (p : io fs_call A) Q R w :
  wpc run_fs I p Q (aw_fs w) -> (forall s, I s -> I' (put_fs s w)) ->
  (forall b s, I s -> Q b s -> R b (put_fs s w)) -> wpc run_agent I' (on_files p) R w.
Proof.
  intros Hp HI HQ. eapply (wpc_lift run_fs run_agent (@AFile _ _) aw_fs put_fs an_fate); [| | | | exact HI | exact HQ | exact Hp].
  - intros B x v c. cbn. by destruct (run_fs B (an_fate x) (aw_fs v) c).
  - done.
  - done.
  - by intros [].
Qed.

(** Reading through a parser. *)
Lemma read_parsed {B} (I : fs -> Prop) path (f : bytes -> result artifact_err B) s :
  fs_ok s -> I s ->
  wpc run_fs I (io_try (readPrivate path) (fun b => Return (f b)))
    (fun r s' => s' = s /\ (r = (b ← private_at s path; f b) \/ system_failure r)) s.
Proof.
  intros Hok HI. apply wpc_try. eapply wpc_mono; [done | | by apply readPrivate_spec].
  intros r s' _ [-> [-> | ->]] _; [|by split; [|right]].
  destruct (private_at s path) as [b|e]; [split; [done|]|]; (split; [done | by left]).
Qed.

Lemma private_at_whole s path b : at_path s path = Some (whole b) -> private_at s path = Ok b.
Proof. unfold private_at. by intros ->. Qed.
Lemma private_at_none s path : at_path s path = None -> private_at s path = Err (ArtifactFs ErrNotExist).
Proof. unfold private_at. by intros ->. Qed.

Lemma agent_ascii : ascii (to_bytes (agent_id a)).
Proof.
  pose proof (bo_agent Hbundle) as Ha. unfold agent32, hex_of_length in Ha. res_inv.
  apply ascii_forallb, forallb_forall. intros c Hc.
  match goal with HF : forallb _ _ = true |- _ =>
    rewrite forallb_forall in HF; specialize (HF c Hc); apply orb_true_iff in HF as [HF|HF] end;
  res_inv; bool_to_prop; apply Z.ltb_lt; lia.
Qed.

Lemma parse_own_keys k o b :
  key_file k o -> o = Some (whole b) -> parse_key_artifact b (agent_id a) = Ok k.
Proof.
  intros (k0 & seed & (Hs & Hf & _) & -> & ->) [= <-].
  rewrite parse_key_written by (done || apply agent_ascii). by rewrite bool_decide_eq_true_2.
Qed.

Lemma parse_own_identity i b k j :
  identity_file i (Some (whole b)) -> parse_identity b k = Ok j -> j = i /\ AgentKeySHA256 i = Digest k.
Proof.
  intros [(Hv & Ha & _) [= ->]]. unfold parse_identity.
  rewrite (strictJSON_Marshal _ _ _ i); [|apply clean_identity; [lia | done] | by vm_compute | apply decode_identity; lia].
  cbn. rewrite Hv. cbn. case_bool_decide; [|done]. by intros [= <-].
Qed.

Lemma parse_identity_err b k e : parse_identity b k = Err e -> e = ErrArtifact.
Proof.
  unfold parse_identity. destruct (strictJSON _ _ _) as [i|]; [|by intros [= <-]]. cbn.
  destruct (_ =? _); [|by intros [= <-]]. cbn. case_bool_decide; [done | by intros [= <-]].
Qed.

(** Keys that were presented are on the disk: the key path names them. *)
Lemma held_live k s : fs_ok s -> held k s -> live s !! keys_path <> None.
Proof.
  intros Hok Hk Hl. destruct (leaves_live s keys_path Hok) as (o & Ho & Hn).
  destruct (Hk o Ho) as (k0 & seed & _ & _ & ->). by discriminate (Hn Hl).
Qed.

Lemma held_digest k s : fs_ok s -> held k s -> ascii (to_bytes (Digest k)).
Proof.
  intros Hok Hk. destruct (leaves_live s keys_path Hok) as (o & Ho & _).
  destruct (Hk o Ho) as (k0 & seed & _ & -> & _). apply ascii_hex_string.
Qed.

Lemma write_key_spec path seed k s :
  fs_ok s -> Seed (NATS k) = Some seed ->
  let b := key_artifact_bytes (agent_id a) seed k in
  wpc run_fs (atomic path b s) (WriteKeyArtifact path (agent_id a) k)
    (fun r s' => forall k', r = Ok k' -> k' = with_digest b k /\ written path b s') s.
Proof.
  intros Hok Hs b. unfold WriteKeyArtifact. rewrite Hs. apply wpc_then.
  eapply wpc_mono; [done | | by apply WriteAtomic_spec].
  intros [[]|e] s' HA Hw _; (split; [exact HA|]); [|done]. intros k' [= <-]. auto.
Qed.

(** The fresh keys written, on a host that had none. *)
Lemma fresh_keys_stays w fresh seed :
  intact w -> settled (aw_fs w) identity_path -> at_path (aw_fs w) keys_path = None -> own_keys fresh seed ->
  wpc run_agent (intact_and (fun s => settled s identity_path))
    (wrap BadArtifact (on_files (WriteKeyArtifact keys_path (agent_id a) fresh)))
    (fun r w => forall k, r = Ok k -> held k (aw_fs w)) w.
Proof.
  intros [Hok Hk Hi Hr] Hsq Hn (Hseed & Hfrom & Hpub). apply wpc_wrap.
  set (b := key_artifact_bytes (agent_id a) seed fresh).
  assert (Hfile : key_file (with_digest b fresh) (Some (whole b))) by (exists fresh, seed; repeat split; done).
  assert (Hlost : forall k, ~ held k (aw_fs w)).
  { intros k Hheld. apply (held_live k _ Hok Hheld).
    unfold at_path in Hn. destruct (live (aw_fs w) !! keys_path) as [h|] eqn:El; [|done].
    destruct (at_path_live _ _ _ Hok El) as (i & Hi' & _). cbn in Hn. congruence. }
  destruct Hpaths as [Hap _].
  eapply (on_files_wpc (atomic keys_path b (aw_fs w))).
  - by apply write_key_spec.
  - intros s HA. pose proof HA as (Hok' & _ & _ & Hlv). split; [split|].
    + exact Hok'.
    + intros o [Ho| ->]%Hlv; [by apply Hk | right; by eexists].
    + intros o Ho. apply (own_later w); [by intros k0 ?%Hlost | done | by eapply Hi, apart_leaves].
    + intros m Hm E. by destruct (Hr m Hm E) as (k & ?%Hlost & _).
    + by eapply apart_settled.
  - intros r s HA Hw k Hr'. destruct r as [k'|e]; [|done]. cbn in Hr'. injection Hr' as ->.
    destruct (Hw k eq_refl) as [-> Hwr]. intros o Ho. by rewrite (written_leaves _ _ _ _ Hwr Ho).
Qed.

Lemma agent_keys_stays w :
  intact w -> settled (aw_fs w) keys_path -> settled (aw_fs w) identity_path ->
  wpc run_agent (intact_and (fun s => settled s identity_path)) (agent_keys a)
    (fun r w => forall k, r = Ok k -> held k (aw_fs w)) w.
Proof.
  intros HI Hs Hsq. pose proof HI as [Hok Hk Hi Hr]. apply wpc_then.
  eapply (on_files_wpc (fun s => s = aw_fs w)); [by apply read_parsed | by intros s ->; destruct w |].
  intros r s -> [_ Hread] HI'. unfold system_failure in Hread.
  replace (put_fs (aw_fs w) w) with w in * by (by destruct w).
  assert (Hend : forall e, wpc run_agent (intact_and (fun s => settled s identity_path))
    (Return (Err (BadArtifact e))) (fun r w => forall k, r = Ok k -> held k (aw_fs w)) w) by (by split).
  pose proof (settled_leaves_at _ _ Hok Hs) as Hl.
  destruct (Hk _ Hl) as [Hn|(k & Hkf)].
  2: { pose proof Hkf as (k0 & seed & _ & _ & Hat). rewrite (private_at_whole _ _ _ Hat), ok_bind in Hread.
       rewrite (parse_own_keys k _ _ Hkf Hat) in Hread. destruct Hread as [->| ->]; [|apply Hend].
       split; [done|]. intros k' [= <-] o Ho. by rewrite (settled_leaves _ _ _ Hok Hs Ho). }
  rewrite (private_at_none _ _ Hn), err_bind in Hread. destruct Hread as [->| ->]; [|apply Hend].
  split; [done|]. intros f. io_step. destruct (GenerateAgentKeys _) as [fresh|e] eqn:Hg; [|apply Hend].
  destruct (generated_seed _ _ Hg) as (seed & Hown). by apply (fresh_keys_stays w fresh seed).
Qed.
(** *** The identity *)

Definition bound (k : AgentKeys) (r : result agent_err IdentityArtifact) (w : agent_world) : Prop :=
  forall i, r = Ok i -> identified i (aw_fs w) /\ AgentKeySHA256 i = Digest k.

Lemma own_identity_for k creds :
  ascii creds -> ascii (to_bytes (Digest k)) -> own_identity (identity_for a k creds).
Proof.
  intros Hc Hd. split; [done|]. split; [|done]. pose proof agent_ascii. destruct Hbundle.
  repeat split; try done. cbn. by rewrite to_of_bytes.
Qed.

(** Writing the identity keeps the keys. *)
Lemma identity_write_stays k i w :
  intact_and (held k) w -> own_identity i -> came_by i w ->
  wpc run_agent (intact_and (held k))
    (on_files (WriteAtomic identity_path (json_Marshal (json_of_identity i))))
    (fun r w => r = Ok tt -> identified i (aw_fs w)) w.
Proof.
  intros [[Hok Hk Hi Hr] Hheld] Hown Hcame. destruct Hpaths as [_ Hap].
  eapply (on_files_wpc (atomic identity_path _ (aw_fs w))); [by apply WriteAtomic_spec | |].
  - intros s HA. pose proof HA as (Hok' & _ & _ & Hlv).
    assert (Hkeep : forall k', held k' (aw_fs w) -> held k' s).
    { intros k' Hk' o Ho. apply Hk'. by eapply apart_leaves. }
    split; [split|]; [done | | | | by apply Hkeep].
    + intros o Ho. apply Hk. by eapply apart_leaves.
    + intros o Ho. eapply (own_later w); [exact Hkeep | done |]. apply Hlv in Ho as [Ho| ->]; [by apply Hi|].
      right. exists i. by split; [split|].
    + intros m Hm E. destruct (Hr m Hm E) as (k' & Hk' & Hs). exists k'. auto.
  - intros r s HA Hw Hr' o Ho. split; [done|]. exact (written_leaves _ _ _ _ (Hw Hr') Ho).
Qed.

Lemma take_credential_stays k rp w :
  intact_and (held k) w -> heard rp w -> rp_Kind rp = KindCredential ->
  wpc run_agent (intact_and (held k)) (take_credential a k (rp_PermanentJWT rp)) (bound k) w.
Proof.
  intros HI Hheard Hkind. unfold take_credential. destruct (DecodeUserClaims _) as [claims|] eqn:Hcl; [|by split].
  destruct (negb _ || _) eqn:Hmine; [by split|].
  apply orb_false_iff in Hmine as [Hsub%negb_false_iff%bool_decide_eq_true Hname%negb_false_iff%bool_decide_eq_true].
  apply wpc_try. eapply wpc_mono; [done | | by apply (still_heard rp), hold_stays]. intros [[]|e] w1 _ [_ Hheard1] HI1; [|done].
  destruct (Seed (NATS k)) as [seed|] eqn:Hs; [|by split].
  destruct (FormatUserConfig _ seed) as [creds|] eqn:Hf; [|by split].
  assert (Hown : own_identity (identity_for a k creds)).
  { apply own_identity_for; [eapply format_ascii; [exact Hf | by eapply seed_ascii]|].
    destruct HI1 as [HI1 Hh]. eapply held_digest; [apply HI1 | exact Hh]. }
  assert (Hcame : came_by (identity_for a k creds) w1)
    by (exists k, rp, claims, seed, creds; repeat split; try done; apply HI1).
  apply wpc_try, wpc_wrap. eapply wpc_mono; [done | | by apply identity_write_stays].
  intros [[]|e] w2 _ Hid HI2; [|done].
  apply wpc_try, wpc_wrap. split; [done|]. intros f. split; [done|]. cbn [run_agent fst snd].
  destruct (an_ok f); [|done]. intros _. split; [done|]. intros i [= <-]. split; [by apply Hid | done].
Qed.

Lemma credential_stays n m k w :
  intact_and (held k) w -> wpc run_agent (intact_and (held k)) (credential a n m k) (bound k) w.
Proof.
  revert w. induction n as [|n IH]; intros w HI; [by split|]. cbn [credential].
  apply wpc_try. eapply wpc_mono; [done | | apply request_stays; auto]. intros [[]|e] w1 _ _ HI1; [|done].
  apply wpc_try. eapply wpc_mono; [done | | by apply await_stays]. intros [[rp|]|e] w2 _ Hheard HI2; [| |done].
  - case_bool_decide; [apply take_credential_stays; auto | by apply IH].
  - by apply IH.
Qed.

Lemma credential_for_agent k r w i :
  intact w -> bound k r w -> r = Ok i -> own_identity i.
Proof.
  intros HI Hb Hr. destruct (Hb i Hr) as [Hi _]. destruct (leaves_live (aw_fs w) identity_path) as (o & Ho & _); [apply HI|].
  by destruct (Hi o Ho).
Qed.

Lemma identity_stage_stays n m k w :
  intact_and (held k) w -> settled (aw_fs w) identity_path ->
  wpc run_agent (intact_and (held k)) (identity_stage a n m k) (bound k) w.
Proof.
  intros HI Hs. pose proof HI as [[Hok Hk Hi Hr] Hheld]. apply wpc_then.
  eapply (on_files_wpc (fun s => s = aw_fs w)); [by apply read_parsed | by intros s ->; destruct w |].
  intros r s -> [_ Hread] HI'. unfold system_failure in Hread.
  replace (put_fs (aw_fs w) w) with w in * by (by destruct w).
  pose proof (settled_leaves_at _ _ Hok Hs) as Hl. destruct (Hi _ Hl) as [Hn|(i & Hif & _)].
  - rewrite (private_at_none _ _ Hn), err_bind in Hread. destruct Hread as [->| ->]; [|by split].
    apply wpc_try. eapply wpc_mono; [done | | by apply credential_stays].
    intros [i|e] w1 _ Hb HI1; [|done].
    apply wpc_try. apply wpc_mono with (I := intact_and (fun s => held k s /\ identified i s))
      (Q := fun _ _ => True).
    + by intros w2 [? [? _]].
    + intros [[]|e] w2 HI2 _ _; [|done]. split; [by destruct HI2 as [? [? _]]|].
      intros j [= <-]. split; [by destruct HI2 as [_ [_ ?]] | by apply (Hb i)].
    + apply hold_stays. split; [apply HI1|]. split; [apply HI1 | by apply (Hb i)].
  - destruct Hif as [Hown Hat]. rewrite (private_at_whole _ _ _ Hat), ok_bind in Hread.
    destruct Hread as [->| ->]; [|by split].
    destruct (parse_identity _ k) as [j|e] eqn:Hp; [|by rewrite (parse_identity_err _ _ _ Hp)].
    destruct (parse_own_identity i _ k j (conj Hown eq_refl) Hp) as [-> Hd].
    case_bool_decide; [|by split]. split; [done|]. intros j [= <-]. split; [|done].
    intros o Ho. rewrite (settled_leaves _ _ _ Hok Hs Ho). by split.
Qed.

(** *** A whole run *)

Definition enrolled (w : agent_world) : Prop :=
  exists k i, held k (aw_fs w) /\ identified i (aw_fs w) /\ AgentKeySHA256 i = Digest k
    /\ exists rp, heard rp w /\ is_confirmation rp = true.

Lemma weaken_intact {A} R (p : io agent_call A) Q w :
  wpc run_agent (intact_and R) p Q w -> wpc run_agent intact p (fun r w => Q r w /\ R (aw_fs w)) w.
Proof. apply wpc_mono; [by intros w' [? _] | by intros r w' [? ?] ?]. Qed.

Lemma Enroll_stays n m w :
  intact w -> settled (aw_fs w) keys_path -> settled (aw_fs w) identity_path ->
  wpc run_agent intact (Enroll a n m) (fun r w => r = Ok tt -> enrolled w) w.
Proof.
  intros HI Hs Hq.
  set (R0 := fun s => settled s keys_path /\ settled s identity_path).
  apply wpc_try. eapply wpc_mono; [done | | apply (weaken_intact R0), enabled_stays; exact (conj HI (conj Hs Hq))].
  intros [[]|e] w1 _ [_ [Hs1 Hq1]] HI1; [|done].
  apply wpc_try. eapply wpc_mono; [done | | by apply weaken_intact, agent_keys_stays].
  intros [k|e] w2 _ [Hk Hq2] HI2; [|done]. specialize (Hk k eq_refl).
  set (R1 := fun s => held k s /\ settled s identity_path).
  apply wpc_try. eapply wpc_mono; [done | | apply (weaken_intact R1), hold_stays; exact (conj HI2 (conj Hk Hq2))].
  intros [[]|e] w3 _ [_ [Hk3 Hq3]] HI3; [|done].
  apply wpc_try. eapply wpc_mono; [done | | apply (weaken_intact R1), bootstrap_stays; exact (conj HI3 (conj Hk3 Hq3))].
  intros [[]|e] w4 _ [_ [Hk4 Hq4]] HI4; [|done].
  apply wpc_try. eapply wpc_mono; [done | | apply (weaken_intact (held k)), identity_stage_stays; [by split | done]].
  intros [i|e] w5 _ [Hb Hk5] HI5; [|done]. destruct (Hb i eq_refl) as [Hi5 Hd].
  set (R2 := fun s => held k s /\ identified i s).
  assert (HI5' : intact_and R2 w5) by exact (conj HI5 (conj Hk5 Hi5)).
  apply wpc_try, wpc_wrap. split; [done|]. intros f. split; [done|]. cbn [run_agent fst snd].
  destruct (an_conn f); [|done]. intros _.
  eapply wpc_mono; [done | | apply (weaken_intact R2), confirm_stays; [by intros s [? _] | done]].
  intros r w6 _ [Hr [Hk6 Hi6]] ->. exists k, i. auto.
Qed.
(** ** Any number of runs *)

(** The host after a run was cut off: what was not on the disk may be lost, and
    what was sent was sent, what was received received. *)
Record restarted (w w' : agent_world) : Prop := {
  rs_fs : crashes (aw_fs w) (aw_fs w');
  rs_published : aw_published w' = aw_published w;
  rs_received : aw_received w' = aw_received w }.

Inductive lives : agent_world -> agent_world -> Prop :=
  | lives_here w : lives w w
  | lives_run w w1 n m w2 p w3 :
      lives w w1 -> exec run_agent w1 (Enroll a n m) w2 p -> restarted w2 w3 -> lives w w3.

(** A host that has never enrolled. *)
Record fresh_host (w : agent_world) : Prop := {
  fh_fs : fs_ok (aw_fs w);
  fh_keys : settled (aw_fs w) keys_path /\ at_path (aw_fs w) keys_path = None;
  fh_identity : settled (aw_fs w) identity_path /\ at_path (aw_fs w) identity_path = None;
  fh_published : aw_published w = [] }.

Definition ready (w : agent_world) : Prop :=
  intact w /\ settled (aw_fs w) keys_path /\ settled (aw_fs w) identity_path.

Lemma fresh_ready w : fresh_host w -> ready w.
Proof.
  intros [Hok [Hk1 Hk2] [Hi1 Hi2] Hp]. split; [split|]; [done | | | | done].
  - intros o Ho. left. by rewrite <- Hk2, <- (settled_leaves _ _ _ Hok Hk1 Ho).
  - intros o Ho. left. by rewrite <- Hi2, <- (settled_leaves _ _ _ Hok Hi1 Ho).
  - rewrite Hp. by intros m ?%not_elem_of_nil.
Qed.

Lemma crash_keeps s s' p o : fs_ok s -> crashes s s' -> leaves s' p o -> leaves s p o.
Proof.
  intros Hok Hc Ho. destruct (crashed_settled s s' p Hok Hc) as [Hok' Hs'].
  rewrite (settled_leaves _ _ _ Hok' Hs' Ho). by apply crash_leaves.
Qed.

Lemma restarted_ready w w' : intact w -> restarted w w' -> ready w'.
Proof.
  intros [Hok Hk Hi Hr] [Hc Hp Hrc]. pose proof (crashed_settled _ _ keys_path Hok Hc) as [Hok' Hs].
  pose proof (crashed_settled _ _ identity_path Hok Hc) as [_ Hs'].
  pose proof (fun p o => crash_keeps _ _ p o Hok Hc) as Hkeep.
  assert (Hheld : forall k, held k (aw_fs w) -> held k (aw_fs w')) by (intros k Hh o Ho; by apply Hh, Hkeep).
  split; [|done]. split; [done | eauto | |].
  - intros o Ho. apply (own_later w); [exact Hheld | by rewrite Hrc | eauto].
  - rewrite Hp. intros m Hm E. destruct (Hr m Hm E) as (k & Hh & Hsd). exists k. auto.
Qed.

Lemma lives_ready w w' : ready w -> lives w w' -> ready w'.
Proof.
  intros Hw. induction 1 as [|w w1 n m w2 p w3 _ IH He Hr]; [done|].
  destruct (IH Hw) as (HI & Hs & Hq). eapply restarted_ready; [|exact Hr].
  eapply wpc_now, wpc_exec; [exact He | by apply Enroll_stays].
Qed.

Lemma run_intact w0 w1 n m w2 p :
  fresh_host w0 -> lives w0 w1 -> exec run_agent w1 (Enroll a n m) w2 p ->
  wpc run_agent intact p (fun r w => r = Ok tt -> enrolled w) w2.
Proof.
  intros Hf Hl He. destruct (lives_ready _ _ (fresh_ready _ Hf) Hl) as (HI & Hs & Hq).
  eapply wpc_exec; [exact He | by apply Enroll_stays].
Qed.

(** *** What the service sees of a request *)

Definition halves_of (k : AgentKeys) : requestHalves :=
  {| natsKey := NATSPublicKey k; h_signing := VerifyingKey_Bytes (Verifying (ak_Signing k));
     h_encryption := RecipientKey_Bytes (Recipient (Decryption k)); verifying := Verifying (ak_Signing k) |}.

Lemma hex_valid n s : hex_of_length n s = true -> 0 < n <= MaxIdentifier -> ValidIdentifier s = true.
Proof.
  unfold hex_of_length. intros Hh Hn. res_inv. bool_to_prop. apply ValidIdentifier_spec. split; [|split].
  - intros ->. change (slen "") with 0 in *. lia.
  - lia.
  - apply List.Forall_forall. intros c Hc.
    match goal with HF : forallb _ _ = true |- _ =>
      rewrite forallb_forall in HF; specialize (HF c Hc); cbv beta in HF end.
    unfold id_char. apply orb_true_iff in H1 as [H1|H1]; res_inv; bool_to_prop; rewrite !orb_true_iff, !andb_true_iff, !Z.leb_le; lia.
Qed.

Lemma random_read_size r n x : 0 <= n -> random_read r n = Some x -> zlen x = n.
Proof.
  unfold random_read. intros Hn [= <-]. unfold zlen. rewrite length_take, length_app, length_replicate. lia.
Qed.

Lemma sealed_presents k data :
  IsValidPublicUserKey (NATSPublicKey k) = true -> sealed_by k data -> zlen data <= MaxEnvelope ->
  exists kind, presents data (token_id a) (agent_id a) (halves_of k) kind.
Proof.
  intros Hu (kind & r1 & r2 & t & Hkind & Hs) Hz. pose proof agent_ascii as Ha.
  destruct (envelope_opens _ _ _ _ _ _ _ _ _ Hs) as (e & Ho & Hv & Hp & Hc & _ & _).
  - intros x. by apply random_read_size.
  - done.
  - right. eapply (hex_valid 64); [apply Hbundle | by vm_compute].
  - eapply (hex_valid 32); [apply Hbundle | by vm_compute].
  - done.
  - exists kind, e, (request_of k kind). split; [done|]. split; [done|]. rewrite Hp.
    split; [|split; [|split; [done | done]]].
    + apply strictJSON_Marshal; [| by vm_compute | apply decode_request].
      unfold json_of_request. cbn [rq_NATSPublicKey rq_SigningPublicKey rq_EncryptionPublicKey rq_Kind request_of].
      apply clean_members. assert (ascii (to_bytes (NATSPublicKey k))).
      { unfold NATSPublicKey. destruct (PublicKey (NATS k)) eqn:E; [by eapply public_ascii | by constructor]. }
      assert (ascii (to_bytes kind)) by (destruct Hkind as [-> | ->]; by apply ascii_forallb).
      repeat (apply clean_member; [member_names | apply clean_jstring; auto using ascii_EncodeKey|]). constructor.
    + unfold parseHalves, request_of, halves_of.
      cbn [rq_NATSPublicKey rq_SigningPublicKey rq_EncryptionPublicKey].
      rewrite Hu. cbn [ensure mbind result_bind]. unfold DecodeKey, EncodeKey.
      rewrite !b64_decode_encode_string. cbn [of_option]. rewrite !ok_bind.
      rewrite ParseVerifyingKey_Bytes by apply Verifying_ok. cbn [or_err]. rewrite !ok_bind.
      by rewrite (proj2 (ParseRecipientKey_iff _ _) eq_refl).
Qed.

(** *** A new start *)

Lemma head_of i : decode_struct false head_fields (json_of_identity i) "" = Some (ia_AgentID i).
Proof.
  unfold json_of_identity, decode_struct. rewrite set_members_skip by reflexivity.
  erewrite set_members_string by reflexivity. by rewrite !set_members_skip by reflexivity.
Qed.

Lemma agent_nonempty : agent_id a <> ""%string.
Proof. intros E. pose proof (bo_agent Hbundle) as Ha. rewrite E in Ha. by vm_compute in Ha. Qed.

Lemma read_quiet {B} (f : bytes -> result artifact_err B) s path b :
  fs_ok s -> at_path s path = Some (whole b) ->
  run_with run_fs no_fault (io_try (readPrivate path) (fun b => Return (f b))) s = Some (f b, s).
Proof.
  intros Hok Hat. pose proof (readPrivate_quiet _ path Hok) as Hr. rewrite (private_at_whole _ _ _ Hat) in Hr.
  by rewrite (run_with_try _ _ _ _ _ _ _ Hr).
Qed.

Lemma LoadEnrolled_quiet s k i ca :
  fs_ok s -> key_file k (at_path s keys_path) -> identity_file i (at_path s identity_path) ->
  AgentKeySHA256 i = Digest k ->
  run_with run_fs no_fault (LoadEnrolled (a_paths a) (Some ca)) s = Some (Ok {| en_keys := k; en_identity := i |}, s).
Proof.
  intros Hok Hk Hi Hd. pose proof Hk as (k0 & seed & _ & _ & Hkat). pose proof Hi as [(Hv & Ha & Hag) Hiat].
  pose proof (readPrivate_quiet _ identity_path Hok) as Hr. rewrite (private_at_whole _ _ _ Hiat) in Hr.
  assert (Hok' : forall B (p : io fs_call (result artifact_err B)) x,
    run_with run_fs no_fault p s = Some (Ok x, s) ->
    run_with run_fs no_fault (p ≫= fun r => Return (or_err r ErrNoIdentity)) s = Some (Ok x, s)).
  { intros B p x Hp. exact (run_with_ret _ _ _ (fun r => or_err r ErrNoIdentity) _ _ _ Hp). }
  unfold LoadEnrolled. rewrite (run_with_try _ _ _ _ _ _ _ (Hok' _ _ _ Hr)).
  rewrite json_Unmarshal_Marshal; [|apply clean_identity; [lia | done] | by vm_compute].
  cbn [mbind option_bind]. rewrite head_of, Hag, bool_decide_eq_false_2 by apply agent_nonempty.
  pose proof (read_quiet (fun b => parse_key_artifact b (agent_id a)) _ _ _ Hok Hkat) as Hrk.
  cbv beta in Hrk. rewrite (parse_own_keys k _ _ Hk Hkat) in Hrk.
  rewrite (run_with_try _ _ _ _ _ _ _ (Hok' _ _ _ Hrk)).
  pose proof (read_quiet (fun b => parse_identity b k) _ _ _ Hok Hiat) as Hri.
  cbv beta in Hri. rewrite parse_identity_written in Hri by done.
  rewrite (run_with_try _ _ _ _ _ _ _ (Hok' _ _ _ Hri)). done.
Qed.
End Resume.

(** ** The theorems *)

Section Theorems.
Context `{SS : SignatureScheme} `{ES : EncryptionScheme} {K : Nkeys} {J : Jwt K} {H : Sha256}.
Context {SL : SignatureLaws SS} {EL : EncryptionLaws ES} {KL : NkeysLaws K} {JL : JwtLaws K J}.

Lemma NewAgent_ok paths f bundleBytes ca a :
  NewAgent paths f bundleBytes ca = Ok a -> a_paths a = paths /\ bundle_ok a.
Proof.
  unfold NewAgent. intros HN. apply bind_ok_inv in HN as ([b v] & Hb & HN). res_inv.
  destruct (ParseBundle bundleBytes) as [[b' v']|] eqn:Hp; [|done]. injection Hb as -> ->.
  unfold ParseBundle in Hp. res_inv. split; [done|].
  repeat match goal with HD : DecodeKey _ = Some _ |- _ => apply DecodeKey_ascii in HD end.
  split; unfold token_id, agent_id; cbn [a_bundle]; try done.
Qed.

Lemma held_unique a k1 k2 s : bundle_ok a -> fs_ok s -> held a k1 s -> held a k2 s -> k1 = k2.
Proof.
  intros Hb Hok H1 H2. destruct (leaves_live s (PrivateKeysPath (a_paths a)) Hok) as (o & Ho & _).
  pose proof (H1 o Ho) as F1. pose proof (H2 o Ho) as F2. pose proof F1 as (k & seed & _ & _ & Eo).
  pose proof (parse_own_keys a Hb _ _ _ F1 Eo). pose proof (parse_own_keys a Hb _ _ _ F2 Eo). congruence.
Qed.

Lemma held_user a k s : fs_ok s -> held a k s -> IsValidPublicUserKey (NATSPublicKey k) = true.
Proof.
  intros Hok H1. destruct (leaves_live s (PrivateKeysPath (a_paths a)) Hok) as (o & Ho & _).
  by destruct (H1 o Ho) as (k0 & seed & (_ & _ & Hu) & -> & _).
Qed.

(** C10. The halves an agent presents never change.  On a host that never
    enrolled, however often enrollment is run, wherever each run is cut off and
    whatever the disk loses then, any two requests ever published pass the
    service's checks with one and the same three public halves. *)
Theorem same_halves_always paths f bundleBytes ca a w0 w1 n m w2 p m1 m2 :
  NewAgent paths f bundleBytes ca = Ok a -> paths_apart a -> fresh_host a w0 ->
  lives a w0 w1 -> exec run_agent w1 (Enroll a n m) w2 p ->
  m1 ∈ aw_published w2 -> msg_Subject m1 = RequestSubject (token_id a) -> zlen (msg_Data m1) <= MaxEnvelope ->
  m2 ∈ aw_published w2 -> msg_Subject m2 = RequestSubject (token_id a) -> zlen (msg_Data m2) <= MaxEnvelope ->
  exists h kind1 kind2, presents (msg_Data m1) (token_id a) (agent_id a) h kind1
    /\ presents (msg_Data m2) (token_id a) (agent_id a) h kind2.
Proof.
  intros (_ & Hb)%NewAgent_ok Hp Hf Hl He H1 S1 Z1 H2 S2 Z2.
  pose proof (wpc_now _ _ _ _ _ (run_intact a Hb Hp _ _ _ _ _ _ Hf Hl He)) as [Hok _ _ Hr].
  destruct (Hr m1 H1 S1) as (k & Hk1 & D1). destruct (Hr m2 H2 S2) as (k2 & Hk2 & D2).
  rewrite <- (held_unique a k k2 _ Hb Hok Hk1 Hk2) in D2. pose proof (held_user _ _ _ Hok Hk1) as Hu.
  destruct (sealed_presents a Hb k _ Hu D1 Z1) as [kind1 P1].
  destruct (sealed_presents a Hb k _ Hu D2 Z2) as [kind2 P2]. by exists (halves_of k), kind1, kind2.
Qed.

(** A message in which the bundle's service confirms, under its signature, that
    this token is spent and this agent's identity active. *)
Definition confirms (a : Agent) (data : bytes) : Prop :=
  exists e rp,
    OpenEnvelope data ClassEnrollmentReply SenderEnrollmentService = Ok e
    /\ Envelope.CorrelationID e = token_id a /\ Wire.Verify (a_service a) e = Ok tt
    /\ strictJSON reply_fields zero_Reply (Envelope.Payload e) = Some rp
    /\ rp_AgentID rp = agent_id a
    /\ rp_Kind rp = KindConfirmation /\ rp_Identity rp = StateActive /\ rp_Token rp = StateSpent.

(** What [judge] accepts. *)
Lemma judge_accepted a data rp :
  judge a data = Accepted rp ->
  exists e, OpenEnvelope data ClassEnrollmentReply SenderEnrollmentService = Ok e
    /\ Envelope.CorrelationID e = token_id a /\ Wire.Verify (a_service a) e = Ok tt
    /\ strictJSON reply_fields zero_Reply (Envelope.Payload e) = Some rp
    /\ rp_AgentID rp = agent_id a.
Proof.
  unfold judge. intros HJ. destruct (OpenEnvelope _ _ _) as [e|] eqn:He; [|done].
  destruct (negb _ || negb _) eqn:Hv in HJ; [done|].
  apply orb_false_iff in Hv as [Hc%negb_false_iff%bool_decide_eq_true Hv%negb_false_iff].
  destruct (Wire.Verify (a_service a) e) as [[]|] eqn:Hs; [|done].
  destruct (strictJSON _ _ _) as [r|] eqn:Hp; [|done]. case_bool_decide; [done|].
  destruct (negb _) eqn:Ha in HJ; [done|]. apply negb_false_iff, bool_decide_eq_true in Ha.
  assert (r = rp) as -> by congruence. by exists e.
Qed.

Lemma judge_confirms a data rp : judge a data = Accepted rp -> is_confirmation rp = true -> confirms a data.
Proof.
  unfold is_confirmation. rewrite !andb_true_iff, !bool_decide_eq_true. intros (e & HJ)%judge_accepted [[Hk Hi] Ht].
  exists e, rp. tauto.
Qed.

(** What the keys and the identity on the disk are read back as, after any crash. *)
Lemma enrolled_durable paths a k i w :
  bundle_ok a -> a_paths a = paths -> intact a w -> held a k (aw_fs w) -> identified a i (aw_fs w) -> AgentKeySHA256 i = Digest k ->
  forall s' pem, crashes (aw_fs w) s' ->
    run_with run_fs no_fault (LoadEnrolled paths (Some pem)) s' = Some (Ok {| en_keys := k; en_identity := i |}, s').
Proof.
  intros Hb <- [Hok _ _ _] Hk Hi Hd s' pem Hcr.
  pose proof (crashed_settled _ _ (PrivateKeysPath (a_paths a)) Hok Hcr) as [Hok' _].
  by apply (LoadEnrolled_quiet a Hb); [done | by apply Hk, crash_leaves | by apply Hi, crash_leaves |].
Qed.

Lemma enrolled_for_good paths f bundleBytes ca a w0 w1 n m w2 :
  NewAgent paths f bundleBytes ca = Ok a -> paths_apart a -> fresh_host a w0 ->
  lives a w0 w1 -> exec run_agent w1 (Enroll a n m) w2 (Return (Ok tt)) ->
  (exists data, data ∈ aw_received w2 /\ confirms a data)
  /\ exists e, ia_AgentID (en_identity e) = agent_id a
     /\ AgentKeySHA256 (en_identity e) = Digest (en_keys e)
     /\ (forall msg, msg ∈ aw_published w2 -> msg_Subject msg = RequestSubject (token_id a) ->
          sealed_by a (en_keys e) (msg_Data msg))
     /\ forall s' pem, crashes (aw_fs w2) s' ->
          run_with run_fs no_fault (LoadEnrolled paths (Some pem)) s' = Some (Ok e, s').
Proof.
  intros HN Hp Hf Hl He. destruct (NewAgent_ok _ _ _ _ _ HN) as [Hpa Hb].
  pose proof (run_intact a Hb Hp _ _ _ _ _ _ Hf Hl He) as Hw.
  pose proof (wpc_now _ _ _ _ _ Hw) as HI. pose proof HI as [Hok _ _ Hr].
  destruct Hw as [_ Henr]. destruct (Henr eq_refl) as (k & i & Hk & Hi & Hd & rp & (data & Hin & Hj) & Hc).
  split; [exists data; split; [done | by eapply judge_confirms]|]. exists {| en_keys := k; en_identity := i |}. cbn [en_keys en_identity].
  split; [|split; [done|split]].
  - destruct (leaves_live (aw_fs w2) (IdentityPath (a_paths a)) Hok) as (o & Ho & _).
    by destruct (Hi o Ho) as [(_ & _ & ?) _].
  - intros msg Hm Hs. destruct (Hr msg Hm Hs) as (k' & Hk' & D).
    by rewrite (held_unique a k k' _ Hb Hok Hk Hk').
  - by eapply enrolled_durable.
Qed.

(** Success lasts.  When a run of enrollment returns nil, a reply signed by
    the bundle's service confirmed the identity active and the token spent; and
    after any crash the enrolled agent's start finds this identity and the keys
    it was issued for, those the requests presented. *)
Theorem enrollment_lasts paths f bundleBytes ca a w0 w1 n m w2 :
  NewAgent paths f bundleBytes ca = Ok a -> paths_apart a -> fresh_host a w0 ->
  lives a w0 w1 -> exec run_agent w1 (Enroll a n m) w2 (Return (Ok tt)) ->
  (exists data, data ∈ aw_received w2 /\ confirms a data)
  /\ exists e, ia_AgentID (en_identity e) = agent_id a
     /\ AgentKeySHA256 (en_identity e) = Digest (en_keys e)
     /\ (forall msg, msg ∈ aw_published w2 -> msg_Subject msg = RequestSubject (token_id a) ->
          sealed_by a (en_keys e) (msg_Data msg))
     /\ forall s' pem, crashes (aw_fs w2) s' ->
          run_with run_fs no_fault (LoadEnrolled paths (Some pem)) s' = Some (Ok e, s').
Proof. apply enrolled_for_good. Qed.
End Theorems.


(** ** A concrete host *)

#[export] Instance toy_sha256 : Sha256 := fun b => take 32 (b ++ replicate 32 x00).

Definition demo_paths : AgentPaths :=
  {| IdentityPath := "/i/identity.json"; PrivateKeysPath := "/k/keys.json"; LedgerPath := "/l/ledger.db" |}.
Definition no_holds : AgentFaults := Build_AgentFaults "" 0 0 0 0 0.
Definition demo_bundle : Bundle := ok_or zero_Bundle sample_issue.1.
Definition demo_bundle_bytes : bytes := json_Marshal (json_of_bundle demo_bundle).

Abbreviation demo_new :=
  (@NewAgent ToySignature ToyEncryption ToyNkeys ToyJwt demo_paths no_holds demo_bundle_bytes (Some [])).
Definition idle_agent : @Agent ToySignature :=
  {| a_paths := demo_paths; a_faults := no_holds; a_bundle := demo_bundle; a_service := Verifying toy_signer; a_expires := 0 |}.
Definition demo_agent : @Agent ToySignature := ok_or idle_agent demo_new.

Lemma demo_new_ok : is_ok demo_new = true.
Proof. vm_cast_no_check (@eq_refl bool true). Qed.
Lemma demo_agent_new :
  demo_new = Ok demo_agent.
Proof. exact (ok_or_ok idle_agent demo_new demo_new_ok). Qed.

(** What the service would answer. *)
Definition service_reply (rp : Reply) : bytes :=
  ok_or [] (Seal (SS := ToySignature) zero_read x01 toy_signer ClassEnrollmentReply SenderEnrollmentService
    (token_id demo_agent) (json_Marshal (json_of_reply rp)) (1700000100 * Second)).
Definition demo_jwt : string :=
  ok_or ""%string (id_JWT <$> Mint.Agent (J := ToyJwt) 0 sample_minter
    {| ak_ID := agent_id demo_agent; ak_PublicKey := "U61" |}).

Abbreviation toy_answer := (@answer_from ToySignature ToyEncryption).
Definition answer (e : event) : toy_answer :=
  {| an_fate := Fate true "1" 0;
     an_draws := {| kd_nats := [x61]; kd_s1 := x01 : @entropy ToySignature; kd_s2 := x01 : @entropy ToySignature;
                    kd_e1 := x01 : @e_entropy ToyEncryption; kd_e2 := x01 : @e_entropy ToyEncryption |};
     an_random := ([], x01 : @entropy ToySignature); an_time := 1700000100 * Second; an_conn := Ok tt;
     an_event := e; an_ok := true |}.
Definition credential_answer : toy_answer :=
  answer (Received (service_reply (credential_reply (agent_id demo_agent) demo_jwt))).
Definition confirmation_answer : toy_answer :=
  answer (Received (service_reply (confirmation_reply (agent_id demo_agent)))).

Definition empty_host : agent_world := {| aw_fs := Fs ∅ ∅ ∅; aw_published := []; aw_received := [] |}.
Abbreviation toy_run := (@run_agent ToySignature ToyEncryption).
Abbreviation demo_enroll := (@Enroll ToySignature ToyEncryption ToyNkeys ToyJwt toy_sha256 demo_agent 3 3).

Lemma empty_host_fresh : fresh_host demo_agent empty_host.
Proof.
  assert (Hp : forall p, possible (aw_fs empty_host) p = [None]) by (intros p; unfold possible, older_at; cbn; by rewrite !lookup_empty).
  split; [| | |done].
  - intros p h. rewrite Hp. by intros ?%list_elem_of_singleton.
  - by split; [split|].
  - by split; [split|].
Qed.

Lemma demo_paths_eq : a_paths demo_agent = demo_paths.
Proof. by destruct (NewAgent_ok _ _ _ _ _ demo_agent_new). Qed.

Lemma demo_paths_apart : paths_apart demo_agent.
Proof.
  unfold paths_apart. rewrite demo_paths_eq.
  assert (Hne : forall p q suffix, take 2 (to_bytes p) = take 2 (to_bytes (Dir p)) -> (2 <= length (to_bytes (Dir p)))%nat ->
    take 2 (to_bytes p) <> take 2 (to_bytes q) -> temp_name (Dir p) ("." +:+ Base p +:+ ".*") suffix <> q).
  { intros p q suffix H1 H2 H3 <-. apply H3. unfold temp_name. by rewrite to_of_bytes, take_app_le. }
  split; (split; [by vm_compute|]); intros [suffix E]; symmetry in E; revert E; apply Hne; vm_compute; lia || done.
Qed.

Definition demo_answers : list toy_answer := replicate 20 credential_answer ++ replicate 20 confirmation_answer.
Definition demo_final : agent_world * io (@agent_call ToySignature ToyEncryption) (result agent_err unit) :=
  play toy_run demo_answers empty_host demo_enroll.
Lemma demo_final_exec : exec toy_run empty_host demo_enroll demo_final.1 demo_final.2.
Proof. exact (play_exec toy_run demo_answers empty_host demo_enroll). Qed.

Definition returned_nil {C} (p : io C (result agent_err unit)) : bool :=
  match p with Return r => is_ok r | _ => false end.
Lemma returned_nil_spec {C} (p : io C (result agent_err unit)) : returned_nil p = true -> p = Return (Ok tt).
Proof. by destruct p as [[[]|]| |]. Qed.
Lemma demo_returned : returned_nil demo_final.2 = true.
Proof. vm_cast_no_check (@eq_refl bool true). Qed.
Lemma demo_final_nil :
  exec toy_run empty_host demo_enroll demo_final.1 (Return (Ok tt)).
Proof.
  exact (eq_ind demo_final.2 (fun p => exec toy_run empty_host demo_enroll demo_final.1 p) demo_final_exec
    (Return (Ok tt)) (returned_nil_spec demo_final.2 demo_returned)).
Qed.

(** The first and the last message published are requests. *)
Definition is_request (m : message) : bool :=
  bool_decide (msg_Subject m = RequestSubject (token_id demo_agent)) && (zlen (msg_Data m) <=? MaxEnvelope).
Definition ends (f : message -> bool) (l : list message) : bool :=
  match l with [m1; _; _; m2] => f m1 && f m2 | _ => false end.
Lemma ends_spec f l :
  ends f l = true -> exists m1 m2, (m1 ∈ l /\ f m1 = true) /\ (m2 ∈ l /\ f m2 = true).
Proof.
  destruct l as [|m1 [|x [|y [|m2 [|]]]]]; try done. intros [H1 H2]%andb_true_iff.
  exists m1, m2. split; (split; [set_solver | done]).
Qed.
Lemma demo_requests_sent : ends is_request (aw_published demo_final.1) = true.
Proof. vm_cast_no_check (@eq_refl bool true). Qed.
Lemma demo_two_requests :
  exists m1 m2, (m1 ∈ aw_published demo_final.1 /\ is_request m1 = true) /\ (m2 ∈ aw_published demo_final.1 /\ is_request m2 = true).
Proof. exact (ends_spec is_request _ demo_requests_sent). Qed.

Lemma same_halves_always_witness :
  exists m1 m2 h kind1 kind2,
    presents (SS := ToySignature) (ES := ToyEncryption) (K := ToyNkeys)
      (msg_Data m1) (token_id demo_agent) (agent_id demo_agent) h kind1
    /\ presents (SS := ToySignature) (ES := ToyEncryption) (K := ToyNkeys)
      (msg_Data m2) (token_id demo_agent) (agent_id demo_agent) h kind2.
Proof.
  destruct demo_two_requests as (m1 & m2 & [H1 R1] & [H2 R2]). exists m1, m2.
  unfold is_request in R1, R2. apply andb_true_iff in R1 as [S1 Z1], R2 as [S2 Z2].
  exact (same_halves_always (SL := ToySignatureLaws) (EL := ToyEncryptionLaws) (KL := ToyNkeysLaws) (JL := ToyJwtLaws)
    demo_paths no_holds demo_bundle_bytes (Some []) demo_agent empty_host empty_host 3 3 demo_final.1 _ m1 m2 demo_agent_new demo_paths_apart empty_host_fresh
    (lives_here _ _) demo_final_nil H1 (bool_decide_eq_true_1 _ S1) (proj1 (Z.leb_le _ _) Z1)
    H2 (bool_decide_eq_true_1 _ S2) (proj1 (Z.leb_le _ _) Z2)).
Defined.

Lemma enrollment_lasts_witness :
  exists e, ia_AgentID (en_identity e) = agent_id demo_agent
    /\ forall s', crashes (aw_fs demo_final.1) s' ->
       run_with run_fs no_fault
         (LoadEnrolled (SS := ToySignature) (ES := ToyEncryption) (K := ToyNkeys) demo_paths (Some [])) s' = Some (Ok e, s').
Proof.
  destruct (enrollment_lasts (SL := ToySignatureLaws) (EL := ToyEncryptionLaws) (KL := ToyNkeysLaws) (JL := ToyJwtLaws)
    demo_paths no_holds demo_bundle_bytes (Some []) demo_agent empty_host empty_host 3 3 demo_final.1 demo_agent_new demo_paths_apart empty_host_fresh
    (lives_here _ _) demo_final_nil) as (_ & e & Hid & _ & _ & Hl).
  exists e. split; [exact Hid|]. intros s' Hc. exact (Hl s' [] Hc).
Defined.

(** *** Where the promise stops

    A run killed between the rename and the directory's sync, on a host that goes
    on running: the next run finds the key artifact, takes it as it is and sends
    its request, and a crash may still lose the keys.  [keys] makes an artifact
    durable when it writes one, not when it finds one. *)
Definition killed : agent_world * io (@agent_call ToySignature ToyEncryption) (result agent_err unit) :=
  play toy_run (replicate 8 credential_answer) empty_host demo_enroll.
Definition went_on : agent_world * io (@agent_call ToySignature ToyEncryption) (result agent_err unit) :=
  play toy_run (replicate 14 credential_answer) killed.1 demo_enroll.
Definition loses (w : agent_world) : bool :=
  existsb is_request (aw_published w) && bool_decide (None ∈ possible (aw_fs w) (PrivateKeysPath demo_paths)).

Lemma loses_spec w :
  loses w = true ->
  (exists m, m ∈ aw_published w /\ msg_Subject m = RequestSubject (token_id demo_agent))
  /\ leaves (aw_fs w) (PrivateKeysPath demo_paths) None.
Proof.
  unfold loses. intros [(m & Hin & Hm)%existsb_exists Hn]%andb_true_iff. split.
  - exists m. split; [by apply list_elem_of_In|]. unfold is_request in Hm.
    apply andb_true_iff in Hm as [Hm _]. by apply bool_decide_eq_true in Hm.
  - exists None. split; [by apply bool_decide_eq_true in Hn | done].
Qed.
Lemma went_on_loses : loses went_on.1 = true.
Proof. vm_cast_no_check (@eq_refl bool true). Qed.

Lemma keys_not_durable_after_kill :
  exists w1 p1 w2 p2, exec toy_run empty_host demo_enroll w1 p1 /\ exec toy_run w1 demo_enroll w2 p2
    /\ (exists m, m ∈ aw_published w2 /\ msg_Subject m = RequestSubject (token_id demo_agent))
    /\ leaves (aw_fs w2) (PrivateKeysPath demo_paths) None.
Proof.
  exists killed.1, killed.2, went_on.1, went_on.2.
  split; [exact (play_exec toy_run (replicate 8 credential_answer) empty_host demo_enroll)|].
  split; [exact (play_exec toy_run (replicate 14 credential_answer) killed.1 demo_enroll)|].
  exact (loses_spec went_on.1 went_on_loses).
Qed.
