(* ===== verification/Agreement.v ===== *)
(** * What the two sides agree on

    The operator's issuing ([Issue]), the service's handlers ([Service]) and the
    agent's runs ([Resume]) put together over one token.  The network delivers
    what it likes; what it cannot do is sign with the service's key.  When the
    agent's enrollment returns nil, the identity on its disk and the service's
    record are of one and the same enrollment. *)
From S2P Require Import Prelude GoBytes GoTime GoText GoPath Vocabulary Primitives Toy Framing Keys Envelope Signature Encryption Headers.
From S2P Require Import Json Config Sql Store Subjects Limits Nats Mint Wire Issue Handlers Service Effects Files Artifacts Agent Resume.

(** ** The token on record was minted here *)

(** Where a token's record comes from: it is as it was, new, or the credential
    was recorded. *)
Lemma effect_record m d d' t row :
  db_ok d -> effect m d = Ok d' -> enrollment d' !! t = Some row ->
  en_permanent_jwt row = None
  \/ (exists r0, enrollment d !! t = Some r0 /\ en_agent_id row = en_agent_id r0
      /\ en_nats_public_key row = en_nats_public_key r0 /\ en_permanent_jwt row = en_permanent_jwt r0)
  \/ (exists c a r0, m = MCredential t c a /\ enrollment d !! t = Some r0 /\ row = credential_row c r0).
Proof.
  intros Hok HE Ht. assert (Hsame : enrollment d !! t = Some row -> exists r0, enrollment d !! t = Some r0
    /\ en_agent_id row = en_agent_id r0 /\ en_nats_public_key row = en_nats_public_key r0
    /\ en_permanent_jwt row = en_permanent_jwt r0) by eauto.
  destruct m as [r|r|a|tok a|u c a|u at_ a|b].
  - cbn [effect] in HE. unfold insert_job in HE. case_match; [done|]. injection HE as <-. auto.
  - cbn [effect] in HE. destruct (jobs d !! _); [|done]. unfold insert_result in HE.
    case_match; [done|]. case_match; [|done]. injection HE as <-. auto.
  - injection HE as <-. auto.
  - cbn [effect] in HE. case_match; [done|]. apply fmap_ok_inv in HE as (d1 & Hd1 & ->).
    unfold insert_enrollment in Hd1. case_match; [|done]. injection Hd1 as <-. cbn in Ht.
    apply lookup_insert_Some in Ht as [[_ <-]|[_ Ht]]; auto.
  - cbn [effect] in HE. destruct (enrollment d !! u) as [r|] eqn:Hu; [|done].
    destruct (_ && _); [|done]. apply fmap_ok_inv in HE as (d1 & Hd1 & ->).
    case_match; [|done]. injection Hd1 as <-. cbn in Ht.
    apply lookup_insert_Some in Ht as [[<- <-]|[_ Ht]]; [|auto]. right; right. eauto 10.
  - destruct (activate_inv _ _ _ _ _ HE) as (r & j & sg & e & Hr & Hst & Hj & Hne & Hsg & He).
    rewrite (activate_effect u at_ a d r j sg e) in HE by done. injection HE as <-. cbn in Ht.
    apply lookup_insert_Some in Ht as [[<- <-]|[_ Ht]]; [|auto]. right; left. exists r. auto.
  - injection HE as <-. auto.
Qed.

Section Minted.
Context `{SS : SignatureScheme} `{ES : EncryptionScheme} {K : Nkeys} {J : Jwt K}.
Context (s : Service) (token : string).

(** A JWT on record is one the service's minter issued, for the record's key and
    agent. *)
Definition minted_row (row : enrollment_row) : Prop :=
  forall j, en_permanent_jwt row = Some j ->
  exists key stamp id, en_nats_public_key row = Some key
    /\ Mint.Agent stamp (sv_minter s) {| ak_ID := en_agent_id row; ak_PublicKey := key |} = Ok id /\ j = id_JWT id.
Definition minted (d : db) : Prop := forall row, enrollment d !! token = Some row -> minted_row row.

Definition minted_here (t : string) (c : Credential) (d : db) : Prop := t = token -> credential_minted s t c d.

Lemma minted_call {B} (c : call B) d fs r s' :
  db_ok d -> guard activation_justified minted_here B d c -> run_call c (Session d fs) = (r, s') ->
  minted d -> minted (tables s').
Proof.
  intros Hok HG HE Hm. destruct c as [u|g|m].
  - apply enrollment_call_inv in HE as [-> _]. done.
  - apply by_agent_call_inv in HE as [-> _]. done.
  - apply mutate_inv in HE as [[_ ->]|HE]; [done|].
    destruct (effect m d) as [d'|e] eqn:Eff; destruct HE as [_ ->]; [|done].
    intros row Ht j Hj. destruct (effect_record _ _ _ _ _ Hok Eff Ht) as [E|[(r0 & H0 & Ea & En & Ej)|(c & a & r0 & -> & H0 & ->)]].
    + congruence.
    + rewrite Ea, En. apply (Hm r0 H0). congruence.
    + destruct (HG eq_refl) as (row & stamp & id & Hrow & Hid & Hjwt). simplify_eq. cbn in Hj |- *.
      exists (cr_NATSPublicKey c), stamp, id. split; [done|]. split; [done|]. congruence.
Qed.

Lemma minted_pstep U {A} (Q : A -> db -> Prop) w p w' p' :
  db_ok (w_db w) -> safe U (guard activation_justified minted_here) Q p (w_db w) -> pstep w p w' p' ->
  minted (w_db w) -> minted (w_db w').
Proof.
  intros Hok Hs Hstep Hm. destruct Hstep as [w B c k fs r s' E|w k t|w g k w' E]; [|done|].
  - destruct Hs as [_ Hc]. destruct (Hc _ Hok ltac:(reflexivity)) as [HG _]. by eapply minted_call.
  - replace (w_db w') with (w_db w) by (destruct g; cbn in E; repeat case_match; naive_solver). done.
Qed.

(** Only the service records credentials for the token. *)
Definition not_recorded_elsewhere (a : arrival) : Prop :=
  match a with AOther (MCredential t _ _) => t <> token | _ => True end.

(** The service's run: the token's JWT is minted here, and what was sent
    answered a request and is justified. *)
Lemma service_minted as_ d0 w ps :
  db_ok d0 -> minted d0 -> Forall arrival_ok as_ -> Forall not_recorded_elsewhere as_ ->
  steps (World d0 0 false) (map (handler s) as_) w ps ->
  minted (w_db w) /\ db_ok (w_db w) /\ grows d0 (w_db w)
  /\ forall i t data rp, ps !! i = Some (Ret (Some (t, data, rp))) ->
       justified (fun _ => True) t data rp (w_db w) /\ ARequest t data ∈ as_.
Proof.
  intros Hok Hm Has Helse Hs.
  eapply (service_run s (fun _ => True) minted_here (fun w _ => minted (w_db w))) in Hs
    as (H1 & H2 & H3 & H4); try done.
  - split_and!; try done. intros i t data rp Hi. exact (Forall_lookup_1 _ _ _ _ H4 Hi).
  - intros w1 ps1 i p w' p' HI Hok1 Hsafe _ Hstep. by eapply minted_pstep.
  - by intros t c d Hc _.
  - eapply Forall_impl; [exact Helse|]. intros [| |[]] Hne; try exact I. by intros d E.
Qed.
End Minted.

(** ** A reply is read as it was sent *)

Section Reading.
Context `{SS : SignatureScheme} `{ES : EncryptionScheme} {K : Nkeys} {J : Jwt K}.
Context {SL : SignatureLaws SS}.

Lemma Encode_inj b e1 e2 :
  go_slice b -> Decode b MaxEnvelope = Ok e1 -> Encode e2 = Some b -> fieldValues e1 = fieldValues e2.
Proof.
  intros Hb H1 H2. assert (Hm : go_int MaxEnvelope) by by vm_compute.
  pose proof (proj1 (Decode_iff b MaxEnvelope e1 Hb Hm) H1) as (_ & HE & Hz).
  pose proof (proj2 (Split_inverts_Frame b MaxEnvelope (fieldValues e1) Hb Hm) (conj HE Hz)) as S1.
  pose proof (proj2 (Split_inverts_Frame b MaxEnvelope (fieldValues e2) Hb Hm) (conj H2 Hz)) as S2. congruence.
Qed.

Lemma clean_reply r :
  ascii (to_bytes (rp_Kind r)) -> ascii (to_bytes (rp_AgentID r)) -> ascii (to_bytes (rp_PermanentJWT r)) ->
  ascii (to_bytes (rp_Identity r)) -> ascii (to_bytes (rp_Token r)) -> clean (json_of_reply r).
Proof.
  intros. apply clean_members. do 2 (apply clean_member; [member_names | by apply clean_jstring|]).
  repeat (apply clean_omitempty; [member_names | done |]). constructor.
Qed.

(** Whoever opens a reply the service sent reads the token it was for and what it said. *)
Lemma reply_read read r ky token rp t m e :
  reply read r ky token rp t = Some m -> go_slice (msg_Data m) ->
  OpenEnvelope (msg_Data m) ClassEnrollmentReply SenderEnrollmentService = Ok e ->
  Envelope.CorrelationID e = token
  /\ (clean (json_of_reply rp) -> strictJSON reply_fields zero_Reply (Envelope.Payload e) = Some rp).
Proof.
  intros Hm Hb (Hd & _ & _)%OpenEnvelope_inv. unfold reply in Hm.
  destruct (Seal _ _ _ _ _ _ _ _) as [b|] eqn:Hs; [|done]. injection Hm as <-. cbn [msg_Data] in *.
  destruct (Seal_inv _ _ _ _ _ _ _ _ _ Hs) as (nonce & sig & _ & _ & _ & He & _).
  pose proof (Encode_inj _ _ _ Hb Hd He) as Hf.
  assert (Hc : to_bytes (Envelope.CorrelationID e) = to_bytes token) by exact (f_equal (fun fs => field fs 3) Hf).
  assert (Hp : Envelope.Payload e = json_Marshal (json_of_reply rp)) by exact (f_equal (fun fs => field fs 7) Hf).
  split; [by apply to_bytes_inj|]. intros Hcl. rewrite Hp.
  apply strictJSON_Marshal; [done | | apply decode_reply].
  unfold json_of_reply, member_omitempty. repeat case_bool_decide; by vm_compute.
Qed.

(** What a request presents is a matter of its bytes. *)
Lemma presents_fun data token agent h h' kind kind' :
  presents data token agent h kind -> presents data token agent h' kind' -> h = h'.
Proof.
  intros (e & req & He & _ & Hr & Hh & _) (e' & req' & He' & _ & Hr' & Hh' & _). congruence.
Qed.
End Reading.

(** ** The agreement *)

Section Agreement.
Context `{SS : SignatureScheme} `{ES : EncryptionScheme} {K : Nkeys} {J : Jwt K} {H : Sha256} {U : Unicode}.
Context {SL : SignatureLaws SS} {EL : EncryptionLaws ES} {KL : NkeysLaws K} {JL : JwtLaws K J}.

(** Whatever came in that verifies under the service's key is a reply one of its
    handlers sent. *)
Definition only_service_signs (ky : ServiceKeys) (ps : list (prog (option (string * bytes * Reply))))
    (received : list bytes) : Prop :=
  forall data e, data ∈ received ->
    OpenEnvelope data ClassEnrollmentReply SenderEnrollmentService = Ok e ->
    Wire.Verify (Verifying (Signing ky)) e = Ok tt ->
    exists i token req rp read r t m, ps !! i = Some (Ret (Some (token, req, rp)))
      /\ reply read r ky token rp t = Some m /\ msg_Data m = data.

(** The bundle stays with the agent: what asks for its token was published there. *)
Definition nobody_else_asks (token : string) (as_ : list arrival) (published : list message) : Prop :=
  forall data, ARequest token data ∈ as_ ->
    exists m, m ∈ published /\ msg_Subject m = RequestSubject token /\ msg_Data m = data.

(** Messages are Go slices. *)
Definition slices (w : agent_world) : Prop :=
  Forall go_slice (aw_received w) /\ Forall (fun m => go_slice (msg_Data m)) (aw_published w).

(** *** The agent's side *)

Lemma identity_read a i o : identity_file a i o ->
  strictJSON identity_fields zero_IdentityArtifact (default [] (i_data <$> o)) = Some i.
Proof.
  intros [(Hi & Ai & _) ->]. apply strictJSON_Marshal; [apply clean_identity; [lia | done] | by vm_compute | apply decode_identity; lia].
Qed.
Lemma identity_file_unique a i j o : identity_file a i o -> identity_file a j o -> i = j.
Proof. intros Hi%identity_read Hj%identity_read. congruence. Qed.

Lemma identified_came_by a i w : intact a w -> identified a i (aw_fs w) -> came_by a i w.
Proof.
  intros [Hok _ Hi _] Hid. destruct (leaves_live (aw_fs w) (IdentityPath (a_paths a)) Hok) as (o & Ho & _).
  pose proof (Hid o Ho) as Hf. destruct (Hi o Ho) as [->|(j & Hj & Hc)]; [by destruct Hf|].
  by rewrite (identity_file_unique a i j o Hf Hj).
Qed.

Lemma held_seed a k s seed : fs_ok s -> held a k s -> Seed (NATS k) = Some seed -> FromSeed seed = Some (NATS k).
Proof.
  intros Hok H1 Hs. destruct (leaves_live s (PrivateKeysPath (a_paths a)) Hok) as (o & Ho & _).
  destruct (H1 o Ho) as (k0 & seed0 & (Hs0 & Hf0 & _) & -> & _). cbn in *. congruence.
Qed.

(** *** The service's side *)

(** The record of a token that was just issued, and of one that evolved from it. *)
Lemma issued_record d d' tok a0 : effect (MIssue tok a0) d = Ok d' -> enrollment d' !! TokenID tok = Some (issued_row tok).
Proof.
  cbn [effect]. intros HE. case_match; [done|]. apply fmap_ok_inv in HE as (d1 & Hd1 & ->).
  unfold insert_enrollment in Hd1. case_match; [|done]. injection Hd1 as <-. cbn. by rewrite lookup_insert_eq.
Qed.

Lemma justified_clean s token data rp d row :
  justified (fun _ => True) token data rp d -> enrollment d !! token = Some row ->
  ascii (to_bytes (en_agent_id row)) -> minted_row s row -> clean (json_of_reply rp).
Proof.
  intros HJ Ht Ha Hm. assert (Hlit : forall l : string, forallb (fun c => byte_val c <? 128) (to_bytes l) = true -> ascii (to_bytes l))
    by (intros l; apply ascii_forallb).
  destruct HJ as [(row' & h & j & Ht' & _ & _ & Hj & ->)|[(row' & h & x & Ht' & _ & _ & _ & -> & _)|[-> _]]]; simplify_eq;
    apply clean_reply; cbn; try done; try (by apply Hlit).
  destruct (Hm j Hj) as (key & stamp & id & _ & Hid & ->). unfold Mint.Agent, validate_identifier in Hid.
  res_inv. cbn. by eapply user_ascii.
Qed.
(** *** Put together *)

(** A reply the agent accepted, as the service sent it. *)
Lemma heard_justified s a ky as_ d0 w ps w2 rp row0 :
  bundle_ok a -> a_service a = Verifying (Signing ky) -> slices w2 -> heard a rp w2 ->
  only_service_signs ky ps (aw_received w2) ->
  db_ok d0 -> enrollment d0 !! token_id a = Some row0 -> en_agent_id row0 = agent_id a -> minted s (token_id a) d0 ->
  Forall arrival_ok as_ -> Forall (not_recorded_elsewhere (token_id a)) as_ ->
  steps (World d0 0 false) (map (handler s) as_) w ps ->
  exists row req, enrollment (w_db w) !! token_id a = Some row /\ en_agent_id row = agent_id a /\ minted_row s row
    /\ justified (fun _ => True) (token_id a) req rp (w_db w) /\ ARequest (token_id a) req ∈ as_.
Proof.
  intros Hb Hv [Hsl _] (data & Hin & (e & He & Hcorr & Hver & Hread & _)%judge_accepted) Hsig Hok H0 Ha0 Hm Has Helse Hs.
  rewrite Hv in Hver. destruct (Hsig data e Hin He Hver) as (i & token & req & rp' & read & r & t & m & Hi & Hm' & <-).
  destruct (service_minted s (token_id a) as_ d0 w ps Hok Hm Has Helse Hs) as (Hmint & _ & Hg & Hall).
  rewrite Forall_forall in Hsl. destruct (reply_read _ _ _ _ _ _ _ _ Hm' (Hsl _ Hin) He) as [Hc Hrp].
  assert (token = token_id a) as -> by congruence. destruct (Hall i _ _ _ Hi) as [HJ Hasked].
  destruct (grows_row _ _ _ _ Hg H0) as (row & Ht & Hev). pose proof (ev_agent _ _ Hev) as Ea.
  assert (Ha : en_agent_id row = agent_id a) by congruence.
  assert (rp' = rp) as ->.
  { rewrite Hrp in Hread; [congruence|]. eapply justified_clean; [exact HJ | exact Ht | | by apply Hmint].
    rewrite Ha. by apply agent_ascii. }
  exists row, req. split_and!; try done. by apply Hmint.
Qed.
(** What the operator handed out, as the store and the agent have it. *)
Lemma issued_to_agent i d actor name ttl s0 b s1 iss paths f ca a :
  Issue i d actor name ttl s0 = (Ok b, s1) -> PublicKey (signing (minter i)) = Some iss ->
  (forall x, d_token d = Some x -> zlen x = 32) -> (forall x, d_agent d = Some x -> zlen x = 16) ->
  NewAgent paths f (json_Marshal (json_of_bundle b)) ca = Ok a ->
  a_bundle a = b /\ a_service a = Verifying (Signing (keys i))
  /\ exists tok aud, effect (MIssue tok aud) (tables s0) = Ok (tables s1)
     /\ enrollment (tables s1) !! bd_TokenID b = Some (issued_row tok) /\ AgentID tok = bd_AgentID b.
Proof.
  intros HE Hiss H32 H16 HN. pose proof (Issue_inv _ _ _ _ _ _ _ _ HE) as (tok & aud & identity & t & Hi & Heff & _).
  pose proof (ParseBundle_issued _ _ _ _ _ _ _ _ iss Hi H32 H16 Hiss) as HP.
  unfold NewAgent in HN. rewrite HP in HN. cbn [map_err] in HN. rewrite ok_bind in HN. res_inv. cbn.
  split; [done|]. split; [done|]. exists tok, aud. destruct Hi as [[_ Et] [_ Ea] _ _ _ _ _ _ _ _ _].
  split; [done|]. split; [rewrite <- Et; by eapply issued_record | done].
Qed.

(** The request the service answered presents the keys of the agent that sent it. *)
Lemma own_request_halves a k w2 as_ req agent h kind :
  bundle_ok a -> intact a w2 -> held a k (aw_fs w2) -> slices w2 -> agent = agent_id a ->
  nobody_else_asks (token_id a) as_ (aw_published w2) -> ARequest (token_id a) req ∈ as_ ->
  presents req (token_id a) agent h kind -> h = halves_of k.
Proof.
  intros Hb [Hok _ _ Hr] Hk [_ Hsl] -> Hown (m & Hm & Hsub & <-)%Hown Hp.
  destruct (Hr m Hm Hsub) as (k' & Hk' & Hsealed). rewrite <- (held_unique a k k' _ Hb Hok Hk Hk') in Hsealed.
  rewrite Forall_forall in Hsl. pose proof Hp as (e & req & (Hd & _)%OpenEnvelope_inv & _).
  apply Decode_iff in Hd as (_ & _ & Hz); [|by apply Hsl | by vm_compute].
  destruct (sealed_presents a Hb k (msg_Data m) (held_user a k _ Hok Hk) Hsealed) as [kind' Hp']; [exact Hz|].
  by eapply presents_fun.
Qed.
Lemma credential_on_record token req rp d row :
  justified (fun _ => True) token req rp d -> rp_Kind rp = KindCredential -> enrollment d !! token = Some row ->
  en_permanent_jwt row = Some (rp_PermanentJWT rp)
  /\ exists h, presents req token (en_agent_id row) h KindCredential /\ row_has h row.
Proof.
  intros HJ Hk Ht. destruct (credential_kind _ _ _ _ HJ Hk) as (row' & h & j & Ht' & Hp & Hh & Hj & ->). simplify_eq.
  split; [done|]. by exists h.
Qed.

Lemma confirmation_on_record token req rp d row :
  justified (fun _ => True) token req rp d -> is_confirmation rp = true -> enrollment d !! token = Some row ->
  en_state row = TokenSpent.
Proof.
  unfold is_confirmation. rewrite !andb_true_iff, !bool_decide_eq_true. intros HJ [[Hk _] _] Ht.
  destruct HJ as [(row' & h & j & _ & _ & _ & _ & ->)|[(row' & h & x & Ht' & _ & Hs & _)|[-> _]]];
    [discriminate Hk | by simplify_eq | discriminate Hk].
Qed.

(** The claims of an agent's permanent credential. *)
Definition agent_claims (m : Minter) (iss agent key : string) : UserClaims :=
  {| Subject := key; Nats.Issuer := iss; uc_Name := agent; IssuerAccount := account m;
     perm_Pub := permissionFor (granted (PAgent agent) Publish);
     perm_Sub := permissionFor (granted (PAgent agent) Subscribe); Expires := 0 |}.

Lemma minted_claims (s : Service) row j key iss c :
  minted_row s row -> en_permanent_jwt row = Some j -> PublicKey (signing (sv_minter s)) = Some iss ->
  DecodeUserClaims j = Some c -> Subject c = key ->
  en_nats_public_key row = Some key /\ c = agent_claims (sv_minter s) iss (en_agent_id row) key.
Proof.
  intros Hm Hj Hiss Hc Hs. destruct (Hm j Hj) as (key' & stamp & id & Hk & Hid & ->).
  destruct (Agent_issued _ _ _ _ _ Hid Hiss) as ([Hd _] & Hn & Hpub & _). cbn in Hn, Hpub.
  rewrite Hn, Hpub in Hd. rewrite Hd in Hc. injection Hc as <-. cbn in Hs. by subst key'.
Qed.

(** C1. The two sides of an enrollment agree.  An operator's bundle is issued and
    taken by an agent on a host that never enrolled; the agent runs any number
    of times, cut off and crashed anywhere, and the service handles whatever
    arrives.  Suppose nothing verifies under the service's key but what its
    handlers sent.  When the agent's enrollment returns nil, then: the token is
    spent and the agent active in the store; the identity every later start of
    the agent loads holds the very JWT on record for the token, which the
    service minted for this agent and the NATS key in the agent's key artifact,
    with the agent's permissions and no others; and if nobody else asked with
    this token, the three public halves on record are those of that artifact. *)
Theorem enrollment_agreement i d actor name ttl s0 b s1 iss
    paths f ca a w0 w1 n m w2 (s : Service) as_ w ps :
  Issue i d actor name ttl s0 = (Ok b, s1) -> db_ok (tables s0) -> PublicKey (signing (minter i)) = Some iss ->
  (forall x, d_token d = Some x -> zlen x = 32) -> (forall x, d_agent d = Some x -> zlen x = 16) ->
  NewAgent paths f (json_Marshal (json_of_bundle b)) ca = Ok a -> paths_apart a -> fresh_host a w0 ->
  lives a w0 w1 -> exec run_agent w1 (Enroll a n m) w2 (Return (Ok tt)) -> slices w2 ->
  sv_minter s = minter i -> Forall arrival_ok as_ -> Forall (not_recorded_elsewhere (bd_TokenID b)) as_ ->
  steps (World (tables s1) 0 false) (map (handler s) as_) w ps ->
  only_service_signs (keys i) ps (aw_received w2) ->
  exists row ag jwt k identity,
    enrollment (w_db w) !! bd_TokenID b = Some row /\ en_agent_id row = bd_AgentID b
    /\ en_state row = TokenSpent
    /\ agents (w_db w) !! bd_AgentID b = Some ag /\ ag_nats_public_key ag = Some (NATSPublicKey k)
    /\ en_permanent_jwt row = Some jwt /\ en_nats_public_key row = Some (NATSPublicKey k)
    /\ DecodeUserClaims jwt = Some (agent_claims (minter i) iss (bd_AgentID b) (NATSPublicKey k))
    /\ ParseDecoratedJWT (to_bytes (PermanentCredentials identity)) = Some jwt
    /\ ParseDecoratedNKey (to_bytes (PermanentCredentials identity)) = Some (NATS k)
    /\ (forall s' pem, crashes (aw_fs w2) s' ->
          run_with run_fs no_fault (LoadEnrolled paths (Some pem)) s'
          = Some (Ok {| en_keys := k; en_identity := identity |}, s'))
    /\ (nobody_else_asks (bd_TokenID b) as_ (aw_published w2) -> row_has (halves_of k) row).
Proof.
  intros HI Hok0 Hiss H32 H16 HN Hp Hf Hl He Hsl Hmin Has Helse Hs Hsig.
  destruct (issued_to_agent _ _ _ _ _ _ _ _ _ _ _ _ _ HI Hiss H32 H16 HN) as (Hbd & Hv & tok & aud & Heff & Hrow0 & Ha0).
  destruct (NewAgent_ok _ _ _ _ _ HN) as [Hpa Hb].
  assert (Htok : token_id a = bd_TokenID b) by by unfold token_id; rewrite Hbd.
  assert (Hag : agent_id a = bd_AgentID b) by by unfold agent_id; rewrite Hbd.
  pose proof (run_intact a Hb Hp _ _ _ _ _ _ Hf Hl He) as Hw. pose proof (wpc_now _ _ _ _ _ Hw) as HIn.
  destruct Hw as [_ Henr]. destruct (Henr eq_refl) as (k & identity & Hk & Hid & Hdig & rp2 & Hh2 & Hconf).
  destruct (identified_came_by a identity w2 HIn Hid)
    as (k' & rp1 & claims & seed & creds & Hk' & Hh1 & Hkind & Hcl & Hsub & Hname & Hseed & Hcreds & ->).
  rewrite (held_unique a k' k _ Hb (in_fs _ _ HIn) Hk' Hk) in *. clear k' Hk'.
  pose proof (effect_ok _ _ _ Hok0 Heff) as Hok1. rewrite <- Htok in *.
  assert (Hm0 : minted s (token_id a) (tables s1)) by (intros r; rewrite Hrow0; intros [= <-] j; discriminate).
  pose proof (fun rp Hh => heard_justified s a (keys i) as_ (tables s1) w ps w2 rp (issued_row tok) Hb Hv Hsl Hh Hsig
    Hok1 Hrow0 (eq_trans Ha0 (eq_sym Hag)) Hm0 Has Helse Hs) as Hjust.
  destruct (Hjust rp1 Hh1) as (row & req & Ht & Hra & Hmint & HJ1 & Hreq).
  destruct (Hjust rp2 Hh2) as (row2 & req2 & Ht2 & _ & _ & HJ2 & _). rewrite Ht in Ht2. injection Ht2 as <-.
  destruct (credential_on_record _ _ _ _ _ HJ1 Hkind Ht) as (Hj & h & Hpres & Hhas).
  pose proof (confirmation_on_record _ _ _ _ _ HJ2 Hconf Ht) as Hspent.
  destruct (minted_claims s row _ _ iss claims Hmint Hj ltac:(by rewrite Hmin) Hcl Hsub) as [Hkey ->].
  destruct (service_minted s (token_id a) as_ (tables s1) w ps Hok1 Hm0 Has Helse Hs) as (_ & Hokw & _).
  destruct (ok_spent _ Hokw _ _ Ht Hspent) as (ag & Hagent & _ & _ & _ & Hagn).
  destruct (format_roundtrip _ _ _ Hcreds) as [Hpj Hpk].
  exists row, ag, (rp_PermanentJWT rp1), k, (identity_for a k creds). cbn [PermanentCredentials identity_for].
  rewrite to_of_bytes, Hpk, <- Hag, <- Hmin. rewrite Hra in *. split_and!; try done; [congruence|..].
  - by eapply held_seed; [apply HIn | |].
  - by eapply enrolled_durable.
  - intros Hown. by rewrite <- (own_request_halves a k w2 as_ req _ h _ Hb HIn Hk Hsl eq_refl Hown Hreq Hpres).
Qed.
End Agreement.

(** ** One enrollment on both sides

    The bundle of [sample_issue], the run of [demo_final] against it, and the
    service handling what that run published. *)
Abbreviation sample_request := (RequestSubject (bd_TokenID demo_bundle)).

Lemma demo_issued :
  Issue (SS := ToySignature) (ES := ToyEncryption) (J := ToyJwt) (U := ascii_tables)
    sample_issuer sample_draws sample_actor "web" 0 (Session empty_db []) = (Ok demo_bundle, sample_issue.2).
Proof.
  unfold demo_bundle. assert (Hok : is_ok sample_issue.1 = true) by (vm_cast_no_check (@eq_refl bool true)).
  rewrite <- (ok_or_ok zero_Bundle sample_issue.1 Hok). exact (surjective_pairing sample_issue).
Qed.

(** What the agent publishes comes in as it was published. *)
Definition arrives (m : message) : arrival :=
  if bool_decide (msg_Subject m = sample_request) then ARequest (bd_TokenID demo_bundle) (msg_Data m)
  else APresence 1 (msg_Subject m) (msg_Data m).
Definition joint_arrivals : list arrival := map arrives (reverse (aw_published demo_final.1)).

Abbreviation joint_start := (map (handler (SS := ToySignature) (ES := ToyEncryption) (J := ToyJwt) (demo_service 0)) joint_arrivals).
Abbreviation joint_world := (World (tables sample_issue.2) 0 false).
Definition joint_schedule : list (nat * nat) := [(0, 20); (1, 20); (2, 20); (3, 20)]%nat.
Definition joint_run : world * list (prog (option (string * bytes * Reply))) :=
  run_schedule joint_schedule joint_world joint_start clock.
Lemma joint_steps : steps joint_world joint_start joint_run.1 joint_run.2.
Proof. exact (run_schedule_steps joint_schedule joint_world joint_start clock). Qed.

Lemma arrives_ok l :
  Forall arrival_ok (map arrives l) /\ Forall (not_recorded_elsewhere (bd_TokenID demo_bundle)) (map arrives l).
Proof.
  split; apply Forall_forall; intros x (m & -> & _)%list_elem_of_fmap; unfold arrives; destruct (bool_decide _); exact I.
Qed.
Lemma arrives_published l : nobody_else_asks (bd_TokenID demo_bundle) (map arrives (reverse l)) l.
Proof.
  intros data (m & E & Hm)%list_elem_of_fmap. unfold arrives in E. case_bool_decide as Hs; [|done].
  injection E as ->. exists m. split; [exact (proj1 (elem_of_reverse _ _) Hm) | exact (conj Hs eq_refl)].
Qed.

Lemma joint_ok : Forall arrival_ok joint_arrivals /\ Forall (not_recorded_elsewhere (bd_TokenID demo_bundle)) joint_arrivals.
Proof. exact (arrives_ok (reverse (aw_published demo_final.1))). Qed.
Lemma joint_asks : nobody_else_asks (bd_TokenID demo_bundle) joint_arrivals (aw_published demo_final.1).
Proof. exact (arrives_published (aw_published demo_final.1)). Qed.

(** The service's message, if handler [p] sent a reply. *)
Definition message_of (p : prog (option (string * bytes * Reply))) : option bytes :=
  match p with
  | Ret (Some (t, _, rp)) =>
      msg_Data <$> reply (SS := ToySignature) (ES := ToyEncryption) zero_read x01 (keys sample_issuer) t rp (1700000100 * Second)
  | _ => None
  end.
Definition all_sent (ps : list (prog (option (string * bytes * Reply)))) (received : list bytes) : bool :=
  forallb (fun data => existsb (fun p => bool_decide (message_of p = Some data)) ps) received.

Lemma all_sent_signs ps received :
  all_sent ps received = true ->
  only_service_signs (SS := ToySignature) (ES := ToyEncryption) (keys sample_issuer) ps received.
Proof.
  intros Hall data e Hin _ _. unfold all_sent in Hall. rewrite forallb_forall in Hall.
  apply list_elem_of_In in Hin. specialize (Hall data Hin).
  apply existsb_exists in Hall as (p & Hp%list_elem_of_In & Hm%bool_decide_eq_true).
  apply list_elem_of_lookup in Hp as [i Hi]. unfold message_of in Hm.
  destruct p as [[[[t req] rp]|]| | | |]; try done. apply fmap_Some in Hm as (m & Hr & Hd).
  exists i, t, req, rp, zero_read, x01. do 2 eexists. split; [exact Hi|]. split; [exact Hr | by symmetry].
Qed.

Lemma joint_all_sent : all_sent joint_run.2 (aw_received demo_final.1) = true.
Proof. vm_cast_no_check (@eq_refl bool true). Qed.
Lemma joint_signed :
  only_service_signs (SS := ToySignature) (ES := ToyEncryption) (keys sample_issuer) joint_run.2 (aw_received demo_final.1).
Proof. exact (all_sent_signs joint_run.2 (aw_received demo_final.1) joint_all_sent). Qed.

Definition sliced (w : agent_world) : bool :=
  forallb (fun b => zlen b <=? max_int64) (aw_received w) && forallb (fun m => zlen (msg_Data m) <=? max_int64) (aw_published w).
Lemma sliced_slices w : sliced w = true -> slices w.
Proof.
  unfold sliced, slices, go_slice. rewrite andb_true_iff, !forallb_forall. intros [H1 H2].
  split; apply Forall_forall; intros x Hx%list_elem_of_In; apply Z.leb_le; auto.
Qed.
Lemma demo_sliced : sliced demo_final.1 = true.
Proof. vm_cast_no_check (@eq_refl bool true). Qed.

Lemma enrollment_agreement_witness :
  exists row jwt k, enrollment (w_db joint_run.1) !! bd_TokenID demo_bundle = Some row /\ en_state row = TokenSpent
    /\ en_permanent_jwt row = Some jwt
    /\ row_has (halves_of (SS := ToySignature) (ES := ToyEncryption) (K := ToyNkeys) k) row.
Proof.
  destruct (enrollment_agreement (SL := ToySignatureLaws) (EL := ToyEncryptionLaws) (KL := ToyNkeysLaws) (JL := ToyJwtLaws)
    sample_issuer sample_draws sample_actor "web" 0 (Session empty_db []) demo_bundle sample_issue.2 "A-signing"
    demo_paths no_holds (Some []) demo_agent empty_host empty_host 3 3 demo_final.1
    (demo_service 0) joint_arrivals joint_run.1 joint_run.2
    demo_issued empty_db_ok eq_refl ltac:(by intros x [= <-]) ltac:(by intros x [= <-])
    demo_agent_new demo_paths_apart empty_host_fresh (lives_here _ _) demo_final_nil
    (sliced_slices _ demo_sliced) eq_refl (proj1 joint_ok) (proj2 joint_ok) joint_steps joint_signed)
    as (row & ag & jwt & k & identity & H1 & _ & H2 & _ & _ & H3 & _ & _ & _ & _ & _ & H4).
  exists row, jwt, k. exact (conj H1 (conj H2 (conj H3 (H4 joint_asks)))).
Defined.
