(* ===== verification/AgentMain.v ===== *)
(** * The agent's command

    Models [run], [serve], [enroll], [readBundle] and [readLimited] of
    [cmd/keystone-agent/main.go]: which files are read before the agent does
    anything, what each exit code says of the enrollment behind it, and that a
    host that enrolled serves as the agent it enrolled. *)
From S2P Require Import Prelude GoBytes GoTime GoText GoFlag Vocabulary Primitives Toy Keys Signature Encryption Nats Config ConfigText AgentConfig Wire Issue Service Effects.
From S2P Require Import Files Artifacts Create Commands Agent Resume.

Definition maxBundle : Z := Z.shiftl 64 10.
(** [0o044] *)
Definition readable_by_others : Z := 36.

Section Command.
Context `{SS : SignatureScheme} `{ES : EncryptionScheme} {K : Nkeys} {J : Jwt K} {H : Sha256}.

(** ** The calls *)

Inductive cli_call : Type -> Type :=
  | OpenBundle (path : string) : cli_call bool
  (** [f.Stat]: whether it is a regular file, and its permission bits *)
  | StatBundle : cli_call (option (bool * Z))
  (** [io.ReadAll] of a reader that gives at most so many bytes *)
  | ReadAtMost (n : Z) : cli_call (option bytes)
  | ReadCAFile (path : string) : cli_call (option bytes)
  | RemoveBundle (path : string) : cli_call bool
  | OnAgent {B : Type} (c : agent_call B) : cli_call B.

Inductive bundle_err := BundleUnreadable | BundleNotRegular | BundleReadable | BundleTooLarge.

Definition readLimited : io cli_call (result bundle_err bytes) :=
  r ← perform (ReadAtMost (maxBundle + 1));
  match r with
  | None => Return (Err BundleUnreadable)
  | Some b => if maxBundle <? zlen b then Return (Err BundleTooLarge) else Return (Ok b)
  end.

Definition readBundle (path : string) : io cli_call (result bundle_err bytes) :=
  if bool_decide (path = "-"%string) then readLimited
  else
    ok ← perform (OpenBundle path);
    if negb ok then Return (Err BundleUnreadable)
    else
      info ← perform StatBundle;
      match info with
      | None => Return (Err BundleUnreadable)
      | Some (regular, perm) =>
          if negb regular then Return (Err BundleNotRegular)
          else if negb (Z.land perm readable_by_others =? 0) then Return (Err BundleReadable)
          else readLimited
      end.

(** ** The commands

    [n] requests or periods at most, [m] replies for each. *)

Context (env : string -> string) (stat : string -> option bool) (file : string -> option (bytes * bool)).

Definition agent_config : option AgentConfig :=
  match Locate RoleAgent env stat with
  | Err _ => None
  | Ok path => match LoadAgent (file path) with Err _ => None | Ok cfg => Some cfg end
  end.

(** What the exit code of [enroll] is once [Enroll] has returned. *)
Definition conclude (tokenFile : string) (r : result agent_err unit) : io cli_call Code :=
  match r with
  | Err ErrRefused => Return Unauthorized
  | Err _ => Return Local
  | Ok _ =>
      if negb (bool_decide (tokenFile = "-"%string)) then
        ok ← perform (RemoveBundle tokenFile); Return (if (ok : bool) then OK else Local)
      else Return OK
  end.

(** The parsed [-token-file], and how many arguments are left over. *)
Definition enroll_set : FlagSet := [("token-file", VString "")]%string.
Definition token_parse (args : list string) : option (string * Z) :=
  match Parse enroll_set args with Err _ => None | Ok (fs, rest) => Some (get_string fs "token-file", zlen rest) end.
Definition enroll (args : list string) (n m : nat) : io cli_call Code :=
  match token_parse args with
  | None => Return Local
  | Some (tokenFile, narg) =>
      if is_empty tokenFile || negb (narg =? 0) then Return Local
      else match agent_config with
           | None => Return Local
           | Some cfg =>
               b ← readBundle tokenFile;
               match b with
               | Err _ => Return Local
               | Ok bundle =>
                   ca ← perform (ReadCAFile (an_CAFile (ac_NATS cfg)));
                   match NewAgent (ac_Agent cfg) (ac_Faults cfg) bundle ca with
                   | Err _ => Return Local
                   | Ok a => r ← io_map (@OnAgent) (Enroll a n m); conclude tokenFile r
                   end
               end
           end
  end.

Definition serving (n : nat) (e : Enrolled) : io cli_call Code :=
  r ← io_map (@OnAgent) (Run n e); Return (if is_ok r then OK else Local).
Definition serve (n : nat) : io cli_call Code :=
  match agent_config with
  | None => Return Local
  | Some cfg =>
      ca ← perform (ReadCAFile (an_CAFile (ac_NATS cfg)));
      e ← io_map (@OnAgent) (on_files (LoadEnrolled (ac_Agent cfg) ca));
      match e with Err _ => Return Local | Ok e => serving n e end
  end.

Definition run_agent_command (args : list string) (version : string) (n m : nat) : io cli_call (option string * Code) :=
  match answered RoleAgent (fst <$> main_parse args) version env stat with
  | Some r => Return r
  | None =>
      match main_rest args with
      | [] => code ← serve n; Return (None, code)
      | cmd :: rest =>
          if bool_decide (cmd = "enroll"%string) then code ← enroll rest n m; Return (None, code)
          else Return (None, Local)
      end
  end.

(** ** The outside

    The agent's own, and what was learnt and done about the bundle.  The bundle
    is not one of the agent's own artifacts. *)

Inductive bundle_event := Opened | Stated (regular : bool) (perm : Z) | Got (b : bytes) | Removed.
Record cli_world := { cw_agent : agent_world; cw_log : list bundle_event }.
Record cli_fate := {
  cf_ok : bool; cf_info : option (bool * Z); cf_content : option bytes; cf_ca : option bytes; cf_agent : answer_from }.

Definition also (e : bundle_event) (w : cli_world) : cli_world :=
  {| cw_agent := cw_agent w; cw_log := cw_log w ++ [e] |}.
Definition put_agent (v : agent_world) (w : cli_world) : cli_world := {| cw_agent := v; cw_log := cw_log w |}.

Definition run_cli (B : Type) (f : cli_fate) (w : cli_world) (c : cli_call B) : B * cli_world :=
  match c in cli_call B return B * cli_world with
  | OpenBundle _ => (cf_ok f, if cf_ok f then also Opened w else w)
  | StatBundle => (cf_info f, match cf_info f with Some (r, p) => also (Stated r p) w | None => w end)
  | ReadAtMost n =>
      let r := take (Z.to_nat n) <$> cf_content f in (r, match r with Some b => also (Got b) w | None => w end)
  | ReadCAFile _ => (cf_ca f, w)
  | RemoveBundle _ => (cf_ok f, if cf_ok f then also Removed w else w)
  | OnAgent c => let '(b, v) := run_agent _ (cf_agent f) (cw_agent w) c in (b, put_agent v w)
  end.
(** ** What a run of [enroll] says *)

(** What was known before the agent did anything: the configuration, and a
    bundle of a bounded size which nobody else could read in its file. *)
Record admitted (tokenFile : string) (l : list bundle_event) (a : Agent) : Prop := {
  ad_config : exists cfg ca bundle, agent_config = Some cfg /\ Got bundle ∈ l /\ zlen bundle <= maxBundle
    /\ NewAgent (ac_Agent cfg) (ac_Faults cfg) bundle ca = Ok a;
  ad_private : tokenFile <> "-"%string -> exists perm, Stated true perm ∈ l /\ Z.land perm readable_by_others = 0 }.

(** Where the agent stands in a run of [enroll] from [v]. *)
Definition begun (tokenFile : string) (n m : nat) (v : agent_world) (w : cli_world) : Prop :=
  cw_agent w = v \/ exists a p, admitted tokenFile (cw_log w) a /\ exec run_agent v (Enroll a n m) (cw_agent w) p.

Definition exits (tokenFile : string) (n m : nat) (v : agent_world) (code : Code) (w : cli_world) : Prop :=
  (Removed ∈ cw_log w <-> code = OK /\ tokenFile <> "-"%string)
  /\ match code with
     | OK => exists a, admitted tokenFile (cw_log w) a /\ exec run_agent v (Enroll a n m) (cw_agent w) (Return (Ok tt))
     | Unauthorized => exists a, admitted tokenFile (cw_log w) a
         /\ exec run_agent v (Enroll a n m) (cw_agent w) (Return (Err ErrRefused))
     | Local => True
     | _ => False
     end.

Lemma admitted_more tokenFile l e a : admitted tokenFile l a -> admitted tokenFile (l ++ [e]) a.
Proof.
  intros [(cfg & ca & b & H1 & H2 & H3 & H4) Hp]. split.
  - exists cfg, ca, b. split; [done|]. split; [apply elem_of_app; by left | done].
  - intros Hne. destruct (Hp Hne) as (perm & H5 & H6). exists perm. split; [apply elem_of_app; by left | done].
Qed.

Lemma wpc_readLimited I v w :
  (forall w', cw_agent w' = v -> I w') -> cw_agent w = v -> Removed ∉ cw_log w ->
  wpc run_cli I readLimited (fun r w' => cw_agent w' = v /\ (Removed ∉ cw_log w') /\ (forall e, e ∈ cw_log w -> e ∈ cw_log w')
    /\ forall b, r = Ok b -> Got b ∈ cw_log w' /\ zlen b <= maxBundle) w.
Proof.
  intros HI Hv Hr. split; [by apply HI|]. intros f. cbn [run_cli fst snd mbind io_bind io_then].
  destruct (cf_content f) as [b|]; cbn [fmap option_fmap option_map].
  2: { split; [by apply HI|]. by repeat split. }
  destruct (maxBundle <? zlen _) eqn:Hb; bool_to_prop; (split; [by apply HI|]); cbn [also cw_agent cw_log];
    (split; [done|]); (split; [set_solver|]); (split; [set_solver|]); [done|].
  intros b' [= <-]. split; [set_solver | exact Hb].
Qed.

Lemma wpc_readBundle I v path w :
  (forall w', cw_agent w' = v -> I w') -> cw_agent w = v -> cw_log w = [] ->
  wpc run_cli I (readBundle path) (fun r w' => cw_agent w' = v /\ (Removed ∉ cw_log w')
    /\ forall b, r = Ok b -> Got b ∈ cw_log w' /\ zlen b <= maxBundle
       /\ (path <> "-"%string -> exists perm, Stated true perm ∈ cw_log w' /\ Z.land perm readable_by_others = 0)) w.
Proof.
  intros HI Hv Hl. unfold readBundle. case_bool_decide as Hp.
  { eapply wpc_mono; [done | | apply (wpc_readLimited I v); [done | done | rewrite Hl; set_solver]].
    intros r w' _ (H1 & H2 & _ & H3). split; [done|]. split; [done|]. intros b ->. by destruct (H3 b eq_refl). }
  assert (Hno : Removed ∉ cw_log w) by (rewrite Hl; set_solver).
  split; [by apply HI|]. intros f. cbn [run_cli fst snd mbind io_bind io_then].
  destruct (cf_ok f); cbn [negb]; [|by (split; [apply HI|])].
  set (w1 := also Opened w). assert (Hno1 : Removed ∉ cw_log w1) by (cbn; set_solver).
  split; [by apply HI|]. intros g. cbn [run_cli fst snd mbind io_bind io_then].
  destruct (cf_info g) as [[reg perm]|]; [|by (split; [apply HI|])].
  set (w2 := also (Stated reg perm) w1). assert (Hno2 : Removed ∉ cw_log w2) by (cbn; set_solver).
  destruct reg; cbn [negb]; [|by (split; [apply HI|])].
  destruct (Z.land perm readable_by_others =? 0) eqn:Hperm; cbn [negb]; [apply Z.eqb_eq in Hperm | by (split; [apply HI|])].
  eapply wpc_mono; [done | | by apply (wpc_readLimited I v w2)].
  intros r w' _ (H1 & H2 & Hsub & H3). split; [done|]. split; [done|]. intros b ->. destruct (H3 b eq_refl) as [? ?].
  split; [done|]. split; [done|]. intros _. exists perm. split; [apply Hsub; cbn; set_solver | done].
Qed.

Lemma wpc_conclude tokenFile n m v a r w :
  admitted tokenFile (cw_log w) a -> exec run_agent v (Enroll a n m) (cw_agent w) (Return r) -> Removed ∉ cw_log w ->
  wpc run_cli (begun tokenFile n m v) (conclude tokenFile r) (exits tokenFile n m v) w.
Proof.
  intros Ha He Hr.
  assert (HI : forall w', admitted tokenFile (cw_log w') a -> cw_agent w' = cw_agent w -> begun tokenFile n m v w').
  { intros w' Ha' E. right. exists a, (Return r). split; [done | by rewrite E]. }
  destruct r as [[]|e]; cbn [conclude].
  - case_bool_decide as Ht; cbn [negb].
    + split; [by apply HI|]. split; [split; [done | by intros [_ ?]] | by exists a].
    + split; [by apply HI|]. intros f. cbn [run_cli fst snd mbind io_bind io_then]. destruct (cf_ok f).
      * assert (Ha' : admitted tokenFile (cw_log (also Removed w)) a) by by apply admitted_more.
        split; [by apply HI|]. split; [split; [done | intros _; cbn; set_solver] | by exists a].
      * split; [by apply HI|]. split; [split; [done | by intros [? _]] | done].
  - assert (Hl : wpc run_cli (begun tokenFile n m v) (Return Local) (exits tokenFile n m v) w).
    { split; [by apply HI|]. split; [split; [done | by intros [? _]] | done]. }
    destruct e; try exact Hl. split; [by apply HI|]. split; [split; [done | by intros [? _]] | by exists a].
Qed.

(** The agent's part of the command is the agent's own run. *)
Lemma wpc_enrolling tokenFile n m a w :
  admitted tokenFile (cw_log w) a ->
  wpc run_cli (begun tokenFile n m (cw_agent w)) (io_map (@OnAgent) (Enroll a n m))
    (fun r w' => cw_log w' = cw_log w /\ exec run_agent (cw_agent w) (Enroll a n m) (cw_agent w') (Return r)) w.
Proof.
  intros Ha.
  eapply (wpc_lift run_agent run_cli (@OnAgent) cw_agent put_agent cf_agent); [| | | | | | apply wpc_reach].
  - intros B x u c. cbn [run_cli]. by destruct (run_agent B (cf_agent x) (cw_agent u) c).
  - done.
  - done.
  - by intros [].
  - intros u [p Hp]. right. by exists a, p.
  - intros r u _ He. by split.
Qed.

(** The file the bundle is to come from; empty when the flags do not parse. *)
Definition token_file (args : list string) : string := default ""%string (fst <$> token_parse args).

Lemma wpc_enroll args n m w :
  cw_log w = [] ->
  wpc run_cli (begun (token_file args) n m (cw_agent w)) (enroll args n m) (exits (token_file args) n m (cw_agent w)) w.
Proof.
  intros Hl. set (v := cw_agent w). set (tokenFile := token_file args).
  assert (HI : forall w', cw_agent w' = v -> begun tokenFile n m v w') by (intros w' E; by left).
  assert (Hend : forall w', cw_agent w' = v -> Removed ∉ cw_log w' ->
    wpc run_cli (begun tokenFile n m v) (Return Local) (exits tokenFile n m v) w').
  { intros w' E Hr. split; [by apply HI|]. split; [split; [done | by intros [? _]] | done]. }
  assert (Hno : Removed ∉ cw_log w) by (rewrite Hl; set_solver).
  unfold enroll. destruct (token_parse args) as [[t narg]|] eqn:Ht; [|by apply Hend].
  assert (t = tokenFile) as -> by by unfold tokenFile, token_file; rewrite Ht.
  destruct (_ || _); [by apply Hend|].
  destruct agent_config as [cfg|] eqn:Hc; [|by apply Hend].
  apply wpc_then. eapply wpc_mono; [done | | by apply (wpc_readBundle (begun tokenFile n m v) v)].
  intros r w1 _ (H1 & H2 & H3) _. destruct r as [b|e]; [|by apply Hend].
  destruct (H3 b eq_refl) as (Hb & Hsz & Hp).
  split; [by apply HI|]. intros f. cbn [run_cli fst snd mbind io_bind io_then].
  destruct (NewAgent _ _ b _) as [a|e] eqn:HN; [|by apply Hend].
  assert (Ha : admitted tokenFile (cw_log w1) a) by (split; [by exists cfg, (cf_ca f), b | done]).
  apply wpc_then. rewrite <- H1. eapply wpc_mono; [done | | exact (wpc_enrolling tokenFile n m a w1 Ha)].
  intros r w2 _ [E He] _. apply (wpc_conclude _ _ _ _ a); [by rewrite E | done | by rewrite E].
Qed.


(** ** Enrolled, then serving *)

Context {SL : SignatureLaws SS} {EL : EncryptionLaws ES} {KL : NkeysLaws K} {JL : JwtLaws K J}.

Lemma run_loading {A} x w (p : io fs_call A) a s :
  run_with run_fs (an_fate (cf_agent x)) p (aw_fs (cw_agent w)) = Some (a, s) ->
  run_with run_cli x (io_map (@OnAgent) (on_files p)) w = Some (a, put_agent (put_fs s (cw_agent w)) w).
Proof.
  intros Hr. eapply (run_with_lift run_agent run_cli (@OnAgent) cw_agent put_agent cf_agent);
    [intros B y u c; cbn [run_cli]; by destruct (run_agent B (cf_agent y) (cw_agent u) c) | done | done | by intros [] |].
  eapply (run_with_lift run_fs run_agent (@AFile _ _) aw_fs put_fs an_fate);
    [intros B y u c; cbn; by destruct (run_fs B (an_fate y) (aw_fs u) c) | done | done | by intros [] | exact Hr].
Qed.

Lemma run_serve cfg e n x w pem :
  agent_config = Some cfg -> cf_ca x = Some pem ->
  run_with run_fs (an_fate (cf_agent x)) (LoadEnrolled (ac_Agent cfg) (Some pem)) (aw_fs (cw_agent w)) = Some (Ok e, aw_fs (cw_agent w)) ->
  run_with run_cli x (serve n) w = run_with run_cli x (serving n e) w.
Proof.
  intros Hc Hx Hl. unfold serve. rewrite Hc. cbn [mbind io_bind io_then run_with perform run_cli]. rewrite Hx.
  rewrite (run_with_then _ _ _ _ _ _ _ (run_loading x w _ _ _ Hl)). by destruct w as [[] l].
Qed.

End Command.

(** ** A concrete host, enrolled by its command *)

Definition demo_config_agent : AgentConfig :=
  {| ac_NATS := Build_AgentNATS "tls://nats:4222" "/srv/ca.pem" "nats"; ac_Agent := demo_paths; ac_Faults := no_holds |}.
Definition demo_agent_file (p : string) : option (bytes * bool) := Some (file_text (agent_text demo_config_agent), true).
Definition demo_regular (p : string) : option bool := Some false.
Abbreviation demo_env := (fun _ : string => ""%string).

Definition cli_answer (a : toy_answer) : @cli_fate ToySignature ToyEncryption :=
  {| cf_ok := true; cf_info := Some (true, 384); cf_content := Some demo_bundle_bytes; cf_ca := Some []; cf_agent := a |}.
Definition cli_answers : list (@cli_fate ToySignature ToyEncryption) :=
  replicate 4 (cli_answer credential_answer) ++ map cli_answer demo_answers.
Definition new_host : cli_world := {| cw_agent := empty_host; cw_log := [] |}.
Abbreviation toy_cli := (@run_cli ToySignature ToyEncryption).
Definition demo_words : list string := ["--token-file"; "/t/bundle"]%string.
Abbreviation demo_command :=
  (@enroll ToySignature ToyEncryption ToyNkeys ToyJwt toy_sha256 demo_env demo_regular demo_agent_file
    demo_words 3 3).
Abbreviation demo_cli := (play toy_cli cli_answers new_host demo_command).

Definition exited_ok {C} (p : io C Code) : bool := match p with Return OK => true | _ => false end.
Lemma exited_ok_spec {C} (p : io C Code) : exited_ok p = true -> p = Return OK.
Proof. by destruct p as [[]| |]. Qed.
Lemma demo_cli_exits : exited_ok demo_cli.2 = true.
Proof. vm_cast_no_check (@eq_refl bool true). Qed.
Lemma demo_cli_exec : exec toy_cli new_host demo_command demo_cli.1 (Return OK).
Proof. rewrite <- (exited_ok_spec _ demo_cli_exits). apply play_exec. Qed.

Lemma demo_agent_config : @agent_config demo_env demo_regular demo_agent_file = Some demo_config_agent.
Proof. vm_cast_no_check (@eq_refl (option AgentConfig) (Some demo_config_agent)). Qed.

(** The host of any agent of this configuration is as fresh. *)
Lemma demo_hosts l a :
  @admitted ToySignature ToyEncryption ToyNkeys ToyJwt demo_env demo_regular demo_agent_file "/t/bundle" l a ->
  paths_apart a /\ exists w0, fresh_host a w0 /\ @lives ToySignature ToyEncryption ToyNkeys ToyJwt toy_sha256 a w0 empty_host.
Proof.
  intros [(cfg & ca & b & Hc & _ & _ & HN) _]. rewrite demo_agent_config in Hc. injection Hc as <-.
  destruct (NewAgent_ok _ _ _ _ _ HN) as [Ha _]. cbn [ac_Agent demo_config_agent] in Ha. rewrite <- demo_paths_eq in Ha.
  unfold paths_apart. rewrite Ha. split; [exact demo_paths_apart|]. exists empty_host. split; [|constructor].
  pose proof empty_host_fresh as [H1 H2 H3 H4]. split; rewrite ?Ha; assumption.
Qed.


