(* ===== verification/Journal.v ===== *)
(** * The agent's fault journal

    Models [record] of [internal/enrollment/faults.go] and the lines it writes:
    what a harness that reads the journal can see at any moment of an append,
    and what an append that returned has made durable. *)
From S2P Require Import Prelude GoBytes GoText Config Json Effects Agent.

Record FaultRecord := { fr_Version : Z; fr_Event : string; fr_Fault : string; fr_Process : string }.
#[export] Instance FaultRecord_eq_dec : EqDecision FaultRecord.
Proof. solve_decision. Defined.

Definition fault_fields : struct_fields FaultRecord :=
  [("version"%string, set_int (fun n r => {| fr_Version := n; fr_Event := fr_Event r; fr_Fault := fr_Fault r; fr_Process := fr_Process r |}));
   ("event"%string, set_string (fun s r => {| fr_Version := fr_Version r; fr_Event := s; fr_Fault := fr_Fault r; fr_Process := fr_Process r |}));
   ("fault"%string, set_string (fun s r => {| fr_Version := fr_Version r; fr_Event := fr_Event r; fr_Fault := s; fr_Process := fr_Process r |}));
   ("process"%string, set_string (fun s r => {| fr_Version := fr_Version r; fr_Event := fr_Event r; fr_Fault := fr_Fault r; fr_Process := s |}))].
Definition json_of_fault (r : FaultRecord) : json :=
  JObj (member "version" (jint (fr_Version r)) ++ member "event" (jstring (fr_Event r))
        ++ member "fault" (jstring (fr_Fault r)) ++ member "process" (jstring (fr_Process r))).
Definition fault_of (event fault : string) : FaultRecord :=
  {| fr_Version := 1; fr_Event := event; fr_Fault := fault; fr_Process := "agent" |}.
Definition line_of (r : FaultRecord) : bytes := json_Marshal (json_of_fault r) ++ [x0a].

(** ** Appending *)

Inductive journal_call : Type -> Type :=
  (** opened to append, and made with [ArtifactMode] where there is none *)
  | JOpen (path : string) : journal_call bool
  | JWrite (b : bytes) : journal_call bool
  | JSync : journal_call bool
  | JClose : journal_call bool.

Definition record (f : AgentFaults) (event fault : string) : io journal_call bool :=
  let line := line_of (fault_of event fault) in
  opened ← perform (JOpen (RecordPath f));
  if negb opened then Return false
  else
    written ← perform (JWrite line);
    if negb written then _ ← perform JClose; Return false
    else
      synced ← perform JSync;
      if negb synced then _ ← perform JClose; Return false
      else perform JClose.

(** The bytes of the journal, and those of them a power loss leaves. *)
Record journal := { jn_bytes : bytes; jn_durable : bytes }.
(** A write that fails has written any part but the whole. *)
Record journal_fate := { jf_ok : bool; jf_part : nat }.

Definition run_journal (B : Type) (f : journal_fate) (w : journal) (c : journal_call B) : B * journal :=
  match c in journal_call B return B * journal with
  | JOpen _ | JClose => (jf_ok f, w)
  | JWrite b =>
      let n := if jf_ok f then length b else Nat.min (jf_part f) (pred (length b)) in
      (jf_ok f, {| jn_bytes := jn_bytes w ++ take n b; jn_durable := jn_durable w |})
  | JSync => (jf_ok f, if jf_ok f then {| jn_bytes := jn_bytes w; jn_durable := jn_bytes w |} else w)
  end.

(** ** Reading *)

(** The complete lines, and what comes after the last of them. *)
Fixpoint complete_lines (b : bytes) : list bytes * bytes :=
  match b with
  | [] => ([], [])
  | c :: b' =>
      let '(ls, rest) := complete_lines b' in
      if bool_decide (c = x0a) then ([] :: ls, rest)
      else match ls with
           | l :: ls' => ((c :: l) :: ls', rest)
           | [] => ([], c :: rest)
           end
  end.
Definition zero_fault : FaultRecord := {| fr_Version := 0; fr_Event := ""; fr_Fault := ""; fr_Process := "" |}.
Definition parse_fault (l : bytes) : option FaultRecord :=
  v ← json_Unmarshal l; decode_struct false fault_fields v zero_fault.
(** What a reader of complete lines sees. *)
Definition read_journal (b : bytes) : option (list FaultRecord) := mapM parse_fault (complete_lines b).1.

Lemma complete_lines_line l b : x0a ∉ l -> complete_lines (l ++ x0a :: b) = (l :: (complete_lines b).1, (complete_lines b).2).
Proof.
  intros Hl. induction l as [|c l IH]; cbn [app complete_lines].
  - destruct (complete_lines b). by rewrite bool_decide_eq_true_2.
  - apply not_elem_of_cons in Hl as [Hc Hl]. rewrite IH, bool_decide_eq_false_2 by done. done.
Qed.
Lemma complete_lines_part l : x0a ∉ l -> complete_lines l = ([], l).
Proof.
  induction l as [|c l IH]; intros Hl; cbn [complete_lines]; [done|]. apply not_elem_of_cons in Hl as [Hc Hl].
  by rewrite IH, bool_decide_eq_false_2.
Qed.

(** The faults the agent records. *)
Definition recorded_faults : list FaultRecord :=
  e ← [FaultEnabled; FaultReached]; k ← map fst (AgentHolds (Build_AgentFaults "" 0 0 0 0 0)); [fault_of e k].

Lemma recorded_lines :
  Forall (fun r => (x0a ∉ json_Marshal (json_of_fault r)) /\ parse_fault (json_Marshal (json_of_fault r)) = Some r) recorded_faults.
Proof. apply (bool_decide_unpack _). vm_compute. exact I. Qed.

Lemma recorded_in f event key d :
  event ∈ [FaultEnabled; FaultReached] -> (key, d) ∈ AgentHolds f -> fault_of event key ∈ recorded_faults.
Proof.
  intros He Hk. unfold recorded_faults. apply list_elem_of_bind. exists event. split; [|done].
  apply list_elem_of_bind. exists key. split; [by left|].
  exact (list_elem_of_fmap_2 fst (AgentHolds f) (key, d) Hk).
Qed.

(** A journal: the lines of these records and nothing after them. *)
Definition journal_of (rs : list FaultRecord) : bytes := mjoin (map line_of rs).

Lemma lines_of_journal rs b :
  Forall (fun r => r ∈ recorded_faults) rs ->
  complete_lines (journal_of rs ++ b) = (map (fun r => json_Marshal (json_of_fault r)) rs ++ (complete_lines b).1, (complete_lines b).2).
Proof.
  induction 1 as [|r rs Hr _ IH]; [exact (surjective_pairing _)|].
  change (journal_of (r :: rs)) with (line_of r ++ journal_of rs). unfold line_of. rewrite <- !app_assoc. cbn [app].
  apply (Forall_in _ _ _ recorded_lines) in Hr as [Hr _]. by rewrite complete_lines_line, IH.
Qed.

Lemma journal_snoc rs r : journal_of (rs ++ [r]) = journal_of rs ++ line_of r.
Proof.
  induction rs as [|r' rs IH]; [exact (app_nil_r (line_of r))|].
  change (line_of r' ++ journal_of (rs ++ [r]) = (line_of r' ++ journal_of rs) ++ line_of r). by rewrite IH, app_assoc.
Qed.

Lemma read_of_journal rs n r :
  Forall (fun r => r ∈ recorded_faults) rs -> r ∈ recorded_faults ->
  read_journal (journal_of rs ++ take n (line_of r)) = Some (rs ++ if (length (line_of r) <=? n)%nat then [r] else []).
Proof.
  intros Hrs Hr. unfold read_journal. rewrite lines_of_journal by done. cbn [fst].
  assert (Forall2 (fun l r => parse_fault l = Some r) (map (fun r => json_Marshal (json_of_fault r)) rs) rs) as Hold.
  { clear n Hr. induction Hrs as [|r' rs Hr' _ IH]; constructor; [|done]. by apply (Forall_in _ _ _ recorded_lines) in Hr' as [_ ?]. }
  apply (Forall_in _ _ _ recorded_lines) in Hr as [Hl Hp]. apply mapM_Some, Forall2_app; [done|].
  destruct (Nat.leb_spec (length (line_of r)) n).
  - rewrite take_ge by done. unfold line_of. rewrite complete_lines_line by done. by repeat constructor.
  - unfold line_of in *. rewrite length_app in H. cbn [length] in H. rewrite take_app_le by lia.
    rewrite complete_lines_part; [constructor|]. intros Hin. by apply Hl, (subseteq_take n).
Qed.

(** Where an append stands: [n] bytes of its line are in the file. *)
Definition appending (rs : list FaultRecord) (r : FaultRecord) (w0 w : journal) : Prop :=
  (exists n, jn_bytes w = journal_of rs ++ take n (line_of r))
  /\ (jn_durable w = jn_durable w0 \/ jn_durable w = jn_bytes w).

Lemma record_wpc f event key rs w :
  jn_bytes w = journal_of rs ->
  wpc run_journal (appending rs (fault_of event key) w) (record f event key)
    (fun ok w' => ok = true -> jn_bytes w' = journal_of (rs ++ [fault_of event key]) /\ jn_durable w' = jn_bytes w') w.
Proof.
  intros Hw. set (r := fault_of event key).
  assert (H0 : appending rs r w w) by (split; [exists 0%nat; by rewrite app_nil_r | by left]).
  assert (Hpart : forall n, appending rs r w {| jn_bytes := jn_bytes w ++ take n (line_of r); jn_durable := jn_durable w |}).
  { intros n. split; [exists n; cbn; by rewrite Hw | by left]. }
  split; [done|]. intros f1. cbn [run_journal fst snd mbind io_bind io_then]. destruct (jf_ok f1); cbn [negb]; [|by split].
  split; [done|]. intros f2. cbn [run_journal fst snd mbind io_bind io_then]. destruct (jf_ok f2); cbn [negb].
  2: { split; [apply Hpart|]. intros f3. split; [apply Hpart | done]. }
  split; [apply Hpart|]. intros f3. cbn [run_journal fst snd mbind io_bind io_then jn_bytes]. fold r. destruct (jf_ok f3); cbn [negb].
  2: { split; [apply Hpart|]. intros f4. split; [apply Hpart | done]. }
  assert (Hd : appending rs r w {| jn_bytes := jn_bytes w ++ take (length (line_of r)) (line_of r);
                                   jn_durable := jn_bytes w ++ take (length (line_of r)) (line_of r) |}).
  { split; [exists (length (line_of r)); cbn; by rewrite Hw | by right]. }
  split; [done|]. intros f4. split; [done|]. cbn [run_journal fst snd jn_bytes jn_durable]. intros _.
  by rewrite take_ge, journal_snoc, Hw.
Qed.

(** One append to the journal, cut off or failing anywhere: who reads the
    journal's complete lines sees the records that were there, and the new one
    only once the whole line is written; no line of it is ever misread.  When
    [record] returns nil the journal is the old records and the new one, and a
    power loss leaves all of it. *)
Theorem record_durable f event key d rs w w' p :
  event ∈ [FaultEnabled; FaultReached] -> (key, d) ∈ AgentHolds f ->
  Forall (fun r => r ∈ recorded_faults) rs -> jn_bytes w = journal_of rs ->
  exec run_journal w (record f event key) w' p ->
  let r := fault_of event key in
  (read_journal (jn_bytes w') = Some rs
   \/ read_journal (jn_bytes w') = Some (rs ++ [r]) /\ jn_bytes w' = journal_of (rs ++ [r]))
  /\ (jn_durable w' = jn_durable w \/ jn_durable w' = jn_bytes w')
  /\ (p = Return true -> read_journal (jn_durable w') = Some (rs ++ [r]) /\ jn_bytes w' = journal_of (rs ++ [r])).
Proof.
  intros He Hk Hrs Hw Hx r. pose proof (recorded_in f event key d He Hk) as Hr. fold r in Hr.
  pose proof (wpc_exec _ _ _ _ _ _ _ Hx (record_wpc f event key rs w Hw)) as Hp. fold r in Hp.
  pose proof (wpc_now _ _ _ _ _ Hp) as [[n Hn] Hd].
  assert (Hread := fun n => read_of_journal rs n r Hrs Hr).
  split; [|split; [done|]].
  - specialize (Hread n). destruct (Nat.leb_spec (length (line_of r)) n); [right | left; by rewrite Hn, Hread, app_nil_r].
    rewrite take_ge in Hn by done. rewrite journal_snoc, Hn. rewrite take_ge in Hread by done. by rewrite Hread.
  - intros ->. destruct Hp as [_ Hp]. destruct (Hp eq_refl) as [Hb ->]. split; [|done]. rewrite Hb, journal_snoc.
    specialize (Hread (length (line_of r))). rewrite take_ge, Nat.leb_refl in Hread by done. exact Hread.
Qed.

Definition journal_faults : AgentFaults := Build_AgentFaults "/var/log/faults" 20 0 0 0 0.
Definition journal_start : journal := {| jn_bytes := []; jn_durable := [] |}.
Definition jok : journal_fate := {| jf_ok := true; jf_part := 0 |}.
Abbreviation journal_run := (play run_journal (replicate 5 jok) journal_start (record journal_faults FaultEnabled "enrollment_agent_hold_before_request_ms")).

Lemma record_durable_witness :
  read_journal (jn_durable journal_run.1) = Some [fault_of FaultEnabled "enrollment_agent_hold_before_request_ms"].
Proof.
  destruct (record_durable journal_faults FaultEnabled "enrollment_agent_hold_before_request_ms" 20 [] journal_start
    journal_run.1 journal_run.2 ltac:(by left) ltac:(by left) (List.Forall_nil _) eq_refl (play_exec _ _ _ _)) as (_ & _ & H).
  exact (proj1 (H ltac:(vm_compute; reflexivity))).
Defined.
