(* ===== verification/Pending.v ===== *)
(** * The pending-contract check

    Models [tools/pendingcontract]: the registry of acceptance cases that are
    allowed to fail, and the run that proves each of them still does, for every
    contract package with a manifest.  The check is pure but for what it reads
    and the test runs, which are arguments. *)
From S2P Require Import Prelude GoBytes GoText GoPath GoFlag Json GoRegexp Config.

Record requirement := {
  q_Case : string; q_Owner : string; q_Expiry : string; q_Reason : string; q_Test : string; q_Deferred : bool }.
Definition zero_requirement : requirement :=
  {| q_Case := ""; q_Owner := ""; q_Expiry := ""; q_Reason := ""; q_Test := ""; q_Deferred := false |}.

Definition set_bool {T} (upd : bool -> T -> T) : setter T := fun v t =>
  match v with JNull => Some t | JBool b => Some (upd b t) | _ => None end.
Definition requirement_fields : struct_fields requirement :=
  [("case"%string, set_string (fun s r => {| q_Case := s; q_Owner := q_Owner r; q_Expiry := q_Expiry r; q_Reason := q_Reason r; q_Test := q_Test r; q_Deferred := q_Deferred r |}));
   ("owner"%string, set_string (fun s r => {| q_Case := q_Case r; q_Owner := s; q_Expiry := q_Expiry r; q_Reason := q_Reason r; q_Test := q_Test r; q_Deferred := q_Deferred r |}));
   ("expiry"%string, set_string (fun s r => {| q_Case := q_Case r; q_Owner := q_Owner r; q_Expiry := s; q_Reason := q_Reason r; q_Test := q_Test r; q_Deferred := q_Deferred r |}));
   ("reason"%string, set_string (fun s r => {| q_Case := q_Case r; q_Owner := q_Owner r; q_Expiry := q_Expiry r; q_Reason := s; q_Test := q_Test r; q_Deferred := q_Deferred r |}));
   ("test"%string, set_string (fun s r => {| q_Case := q_Case r; q_Owner := q_Owner r; q_Expiry := q_Expiry r; q_Reason := q_Reason r; q_Test := s; q_Deferred := q_Deferred r |}));
   ("deferred"%string, set_bool (fun b r => {| q_Case := q_Case r; q_Owner := q_Owner r; q_Expiry := q_Expiry r; q_Reason := q_Reason r; q_Test := q_Test r; q_Deferred := b |}))].

(** [manifest] *)
Definition manifest_fields : struct_fields (list requirement) :=
  [("requirements"%string, set_slice requirement_fields zero_requirement (fun rs => rs) (fun rs _ => rs))].
Definition parse_manifest (b : bytes) : option (list requirement) :=
  v ← json_Unmarshal b; decode_struct false manifest_fields v [].

(** ** The epic *)

(** A task's name: [[PCRG][0-9][0-9][ab]?] *)
Definition task_name : regexp :=
  seq_re [one_of [x50; x43; x52; x47]; digit; digit; opt (one_of [x61; x62])].
Definition stars : regexp := opt (Then (lit x2a) (opt (lit x2a))).
Definition taskRE : regexp :=
  seq_re [LineStart; Many true space; word "- ["; one_of [x20; x78]; word "] "; stars; Group 1 task_name; stars; WordBoundary].

Definition TrimSuffix (s suffix : string) : string :=
  if HasSuffix s suffix then of_bytes (take (String.length s - String.length suffix) (to_bytes s)) else s.
Definition half_task (name : string) : bool := HasSuffix name "-A" || HasSuffix name "-I".
Definition parent_task (name : string) : string := TrimSuffix (TrimSuffix name "-A") "-I".

(** A name has no more halves than bytes. *)
Fixpoint epic_task (fuel : nat) (epic : bytes) (name : string) : bool :=
  existsb (fun m => bool_decide (capture m 1 = to_bytes name)) (FindAllSubmatch taskRE epic)
  || match fuel with
     | S fuel => half_task name && epic_task fuel epic (parent_task name)
     | O => false
     end.
Definition epicTask (epic : bytes) (name : string) : bool := epic_task (String.length name) epic name.

Definition status_line (name : string) (line : bytes) : option bool :=
  let trimmed := trim_space line in
  if negb (prefix_of (to_bytes "- [") trimmed) then None
  else match FindSubmatch taskRE line with
       | Some m => if bool_decide (capture m 1 = to_bytes name) then Some (prefix_of (to_bytes "- [x]") trimmed) else None
       | None => None
       end.
(** [None] is not known. *)
Fixpoint epic_task_status (fuel : nat) (epic : bytes) (name : string) : option bool :=
  match omap (status_line name) (split_on x0a epic) with
  | complete :: _ => Some complete
  | [] => match fuel with
          | S fuel => if half_task name then epic_task_status fuel epic (parent_task name) else None
          | O => None
          end
  end.
Definition epicTaskStatus (epic : bytes) (name : string) : option bool := epic_task_status (String.length name) epic name.

(** ** The frozen surface *)

Definition surfaceFile : string := "contract_surface.go".
Definition surfaceMapStart : string := "acceptanceContractSurface = map[string]acceptanceCase{".
Definition surfaceCaseRE : regexp :=
  seq_re [LineStart; Many true space; lit x22; Group 1 (many1 (none_of [x22])); lit x22; lit x3a].

(** [strings.Cut] *)
Fixpoint cut_bytes (sep s : bytes) : option (bytes * bytes) :=
  if prefix_of sep s then Some ([], drop (length sep) s)
  else match s with
       | [] => None
       | c :: s => '(a, b) ← cut_bytes sep s; Some (c :: a, b)
       end.

Inductive fatal :=
  | NoManifest | EpicUnreadable | ManifestUnreadable | ManifestBad | NoRequirements
  | SurfaceUnreadable | SurfaceUndeclared | SurfaceUnclosed | SurfaceEmpty
  | MissingField (c : string) | UnknownOwner (c : string) | UnknownExpiry (c : string) | Expired (c : string)
  | Duplicate (c : string) | TestAndDeferred (c : string) | DeferredButRegistered (c : string) | NeitherTestNorDeferred (c : string)
  | CasePassed (c : string) | NoDiagnostic (c : string).

Lemma ensure_ok {E} b (e : E) : ensure b e = Ok tt <-> b = true.
Proof. by destruct b. Qed.
Lemma ensure_bind {E A} b (e : E) (k : unit -> result E A) a : (ensure b e ≫= k) = Ok a <-> b = true /\ k tt = Ok a.
Proof. destruct b; cbn; [tauto | split; [done | by intros [? _]]]. Qed.
Lemma is_empty_true s : is_empty s = true <-> s = ""%string.
Proof. unfold is_empty. by rewrite bool_decide_eq_true. Qed.
Lemma is_empty_false s : is_empty s = false <-> s <> ""%string.
Proof. unfold is_empty. by rewrite bool_decide_eq_false. Qed.

Section Check.
(** The repository's root, what a file holds, and how [go test] of a package and
    a pattern ends, with its output. *)
Context (root : string) (read : string -> option bytes) (go_test : string -> string -> bool * bytes).

Definition contract_dir (p : string) : string := Join [root; "test"; "contract"; p]%string.
Definition manifest_path (p : string) : string := Join [contract_dir p; "pending-requirements.json"%string].
(** [filepath.Rel] of a package's directory. *)
Definition rel_dir (p : string) : string := Join ["test"; "contract"; p]%string.

Definition surfaceCases (pkgDir : string) : result fatal (list bytes) :=
  b ← of_option (read (Join [pkgDir; surfaceFile])) SurfaceUnreadable;
  '(_, after) ← of_option (cut_bytes (to_bytes surfaceMapStart) b) SurfaceUndeclared;
  '(body, _) ← of_option (cut_bytes [x0a; x7d] after) SurfaceUnclosed;
  let cases := map (fun m => capture m 1) (FindAllSubmatch surfaceCaseRE body) in
  _ ← ensure (negb (zlen cases =? 0)) SurfaceEmpty;
  Ok cases.

(** A case with a test or an owed gate; whether it is a case to run. *)
Definition check_kind (surface : list bytes) (r : requirement) : result fatal bool :=
  let c := q_Case r in
  if negb (is_empty (q_Test r)) && q_Deferred r then Err (TestAndDeferred c)
  else if q_Deferred r && bool_decide (to_bytes c ∈ surface) then Err (DeferredButRegistered c)
  else if is_empty (q_Test r) && negb (q_Deferred r) then Err (NeitherTestNorDeferred c)
  else Ok (negb (is_empty (q_Test r))).

(** The checks of one requirement. *)
Definition check_one (epic : bytes) (surface : list bytes) (seen : list string) (r : requirement) : result fatal bool :=
  let c := q_Case r in
  _ ← ensure (negb (is_empty c || is_empty (q_Owner r) || is_empty (q_Expiry r) || is_empty (q_Reason r))) (MissingField c);
  _ ← ensure (epicTask epic (q_Owner r)) (UnknownOwner c);
  _ ← ensure (epicTask epic (q_Expiry r)) (UnknownExpiry c);
  _ ← ensure (match epicTaskStatus epic (q_Expiry r) with Some complete => negb complete | None => true end) (Expired c);
  _ ← ensure (bool_decide (c ∉ seen)) (Duplicate c);
  check_kind surface r.

Fixpoint check_each (epic : bytes) (surface : list bytes) (seen : list string) (rs : list requirement)
  : result fatal (list requirement) :=
  match rs with
  | [] => Ok []
  | r :: rs =>
      run ← check_one epic surface seen r;
      cases ← check_each epic surface (q_Case r :: seen) rs;
      Ok (if run : bool then r :: cases else cases)
  end.

(** [regexp.QuoteMeta] *)
Definition QuoteMeta (s : string) : string :=
  of_bytes (mjoin (map (fun c => if bool_decide (c ∈ to_bytes "\.+*?()|[]{}^$") then [x5c; c] else [c]) (to_bytes s))).

Fixpoint run_cases (pkg : string) (cases : list requirement) : result fatal unit :=
  match cases with
  | [] => Ok tt
  | r :: cases =>
      let '(passed, output) := go_test pkg ("^" +:+ QuoteMeta (q_Test r) +:+ "$") in
      _ ← ensure (negb passed) (CasePassed (q_Case r));
      _ ← ensure (negb (zlen output =? 0)) (NoDiagnostic (q_Case r));
      run_cases pkg cases
  end.

Definition by_case (a b : requirement) : Prop := String.le (q_Case a) (q_Case b).
#[export] Instance by_case_dec a b : Decision (by_case a b).
Proof. unfold by_case. apply _. Defined.

Definition checkPackage (p : string) (epic : bytes) : result fatal Z :=
  b ← of_option (read (manifest_path p)) ManifestUnreadable;
  m ← of_option (parse_manifest b) ManifestBad;
  _ ← ensure (negb (zlen m =? 0)) NoRequirements;
  surface ← surfaceCases (contract_dir p);
  cases ← check_each epic surface [] m;
  _ ← run_cases ("./" +:+ rel_dir p) (merge_sort by_case cases);
  Ok (zlen cases).

Fixpoint check_packages (ps : list string) (epic : bytes) : result fatal Z :=
  match ps with
  | [] => Ok 0
  | p :: ps => n ← checkPackage p epic; rest ← check_packages ps epic; Ok (n + rest)
  end.

(** [main]: how many cases fail as they should, and in how many packages;
    [globbed] is what [filepath.Glob] finds, in its order. *)
Definition epic_path : string := Join [root; "epics"; "20-generation-2-reboot.md"]%string.
Definition pending_main (globbed : list string) : result fatal (Z * Z) :=
  _ ← ensure (negb (zlen globbed =? 0)) NoManifest;
  epic ← of_option (read epic_path) EpicUnreadable;
  total ← check_packages (merge_sort (fun a b => String.le (manifest_path a) (manifest_path b)) globbed) epic;
  Ok (total, zlen globbed).

(** ** What passing means *)

(** A requirement the registry may hold. *)
Record admissible (epic : bytes) (surface : list bytes) (r : requirement) : Prop := {
  ad_fields : q_Case r <> ""%string /\ q_Owner r <> ""%string /\ q_Expiry r <> ""%string /\ q_Reason r <> ""%string;
  ad_tasks : epicTask epic (q_Owner r) = true /\ epicTask epic (q_Expiry r) = true;
  ad_live : epicTaskStatus epic (q_Expiry r) <> Some true;
  ad_kind : q_Test r <> ""%string <-> q_Deferred r = false;
  ad_owed : q_Deferred r = true -> to_bytes (q_Case r) ∉ surface }.
(** Its test runs and fails, saying something. *)
Definition still_fails (p : string) (r : requirement) : Prop :=
  let '(passed, output) := go_test ("./" +:+ rel_dir p) ("^" +:+ QuoteMeta (q_Test r) +:+ "$") in passed = false /\ output <> [].
Record package_ok (epic : bytes) (p : string) (n : Z) : Prop := {
  pk_requirements : exists b m surface, read (manifest_path p) = Some b /\ parse_manifest b = Some m /\ m <> []
    /\ surfaceCases (contract_dir p) = Ok surface
    /\ Forall (admissible epic surface) m /\ NoDup (map q_Case m)
    /\ Forall (fun r => q_Test r <> ""%string -> still_fails p r) m
    /\ n = zlen (filter (fun r => q_Test r <> ""%string) m) }.

Lemma check_kind_ok surface r b :
  check_kind surface r = Ok b <->
  (q_Test r <> ""%string <-> q_Deferred r = false) /\ (q_Deferred r = true -> to_bytes (q_Case r) ∉ surface) /\ b = negb (is_empty (q_Test r)).
Proof.
  unfold check_kind. destruct (is_empty (q_Test r)) eqn:HT; [apply is_empty_true in HT | apply is_empty_false in HT];
    destruct (q_Deferred r); cbn [negb andb]; try case_bool_decide as Hin;
    (split; [intros E; first [discriminate E | injection E as <-; by repeat split] | intros ([H1 H1'] & H2 & ->)]; try done; exfalso;
      first [by apply (H2 eq_refl) | by apply (H1' eq_refl) | by specialize (H1 HT)]).
Qed.

Lemma check_one_ok epic surface seen r b :
  check_one epic surface seen r = Ok b <-> admissible epic surface r /\ (q_Case r ∉ seen) /\ b = negb (is_empty (q_Test r)).
Proof.
  unfold check_one. rewrite !ensure_bind, negb_true_iff, !orb_false_iff, !is_empty_false, bool_decide_eq_true, check_kind_ok.
  assert (HL : (match epicTaskStatus epic (q_Expiry r) with Some complete => negb complete | None => true end) = true
    <-> epicTaskStatus epic (q_Expiry r) <> Some true) by (destruct (epicTaskStatus _ _) as [[]|]; naive_solver).
  rewrite HL. split.
  - intros ((((H1 & H2) & H3) & H4) & H5 & H6 & H7 & H8 & H9 & H10 & ->). split; [|by split]. split; by auto.
  - intros ([(H1 & H2 & H3 & H4) [H5 H6] H7 H8 H9] & H10 & ->). by auto 20.
Qed.

Lemma run_or_not {A} s (x y : A) : (if negb (is_empty s) then x else y) = (if decide (s <> ""%string) then x else y).
Proof. unfold is_empty. case_bool_decide; case_decide; done. Qed.

Lemma check_each_ok epic surface seen rs cs :
  check_each epic surface seen rs = Ok cs <->
  Forall (admissible epic surface) rs /\ NoDup (map q_Case rs) /\ Forall (fun r => q_Case r ∉ seen) rs
  /\ cs = filter (fun r => q_Test r <> ""%string) rs.
Proof.
  revert seen cs. induction rs as [|r rs IH]; intros seen cs; cbn [check_each map].
  { split; [intros [= <-] | intros (_ & _ & _ & ->)]; repeat split; done || constructor. }
  rewrite filter_cons. split.
  - intros (b & (Ha & Hs & ->)%check_one_ok & (cs' & (H1 & H2 & H3 & ->)%IH & [= <-])%bind_ok_inv)%bind_ok_inv.
    split; [by constructor|]. split; [|split].
    + constructor; [|done]. intros (r' & E & Hin)%list_elem_of_fmap_1. rewrite Forall_forall in H3. apply (H3 r' Hin). rewrite <- E. by left.
    + constructor; [done|]. by apply (forall_fresh q_Case) in H3 as [_ H3].
    + apply run_or_not.
  - intros ([Ha H1]%Forall_cons & [Hn H2]%NoDup_cons & [Hs H3]%Forall_cons & ->).
    rewrite (proj2 (check_one_ok epic surface seen r _)) by eauto. cbn [mbind result_bind].
    rewrite (proj2 (IH (q_Case r :: seen) (filter (fun r => q_Test r <> ""%string) rs))).
    + cbn [mbind result_bind]. f_equal. apply run_or_not.
    + split; [done|]. split; [done|]. split; [|done]. rewrite Forall_forall in *. intros r' Hin.
      apply not_elem_of_cons. split; [|by apply H3]. intros E. apply Hn. rewrite <- E. by apply list_elem_of_fmap_2.
Qed.

Lemma run_cases_ok p cs : run_cases ("./" +:+ rel_dir p) cs = Ok tt <-> Forall (still_fails p) cs.
Proof.
  induction cs as [|r cs IH]; cbn [run_cases]; [split; [constructor | done]|].
  rewrite Forall_cons, <- IH. unfold still_fails. destruct (go_test _ _) as [passed output].
  rewrite !ensure_bind, negb_true_iff, negb_true_iff, Z.eqb_neq. unfold zlen.
  assert (Z.of_nat (length output) <> 0 <-> output <> []) as -> by (destruct output; cbn; [done | split; [done | lia]]). tauto.
Qed.

Lemma checkPackage_ok p epic n : checkPackage p epic = Ok n <-> package_ok epic p n.
Proof.
  split.
  - intros (b & Hb%of_option_ok_inv & (m & Hm%of_option_ok_inv & ([] & Hne%ensure_ok & (surface & Hs & (cs & (H1 & H2 & _ & ->)%check_each_ok
      & ([] & Hr%run_cases_ok & [= <-])%bind_ok_inv)%bind_ok_inv)%bind_ok_inv)%bind_ok_inv)%bind_ok_inv)%bind_ok_inv.
    split. exists b, m, surface. split; [done|]. split; [done|]. split; [by intros ->|]. split; [done|]. split; [done|]. split; [done|]. split; [|done].
    rewrite merge_sort_Permutation in Hr. rewrite Forall_forall in *. intros r Hin Ht. apply Hr, list_elem_of_filter. done.
  - intros [(b & m & surface & Hb & Hm & Hne & Hs & H1 & H2 & H3 & ->)]. unfold checkPackage. rewrite Hb. cbn [of_option mbind result_bind].
    rewrite Hm. cbn [of_option mbind result_bind]. rewrite ensure_bind. split; [by destruct m|]. rewrite Hs. cbn [mbind result_bind].
    rewrite (proj2 (check_each_ok epic surface [] m (filter (fun r => q_Test r <> ""%string) m))); [cbn [mbind result_bind] | split; [done|]; split; [done|]; split; [|done];
      rewrite Forall_forall; intros r _; apply not_elem_of_nil].
    rewrite (proj2 (run_cases_ok p (merge_sort by_case (filter (fun r => q_Test r <> ""%string) m)))); [done|]. rewrite merge_sort_Permutation. rewrite Forall_forall in *.
    intros r [Ht Hin]%list_elem_of_filter. by apply H3.
Qed.

Lemma check_packages_ok ps epic n :
  check_packages ps epic = Ok n <-> exists ns, Forall2 (package_ok epic) ps ns /\ n = foldr Z.add 0 ns.
Proof.
  revert n. induction ps as [|p ps IH]; intros n; cbn [check_packages].
  { split; [intros [= <-]; by exists [] | intros (ns & ->%Forall2_nil_inv_l & ->); done]. }
  split.
  - intros (k & Hk%checkPackage_ok & (rest & (ns & Hns & ->)%IH & [= <-])%bind_ok_inv)%bind_ok_inv. exists (k :: ns). split; [by constructor | done].
  - intros (ns & (k & ns' & Hk & Hns & ->)%Forall2_cons_inv_l & ->). rewrite (proj2 (checkPackage_ok p epic k) Hk). cbn [mbind result_bind].
    by rewrite (proj2 (IH _) (ex_intro _ ns' (conj Hns eq_refl))).
Qed.

End Check.

(** The process, on the words of its command line: its exit status. *)
Definition pending_set : FlagSet := [("root", VString "../..")]%string.
Definition pending_command read go_test (glob : string -> list string) (args : list string) : Z :=
  match Parse pending_set args with
  | Err e => exit_on_error e
  | Ok (fs, _) =>
      let root := get_string fs "root" in
      if is_ok (pending_main root read go_test (glob root)) then 0 else 1
  end.

(** ** A registry *)

Definition text_of (lines : list string) : bytes := join_with x0a (map to_bytes lines).
Definition quoted (lines : list string) : bytes := map (fun c => if bool_decide (c = x27) then x22 else c) (text_of lines).
Definition demo_epic : bytes := text_of
  ["# Epic"; "- [x] C02 - done"; "  - [x] **P11b** - a half"; "- [ ] C05 - open"; "- [ ] C13 - open"]%string.
Definition demo_surface : bytes := quoted
  ["var acceptanceContractSurface = map[string]acceptanceCase{"; "  'AC-1': {'TestOne', 'one'},"; "  'AC-2': {'TestTwo', 'two'},"; "}"]%string.
Definition demo_manifest (kind : string) : bytes := quoted
  ["{'requirements': [{'case': 'AC-1', 'owner': 'C05-I', 'expiry': 'C05', 'reason': 'r', 'test': 'TestOne'},";
   "{'case': 'owed', 'owner': 'C13', 'expiry': 'C13', 'reason': 'r', " +:+ kind +:+ "}]}"]%string.
Definition demo_read (kind : string) (p : string) : option bytes :=
  if bool_decide (p = "r/epics/20-generation-2-reboot.md"%string) then Some demo_epic
  else if bool_decide (p = "r/test/contract/store/contract_surface.go"%string) then Some demo_surface
  else if bool_decide (p = "r/test/contract/store/pending-requirements.json"%string) then Some (demo_manifest kind)
  else None.
Definition demo_test (passes : bool) (pkg pattern : string) : bool * bytes :=
  (passes || negb (bool_decide (pkg = "./test/contract/store"%string /\ pattern = "^TestOne$"%string)), to_bytes "FAIL").

(** One case runs and fails, one gate is owed; a case that passes, and an owed
    gate that says nothing of itself, are fatal. *)
Example pending_passes : pending_main "r" (demo_read "'deferred': true") (demo_test false) ["store"%string] = Ok (1, 1).
Proof. vm_compute. reflexivity. Qed.
Example pending_fixed : pending_main "r" (demo_read "'deferred': true") (demo_test true) ["store"%string] = Err (CasePassed "AC-1").
Proof. vm_compute. reflexivity. Qed.
Example pending_unclassified : pending_main "r" (demo_read "'tset': 'x'") (demo_test false) ["store"%string] = Err (NeitherTestNorDeferred "owed").
Proof. vm_compute. reflexivity. Qed.
Example epic_halves : map (epicTask demo_epic) ["C05"; "C05-A"; "P11b"; "P11"; "C99"; "R00-I"]%string = [true; true; true; false; false; false]
  /\ epicTaskStatus demo_epic "C02-I" = Some true.
Proof. vm_compute. done. Qed.
