(* ===== verification/Archlint.v ===== *)
(** * The traceability check

    Models [tools/archlint]: the register of requirements against the documents
    it maps and the work the epic shows complete.  Reading a document, whether a
    path exists and whether an ADR of a number exists are arguments, and so is
    Unicode's lower case; the failures are values, not their printed text. *)
From S2P Require Import Prelude GoBytes GoText GoPath GoFlag Json GoRegexp Config Pending.

Record arch_row := {
  rw_invariant : bytes; rw_owner : bytes; rw_evidence : bytes; rw_gate : bytes; rw_landsAt : bytes; rw_line : Z }.

Inductive arch_fail :=
  | NoFieldDocument | NoFieldIndex | TwoFieldRows (field : bytes) | BlankEncoding (field : bytes) | DeferredEncoding (field : bytes)
  | NoFieldRow (field : Z)
  | TwoRows (id : bytes) | UndefinedInvariant (line : Z) (id : bytes) | NoRow (id : bytes)
  | FewGates (n : Z) | FewTasks (n : Z)
  | NoOwner (id : bytes) | UnscheduledGate (id : bytes) | NoLanding (id : bytes) | UnknownLanding (id : bytes)
  | MalformedEvidence (id : bytes) (toks : list bytes) | MissingEvidence (id : bytes) (paths : list bytes).

(** ** Text *)

(** [strings.Trim] of a set of ASCII bytes. *)
Fixpoint trim_left_set (cs : list byte) (s : bytes) : bytes :=
  match s with c :: s' => if bool_decide (c ∈ cs) then trim_left_set cs s' else s | [] => [] end.
Definition trim_set (cs : list byte) (s : bytes) : bytes := rev (trim_left_set cs (rev (trim_left_set cs s))).
Definition contains (sub s : bytes) : bool := bool_decide (is_Some (cut_bytes sub s)).
(** [filepath.Ext]: from the last dot of the last element. *)
Fixpoint ext_rev (s acc : bytes) : bytes :=
  match s with
  | [] => []
  | c :: s => if bool_decide (c = x2f) then [] else if bool_decide (c = x2e) then c :: acc else ext_rev s (c :: acc)
  end.
Definition Ext (s : bytes) : bytes := ext_rev (rev s) [].

(** ** Expressions *)

Definition arch_id : regexp := seq_re [word "ARCH-"; many1 upper; lit x2d; many1 digit].
Definition cell (n : nat) : regexp := Group n (Many true (none_of [x7c])).
Definition fieldRowRE : regexp :=
  seq_re [LineStart; word "| "; Group 1 (ascii_class (fun v => (49 <=? v) && (v <=? 57))); word " |"; cell 2; lit x7c; cell 3; lit x7c;
          Many true space; LineEnd].
Definition unspecified : regexp :=
  seq_re [WordBoundary;
          Group 1 (alt_re [folded_word "unspecified"; folded_word "undefined"; folded_word "tbd"; folded_word "to be decided";
                           folded_word "to be determined"; folded_word "not stated";
                           seq_re [folded_word "n"; opt (lit x2f); folded_word "a"]]);
          WordBoundary].
Definition invRE : regexp := seq_re [LineStart; word "### "; Group 1 arch_id].
Definition rowRE : regexp :=
  seq_re [TextStart; word "| "; Group 1 arch_id; word " |"; cell 2; lit x7c; cell 3; lit x7c; cell 4; lit x7c; cell 5; lit x7c].
Definition gate_section : regexp :=
  seq_re [LineStart; word "## Gate schedule"; Many false any; Or (Then LineStart (word "## ")) TextEnd].
Definition gate_heading : regexp := seq_re [LineStart; word "### "; Group 1 (many1 any_but_newline); LineEnd].
Definition arch_task : regexp :=
  seq_re [LineStart; Many true space; word "- ["; Group 1 (one_of [x20; x78]); word "] "; stars; Group 2 task_name; stars; WordBoundary].
Definition adr_number : regexp := Then (word "ADR-") (Group 1 (seq_re [digit; digit; digit; digit])).

(** ** The documents *)

Definition fieldIndexHeading : string := "#### Every field's encoding, in one place".
Definition before (sep s : bytes) : bytes := match cut_bytes sep s with Some (a, _) => a | None => s end.

Fixpoint field_rows (ms : list found) (seen : list bytes) : list arch_fail * list bytes :=
  match ms with
  | [] => ([], seen)
  | m :: ms =>
      let num := capture m 1 in let enc := trim_space (capture m 3) in
      if bool_decide (num ∈ seen) then let '(fs, s) := field_rows ms seen in (TwoFieldRows num :: fs, s)
      else
        let '(fs, s) := field_rows ms (num :: seen) in
        ((if bool_decide (enc = []) then [BlankEncoding num] else if MatchString unspecified enc then [DeferredEncoding num] else []) ++ fs, s)
  end.
Definition missing_fields (seen : list bytes) : list arch_fail :=
  omap (fun i => if bool_decide (to_bytes (FormatUint (Z.of_nat i)) ∈ seen) then None else Some (NoFieldRow (Z.of_nat i))) (seq 1 9).

Section Check.
Context (root : string) (read : string -> option bytes) (path_exists : string -> bool) (adr_exists : bytes -> bool)
        (to_lower : bytes -> bytes).
Definition doc (names : list string) : option bytes := read (Join (root :: names)).

Definition field_index (text : bytes) : option bytes :=
  '(_, rest) ← cut_bytes (to_bytes fieldIndexHeading) text;
  Some (before (x0a :: to_bytes "### ") (before (x0a :: to_bytes "#### ") rest)).
Definition checkFieldEncodings : list arch_fail :=
  match doc ["docs/adr/0005-versioned-encrypted-protocol.md"%string] with
  | None => [NoFieldDocument]
  | Some b =>
      match field_index b with
      | None => [NoFieldIndex]
      | Some rest => let '(fs, seen) := field_rows (FindAllSubmatch fieldRowRE rest) [] in fs ++ missing_fields seen
      end
  end.

Definition readInvariants : option (list bytes) :=
  b ← doc ["docs/project/ARCHITECTURE-INVARIANTS.md"%string];
  Some (remove_dups (map (fun m => capture m 1) (FindAllSubmatch invRE b))).

Definition row_of (i : nat) (line : bytes) : option arch_row :=
  m ← FindSubmatch rowRE line;
  Some {| rw_invariant := capture m 1; rw_owner := trim_space (capture m 2);
          rw_evidence := trim_set [x60] (trim_space (capture m 3)); rw_gate := trim_space (capture m 4);
          rw_landsAt := trim_set [x60] (trim_space (capture m 5)); rw_line := Z.of_nat i + 1 |}.
Definition readRegister : option (list arch_row) :=
  b ← doc ["docs/project/REQUIREMENTS-TRACEABILITY.md"%string];
  Some (omap (fun x => x) (imap row_of (split_on x0a b))).

Definition normaliseGate (s : bytes) : bytes :=
  let s := to_lower (filter (fun c => c <> x60 /\ c <> x2a) (trim_space s)) in
  if bool_decide (s ∈ map to_bytes ["pr"; "every pull request"; "pr + vm"]%string) then to_bytes "pr"
  else if bool_decide (s ∈ map to_bytes ["main"; "every merge to `main`"; "every merge to main"]%string) then to_bytes "main"
  else if bool_decide (s = to_bytes "nightly") then to_bytes "nightly"
  else if bool_decide (s ∈ map to_bytes ["rc"; "release candidate"]%string) then to_bytes "rc"
  else s.
Definition readGates : list bytes :=
  let b := default [] (doc ["docs/project/TESTING.md"%string]) in
  let sec := match FindSubmatch gate_section b with Some m => fd_text m | None => [] end in
  remove_dups (map (fun m => normaliseGate (capture m 1)) (FindAllSubmatch gate_heading sec)).

(** All tasks, and the complete ones. *)
Definition readEpic : option (list bytes * list bytes) :=
  b ← doc ["epics/20-generation-2-reboot.md"%string];
  let ms := FindAllSubmatch arch_task b in
  Some (remove_dups (map (fun m => capture m 2) ms),
        remove_dups (map (fun m => capture m 2) (filter (fun m => capture m 1 = [x78]) ms))).

Definition ownerResolves (owner : bytes) : bool :=
  let owner := trim_set [x60; x2a] (trim_space owner) in
  if bool_decide (owner = []) then false
  else match FindSubmatch adr_number owner with
       | Some m => adr_exists (capture m 1)
       | None => bool_decide (owner = to_bytes "RFC/ADR process")
       end.

(** Paths, whether there is prose, and what looks like a path and is none. *)
Fixpoint evidence_tokens (toks : list bytes) : list bytes * bool * list bytes :=
  match toks with
  | [] => ([], false, [])
  | tok :: toks =>
      let '(paths, prose, malformed) := evidence_tokens toks in
      let tok := trim_set [x60] (trim_space tok) in
      if bool_decide (tok = []) then (paths, prose, malformed)
      else if contains [x2f] tok && negb (bool_decide (Ext tok = [])) then
        if contains [x20] tok then (paths, prose, tok :: malformed) else (tok :: paths, prose, malformed)
      else (paths, true, malformed)
  end.
Definition evidencePaths (cell : bytes) : list bytes * bool * list bytes := evidence_tokens (split_on x2c cell).
Definition evidence_exists (rel : bytes) : bool := path_exists (Join [root; of_bytes rel]).

(** ** The check *)

Inductive evidence_state := NotOwed | Broken (f : arch_fail) | Mixed | Prose | Paid.
Definition evidence_of (complete : list bytes) (r : arch_row) : evidence_state :=
  if negb (bool_decide (rw_landsAt r ∈ complete)) then NotOwed
  else
    let '(paths, prose, malformed) := evidencePaths (rw_evidence r) in
    let missing := filter (fun p => evidence_exists p = false) paths in
    if 0 <? zlen malformed then Broken (MalformedEvidence (rw_invariant r) malformed)
    else if 0 <? zlen missing then Broken (MissingEvidence (rw_invariant r) missing)
    else if prose && (0 <? zlen paths) then Mixed
    else if prose then Prose
    else Paid.

Definition check_row (gates tasks complete : list bytes) (r : arch_row) : list arch_fail :=
  (if ownerResolves (rw_owner r) then [] else [NoOwner (rw_invariant r)])
  ++ (if negb (bool_decide (rw_gate r = [])) && negb (bool_decide (normaliseGate (rw_gate r) ∈ gates)) then [UnscheduledGate (rw_invariant r)] else [])
  ++ (if bool_decide (rw_landsAt r = []) then [NoLanding (rw_invariant r)]
      else if negb (bool_decide (rw_landsAt r ∈ tasks)) then [UnknownLanding (rw_invariant r)]
      else match evidence_of complete r with Broken f => [f] | _ => [] end).

Fixpoint check_register (invariants : list bytes) (rows : list arch_row) (seen : list bytes) : list arch_fail :=
  match rows with
  | [] => []
  | r :: rows =>
      (if bool_decide (rw_invariant r ∈ seen) then [TwoRows (rw_invariant r)] else [])
      ++ (if bool_decide (rw_invariant r ∈ invariants) then [] else [UndefinedInvariant (rw_line r) (rw_invariant r)])
      ++ check_register invariants rows (rw_invariant r :: seen)
  end.

Definition arch_fails (invariants : list bytes) (rows : list arch_row) (tasks complete : list bytes) : list arch_fail :=
  checkFieldEncodings ++ check_register invariants rows []
  ++ omap (fun id => if bool_decide (id ∈ map rw_invariant rows) then None else Some (NoRow id)) invariants
  ++ (if zlen readGates <? 3 then [FewGates (zlen readGates)] else [])
  ++ (if zlen tasks <? 20 then [FewTasks (zlen tasks)] else [])
  ++ mjoin (map (check_row readGates tasks complete) rows).

(** [main]'s exit status: 2 when the documents are not reached. *)
Definition archlint : Z :=
  match readInvariants, readRegister with
  | Some invariants, Some rows =>
      if (zlen invariants <? 20) || (zlen rows <? 20) then 2
      else match readEpic with
           | None => 2
           | Some (tasks, complete) => if bool_decide (arch_fails invariants rows tasks complete = []) then 0 else 1
           end
  | _, _ => 2
  end.

(** ** What passing means *)

Definition field_num (m : found) : bytes := capture m 1.
(** The index of the envelope's fields is there, with one row for each of the
    nine, none blank and none putting its encoding off. *)
Definition fields_specified : Prop :=
  exists b rest, doc ["docs/adr/0005-versioned-encrypted-protocol.md"%string] = Some b /\ field_index b = Some rest
    /\ let ms := FindAllSubmatch fieldRowRE rest in
       NoDup (map field_num ms)
       /\ Forall (fun m => trim_space (capture m 3) <> [] /\ MatchString unspecified (trim_space (capture m 3)) = false) ms
       /\ forall i, (1 <= i <= 9)%nat -> to_bytes (FormatUint (Z.of_nat i)) ∈ map field_num ms.
Record row_ok (gates tasks complete : list bytes) (r : arch_row) : Prop := {
  ro_owner : ownerResolves (rw_owner r) = true;
  ro_gate : rw_gate r <> [] -> normaliseGate (rw_gate r) ∈ gates;
  ro_lands : rw_landsAt r <> [] /\ rw_landsAt r ∈ tasks;
  ro_evidence : rw_landsAt r ∈ complete ->
    (evidencePaths (rw_evidence r)).2 = [] /\ Forall (fun p => evidence_exists p = true) (evidencePaths (rw_evidence r)).1.1 }.

Lemma field_rows_spec ms seen fs s :
  field_rows ms seen = (fs, s) ->
  (forall n, n ∈ s <-> n ∈ seen \/ n ∈ map field_num ms)
  /\ (fs = [] <-> NoDup (map field_num ms) /\ Forall (fun m => field_num m ∉ seen) ms
       /\ Forall (fun m => trim_space (capture m 3) <> [] /\ MatchString unspecified (trim_space (capture m 3)) = false) ms).
Proof.
  revert seen fs s. induction ms as [|m ms IH]; intros seen fs s; cbn [field_rows map].
  { intros [= <- <-]. split; [intros n; set_solver|]. split; [|done]. intros _. repeat split; constructor. }
  fold (field_num m). case_bool_decide as Hin.
  - destruct (field_rows ms seen) as [fs' s'] eqn:E. destruct (IH _ _ _ E) as [Hs _]. intros [= <- <-].
    split; [intros n; rewrite Hs; set_solver|]. split; [done|]. intros (_ & [Hn _]%Forall_cons & _). done.
  - destruct (field_rows ms (field_num m :: seen)) as [fs' s'] eqn:E. destruct (IH _ _ _ E) as [Hs Hf]. intros [= <- <-].
    split; [intros n; rewrite Hs; set_solver|]. rewrite app_nil, Hf, NoDup_cons, !Forall_cons, (forall_fresh field_num).
    assert ((if bool_decide (trim_space (capture m 3) = []) then [BlankEncoding (field_num m)]
             else if MatchString unspecified (trim_space (capture m 3)) then [DeferredEncoding (field_num m)] else []) = []
            <-> trim_space (capture m 3) <> [] /\ MatchString unspecified (trim_space (capture m 3)) = false) as ->.
    { case_bool_decide; [naive_solver|]. rewrite unless_nil. naive_solver. }
    tauto.
Qed.

Lemma missing_fields_nil seen : missing_fields seen = [] <-> forall i, (1 <= i <= 9)%nat -> to_bytes (FormatUint (Z.of_nat i)) ∈ seen.
Proof.
  unfold missing_fields.
  rewrite (omap_unless_nil (fun i => to_bytes (FormatUint (Z.of_nat i)) ∈ seen) (fun i => NoFieldRow (Z.of_nat i))), Forall_forall.
  split; intros H i; [intros Hi; apply H, elem_of_seq; lia|intros Hi%elem_of_seq; apply H; lia].
Qed.

Lemma checkFieldEncodings_spec : checkFieldEncodings = [] <-> fields_specified.
Proof.
  unfold checkFieldEncodings, fields_specified. destruct (doc _) as [b|]; [|naive_solver].
  destruct (field_index b) as [rest|] eqn:Er; [|naive_solver].
  destruct (field_rows _ []) as [fs seen] eqn:E. destruct (field_rows_spec _ _ _ _ E) as [Hs Hf].
  rewrite app_nil, Hf, missing_fields_nil. setoid_rewrite Hs.
  assert (forall ms : list found, Forall (fun m => field_num m ∉ []) ms) as Hnone by (intros; apply Forall_true; set_solver).
  split.
  - intros ((Hn & _ & Hg) & Hi). exists b, rest. repeat split; [done..|]. intros i Hb.
    destruct (Hi i Hb) as [H|H]; [by apply not_elem_of_nil in H|done].
  - intros (b' & rest' & [= <-] & Hr & Hn & Hg & Hi). rewrite Er in Hr. injection Hr as <-.
    repeat split; [done..|]. intros i Hb. right. by apply Hi.
Qed.

Lemma check_register_spec invariants rows seen :
  check_register invariants rows seen = [] <->
  NoDup (map rw_invariant rows) /\ Forall (fun r => rw_invariant r ∉ seen) rows /\ Forall (fun r => rw_invariant r ∈ invariants) rows.
Proof.
  revert seen. induction rows as [|r rows IH]; intros seen; cbn [check_register map].
  { split; [|done]. intros _. repeat split; constructor. }
  rewrite !app_nil, unless_nil, if_nil, bool_decide_eq_true, bool_decide_eq_false, IH, NoDup_cons, !Forall_cons.
  rewrite (forall_fresh rw_invariant).
  tauto.
Qed.

Lemma evidence_sound complete r :
  (forall f, evidence_of complete r <> Broken f) <->
  (rw_landsAt r ∈ complete ->
   (evidencePaths (rw_evidence r)).2 = [] /\ Forall (fun p => evidence_exists p = true) (evidencePaths (rw_evidence r)).1.1).
Proof.
  unfold evidence_of. case_bool_decide as Hc; cbn [negb]; [|naive_solver].
  destruct (evidencePaths _) as [[paths prose] malformed]. cbn [fst snd].
  destruct malformed as [|m malformed].
  2: { rewrite (zlen_cons_pos m malformed). split; [intros H; by destruct (H _ eq_refl)|intros H; by destruct (H Hc)]. }
  replace (0 <? zlen (@nil bytes)) with false by done.
  assert (filter (fun p => evidence_exists p = false) paths = [] <-> Forall (fun p => evidence_exists p = true) paths) as Hm.
  { induction paths as [|p paths IH]; [done|]. rewrite Forall_cons, <- IH. destruct (evidence_exists p) eqn:Ep.
    - rewrite filter_cons_False by congruence. naive_solver.
    - rewrite filter_cons_True by done. naive_solver. }
  destruct (filter _ paths) as [|q missing].
  - replace (0 <? zlen (@nil bytes)) with false by done. split; [naive_solver|]. intros _ f. by destruct prose, (0 <? zlen paths).
  - rewrite (zlen_cons_pos q missing). split; [intros H; by destruct (H _ eq_refl)|].
    intros H. destruct (H Hc) as [_ H']. by apply Hm in H'.
Qed.

Lemma check_row_spec gates tasks complete r : check_row gates tasks complete r = [] <-> row_ok gates tasks complete r.
Proof.
  unfold check_row. rewrite !app_nil, if_nil, unless_nil, andb_false_iff, !negb_false_iff, !bool_decide_eq_true.
  assert ((rw_gate r = [] \/ normaliseGate (rw_gate r) ∈ gates) <-> (rw_gate r <> [] -> normaliseGate (rw_gate r) ∈ gates)) as ->
    by (destruct (decide (rw_gate r = [])); tauto).
  assert (((if bool_decide (rw_landsAt r = []) then [NoLanding (rw_invariant r)]
            else if negb (bool_decide (rw_landsAt r ∈ tasks)) then [UnknownLanding (rw_invariant r)]
            else match evidence_of complete r with Broken f => [f] | _ => [] end) = [])
          <-> (rw_landsAt r <> [] /\ rw_landsAt r ∈ tasks) /\ forall f, evidence_of complete r <> Broken f) as ->.
  { case_bool_decide; [naive_solver|]. case_bool_decide; cbn [negb]; [|naive_solver]. destruct (evidence_of complete r); naive_solver. }
  rewrite evidence_sound. split; [intros (? & ? & ? & ?); by constructor|intros []; tauto].
Qed.

Lemma arch_fails_nil invariants rows tasks complete :
  arch_fails invariants rows tasks complete = [] <->
  (20 <= zlen tasks /\ 3 <= zlen readGates) /\ fields_specified /\ NoDup (map rw_invariant rows)
  /\ (forall id, id ∈ map rw_invariant rows <-> id ∈ invariants) /\ Forall (row_ok readGates tasks complete) rows.
Proof.
  unfold arch_fails.
  rewrite !app_nil, checkFieldEncodings_spec, check_register_spec, (omap_unless_nil (fun id => id ∈ map rw_invariant rows) NoRow).
  rewrite !unless_nil, !Z.ltb_ge, mjoin_map_nil, (Forall_iff _ rows _ (check_row_spec readGates tasks complete)).
  assert ((forall id, id ∈ map rw_invariant rows <-> id ∈ invariants) <->
          Forall (fun r => rw_invariant r ∈ invariants) rows /\ Forall (fun id => id ∈ map rw_invariant rows) invariants) as ->.
  { rewrite !Forall_forall. split; [intros H; split; [intros r Hr; apply H, list_elem_of_fmap_2, Hr|intros id; apply H]|].
    intros [H1 H2] id. split; [intros (r & -> & Hr)%list_elem_of_fmap_1; by apply H1|apply H2]. }
  assert (Forall (fun r => rw_invariant r ∉ []) rows) by (apply Forall_true; set_solver).
  tauto.
Qed.

(** The traceability check passes exactly when the documents are reached
    (at least 20 invariants, rows and tasks, three gates), every one of the
    envelope's nine fields has one row with a written encoding, the register has
    exactly one row for every invariant and none for anything else, and every
    row names a present document as its owner, a scheduled gate if any, and a
    task of the epic, with every path of its evidence existing and none
    malformed once that task is complete. *)
Theorem archlint_exact :
  archlint = 0 <->
  exists invariants rows tasks complete,
    readInvariants = Some invariants /\ readRegister = Some rows /\ readEpic = Some (tasks, complete)
    /\ (20 <= zlen invariants /\ 20 <= zlen rows /\ 20 <= zlen tasks /\ 3 <= zlen readGates)
    /\ fields_specified
    /\ NoDup (map rw_invariant rows)
    /\ (forall id, id ∈ map rw_invariant rows <-> id ∈ invariants)
    /\ Forall (row_ok readGates tasks complete) rows.
Proof.
  unfold archlint. destruct readInvariants as [invariants|]; [|naive_solver]. destruct readRegister as [rows|]; [|naive_solver].
  destruct (Z.ltb_spec (zlen invariants) 20), (Z.ltb_spec (zlen rows) 20); cbn [orb].
  1-3: (split; [done|]); intros (? & ? & ? & ? & [= <-] & [= <-] & _ & ? & _); lia.
  destruct readEpic as [[tasks complete]|]; [|naive_solver]. pose proof (arch_fails_nil invariants rows tasks complete) as H'.
  case_bool_decide as Hf; (split; [intros Hz|intros (? & ? & ? & ? & [= <-] & [= <-] & [= <- <-] & ? & ?)]); [|tauto|done|tauto].
  exists invariants, rows, tasks, complete. tauto.
Qed.
End Check.

(** The process, on the words of its command line. *)
Definition archlint_set : FlagSet := [("root", VString ".")]%string.
Definition archlint_main read path_exists adr_exists lower (args : list string) : Z :=
  match Parse archlint_set args with
  | Err e => exit_on_error e
  | Ok (fs, _) => archlint (get_string fs "root") read path_exists adr_exists lower
  end.

(** ** Examples *)

Definition nl : bytes := [x0a].
Definition lines (l : list string) : bytes := mjoin (map (fun s => to_bytes s ++ nl) l).
Definition numbered (a : string) (i : nat) (b : string) : string := of_bytes (to_bytes a ++ to_bytes (FormatUint (Z.of_nat i)) ++ to_bytes b).
Definition demo_fields (six : string) : list string :=
  ["| 6 | Timestamp |  |"; fieldIndexHeading]%string
  ++ map (fun i => if (i =? 6)%nat then six else numbered "| " i " | Field | bytes |") (seq 1 9)
  ++ ["### Next"; "| 6 | Timestamp | TBD |"]%string.
Definition demo_repo (six : string) (evidence : string) (path : string) : option bytes :=
  if bool_decide (path = "r/docs/adr/0005-versioned-encrypted-protocol.md"%string) then Some (lines (demo_fields six))
  else if bool_decide (path = "r/docs/project/ARCHITECTURE-INVARIANTS.md"%string) then
    Some (lines (map (fun i => numbered "### ARCH-A-" i ": text") (seq 10 20)))
  else if bool_decide (path = "r/docs/project/REQUIREMENTS-TRACEABILITY.md"%string) then
    Some (lines ("| Invariant | Owner |"%string :: map (fun i => of_bytes (to_bytes (numbered "| ARCH-A-" i " | `ADR-0002` | ") ++ to_bytes evidence ++ to_bytes " | PR | `C05` |")) (seq 10 20)))
  else if bool_decide (path = "r/docs/project/TESTING.md"%string) then
    Some (lines ["### Early"; "## Gate schedule"; "### Every pull request"; "### Every merge to `main`"; "### Nightly"; "## Later"; "### RC"]%string)
  else if bool_decide (path = "r/epics/20-generation-2-reboot.md"%string) then
    Some (lines ("- [x] **C05** done"%string :: map (fun i => numbered "  - [ ] P" i " later") (seq 10 20)))
  else None.
Definition demo_lower (s : bytes) : bytes :=
  map (fun c => if (65 <=? byte_val c) && (byte_val c <=? 90) then byte_of (byte_val c + 32) else c) s.
Definition demo_arch (six evidence : string) : Z :=
  archlint "r" (demo_repo six evidence) (fun p => bool_decide (p = "r/a/b_test.go"%string)) (fun n => bool_decide (n = to_bytes "0002")) demo_lower.

(** A table before the index and one after it are not read. *)
Example demo_fields_ok : checkFieldEncodings "r" (demo_repo "| 6 | Timestamp | int64 |" "") = []
  /\ checkFieldEncodings "r" (demo_repo "| 6 | Timestamp |  |" "") = [BlankEncoding (to_bytes "6")]
  /\ checkFieldEncodings "r" (demo_repo "| 6 | Timestamp | to be DECIDED. |" "") = [DeferredEncoding (to_bytes "6")]
  /\ checkFieldEncodings "r" (demo_repo "| 7 | Nonce | bytes |" "") = [TwoFieldRows (to_bytes "7"); NoFieldRow 6].
Proof. vm_compute. done. Qed.
Example demo_gates : readGates "r" (demo_repo "" "") demo_lower = map to_bytes ["pr"; "main"; "nightly"]%string.
Proof. vm_compute. done. Qed.
Example demo_evidence : evidencePaths (to_bytes "`a/b_test.go`, a rule in prose, a/c.go (later),")
  = ([to_bytes "a/b_test.go"], true, [to_bytes "a/c.go (later)"]).
Proof. vm_compute. done. Qed.
Example demo_arch_passes : map (demo_arch "| 6 | Timestamp | int64 |") ["`a/b_test.go`"; "prose"; "a/missing.go"; "a/b_test.go (later)"]%string = [0; 0; 1; 1].
Proof. vm_compute. done. Qed.
