(* ===== verification/Capcheck.v ===== *)
(** * The capability catalog check

    Models [tools/capcheck]: the catalog of archived capabilities against the
    coverage map and the sources both claim to describe.  Reading a file and
    running git are arguments, and so is the order in which each [range] over
    the coverage map visits it, which Go leaves open; problems are values, not
    their printed text. *)
From S2P Require Import Prelude GoBytes GoText GoPath Json GoRegexp Config Pending Archlint.

Definition catalogPath : string := "docs/project/FUTURE-CAPABILITIES.md".
Definition coveragePath : string := "docs/transition/capability-coverage.json".
Definition generationOneFinalSHA : string := "93eb147f7fcc559d31f2cce77d81e791f01673f8".

Record Entry := {
  e_ID : string; e_Name : string; e_Status : string; e_Scope : string; e_Source : string;
  e_Gaps : list string; e_Notes : list string }.
Record SourceItem := { si_File : string; si_Locator : string }.
#[export] Instance SourceItem_eq_dec : EqDecision SourceItem.
Proof. solve_decision. Defined.

Record also_entry := { al_Entry : string; al_Relation : string }.
Record source := {
  s_File : string; s_Locator : string; s_Entry : string; s_Relation : string; s_Kind : string; s_Text : string;
  s_Also : list also_entry }.
Record coverage := { SourceItemCount : Z; CatalogEntryCount : Z; cov_Sources : gmap string source }.

(** ** The coverage map *)

Definition also_fields : struct_fields also_entry :=
  [("entry"%string, set_string (fun v a => {| al_Entry := v; al_Relation := al_Relation a |}));
   ("relation"%string, set_string (fun v a => {| al_Entry := al_Entry a; al_Relation := v |}))].
Definition zero_source : source := Build_source "" "" "" "" "" "" [].
Definition source_fields : struct_fields source :=
  [("file"%string, set_string (fun v s => Build_source v (s_Locator s) (s_Entry s) (s_Relation s) (s_Kind s) (s_Text s) (s_Also s)));
   ("locator"%string, set_string (fun v s => Build_source (s_File s) v (s_Entry s) (s_Relation s) (s_Kind s) (s_Text s) (s_Also s)));
   ("entry"%string, set_string (fun v s => Build_source (s_File s) (s_Locator s) v (s_Relation s) (s_Kind s) (s_Text s) (s_Also s)));
   ("relation"%string, set_string (fun v s => Build_source (s_File s) (s_Locator s) (s_Entry s) v (s_Kind s) (s_Text s) (s_Also s)));
   ("kind"%string, set_string (fun v s => Build_source (s_File s) (s_Locator s) (s_Entry s) (s_Relation s) v (s_Text s) (s_Also s)));
   ("text"%string, set_string (fun v s => Build_source (s_File s) (s_Locator s) (s_Entry s) (s_Relation s) (s_Kind s) v (s_Also s)));
   ("also_entries"%string, set_slice also_fields (Build_also_entry "" "") s_Also
      (fun v s => Build_source (s_File s) (s_Locator s) (s_Entry s) (s_Relation s) (s_Kind s) (s_Text s) v))].
(** A member decodes into a fresh source; the last of a name stays. *)
Fixpoint decode_sources (ms : list (bytes * json)) (m : gmap string source) : option (gmap string source) :=
  match ms with
  | [] => Some m
  | (k, v) :: ms => s ← decode_struct false source_fields v zero_source; decode_sources ms (<[of_bytes k := s]> m)
  end.
Definition coverage_fields : struct_fields coverage :=
  [("source_item_count"%string, set_int (fun v c => Build_coverage v (CatalogEntryCount c) (cov_Sources c)));
   ("catalog_entry_count"%string, set_int (fun v c => Build_coverage (SourceItemCount c) v (cov_Sources c)));
   ("sources"%string, fun v c =>
      match v with
      | JNull => Some (Build_coverage (SourceItemCount c) (CatalogEntryCount c) ∅)
      | JObj ms => m ← decode_sources ms (cov_Sources c); Some (Build_coverage (SourceItemCount c) (CatalogEntryCount c) m)
      | _ => None
      end)].
Definition parse_coverage (b : bytes) : option coverage :=
  v ← json_Unmarshal b; decode_struct false coverage_fields v (Build_coverage 0 0 ∅).

(** ** Vocabularies and patterns *)

Definition validStatus : list string := ["implemented"; "partial"; "planned"; "unknown"; "reference"]%string.
Definition validScope : list string := ["v0.6"; "Future"]%string.
Definition validRel : list string := ["primary"; "refinement"; "duplicate"; "domain-overview"]%string.
Definition validKind : list string :=
  ["capability-bullet"; "roadmap-entry"; "epic-checkbox"; "runbook-section"; "details-section"; "state-module"; "changelog-fragment"]%string.

Definition cap_id : regexp := seq_re [word "CAP-"; many1 upper; lit x2d; many1 digit].
Definition lazily : regexp := Many false any_but_newline.
Definition not_space : regexp := none_of [x09; x0a; x0c; x0d; x20].
Definition rowRe : regexp :=
  seq_re [TextStart; word "| `"; Group 1 cap_id; word "` | "; Group 2 lazily; word " | "; Group 3 (many1 not_space); word " | ";
          Group 4 (many1 not_space); word " | `"; Group 5 lazily; word "` |"; TextEnd].
Definition em_dash : regexp := One (fun r => bool_decide (r = [xe2; x80; x94])).
Definition bulletRe : regexp :=
  seq_re [TextStart; word "- `"; Group 1 cap_id; word "` "; em_dash; word " "; Group 2 (Many true any_but_newline); TextEnd].
Definition lineRe : regexp := seq_re [TextStart; Group 1 lazily; word " L"; Group 2 (many1 digit); TextEnd].
Definition number (n : nat) : regexp := Group n (many1 digit).
Definition totalsRe : regexp :=
  seq_re [word "| implemented / partial / planned / unknown | "; number 1; word " / "; number 2; word " / "; number 3; word " / "; number 4; word " |"].
Definition scopeTotalsRe : regexp :=
  seq_re [word "| `v0.6` / `Future` | "; number 1; word " / "; number 2; word " |"].
Definition checkbox : regexp :=
  seq_re [TextStart; Many true space; one_of [x2d; x2a]; word " ["; one_of [x20; x78]; word "] "].
Definition sub (m : found) (n : nat) : string := of_bytes (capture m n).

(** The value [strconv.Atoi] gives with or without an error: 0 for what is no
    number, the nearest [int] for one out of range. *)
Fixpoint uint_or_max (acc : Z) (s : bytes) : option Z :=
  match s with
  | [] => Some acc
  | c :: s =>
      if negb (is_digit c) then None
      else if (2 ^ 64 - 1) / 10 + 1 <=? acc then Some (2 ^ 64 - 1)
      else let n := acc * 10 + (byte_val c - 48) in if 2 ^ 64 - 1 <? n then Some (2 ^ 64 - 1) else uint_or_max n s
  end.
Definition Atoi (s : string) : Z :=
  let b := to_bytes s in
  let '(neg, digits) := match b with
                        | c :: rest => if bool_decide (c = x2d) then (true, rest) else if bool_decide (c = x2b) then (false, rest) else (false, b)
                        | [] => (false, [])
                        end in
  match digits with
  | [] => 0
  | _ => match uint_or_max 0 digits with
         | None => 0
         | Some n => if neg then - Z.min n (2 ^ 63) else Z.min n (2 ^ 63 - 1)
         end
  end.

(** [strings.Fields] *)
Fixpoint fields_from (fuel : nat) (s cur : bytes) : list bytes :=
  let flush := if bool_decide (cur = []) then [] else [cur] in
  match fuel, s with
  | S fuel, c :: s' =>
      match strip_one unicode_spaces s with
      | Some rest => flush ++ fields_from fuel rest []
      | None => fields_from fuel s' (cur ++ [c])
      end
  | _, _ => flush
  end.
Definition string_fields (s : bytes) : list bytes := fields_from (length s) s [].
Definition norm_space (s : bytes) : bytes := join_with x20 (string_fields s).

(** What [strings.ToLower] and the filter keep of a rune; two others have an
    ASCII lower case. *)
Definition norm_rune (r : rune) : bytes :=
  match r with
  | [c] => let v := byte_val c in
      if (65 <=? v) && (v <=? 90) then [byte_of (v + 32)]
      else if (97 <=? v) && (v <=? 122) || (48 <=? v) && (v <=? 57) then [c] else []
  | _ => if bool_decide (r = [xc4; xb0]) then [x69] else if bool_decide (r = [xe2; x84; xaa]) then [x6b] else []
  end.
Definition norm_name (s : string) : bytes := mjoin (map norm_rune (runes (to_bytes s))).

(** ** The catalog *)

Inductive cap_fatal :=
  | CatalogUnreadable | CatalogBad | CoverageUnreadable | CoverageBad | SourceUnreadable (file : string) | DirectoryUnreadable (dir : string).

Inductive block := Elsewhere | GapBlock | NoteBlock.
Record catalog_state := { cs_entries : list Entry; cs_idx : gmap string nat; cs_block : block }.
Definition add_bullet (k : block) (text : string) (e : Entry) : Entry :=
  match k with
  | GapBlock => Build_Entry (e_ID e) (e_Name e) (e_Status e) (e_Scope e) (e_Source e) (e_Gaps e ++ [text]) (e_Notes e)
  | _ => Build_Entry (e_ID e) (e_Name e) (e_Status e) (e_Scope e) (e_Source e) (e_Gaps e) (e_Notes e ++ [text])
  end.
(** A row, or a bullet of the block the line stands in. *)
Definition catalog_row (line : bytes) (st : catalog_state) : option catalog_state :=
  match FindSubmatch rowRe line with
  | Some m =>
      Some {| cs_entries := cs_entries st ++ [Build_Entry (sub m 1) (sub m 2) (sub m 3) (sub m 4) (sub m 5) [] []];
              cs_idx := <[sub m 1 := length (cs_entries st)]> (cs_idx st); cs_block := cs_block st |}
  | None =>
      match cs_block st with
      | Elsewhere => Some st
      | k =>
          match FindSubmatch bulletRe line with
          | None => if prefix_of (to_bytes "- ") line then None else Some st
          | Some m =>
              i ← cs_idx st !! sub m 1;
              Some {| cs_entries := alter (add_bullet k (sub m 2)) i (cs_entries st); cs_idx := cs_idx st; cs_block := k |}
          end
      end
  end.
Definition in_block (k : block) (st : catalog_state) : catalog_state :=
  {| cs_entries := cs_entries st; cs_idx := cs_idx st; cs_block := k |}.
Definition catalog_line (line : bytes) (st : catalog_state) : option catalog_state :=
  if prefix_of (to_bytes "Known gaps and limitations:") line then Some (in_block GapBlock st)
  else if prefix_of (to_bytes "Scope and status notes:") line then Some (in_block NoteBlock st)
  else catalog_row line (if prefix_of (to_bytes "#") line || prefix_of (to_bytes "| ID |") line then in_block Elsewhere st else st).
Fixpoint catalog_lines (ls : list bytes) (st : catalog_state) : option catalog_state :=
  match ls with [] => Some st | l :: ls => st ← catalog_line l st; catalog_lines ls st end.
Definition parseCatalog (md : bytes) : option (list Entry) :=
  st ← catalog_lines (split_on x0a md) {| cs_entries := []; cs_idx := ∅; cs_block := Elsewhere |};
  if bool_decide (cs_entries st = []) then None else Some (cs_entries st).

(** ** The archived sources *)

Definition gitEnvVars : list string :=
  ["GIT_DIR"; "GIT_WORK_TREE"; "GIT_COMMON_DIR"; "GIT_INDEX_FILE"; "GIT_OBJECT_DIRECTORY"; "GIT_ALTERNATE_OBJECT_DIRECTORIES";
   "GIT_CEILING_DIRECTORIES"; "GIT_DISCOVERY_ACROSS_FILESYSTEM"; "GIT_NAMESPACE"; "GIT_PREFIX"]%string.
Definition names_repository (kv : string) : bool := existsb (fun v => HasPrefix kv (v +:+ "=")) gitEnvVars.
Definition withoutGitEnv (env : list string) : list string := filter (fun kv => names_repository kv = false) env.

Inductive problem :=
  | DuplicateIdentifier (id : string) | UnknownEntry (id : string) | NotCovered (it : SourceItem) | InventedItem (it : SourceItem)
  | Orphaned (id : string) | ItemCount (declared actual : Z) | EntryCount (declared actual : Z)
  | CitesUnreadable (id file : string) | CitesOutOfRange (id file : string) (n : Z) | BadStatus (id : string) | BadScope (id : string)
  | EmptyName (id : string) | BadKind (kind : string) | BadRelation (relation : string) | AlsoNotDuplicate (id : string) | AlsoNotPrimary (it : SourceItem)
  | CitesRefinement (id : string) | CitesOther (id want : string) | TextUnreadable (file : string) | TextOutOfRange (it : SourceItem) | TextDiffers (it : SourceItem)
  | NoTotals | WrongTotal (k : string) (declared actual : Z) | NoScopeTotals | WrongScopeTotals
  | ImplementedWithGap (id : string) | PartialWithoutGap (id : string) | GapRestatesName (id : string).

Definition unless (b : bool) (p : problem) : list problem := if b then [] else [p].

Section Check.
(** The checkout, its environment, its files, git run at a directory under an
    environment, and the order in which the n-th [range] over the map goes. *)
Context (root : string) (environ : list string) (read : string -> option bytes)
        (git : string -> list string -> list string -> option bytes) (visit : nat -> list source -> list source).

Definition gitAt (args : list string) : option bytes := git root (withoutGitEnv environ) args.
Definition showAtPin (file : string) : option bytes := gitAt ["show"%string; generationOneFinalSHA +:+ ":" +:+ file].
Definition lsAtPin (dir : string) : option (list string) :=
  b ← gitAt ["ls-tree"%string; "--name-only"%string; generationOneFinalSHA; dir +:+ "/"];
  Some (merge_sort String.le (map of_bytes (filter (fun l => l <> []) (split_on x0a (trim_space b))))).

Definition scan (file : string) (match_line : bytes -> bool) : result cap_fatal (list SourceItem) :=
  b ← of_option (showAtPin file) (SourceUnreadable file);
  Ok (omap (fun x => x) (imap (fun n line => if match_line line then Some {| si_File := file; si_Locator := "L" +:+ FormatInt (Z.of_nat n + 1) |} else None)
                          (split_on x0a b))).
Fixpoint scan_all (files : list string) (match_line : bytes -> bool) : result cap_fatal (list SourceItem) :=
  match files with
  | [] => Ok []
  | f :: files => a ← scan f match_line; b ← scan_all files match_line; Ok (a ++ b)
  end.
Definition starts (p : string) (line : bytes) : bool := prefix_of (to_bytes p) line.
Definition gen1_epic (p : string) : bool := HasSuffix p ".md" && negb (HasPrefix (Base p) "20-").

Definition enumerateSources : result cap_fatal (list SourceItem) :=
  features ← scan "FEATURES.md" (starts "- **");
  roadmap ← scan "docs/project/ROADMAP.md" (starts "#### ");
  details ← scan "PROJECT-DETAILS.md" (starts "### ");
  matrix ← scan "docs/project/STATE-SUPPORT-MATRIX.md" (starts "### ");
  epics ← of_option (lsAtPin "epics") (DirectoryUnreadable "epics");
  boxes ← scan_all (filter (fun p => gen1_epic p = true) epics) (MatchString checkbox);
  runbooks ← of_option (lsAtPin "docs/runbooks") (DirectoryUnreadable "docs/runbooks");
  sections ← scan_all (filter (fun p => HasSuffix p ".md" = true) runbooks) (starts "## ");
  frags ← of_option (lsAtPin ".changes/unreleased") (DirectoryUnreadable ".changes/unreleased");
  Ok (features ++ roadmap ++ details ++ matrix ++ boxes ++ sections
      ++ map (fun p => {| si_File := p; si_Locator := "-" |}) (filter (fun p => HasSuffix p ".yaml" = true) frags)).

(** ** The checks *)

Definition item_of (s : source) : SourceItem := {| si_File := s_File s; si_Locator := s_Locator s |}.
Definition place_of (s : source) : string := s_File s +:+ " " +:+ s_Locator s.

Fixpoint duplicate_ids (es : list Entry) (seen : list string) : list problem :=
  match es with
  | [] => []
  | e :: es => unless (negb (bool_decide (e_ID e ∈ seen))) (DuplicateIdentifier (e_ID e)) ++ duplicate_ids es (e_ID e :: seen)
  end.
Definition names_known (ids : list string) (s : source) : list problem :=
  unless (bool_decide (s_Entry s ∈ ids)) (UnknownEntry (s_Entry s))
  ++ mjoin (map (fun a => unless (bool_decide (al_Entry a ∈ ids)) (UnknownEntry (al_Entry a))) (s_Also s)).
Definition entries_of (s : source) : list string := s_Entry s :: map al_Entry (s_Also s).

Definition check_coverage (entries : list Entry) (cov : coverage) (want : list SourceItem) : list problem :=
  let ids := map e_ID entries in
  let all := snd <$> map_to_list (cov_Sources cov) in
  mjoin (map (names_known ids) (visit 0 all))
  ++ mjoin (map (fun w => unless (bool_decide (w ∈ map item_of (visit 0 all))) (NotCovered w)) want)
  ++ mjoin (map (fun s => unless (bool_decide (item_of s ∈ want)) (InventedItem (item_of s))) (visit 1 all))
  ++ mjoin (map (fun e => unless (bool_decide (e_ID e ∈ mjoin (map entries_of (visit 0 all)))) (Orphaned (e_ID e))) entries)
  ++ unless (SourceItemCount cov =? zlen want) (ItemCount (SourceItemCount cov) (zlen want))
  ++ unless (CatalogEntryCount cov =? zlen entries) (EntryCount (CatalogEntryCount cov) (zlen entries)).

Definition check_citation (e : Entry) : list problem :=
  match FindSubmatch lineRe (to_bytes (e_Source e)) with
  | None => []
  | Some m =>
      match showAtPin (sub m 1) with
      | None => [CitesUnreadable (e_ID e) (sub m 1)]
      | Some b =>
          let n := Atoi (sub m 2) in
          unless (negb ((n <? 1) || (zlen (split_on x0a b) <? n))) (CitesOutOfRange (e_ID e) (sub m 1) n)
      end
  end.
Definition check_vocabulary (e : Entry) : list problem :=
  unless (bool_decide (e_Status e ∈ validStatus)) (BadStatus (e_ID e)) ++ unless (bool_decide (e_Scope e ∈ validScope)) (BadScope (e_ID e)).
Definition checkVocabularies (entries : list Entry) : list problem := mjoin (map check_vocabulary entries).
Definition check_name (e : Entry) : list problem := unless (negb (is_empty (TrimSpace (e_Name e)))) (EmptyName (e_ID e)).

Definition check_also (s : source) (a : also_entry) : list problem :=
  unless (bool_decide (al_Relation a = "duplicate"%string)) (AlsoNotDuplicate (al_Entry a))
  ++ unless (bool_decide (s_Relation s = "primary"%string)) (AlsoNotPrimary (item_of s)).
Definition check_relation (s : source) : list problem :=
  unless (bool_decide (s_Kind s ∈ validKind)) (BadKind (s_Kind s)) ++ unless (bool_decide (s_Relation s ∈ validRel)) (BadRelation (s_Relation s))
  ++ mjoin (map (check_also s) (s_Also s)).

(** A map filled in the order of a visit: the last one in stays. *)
Fixpoint fill {A} (kvs : list (string * A)) (m : gmap string A) : gmap string A :=
  match kvs with [] => m | (k, v) :: kvs => fill kvs (<[k := v]> m) end.
Definition primaries (all : list source) : gmap string string :=
  fill (map (fun s => (s_Entry s, place_of s)) (filter (fun s => s_Relation s = "primary"%string) all)) ∅.
Definition relationAt (all : list source) : gmap string string := fill (map (fun s => (place_of s, s_Relation s)) all) ∅.
Definition entryAt (all : list source) : gmap string string := fill (map (fun s => (place_of s, s_Entry s)) all) ∅.

Definition check_refinement (primaryOf rels ents : gmap string string) (e : Entry) : list problem :=
  match rels !! e_Source e with
  | Some rel =>
      unless (negb (bool_decide (default "" (ents !! e_Source e) = e_ID e) && bool_decide (rel = "refinement"%string)
                    && is_empty (default "" (primaryOf !! e_ID e)))) (CitesRefinement (e_ID e))
  | None => []
  end.
Definition cites (e : Entry) (want : string) : bool :=
  bool_decide (TrimSuffix (e_Source e) " -" = want) || bool_decide (e_Source e = TrimSuffix want " -").
Definition check_primary (primaryOf : gmap string string) (e : Entry) : list problem :=
  match primaryOf !! e_ID e with
  | None => []
  | Some want => unless (cites e want) (CitesOther (e_ID e) want)
  end.

(** A recorded text against the lines of its file. *)
Definition TrimPrefix (s p : string) : string := if HasPrefix s p then of_bytes (drop (String.length p) (to_bytes s)) else s.
Definition text_matches (line text : bytes) : bool :=
  let want := norm_space line in let got := norm_space text in
  bool_decide (got = []) || prefix_of (take 60 got) want || contains (take 40 got) want.
Definition check_text (ls : list bytes) (s : source) : list problem :=
  let n := Atoi (TrimPrefix (s_Locator s) "L") in
  if (n <? 1) || (zlen ls <? n) then [TextOutOfRange (item_of s)]
  else unless (text_matches (nth (Z.to_nat (n - 1)) ls []) (to_bytes (s_Text s))) (TextDiffers (item_of s)).
(** A file is read once; one that cannot be read has no lines from then on. *)
Definition has_text (s : source) : bool := negb (bool_decide (s_Locator s = "-"%string)) && negb (is_empty (s_Text s)).
Fixpoint check_texts (ss : list source) (pinned : gmap string (list bytes)) : list problem :=
  match ss with
  | [] => []
  | s :: ss =>
      if negb (has_text s) then check_texts ss pinned
      else match pinned !! s_File s with
           | Some ls => check_text ls s ++ check_texts ss pinned
           | None =>
               match showAtPin (s_File s) with
               | None => TextUnreadable (s_File s) :: check_texts ss (<[s_File s := []]> pinned)
               | Some b => let ls := split_on x0a b in check_text ls s ++ check_texts ss (<[s_File s := ls]> pinned)
               end
           end
  end.

Definition count_status (entries : list Entry) (k : string) : Z := zlen (filter (fun e => e_Status e = k) entries).
Definition count_scope (entries : list Entry) (k : string) : Z := zlen (filter (fun e => e_Scope e = k) entries).
Definition checkTotals (md : bytes) (entries : list Entry) : list problem :=
  match FindSubmatch totalsRe md with
  | Some m =>
      mjoin (imap (fun i k => let n := Atoi (sub m (i + 1)) in unless (n =? count_status entries k) (WrongTotal k n (count_status entries k)))
               ["implemented"; "partial"; "planned"; "unknown"]%string)
  | None => [NoTotals]
  end
  ++ match FindSubmatch scopeTotalsRe md with
     | Some m => unless ((Atoi (sub m 1) =? count_scope entries "v0.6") && (Atoi (sub m 2) =? count_scope entries "Future")) WrongScopeTotals
     | None => [NoScopeTotals]
     end.

Definition restates (name gap : string) : bool :=
  let a := norm_name gap in let b := norm_name name in
  bool_decide (a = b) || (45 <=? zlen b) && prefix_of (take 45 b) a.
Definition check_taxonomy (e : Entry) : list problem :=
  unless (negb (bool_decide (e_Status e = "implemented"%string) && (0 <? zlen (e_Gaps e)))) (ImplementedWithGap (e_ID e))
  ++ unless (negb (bool_decide (e_Status e = "partial"%string) && (zlen (e_Gaps e) =? 0))) (PartialWithoutGap (e_ID e))
  ++ unless (negb (existsb (restates (e_Name e)) (e_Gaps e))) (GapRestatesName (e_ID e)).
Definition checkInvariants (entries : list Entry) : list problem := mjoin (map check_taxonomy entries).

(** ** The command *)

Definition problems (md : bytes) (entries : list Entry) (cov : coverage) (want : list SourceItem) : list problem :=
  let all := snd <$> map_to_list (cov_Sources cov) in
  let primaryOf := primaries (visit 2 all) in
  duplicate_ids entries []
  ++ check_coverage entries cov want
  ++ mjoin (map check_citation entries)
  ++ checkVocabularies entries
  ++ mjoin (map check_name entries)
  ++ mjoin (map check_relation (visit 2 all))
  ++ mjoin (map (check_refinement primaryOf (relationAt (visit 3 all)) (entryAt (visit 3 all))) entries)
  ++ mjoin (map (check_primary primaryOf) entries)
  ++ check_texts (visit 4 all) ∅
  ++ checkTotals md entries
  ++ checkInvariants entries.

Definition capcheck_run : result cap_fatal (list problem) :=
  md ← of_option (read (Join [root; catalogPath])) CatalogUnreadable;
  entries ← of_option (parseCatalog md) CatalogBad;
  raw ← of_option (read (Join [root; coveragePath])) CoverageUnreadable;
  cov ← of_option (parse_coverage raw) CoverageBad;
  want ← enumerateSources;
  Ok (problems md entries cov want).
(** [main]'s exit status. *)
Definition capcheck : Z := match capcheck_run with Ok [] => 0 | _ => 1 end.

(** ** What passing means *)

Definition line_of_pin (file : string) (n : Z) (line : bytes) : Prop :=
  exists b, showAtPin file = Some b /\ 1 <= n <= zlen (split_on x0a b) /\ line = nth (Z.to_nat (n - 1)) (split_on x0a b) [].

(** The entries of a catalog, by themselves. *)
Record entry_ok (e : Entry) : Prop := {
  eo_name : TrimSpace (e_Name e) <> ""%string;
  eo_status : e_Status e ∈ validStatus;
  eo_scope : e_Scope e ∈ validScope;
  eo_citation : forall m, FindSubmatch lineRe (to_bytes (e_Source e)) = Some m -> exists line, line_of_pin (sub m 1) (Atoi (sub m 2)) line;
  eo_implemented : e_Status e = "implemented"%string -> e_Gaps e = [];
  eo_partial : e_Status e = "partial"%string -> e_Gaps e <> [];
  eo_gaps : Forall (fun g => restates (e_Name e) g = false) (e_Gaps e) }.
(** An item of the coverage map, by itself. *)
Record source_ok (ids : list string) (want : list SourceItem) (s : source) : Prop := {
  so_item : item_of s ∈ want;
  so_entries : Forall (fun id => id ∈ ids) (entries_of s);
  so_kind : s_Kind s ∈ validKind;
  so_relation : s_Relation s ∈ validRel;
  so_also : Forall (fun a => al_Relation a = "duplicate"%string /\ s_Relation s = "primary"%string) (s_Also s);
  so_text : has_text s = true ->
    exists line, line_of_pin (s_File s) (Atoi (TrimPrefix (s_Locator s) "L")) line /\ text_matches line (to_bytes (s_Text s)) = true }.
Definition totals_declared (md : bytes) (entries : list Entry) : Prop :=
  (exists m, FindSubmatch totalsRe md = Some m /\ Atoi (sub m 1) = count_status entries "implemented" /\ Atoi (sub m 2) = count_status entries "partial"
     /\ Atoi (sub m 3) = count_status entries "planned" /\ Atoi (sub m 4) = count_status entries "unknown")
  /\ exists m, FindSubmatch scopeTotalsRe md = Some m /\ Atoi (sub m 1) = count_scope entries "v0.6" /\ Atoi (sub m 2) = count_scope entries "Future".

Record catalog_ok (md : bytes) (entries : list Entry) (cov : coverage) (want : list SourceItem) : Prop := {
  co_ids : NoDup (map e_ID entries);
  co_entries : Forall entry_ok entries;
  co_sources : map_Forall (fun _ s => source_ok (map e_ID entries) want s) (cov_Sources cov);
  co_covered : Forall (fun w => exists k s, cov_Sources cov !! k = Some s /\ item_of s = w) want;
  co_backed : Forall (fun e => exists k s, cov_Sources cov !! k = Some s /\ e_ID e ∈ entries_of s) entries;
  co_counts : SourceItemCount cov = zlen want /\ CatalogEntryCount cov = zlen entries;
  co_primary : forall e k s, e ∈ entries -> cov_Sources cov !! k = Some s -> s_Relation s = "primary"%string -> s_Entry s = e_ID e ->
    cites e (place_of s) = true;
  co_refinement : forall e k s, e ∈ entries -> cov_Sources cov !! k = Some s -> place_of s = e_Source e -> s_Entry s = e_ID e ->
    s_Relation s = "refinement"%string ->
    exists k' s', cov_Sources cov !! k' = Some s' /\ s_Relation s' = "primary"%string /\ s_Entry s' = e_ID e;
  co_totals : totals_declared md entries }.

(** No entry has primary items at two places, and what is recorded of a place is
    recorded once; without it the verdict is the order's. *)
Definition unambiguous (cov : coverage) : Prop :=
  forall k s k' s', cov_Sources cov !! k = Some s -> cov_Sources cov !! k' = Some s' ->
    (s_Relation s = "primary"%string -> s_Relation s' = "primary"%string -> s_Entry s = s_Entry s' -> place_of s = place_of s')
    /\ (place_of s = place_of s' -> s_Relation s = s_Relation s' /\ s_Entry s = s_Entry s').

Lemma unless_ok b p : unless b p = [] <-> b = true.
Proof. apply if_nil. Qed.
Lemma unless_holds (P : Prop) `{!Decision P} p : unless (bool_decide P) p = [] <-> P.
Proof. by rewrite unless_ok, bool_decide_eq_true. Qed.
Lemma each_unless {A} (b : A -> bool) (p : A -> problem) l : mjoin (map (fun x => unless (b x) (p x)) l) = [] <-> Forall (fun x => b x = true) l.
Proof. rewrite mjoin_map_nil. apply Forall_iff. intros x. apply unless_ok. Qed.

Lemma duplicate_ids_nil es seen : duplicate_ids es seen = [] <-> NoDup (map e_ID es) /\ Forall (fun e => e_ID e ∉ seen) es.
Proof.
  revert seen. induction es as [|e es IH]; intros seen; cbn [duplicate_ids map].
  { split; [|done]. intros _. split; constructor. }
  rewrite app_nil, unless_ok, negb_true_iff, bool_decide_eq_false, IH, NoDup_cons, Forall_cons, (forall_fresh e_ID). tauto.
Qed.

(** What a visit in any order goes through. *)
Lemma visited (P : source -> Prop) (m : gmap string source) l :
  l ≡ₚ (map_to_list m).*2 -> Forall P l <-> map_Forall (fun _ => P) m.
Proof. intros ->. rewrite map_Forall_to_list, Forall_fmap. apply Forall_iff. by intros []. Qed.
Lemma visited_in (m : gmap string source) l s : l ≡ₚ (map_to_list m).*2 -> s ∈ l <-> exists k, m !! k = Some s.
Proof.
  intros ->. rewrite list_elem_of_fmap. split.
  - intros ([k s'] & -> & H%elem_of_map_to_list). by exists k.
  - intros [k H%elem_of_map_to_list]. by exists (k, s).
Qed.

Lemma check_name_nil e : check_name e = [] <-> TrimSpace (e_Name e) <> ""%string.
Proof. unfold check_name. by rewrite unless_ok, negb_true_iff, is_empty_false. Qed.
Lemma check_vocabulary_nil e : check_vocabulary e = [] <-> e_Status e ∈ validStatus /\ e_Scope e ∈ validScope.
Proof. unfold check_vocabulary. by rewrite app_nil, !unless_holds. Qed.
Lemma in_file n ls : negb ((n <? 1) || (zlen ls <? n)) = true <-> 1 <= n <= @zlen bytes ls.
Proof. rewrite negb_true_iff, orb_false_iff, !Z.ltb_ge. lia. Qed.
Lemma check_citation_nil e :
  check_citation e = [] <->
  forall m, FindSubmatch lineRe (to_bytes (e_Source e)) = Some m -> exists line, line_of_pin (sub m 1) (Atoi (sub m 2)) line.
Proof.
  unfold check_citation, line_of_pin. destruct (FindSubmatch _ _) as [m|]; [|naive_solver].
  destruct (showAtPin _) as [b|] eqn:E.
  - rewrite unless_ok, in_file. split.
    + intros H m' [= <-]. by exists (nth (Z.to_nat (Atoi (sub m 2) - 1)) (split_on x0a b) []), b.
    + intros H. destruct (H m eq_refl) as (line & b' & Hb & Hn & _). congruence.
  - split; [done|]. intros H. destruct (H m eq_refl) as (line & b' & Hb & _). congruence.
Qed.
Lemma check_taxonomy_nil e :
  check_taxonomy e = [] <->
  (e_Status e = "implemented"%string -> e_Gaps e = []) /\ (e_Status e = "partial"%string -> e_Gaps e <> [])
  /\ Forall (fun g => restates (e_Name e) g = false) (e_Gaps e).
Proof.
  unfold check_taxonomy. rewrite !app_nil, !unless_ok, !negb_true_iff, !andb_false_iff, !bool_decide_eq_false.
  assert (existsb (restates (e_Name e)) (e_Gaps e) = false <-> Forall (fun g => restates (e_Name e) g = false) (e_Gaps e)) as ->.
  { induction (e_Gaps e) as [|g gs IH]; cbn; [done|]. by rewrite orb_false_iff, Forall_cons, IH. }
  rewrite Z.ltb_ge, Z.eqb_neq. assert (zlen (e_Gaps e) <= 0 <-> e_Gaps e = []) as ->.
  { destruct (e_Gaps e); unfold zlen; cbn [length]; split; (done || lia). }
  assert (zlen (e_Gaps e) <> 0 <-> e_Gaps e <> []) as -> by (destruct (e_Gaps e); unfold zlen; cbn [length]; split; (done || lia)).
  destruct (decide (e_Status e = "implemented"%string)), (decide (e_Status e = "partial"%string)); tauto.
Qed.

(** Everything the checks say of one entry by itself. *)
Lemma entries_nil entries :
  mjoin (map check_citation entries) = [] /\ checkVocabularies entries = [] /\ mjoin (map check_name entries) = [] /\ checkInvariants entries = []
  <-> Forall entry_ok entries.
Proof.
  unfold checkVocabularies, checkInvariants. rewrite !mjoin_map_nil, <- !Forall_and. apply Forall_iff. intros e.
  rewrite check_citation_nil, check_vocabulary_nil, check_name_nil, check_taxonomy_nil.
  split; [intros (? & [? ?] & ? & ? & ? & ?); by constructor|intros []; tauto].
Qed.

(** ** The maps filled in passing *)

Lemma fill_from {A} kvs (m : gmap string A) k v : fill kvs m !! k = Some v -> (k, v) ∈ kvs \/ m !! k = Some v.
Proof.
  revert m. induction kvs as [|[k' v'] kvs IH]; intros m; cbn [fill]; [by right|]. intros [H|H]%IH; [left; by right|].
  apply lookup_insert_Some in H as [[-> ->]|[_ H]]; [left; by left|by right].
Qed.
Lemma fill_some {A} kvs (m : gmap string A) k : (exists v, (k, v) ∈ kvs) \/ is_Some (m !! k) -> is_Some (fill kvs m !! k).
Proof.
  revert m. induction kvs as [|[k' v'] kvs IH]; intros m; cbn [fill]; [by intros [[v []%not_elem_of_nil]|?]|]. intros H. apply IH.
  destruct (decide (k' = k)) as [->|Hk]; [right; rewrite lookup_insert_eq; by eexists|].
  destruct H as [[v [[= ? ?]|H]%elem_of_cons]|H]; [congruence|left; by exists v|right; by rewrite lookup_insert_ne].
Qed.
(** When what is put in agrees, the order does not matter. *)
Lemma fill_agreeing {A} kvs k (v : A) :
  (forall v v', (k, v) ∈ kvs -> (k, v') ∈ kvs -> v = v') -> fill kvs ∅ !! k = Some v <-> (k, v) ∈ kvs.
Proof.
  intros Hag. split; [intros [H|H]%fill_from; [done|by rewrite lookup_empty in H]|].
  intros H. destruct (fill_some kvs ∅ k) as [v' Hv']; [left; by exists v|]. rewrite Hv'. f_equal.
  apply fill_from in Hv' as [H'|H']; [|by rewrite lookup_empty in H']. by apply Hag.
Qed.

Section Ordered.
(** The map is unambiguous, and [all] is it in some order. *)
Context (cov : coverage) (Hun : unambiguous cov) (all : list source) (Hall : all ≡ₚ (map_to_list (cov_Sources cov)).*2).

Lemma all_in s : s ∈ all <-> exists k, cov_Sources cov !! k = Some s.
Proof. by apply visited_in. Qed.
Lemma all_agree s s' : s ∈ all -> s' ∈ all ->
  (s_Relation s = "primary"%string -> s_Relation s' = "primary"%string -> s_Entry s = s_Entry s' -> place_of s = place_of s')
  /\ (place_of s = place_of s' -> s_Relation s = s_Relation s' /\ s_Entry s = s_Entry s').
Proof. intros [k Hk]%all_in [k' Hk']%all_in. by apply (Hun k s k' s'). Qed.

Lemma primaries_spec id p :
  primaries all !! id = Some p <-> exists s, s ∈ all /\ s_Relation s = "primary"%string /\ s_Entry s = id /\ place_of s = p.
Proof.
  assert (forall v, (id, v) ∈ map (fun s => (s_Entry s, place_of s)) (filter (fun s => s_Relation s = "primary"%string) all)
          <-> exists s, s ∈ all /\ s_Relation s = "primary"%string /\ s_Entry s = id /\ place_of s = v) as Hin.
  { intros v. rewrite list_elem_of_fmap. setoid_rewrite list_elem_of_filter. split.
    - intros (s & [= -> ->] & ? & ?). by exists s.
    - intros (s & ? & ? & <- & <-). by exists s. }
  unfold primaries. rewrite fill_agreeing; [apply Hin|].
  intros v v' (s & Hs & Hr & He & <-)%Hin (s' & Hs' & Hr' & He' & <-)%Hin. apply (all_agree s s'); congruence.
Qed.
Lemma at_place {B} (f : source -> B) p v :
  (forall s s', s ∈ all -> s' ∈ all -> place_of s = place_of s' -> f s = f s') ->
  fill (map (fun s => (place_of s, f s)) all) ∅ !! p = Some v <-> exists s, s ∈ all /\ place_of s = p /\ f s = v.
Proof.
  intros Hf. assert (forall v, (p, v) ∈ map (fun s => (place_of s, f s)) all <-> exists s, s ∈ all /\ place_of s = p /\ f s = v) as Hin.
  { intros u. rewrite list_elem_of_fmap. split; [intros (s & [= -> ->] & ?); by exists s|intros (s & ? & <- & <-); by exists s]. }
  rewrite fill_agreeing; [apply Hin|]. intros u u' (s & Hs & Hp & <-)%Hin (s' & Hs' & Hp' & <-)%Hin. apply Hf; congruence.
Qed.
Lemma relationAt_spec p r : relationAt all !! p = Some r <-> exists s, s ∈ all /\ place_of s = p /\ s_Relation s = r.
Proof. apply at_place. intros s s' ? ? ?. by apply (all_agree s s'). Qed.
Lemma entryAt_spec p id : entryAt all !! p = Some id <-> exists s, s ∈ all /\ place_of s = p /\ s_Entry s = id.
Proof. apply at_place. intros s s' ? ? ?. by apply (all_agree s s'). Qed.

Lemma check_primary_nil e :
  check_primary (primaries all) e = [] <->
  forall k s, cov_Sources cov !! k = Some s -> s_Relation s = "primary"%string -> s_Entry s = e_ID e -> cites e (place_of s) = true.
Proof.
  unfold check_primary. destruct (primaries all !! e_ID e) as [p|] eqn:E.
  - rewrite unless_ok. apply primaries_spec in E as (s & Hs & Hr & He & <-). split.
    + intros Hc k s' Hs' Hr' He'. rewrite (proj1 (all_agree s' s (proj2 (all_in s') (ex_intro _ k Hs')) Hs)) by congruence. done.
    + apply all_in in Hs as [k Hs]. by eauto.
  - split; [|done]. intros _ k s Hs Hr He. exfalso.
    assert (primaries all !! e_ID e = Some (place_of s)) by (apply primaries_spec; exists s; rewrite all_in; eauto). congruence.
Qed.

Lemma place_nonempty s : place_of s <> ""%string.
Proof. unfold place_of. by destruct (s_File s). Qed.
Lemma has_primary id :
  is_empty (default "" (primaries all !! id)) = false <-> exists k s, cov_Sources cov !! k = Some s /\ s_Relation s = "primary"%string /\ s_Entry s = id.
Proof.
  rewrite is_empty_false. destruct (primaries all !! id) as [p|] eqn:E; cbn [default from_option].
  - apply primaries_spec in E as (s & [k Hk]%all_in & ? & ? & <-). split; [|intros _; apply place_nonempty]. intros _. by exists k, s.
  - split; [done|]. intros (k & s & ? & ? & ?).
    assert (primaries all !! id = Some (place_of s)) by (apply primaries_spec; exists s; rewrite all_in; eauto). congruence.
Qed.
Lemma check_refinement_nil primaryOf e :
  (forall id, is_empty (default "" (primaryOf !! id)) = false
     <-> exists k s, cov_Sources cov !! k = Some s /\ s_Relation s = "primary"%string /\ s_Entry s = id) ->
  check_refinement primaryOf (relationAt all) (entryAt all) e = [] <->
  forall k s, cov_Sources cov !! k = Some s -> place_of s = e_Source e -> s_Entry s = e_ID e -> s_Relation s = "refinement"%string ->
    exists k' s', cov_Sources cov !! k' = Some s' /\ s_Relation s' = "primary"%string /\ s_Entry s' = e_ID e.
Proof.
  intros Hprim. unfold check_refinement. destruct (relationAt all !! e_Source e) as [rel|] eqn:E.
  2: { split; [|done]. intros _ k s Hs Hp _ _. exfalso.
       assert (relationAt all !! e_Source e = Some (s_Relation s)) by (apply relationAt_spec; exists s; rewrite all_in; eauto). congruence. }
  apply relationAt_spec in E as (s & Hs & Hp & <-).
  assert (entryAt all !! e_Source e = Some (s_Entry s)) as -> by (apply entryAt_spec; by exists s). cbn [default from_option id].
  rewrite unless_ok, negb_true_iff, !andb_false_iff, !bool_decide_eq_false, Hprim.
  split.
  - intros H k s' Hs' Hp' He Hr. destruct (proj2 (all_agree s s' Hs (proj2 (all_in s') (ex_intro _ k Hs')))) as [E1 E2]; [congruence|].
    destruct H as [[H|H]|H]; [congruence..|done].
  - intros H. destruct (decide (s_Entry s = e_ID e)) as [He|]; [|by left; left].
    destruct (decide (s_Relation s = "refinement"%string)) as [Hr|]; [|by left; right]. right. apply all_in in Hs as [k Hs]. by apply (H k s).
Qed.
End Ordered.

(** ** The texts *)

Definition text_ok (s : source) : Prop :=
  has_text s = true ->
  exists line, line_of_pin (s_File s) (Atoi (TrimPrefix (s_Locator s) "L")) line /\ text_matches line (to_bytes (s_Text s)) = true.
(** What is remembered of a file is what git shows of it, or nothing. *)
Definition remembered (pinned : gmap string (list bytes)) : Prop :=
  forall f ls, pinned !! f = Some ls -> ls = match showAtPin f with Some b => split_on x0a b | None => [] end.

Lemma check_text_nil ls s :
  ls = match showAtPin (s_File s) with Some b => split_on x0a b | None => [] end -> has_text s = true ->
  check_text ls s = [] <-> text_ok s.
Proof.
  intros -> Hh. unfold check_text, text_ok, line_of_pin.
  destruct (showAtPin (s_File s)) as [b|] eqn:Eb.
  - destruct (_ || _) eqn:En.
    + split; [done|]. intros H. destruct (H Hh) as (line & (b' & [= <-] & Hn & _) & _). apply in_file in Hn. by rewrite En in Hn.
    + rewrite unless_ok. assert (1 <= Atoi (TrimPrefix (s_Locator s) "L") <= zlen (split_on x0a b)) as Hn by (apply in_file; by rewrite En).
      split; [intros H _; eexists; split; [by exists b|done]|]. intros H. destruct (H Hh) as (line & (b' & [= <-] & _ & ->) & Ht). done.
  - split.
    + destruct (_ || _) eqn:En; [done|]. apply orb_false_iff in En as [H1%Z.ltb_ge H2%Z.ltb_ge]. unfold zlen in H2. cbn [length] in H2. lia.
    + intros H. destruct (H Hh) as (line & (b' & Hb & _) & _). congruence.
Qed.

Lemma check_texts_nil ss pinned : remembered pinned -> check_texts ss pinned = [] <-> Forall text_ok ss.
Proof.
  revert pinned. induction ss as [|s ss IH]; intros pinned Hp; cbn [check_texts]; [split; constructor|]. rewrite Forall_cons.
  destruct (has_text s) eqn:Hh; cbn [negb]; [|rewrite (IH pinned Hp); unfold text_ok at 2; rewrite Hh; naive_solver].
  destruct (pinned !! s_File s) as [ls|] eqn:El.
  { by rewrite app_nil, (IH pinned Hp), (check_text_nil ls s (Hp _ _ El) Hh). }
  destruct (showAtPin (s_File s)) as [b|] eqn:Eb.
  - rewrite app_nil, IH, (check_text_nil (split_on x0a b) s); [done|by rewrite Eb|done|].
    intros f ls [[<- <-]|[_ H]]%lookup_insert_Some; [by rewrite Eb|by apply Hp].
  - split; [done|]. intros [H _]. destruct (H Hh) as (line & (b' & Hb & _) & _). congruence.
Qed.

(** ** The whole *)

Lemma check_relation_nil s :
  check_relation s = [] <->
  s_Kind s ∈ validKind /\ s_Relation s ∈ validRel /\ Forall (fun a => al_Relation a = "duplicate"%string /\ s_Relation s = "primary"%string) (s_Also s).
Proof.
  unfold check_relation. rewrite !app_nil, !unless_holds, mjoin_map_nil.
  rewrite (Forall_iff _ (s_Also s) (fun a => al_Relation a = "duplicate"%string /\ s_Relation s = "primary"%string)); [done|].
  intros a. unfold check_also. by rewrite app_nil, !unless_holds.
Qed.
Lemma names_known_nil ids s : names_known ids s = [] <-> Forall (fun id => id ∈ ids) (entries_of s).
Proof.
  unfold names_known, entries_of. rewrite app_nil, unless_holds, each_unless, Forall_cons, Forall_fmap.
  rewrite (Forall_iff _ (s_Also s) (fun a => al_Entry a ∈ ids)); [done|]. intros a. apply bool_decide_eq_true.
Qed.

Lemma checkTotals_nil md entries : checkTotals md entries = [] <-> totals_declared md entries.
Proof.
  unfold checkTotals, totals_declared. rewrite app_nil.
  assert (forall A (o : option A) (f : A -> list problem) (p : problem) (P : A -> Prop),
            (forall a, f a = [] <-> P a) -> match o with Some a => f a | None => [p] end = [] <-> exists a, o = Some a /\ P a) as Hopt.
  { intros A [a|] f p P H; [rewrite H; naive_solver|naive_solver]. }
  rewrite (Hopt _ _ _ _ (fun m => Atoi (sub m 1) = count_status entries "implemented" /\ Atoi (sub m 2) = count_status entries "partial"
     /\ Atoi (sub m 3) = count_status entries "planned" /\ Atoi (sub m 4) = count_status entries "unknown")).
  2: { intros m. cbn. rewrite !app_nil, !unless_ok, !Z.eqb_eq. tauto. }
  rewrite (Hopt _ _ _ _ (fun m => Atoi (sub m 1) = count_scope entries "v0.6" /\ Atoi (sub m 2) = count_scope entries "Future")); [done|].
  intros m. by rewrite unless_ok, andb_true_iff, !Z.eqb_eq.
Qed.

Section Verdict.
Context (Hvisit : forall n l, visit n l ≡ₚ l).

Lemma visited_all (P : source -> Prop) n (m : gmap string source) :
  Forall P (visit n (snd <$> map_to_list m)) <-> map_Forall (fun _ => P) m.
Proof. apply visited, Hvisit. Qed.
Lemma in_visit {B} (f : source -> B) n (m : gmap string source) b :
  b ∈ map f (visit n (snd <$> map_to_list m)) <-> exists k s, m !! k = Some s /\ f s = b.
Proof.
  rewrite list_elem_of_fmap. setoid_rewrite (visited_in m (visit n (snd <$> map_to_list m)) _ (Hvisit n _)).
  split; [intros (s & -> & k & Hk); by exists k, s|intros (k & s & Hk & <-); exists s; split; [done|by exists k]].
Qed.

Lemma check_coverage_nil entries cov want :
  check_coverage entries cov want = [] <->
  map_Forall (fun _ s => Forall (fun id => id ∈ map e_ID entries) (entries_of s)) (cov_Sources cov)
  /\ Forall (fun w => exists k s, cov_Sources cov !! k = Some s /\ item_of s = w) want
  /\ map_Forall (fun _ s => item_of s ∈ want) (cov_Sources cov)
  /\ Forall (fun e => exists k s, cov_Sources cov !! k = Some s /\ e_ID e ∈ entries_of s) entries
  /\ SourceItemCount cov = zlen want /\ CatalogEntryCount cov = zlen entries.
Proof.
  unfold check_coverage. rewrite !app_nil, mjoin_map_nil, !each_unless, !unless_ok, !Z.eqb_eq.
  rewrite (Forall_iff _ _ _ (names_known_nil (map e_ID entries))), !visited_all.
  rewrite (Forall_iff _ want (fun w => exists k s, cov_Sources cov !! k = Some s /\ item_of s = w)).
  2: { intros w. rewrite bool_decide_eq_true. apply in_visit. }
  rewrite (Forall_iff _ entries (fun e => exists k s, cov_Sources cov !! k = Some s /\ e_ID e ∈ entries_of s)).
  2: { intros e. rewrite bool_decide_eq_true, list_elem_of_join. setoid_rewrite in_visit. naive_solver. }
  assert (map_Forall (fun _ s => bool_decide (item_of s ∈ want) = true) (cov_Sources cov)
          <-> map_Forall (fun _ s => item_of s ∈ want) (cov_Sources cov)) as ->; [|done].
  unfold map_Forall. by setoid_rewrite bool_decide_eq_true.
Qed.

Lemma sources_ok ids want (m : gmap string source) :
  map_Forall (fun _ s => source_ok ids want s) m <->
  map_Forall (fun _ s => Forall (fun id => id ∈ ids) (entries_of s)) m /\ map_Forall (fun _ s => item_of s ∈ want) m
  /\ map_Forall (fun _ s => s_Kind s ∈ validKind /\ s_Relation s ∈ validRel
       /\ Forall (fun a => al_Relation a = "duplicate"%string /\ s_Relation s = "primary"%string) (s_Also s)) m
  /\ map_Forall (fun _ => text_ok) m.
Proof.
  unfold map_Forall, text_ok. split.
  - intros H. repeat split; intros; edestruct H; eauto.
  - intros (H1 & H2 & H3 & H4) k s Hs. destruct (H3 k s Hs) as (? & ? & ?). constructor; eauto.
Qed.

Lemma problems_nil md entries cov want : unambiguous cov -> problems md entries cov want = [] <-> catalog_ok md entries cov want.
Proof.
  intros Hun. unfold problems.
  rewrite !app_nil, duplicate_ids_nil, check_coverage_nil, checkTotals_nil, (check_texts_nil _ ∅) by (intros ? ?; by rewrite lookup_empty).
  rewrite (mjoin_map_nil check_relation), (Forall_iff _ _ _ check_relation_nil), !visited_all.
  rewrite (mjoin_map_nil (check_primary _)), (Forall_iff _ _ _ (check_primary_nil cov Hun (visit 2 _) (Hvisit 2 _))).
  rewrite (mjoin_map_nil (check_refinement _ _ _)),
    (Forall_iff _ _ _ (fun e => check_refinement_nil cov Hun (visit 3 _) (Hvisit 3 _) _ e (has_primary cov Hun (visit 2 _) (Hvisit 2 _)))).
  pose proof (entries_nil entries) as He. pose proof (sources_ok (map e_ID entries) want (cov_Sources cov)) as Hs.
  split.
  - intros ((Hn & _) & (? & Hw & ? & Hb & ?) & ? & ? & ? & ? & Hr & Hp & ? & ? & ?). rewrite Forall_forall in Hr, Hp.
    constructor; [tauto..|by eauto|by eauto|done].
  - intros [Hn [Hc [? [? ?]]]%He [Hs1 [Hs2 [? ?]]]%Hs ? ? [? ?] Hp Hr [? ?]]. repeat apply conj; try done.
    + apply Forall_forall. intros e _. apply not_elem_of_nil.
    + apply Forall_forall. by eauto.
    + apply Forall_forall. by eauto.
Qed.

(** The catalog check exits 0 exactly when everything can be read and the
    catalog holds what it claims.  Every archived item is covered and nothing
    else is; identifiers are unique, every entry is backed by an item and every
    item names entries that exist; each entry's name, status, scope, gaps and
    cited line are in order, it cites the primary item it came from, and a
    refinement alone backs none; each item's kind, relation and recorded text
    are right; and the declared counts and totals are the actual ones.  The
    order in which the coverage map is visited has no say, provided no entry has
    primary items at two places and no place has items that differ in relation
    or entry. *)
Theorem capcheck_exact :
  (forall raw cov, read (Join [root; coveragePath]) = Some raw -> parse_coverage raw = Some cov -> unambiguous cov) ->
  capcheck = 0 <->
  exists md entries raw cov want,
    read (Join [root; catalogPath]) = Some md /\ parseCatalog md = Some entries
    /\ read (Join [root; coveragePath]) = Some raw /\ parse_coverage raw = Some cov
    /\ enumerateSources = Ok want /\ catalog_ok md entries cov want.
Proof.
  intros Hun. unfold capcheck. split.
  - destruct capcheck_run as [ps|] eqn:E; [|done]. unfold capcheck_run in E.
    apply bind_ok_inv in E as (md & Hmd%of_option_ok_inv & (entries & He%of_option_ok_inv & (raw & Hraw%of_option_ok_inv
      & (cov & Hcov%of_option_ok_inv & (want & Hw & [= <-])%bind_ok_inv)%bind_ok_inv)%bind_ok_inv)%bind_ok_inv).
    destruct (problems md entries cov want) eqn:Ep; [|done]. intros _. exists md, entries, raw, cov, want.
    apply problems_nil in Ep; [|by eauto]. done.
  - intros (md & entries & raw & cov & want & Hmd & He & Hraw & Hcov & Hw & Hok). unfold capcheck_run.
    rewrite Hmd. cbn [of_option mbind result_bind]. rewrite He. cbn [of_option mbind result_bind]. rewrite Hraw. cbn [of_option mbind result_bind].
    rewrite Hcov. cbn [of_option mbind result_bind]. rewrite Hw. cbn [mbind result_bind].
    apply problems_nil in Hok; [|by eauto]. by rewrite Hok.
Qed.
End Verdict.
End Check.

(** ** A catalog *)

Definition demo_features : bytes := text_of ["- **Alpha**   tool"; "- **Alpha** again"]%string.
Definition demo_catalog : bytes := text_of
  ["# Capabilities"; "| implemented / partial / planned / unknown | 1 / 1 / 0 / 0 |"; "| `v0.6` / `Future` | 1 / 1 |";
   "| ID | Name |"; "| `CAP-A-001` | Alpha tool | implemented | v0.6 | `FEATURES.md L1` |";
   "| `CAP-A-002` | Beta | partial | Future | `.changes/unreleased/x.yaml` |";
   "Known gaps and limitations:"; "- `CAP-A-002` — No beta off Linux"]%string.
Definition demo_item (name file locator entry relation text : string) : string :=
  "'" +:+ name +:+ "': {'file': '" +:+ file +:+ "', 'locator': '" +:+ locator +:+ "', 'entry': '" +:+ entry +:+ "', 'relation': '" +:+ relation
  +:+ "', 'kind': 'capability-bullet', 'text': '" +:+ text +:+ "'}".
(** [again] is how the second bullet relates to the first entry. *)
Definition demo_coverage (again : string) : bytes := quoted
  ["{'source_item_count': 3, 'catalog_entry_count': 2, 'sources': {";
   demo_item "S1" "FEATURES.md" "L1" "CAP-A-001" "primary" "- **Alpha** tool" +:+ ",";
   demo_item "S2" "FEATURES.md" "L2" "CAP-A-001" again "" +:+ ",";
   demo_item "S3" ".changes/unreleased/x.yaml" "-" "CAP-A-002" "primary" "Beta" +:+ "}}"]%string.
Definition demo_checkout (again : string) (path : string) : option bytes :=
  if bool_decide (path = "r/docs/project/FUTURE-CAPABILITIES.md"%string) then Some demo_catalog
  else if bool_decide (path = "r/docs/transition/capability-coverage.json"%string) then Some (demo_coverage again)
  else None.
(** Another repository is there for who names it in the environment. *)
Definition demo_git (dir : string) (env args : list string) : option bytes :=
  if bool_decide ("GIT_DIR=/elsewhere"%string ∈ env) then None
  else if bool_decide (args = ["show"%string; generationOneFinalSHA +:+ ":FEATURES.md"]) then Some demo_features
  else if bool_decide (args = ["ls-tree"; "--name-only"; generationOneFinalSHA; ".changes/unreleased/"]%string) then Some (to_bytes ".changes/unreleased/x.yaml" ++ [x0a])
  else if bool_decide (args = ["ls-tree"; "--name-only"; generationOneFinalSHA; "epics/"]%string) then Some (to_bytes "epics/20-new.md")
  else Some [].
Definition demo_capcheck (again : string) (visit : nat -> list source -> list source) : Z :=
  capcheck "r" ["GIT_DIR=/elsewhere"; "HOME=/root"]%string (demo_checkout again) demo_git visit.

Example demo_env : withoutGitEnv ["GIT_DIR=/elsewhere"; "GIT_DIRECTORY=x"; "HOME=/root"]%string = ["GIT_DIRECTORY=x"; "HOME=/root"]%string.
Proof. vm_compute. done. Qed.
Example demo_norm : norm_space (to_bytes "  a   b c ") = to_bytes "a b c" /\ norm_name "No-Op (K8s)" = to_bytes "noopk8s"
  /\ map Atoi ["12"; "-3"; "+4"; "L9"; ""; "99999999999999999999x"]%string = [12; -3; 4; 0; 0; 2 ^ 63 - 1].
Proof. vm_compute. done. Qed.
Example demo_parse : exists a b, parseCatalog demo_catalog = Some [a; b] /\ e_Source a = "FEATURES.md L1"%string /\ e_Gaps b = ["No beta off Linux"%string].
Proof. eexists _, _. vm_compute. done. Qed.

(** Two primary items of one entry: the order of the map decides. *)
Example capcheck_order_decides :
  demo_capcheck "primary" (fun _ l => l) = 1 /\ demo_capcheck "primary" (fun _ l => rev l) = 0
  /\ demo_capcheck "refinement" (fun _ l => l) = 0 /\ demo_capcheck "refinement" (fun _ l => rev l) = 0.
Proof. vm_compute. done. Qed.

Definition agree (s s' : source) : Prop :=
  (s_Relation s = "primary"%string -> s_Relation s' = "primary"%string -> s_Entry s = s_Entry s' -> place_of s = place_of s')
  /\ (place_of s = place_of s' -> s_Relation s = s_Relation s' /\ s_Entry s = s_Entry s').
#[export] Instance agree_dec s s' : Decision (agree s s').
Proof. unfold agree. apply _. Defined.
Lemma all_agreeing cov : Forall (fun s => Forall (agree s) ((map_to_list (cov_Sources cov)).*2)) ((map_to_list (cov_Sources cov)).*2) -> unambiguous cov.
Proof.
  rewrite Forall_forall. intros H k s k' s' Hs Hs'. assert (forall k s, cov_Sources cov !! k = Some s -> s ∈ (map_to_list (cov_Sources cov)).*2) as Hin.
  { intros j x Hx%elem_of_map_to_list. apply list_elem_of_fmap. by exists (j, x). }
  specialize (H s (Hin k s Hs)). rewrite Forall_forall in H. by apply H, (Hin k').
Qed.
Lemma demo_agreeing :
  option_map (fun cov => bool_decide (Forall (fun s => Forall (agree s) ((map_to_list (cov_Sources cov)).*2)) ((map_to_list (cov_Sources cov)).*2)))
    (parse_coverage (demo_coverage "refinement")) = Some true.
Proof. vm_compute. done. Qed.
Lemma demo_unambiguous raw cov :
  demo_checkout "refinement" (Join ["r"; coveragePath]%string) = Some raw -> parse_coverage raw = Some cov -> unambiguous cov.
Proof.
  assert (demo_checkout "refinement" (Join ["r"; coveragePath]%string) = Some (demo_coverage "refinement")) as -> by (vm_compute; done).
  intros [= <-] H. pose proof demo_agreeing as Ha. rewrite H in Ha. injection Ha as Ha%bool_decide_eq_true. by apply all_agreeing.
Qed.
Lemma demo_passes : capcheck "r" ["GIT_DIR=/elsewhere"; "HOME=/root"]%string (demo_checkout "refinement") demo_git (fun _ l => rev l) = 0.
Proof. vm_compute. done. Qed.
Lemma visit_rev (n : nat) (l : list source) : rev l ≡ₚ l.
Proof. symmetry. apply Permutation_rev. Qed.

Lemma capcheck_exact_witness : exists md entries cov want,
  parseCatalog md = Some entries /\ catalog_ok "r" ["GIT_DIR=/elsewhere"; "HOME=/root"]%string demo_git md entries cov want.
Proof.
  destruct (proj1 (capcheck_exact "r" ["GIT_DIR=/elsewhere"; "HOME=/root"]%string (demo_checkout "refinement") demo_git (fun _ l => rev l)
    visit_rev demo_unambiguous) demo_passes) as (md & entries & raw & cov & want & Hmd & He & Hraw & Hcov & Hw & Hok).
  by exists md, entries, cov, want.
Defined.
