(* ===== verification/Doclint.v ===== *)
(** * The design documents' lint

    Models [tools/doclint]: sweeps that keep conclusions the project reached
    from being contradicted, and the comparison of approved documents with their
    sanctioned snapshots.  Reading a file, running git and SHA-256 are
    arguments; what is printed is not modelled. *)
From S2P Require Import Prelude GoBytes GoText GoPath GoFlag Json GoRegexp RegexpSyntax Config Artifacts Pending Archlint Capcheck.

Record Rule := {
  r_ID : string; Added : string; RetireAfter : string; r_Why : string; Pattern : string; Stale : string;
  Exempt : list (string * string); MinHits : Z }.

Inductive disposition := Current | Negated | Quoted | Corrected | Describes | ExemptBecause (why : string) | Live.
#[export] Instance disposition_eq_dec : EqDecision disposition.
Proof. solve_decision. Defined.
Record doc_finding := { df_rule : string; df_file : string; df_disposition : disposition; df_excerpt : bytes }.

Definition rules : list Rule := [
  Build_Rule "evidence-location" "G21" ""
    "docs/dossiers/README.md said acceptance evidence sits alongside the dossier; it lands with the work, and no pair has ever shipped together"
    "acceptance[- ]evidence|<TASK>-acceptance-evidence"
    "alongside the dossier"
    [] 3;
  Build_Rule "what-p10-is" "G22" "C14"
    "six documents called P10 a deployment or operations task, and three residual risks were gated on that belief"
    "\bP10\b"
    "P10 — deployment and operations|deployment mode P10 would own|operational procedure is P10's|first\s+task that could demonstrate"
    [("docs/dossiers/P08-acceptance-evidence.md"%string, "a record of what was demonstrable at P08, superseded by its own terms"%string); ("docs/dossiers/P03-acceptance-evidence.md"%string, "same"%string)] 10;
  Build_Rule "agent-ledger-route" "P08" "C14"
    "RSK-4's control stopped routing through the server, and THR-46 went on saying it did"
    "agent[- ]ledger|RSK-4"
    "reach\w*\s+(?:it|them|those ledgers?|the ledgers?)\s+only through the server"
    [] 3;
  Build_Rule "p10-risk-gates" "P10" "C14"
    "ADR-0008 sent three risks to P10 expecting a demonstration P10 cannot make; the gates moved to C13 and C14"
    "RSK-(?:1|4|9|12|13|14)\b"
    "\bor P10\b"
    [("docs/adr/0003-enrollment-and-identity.md"%string, "an earlier ADR's own disposition; THREAT-MODEL.md section 9 is authoritative"%string); ("docs/adr/0008-persistence-and-audit.md"%string, "same"%string)] 6;
  Build_Rule "forbidden-ci-triggers" "G23" ""
    "a self-hosted runner on a public repository must never execute code from an arbitrary contributor's event"
    "^\s*(?:pull_request_target|issue_comment)\s*:"
    "^\s*(?:pull_request_target|issue_comment)\s*:"
    [] 0;
  Build_Rule "runner-label-absence" "G25" ""
    "queued `runs-on: docker` jobs were read as proof that no runner advertises that label; what serves a label is read from the runner list, and an unclaimed job reports only that nothing available claimed it"
    "(?:nothing|no other|nobody|none|no runner)[^.;]{0,80}(?:serves?|served|advertis\w*|answers? to|carr(?:y|ies|ied))[^.;]{0,60}(?:labels?\b|runners?\b|docker|ubuntu-latest)|(?:nothing|no other|nobody|none|no runner)[^.;]{0,60}(?:labels?\b|runners?\b|docker|ubuntu-latest)[^.;]{0,60}(?:serves?|served|advertis\w*|answers? to|carr(?:y|ies|ied))"
    "(?:nothing|no other|nobody|none|no runner)[^.;]{0,80}(?:serves?|served|advertis\w*|answers? to|carr(?:y|ies|ied))[^.;]{0,60}(?:labels?\b|runners?\b|docker|ubuntu-latest)|(?:nothing|no other|nobody|none|no runner)[^.;]{0,60}(?:labels?\b|runners?\b|docker|ubuntu-latest)[^.;]{0,60}(?:serves?|served|advertis\w*|answers? to|carr(?:y|ies|ied))"
    [] 0;
  Build_Rule "dossier-file-per-task" "G26" "C05"
    "two source documents said dossiers are one file per task while a behaviour workstream's two tasks share one; the unit is the workstream"
    "file per \*{0,2}(?:task|workstream)"
    "file per \*{0,2}task"
    [] 2;
  Build_Rule "runner-cannot-run-containers" "G28" ""
    "four documents said a runner cannot run containers; the probe measured the container a JOB runs inside, and its own row `a job runs inside a container` passed -- the host starts containers, which is how the job existed"
    "(?:runners?|pool|machine|host)[^.;]{0,70}(?:can ?not|cannot|could not|unable to)[^.;]{0,50}containers?|(?:can ?not|cannot|could not|unable to)[^.;]{0,50}(?:run|start)[^.;]{0,25}containers?|\bno\b[^.;]{0,40}(?:runners?|pool|machine|host)[^.;]{0,60}\bcan\b[^.;]{0,30}(?:run|start)[^.;]{0,25}containers?|no (?:job|jobs)[^.;]{0,40}(?:a runner available|any runner|runners? available|every runner)[^.;]{0,60}(?:reach|run|start)"
    "(?:runners?|pool|machine|host)[^.;]{0,70}(?:can ?not|cannot|could not|unable to)[^.;]{0,50}containers?|(?:can ?not|cannot|could not|unable to)[^.;]{0,50}(?:run|start)[^.;]{0,25}containers?|\bno\b[^.;]{0,40}(?:runners?|pool|machine|host)[^.;]{0,60}\bcan\b[^.;]{0,30}(?:run|start)[^.;]{0,25}containers?|no (?:job|jobs)[^.;]{0,40}(?:a runner available|any runner|runners? available|every runner)[^.;]{0,60}(?:reach|run|start)"
    [] 0;
  Build_Rule "r6-unmet-suite-deferred" "G33" "C05"
    "R6 was unmet and the container suite deferred; P4 (run 881) met R6, the suite is in `check` and in CI, and `deferred-gates-check` is gone"
    "\bR6\b|container[- ]suite|container suite"
    "\bR6\b[^.;]{0,70}(?:is|remains|currently)?[^.;]{0,20}(?:not met|unmet|currently fails)|(?:not met|unmet)[^.;]{0,40}\bR6\b|container[- ]suite[^.;]{0,90}(?:is deferred|deliberately absent|deliberately not in|remains deferred)|(?:is|remains|stays) deferred[^.;]{0,70}container[- ]suite|deliberately absent[^.;]{0,70}container[- ]suite|(?:jobs?|runner|CI)[^.;]{0,70}(?:have|has|had) no Docker client"
    [("docs/dossiers/P11-acceptance-evidence.md"%string, "P11's own acceptance record, dated and marked superseded in place; it is evidence of what was true then, not a claim about the tree"%string)] 8;
  Build_Rule "no-pipe-to-shell" "G23" ""
    "the runner host's Docker socket is root on it, so an unverified root-level download is host compromise"
    "curl[^\n|]*\|\s*(?:sudo\s+)?(?:ba)?sh\b|wget[^\n|]*\|\s*(?:sudo\s+)?(?:ba)?sh\b"
    "curl[^\n|]*\|\s*(?:sudo\s+)?(?:ba)?sh\b|wget[^\n|]*\|\s*(?:sudo\s+)?(?:ba)?sh\b"
    [] 0].

(** ** Text *)

(** The first match: what is before it, and it; and where it ends. *)
Fixpoint seek (r : regexp) (prev : option rune) (rest : list rune) (before : bytes) : option (bytes * bytes * (option rune * list rune)) :=
  match match_here r prev rest with
  | Some q => Some (before, consumed {| pl_prev := prev; pl_rest := rest; pl_caps := ∅ |} q, (pl_prev q, pl_rest q))
  | None => match rest with [] => None | x :: rest => seek r (Some x) rest (before ++ x) end
  end.
Definition FindIndex (r : regexp) (s : bytes) : option (bytes * bytes) := fst <$> seek r None (runes s) [].
(** What lies between the matches of an expression that matches no empty text. *)
Fixpoint between (fuel : nat) (r : regexp) (prev : option rune) (rest : list rune) : list bytes :=
  match fuel, seek r prev rest [] with
  | S fuel, Some (before, _, (prev, rest)) => before :: between fuel r prev rest
  | _, _ => [concat rest]
  end.
Definition Split_re (r : regexp) (s : bytes) : list bytes := between (length s) r None (runes s).
Definition remove_matches (r : regexp) (s : bytes) : bytes := concat (Split_re r s).

Definition fences : regexp := MustCompile "(?ms)^```.*?^```".
Definition blank_line : regexp := MustCompile "\n\s*\n".
Definition is_row (line : bytes) : bool := prefix_of [x7c] (trim_space line).
Definition paragraph_units (para : bytes) : list bytes :=
  let ls := split_on x0a para in
  let p := norm_space (join_with x20 (filter (fun l => is_row l = false) ls)) in
  map norm_space (filter (fun l => is_row l = true) ls) ++ (if bool_decide (p = []) then [] else [p]).
Definition markdownUnits (doc : bytes) : list bytes := mjoin (map paragraph_units (Split_re blank_line (remove_matches fences doc))).
Definition units (doc : bytes) (markdown : bool) : list bytes := if markdown then markdownUnits doc else split_on x0a doc.

(** ** Dispositions *)

Definition negated : regexp := MustCompile "(?i)\bno longer\s*$|\bnot\s*$|\bnever\s*$".
Definition correction : regexp := MustCompile "Corrected at `G\d\d`|corrected the claim|G\d\d corrected".
Definition describes : regexp :=
  MustCompile "(?i)\bit is not\b|\bwas carried (?:here|to)\b|\bwrongly said\b|\bhad advertised\b|\ban earlier (?:draft|version)\b".

Fixpoint leading_stars (s : bytes) : nat :=
  match s with c :: s => if bool_decide (c = x2a) then S (leading_stars s) else O | [] => O end.
Fixpoint emphasised_from (fuel : nat) (i at_ : Z) (s : bytes) (inSpan : bool) : bool :=
  match fuel, s with
  | S fuel, c :: s' =>
      if negb (bool_decide (c = x2a)) then emphasised_from fuel (i + 1) at_ s' inSpan
      else let n := leading_stars s in
        if (n =? 1)%nat then
          if at_ <? i then inSpan else emphasised_from fuel (i + 1) at_ s' (negb inSpan)
        else emphasised_from fuel (i + Z.of_nat n) at_ (drop n s) inSpan
  | _, _ => false
  end.
Definition emphasised (unit : bytes) (at_ : Z) : bool := emphasised_from (length unit) 0 at_ unit false.

Definition exemption (r : Rule) (file : string) : string := default ""%string (snd <$> head (filter (fun e => e.1 = file) (Exempt r))).
Definition classify (r : Rule) (file : string) (unit next : bytes) (at_ : nat) : disposition :=
  let before := take at_ unit in
  if MatchString negated before then Negated
  else if (zlen (filter (fun c => c = x22) before) mod 2 =? 1) || emphasised unit (Z.of_nat at_) then Quoted
  else if MatchString correction unit || MatchString correction next then Corrected
  else if MatchString describes unit then Describes
  else if negb (is_empty (exemption r file)) then ExemptBecause (exemption r file)
  else Live.

Inductive doc_fail :=
  | NoReason (id : string) | NoOrigin (id : string) | Outlived (id : string) | BadPattern (id : string) | FileUnreadable (id file : string)
  | StillStates (id file : string) (excerpt : bytes) | Vanished (id : string) (sites : Z).
Inductive approval_fatal := NoApprovalManifest | BadApprovalManifest | BadPath (p : string) | Incomplete (p : string) | BadDigest (p : string)
  | SnapshotDiffers (p : string) | DocumentUnreadable (p : string) | DiffFailed (p : string).

Record approvedDocument := { ap_Path : string; ap_Commit : string; ap_Digest : string; ap_Why : string }.
Definition approved_fields : struct_fields approvedDocument :=
  [("path"%string, set_string (fun v d => Build_approvedDocument v (ap_Commit d) (ap_Digest d) (ap_Why d)));
   ("snapshot_commit"%string, set_string (fun v d => Build_approvedDocument (ap_Path d) v (ap_Digest d) (ap_Why d)));
   ("approved_sha256"%string, set_string (fun v d => Build_approvedDocument (ap_Path d) (ap_Commit d) v (ap_Why d)));
   ("why"%string, set_string (fun v d => Build_approvedDocument (ap_Path d) (ap_Commit d) (ap_Digest d) v))].
Definition approval_fields : struct_fields (list approvedDocument) :=
  [("documents"%string, set_slice approved_fields (Build_approvedDocument "" "" "" "") (fun ds => ds) (fun ds _ => ds))].
Definition parse_approvals (b : bytes) : option (list approvedDocument) :=
  v ← json_Unmarshal b; decode_struct false approval_fields v [].

Section Check.
Context `{Sha256} (root : string) (environ : list string) (read : string -> option bytes)
        (git : string -> list string -> list string -> option bytes).
Definition git_at (args : list string) : option bytes := git root (withoutGitEnv environ) args.

Definition validate_rule (r : Rule) : option doc_fail :=
  if is_empty (r_Why r) then Some (NoReason (r_ID r)) else if is_empty (Added r) then Some (NoOrigin (r_ID r)) else None.

Definition judge_unit (r : Rule) (pat stale : regexp) (file : string) (unit next : bytes) : list doc_finding :=
  if negb (MatchString pat unit) then []
  else match FindIndex stale unit with
       | None => [{| df_rule := r_ID r; df_file := file; df_disposition := Current; df_excerpt := [] |}]
       | Some (before, text) =>
           [{| df_rule := r_ID r; df_file := file; df_disposition := classify r file unit next (length before);
               df_excerpt := trim_space (take (length text + 30) (drop (length before) unit)) |}]
       end.
Fixpoint judge_units (r : Rule) (pat stale : regexp) (file : string) (us : list bytes) : list doc_finding :=
  match us with
  | [] => []
  | u :: us => judge_unit r pat stale file u (default [] (head us)) ++ judge_units r pat stale file us
  end.
Fixpoint sweep_files (r : Rule) (pat stale : regexp) (files : list string) : result doc_fail (list doc_finding) :=
  match files with
  | [] => Ok []
  | f :: files =>
      b ← of_option (read (Join [root; f])) (FileUnreadable (r_ID r) f);
      hits ← sweep_files r pat stale files;
      Ok (judge_units r pat stale f (units b (HasSuffix f ".md")) ++ hits)
  end.
Definition apply_rule (files : list string) (r : Rule) : result doc_fail (list doc_finding) :=
  pat ← of_option (Compile ("(?im)" +:+ Pattern r)) (BadPattern (r_ID r));
  stale ← of_option (Compile ("(?im)" +:+ Stale r)) (BadPattern (r_ID r));
  sweep_files r pat stale files.

Definition live (h : doc_finding) : bool := bool_decide (df_disposition h = Live).
Definition enforce (complete files : list string) (r : Rule) : list doc_fail :=
  match validate_rule r with
  | Some f => [f]
  | None =>
      (if negb (is_empty (RetireAfter r)) && bool_decide (RetireAfter r ∈ complete) then [Outlived (r_ID r)] else [])
      ++ match apply_rule files r with
         | Err f => [f]
         | Ok hits =>
             let settled := zlen hits - zlen (filter (fun h => live h = true) hits) in
             map (fun h => StillStates (r_ID r) (df_file h) (df_excerpt h)) (filter (fun h => live h = true) hits)
             ++ (if settled <? MinHits r then [Vanished (r_ID r) settled] else [])
         end
  end.

(** ** What is swept *)

Definition listed (args : list string) : option (list string) := (fun b => map of_bytes (string_fields b)) <$> git_at ("ls-files"%string :: args).
Definition trackedMarkdown : option (list string) :=
  fs ← listed ["*.md"; "*.yml"; "*.yaml"]%string; Some (filter (fun f => HasPrefix f "docs/transition/" = false) fs).
Definition unsweptWorkflows (swept : list string) : option (list string) :=
  fs ← listed [".forgejo/workflows"%string]; Some (filter (fun f => f ∉ swept) fs).
Definition completed (done : string) : list string :=
  filter (fun t => t <> ""%string) (map TrimSpace (Split_string done x2c)).

(** ** Approved documents *)

Definition digest_of (b : bytes) : string := hex_encode_string (sum256 b).
Definition check_document (d : approvedDocument) : result approval_fatal (option string) :=
  let p := ap_Path d in
  _ ← ensure (negb (is_empty p || IsAbs p || negb (bool_decide (Clean p = p)) || HasPrefix p "../")) (BadPath p);
  _ ← ensure (negb (is_empty (ap_Commit d) || is_empty (ap_Digest d))) (Incomplete p);
  _ ← ensure (bool_decide (is_Some (hex_decode_string (ap_Digest d))) && (slen (ap_Digest d) =? 64)) (BadDigest p);
  let snapshot := git_at ["show"%string; ap_Commit d +:+ ":" +:+ p] in
  _ ← ensure (match snapshot with Some s => bool_decide (digest_of s = ap_Digest d) | None => true end) (SnapshotDiffers p);
  current ← of_option (read (Join [root; p])) (DocumentUnreadable p);
  if bool_decide (digest_of current = ap_Digest d) then Ok None
  else match snapshot with
       | None => Ok (Some p)
       | Some _ =>
           patch ← of_option (git_at ["diff"; "--no-ext-diff"; "--unified=3"; "--no-color"; ap_Commit d; "--"; p]%string) (DiffFailed p);
           Ok (if bool_decide (patch = []) then None else Some p)
       end.
Fixpoint check_documents (ds : list approvedDocument) : result approval_fatal (list string) :=
  match ds with
  | [] => Ok []
  | d :: ds => f ← check_document d; fs ← check_documents ds; Ok (match f with Some p => p :: fs | None => fs end)
  end.
Definition checkApprovedDocuments (manifestPath : string) : result approval_fatal (list string) :=
  b ← of_option (read (Join [root; manifestPath])) NoApprovalManifest;
  ds ← of_option (parse_approvals b) BadApprovalManifest;
  check_documents ds.

(** ** The command *)

(** [main]'s exit status under its flags. *)
Definition sweep (done : string) (files : list string) : list doc_fail := mjoin (map (enforce (completed done) files) rules).
Definition doclint (done approved : string) (approvalOnly : bool) : Z :=
  match trackedMarkdown with
  | None => 2
  | Some files =>
      match unsweptWorkflows files with
      | None => 2
      | Some (_ :: _) => 1
      | Some [] =>
          if zlen files <? 20 then 2
          else
            let swept := if bool_decide (sweep done files = []) then 0 else 1 in
            if is_empty approved then swept
            else match checkApprovedDocuments approved with
                 | Err _ => 2
                 | Ok (_ :: _) => 1
                 | Ok [] => if approvalOnly then 0 else swept
                 end
      end
  end.

(** ** What passing means *)

(** A rule is justified, has not outlived its task, still finds its subject, and
    no place states the superseded conclusion as its own. *)
Definition rule_holds (complete files : list string) (r : Rule) : Prop :=
  r_Why r <> ""%string /\ Added r <> ""%string /\ (RetireAfter r <> ""%string -> RetireAfter r ∉ complete)
  /\ exists hits, apply_rule files r = Ok hits /\ Forall (fun h => df_disposition h <> Live) hits /\ MinHits r <= zlen hits.
(** A document is named by a clean relative path, a commit and a digest; the
    snapshot, if git still has it, has that digest; and the document has it too,
    or does not differ from the snapshot for git. *)
Record document_ok (d : approvedDocument) : Prop := {
  ao_path : ap_Path d <> ""%string /\ IsAbs (ap_Path d) = false /\ Clean (ap_Path d) = ap_Path d /\ HasPrefix (ap_Path d) "../" = false;
  ao_named : ap_Commit d <> ""%string /\ ap_Digest d <> ""%string;
  ao_digest : is_Some (hex_decode_string (ap_Digest d)) /\ slen (ap_Digest d) = 64;
  ao_same : exists current, read (Join [root; ap_Path d]) = Some current
    /\ match git_at ["show"%string; ap_Commit d +:+ ":" +:+ ap_Path d] with
       | None => digest_of current = ap_Digest d
       | Some snapshot => digest_of snapshot = ap_Digest d
           /\ (digest_of current = ap_Digest d
               \/ git_at ["diff"; "--no-ext-diff"; "--unified=3"; "--no-color"; ap_Commit d; "--"; ap_Path d]%string = Some [])
       end }.

Lemma status_ok P `{!Decision P} : (if bool_decide P then 0 else 1) = 0 <-> P.
Proof. case_bool_decide; by split. Qed.
Lemma enforce_nil complete files r : enforce complete files r = [] <-> rule_holds complete files r.
Proof.
  unfold enforce, rule_holds, validate_rule. destruct (is_empty (r_Why r)) eqn:Ew; [apply is_empty_true in Ew; naive_solver|].
  apply is_empty_false in Ew. destruct (is_empty (Added r)) eqn:Ea; [apply is_empty_true in Ea; naive_solver|]. apply is_empty_false in Ea.
  rewrite app_nil, unless_nil, andb_false_iff, negb_false_iff, is_empty_true, bool_decide_eq_false.
  assert (match apply_rule files r with
          | Err f => [f]
          | Ok hits => map (fun h => StillStates (r_ID r) (df_file h) (df_excerpt h)) (filter (fun h => live h = true) hits)
              ++ (if zlen hits - zlen (filter (fun h => live h = true) hits) <? MinHits r
                  then [Vanished (r_ID r) (zlen hits - zlen (filter (fun h => live h = true) hits))] else [])
          end = [] <-> exists hits, apply_rule files r = Ok hits /\ Forall (fun h => df_disposition h <> Live) hits /\ MinHits r <= zlen hits) as ->.
  { destruct (apply_rule files r) as [hits|f]; [|naive_solver].
    assert (Forall (fun h => df_disposition h <> Live) hits <-> filter (fun h => live h = true) hits = []) as Hf.
    { induction hits as [|h hits IH]; [done|]. rewrite Forall_cons, filter_cons, IH. unfold live. case_decide as Hd.
      - apply bool_decide_eq_true in Hd. naive_solver.
      - rewrite bool_decide_eq_true in Hd. naive_solver. }
    rewrite app_nil, unless_nil, Z.ltb_ge. split.
    - intros [Hm%map_eq_nil Hl]. rewrite Hm in Hl. unfold zlen at 2 in Hl. cbn [length] in Hl. exists hits. rewrite Hf. repeat split; [done..|lia].
    - intros (h & [= <-] & Hn%Hf & Hl). rewrite Hn. unfold zlen at 2. cbn [map length]. split; [done|lia]. }
  destruct (decide (RetireAfter r = ""%string)); tauto.
Qed.

Lemma check_document_none d : check_document d = Ok None <-> document_ok d.
Proof.
  unfold check_document. rewrite !ensure_bind, !negb_true_iff, !orb_false_iff, negb_false_iff, !is_empty_false, andb_true_iff.
  rewrite !bool_decide_eq_true, Z.eqb_eq. 
  set (shown := git_at ["show"%string; ap_Commit d +:+ ":" +:+ ap_Path d]).
  set (diffed := git_at ["diff"; "--no-ext-diff"; "--unified=3"; "--no-color"; ap_Commit d; "--"; ap_Path d]%string).
  assert (forall current, (if bool_decide (digest_of current = ap_Digest d) then Ok None
            else match shown with
                 | None => Ok (Some (ap_Path d))
                 | Some _ => patch ← of_option diffed (DiffFailed (ap_Path d)); Ok (if bool_decide (patch = []) then None else Some (ap_Path d))
                 end) = Ok None <-> digest_of current = ap_Digest d \/ is_Some shown /\ diffed = Some []) as Hend.
  { intros current. case_bool_decide; [tauto|]. destruct shown; [|split; [done|intros [?|[[] _]]; done]].
    destruct diffed as [patch|]; cbn; [|split; [done|intros [?|[_ ?]]; done]]. case_bool_decide; subst; naive_solver. }
  split.
  - intros ((((Hp & Ha) & Hc) & Hx) & [Hn1 Hn2] & [Hd1 Hd2] & Hs & Hcur).
    apply bind_ok_inv in Hcur as (current & Hcur%of_option_ok_inv & Hc'). apply Hend in Hc'.
    constructor; [done..|]. exists current. split; [done|]. fold shown diffed.
    destruct shown as [snapshot|]; [apply bool_decide_eq_true in Hs; naive_solver|]. destruct Hc' as [?|[[? [=]] _]]; done.
  - intros [(Hp & Ha & Hc & Hx) [Hn1 Hn2] [Hd1 Hd2] (current & Hcur & Hs)]. fold shown diffed in Hs. split; [done|]. split; [done|]. split; [done|].
    rewrite Hcur. cbn [of_option mbind result_bind]. rewrite Hend. destruct shown as [snapshot|]; [|by split; [|left]].
    destruct Hs as [Hs Hc']. split; [by apply bool_decide_eq_true|]. destruct Hc'; [by left|by right].
Qed.
Lemma check_documents_nil ds : check_documents ds = Ok [] <-> Forall document_ok ds.
Proof.
  induction ds as [|d ds IH]; cbn [check_documents]; [split; [constructor|done]|]. rewrite Forall_cons, <- IH, <- check_document_none.
  destruct (check_document d) as [[p|]|]; cbn [mbind result_bind]; destruct (check_documents ds) as [[|]|]; naive_solver.
Qed.

(** The lint passes exactly when what it sweeps is the repository's documents
    (at least twenty, every tracked workflow among them), the approved documents,
    if it is asked to compare them, are as sanctioned, and, unless it is asked
    for nothing else, every rule holds. *)
Theorem doclint_exact done approved approvalOnly :
  doclint done approved approvalOnly = 0 <->
  exists files, trackedMarkdown = Some files /\ unsweptWorkflows files = Some [] /\ 20 <= zlen files
    /\ (approved <> ""%string -> exists b ds, read (Join [root; approved]) = Some b /\ parse_approvals b = Some ds /\ Forall document_ok ds)
    /\ (approved = ""%string \/ approvalOnly = false -> Forall (rule_holds (completed done) files) rules).
Proof.
  unfold doclint. destruct trackedMarkdown as [files|]; [|naive_solver].
  destruct (unsweptWorkflows files) as [[|f missed]|] eqn:Eu; [|naive_solver..].
  destruct (Z.ltb_spec (zlen files) 20); [split; [discriminate|intros (? & [= <-] & _ & ? & _); lia]|].
  assert ((if bool_decide (sweep done files = []) then 0 else 1) = 0 <-> Forall (rule_holds (completed done) files) rules) as Hsweep.
  { assert (sweep done files = [] <-> Forall (rule_holds (completed done) files) rules) as <-.
    { unfold sweep. rewrite mjoin_map_nil. apply Forall_iff. intros r. apply enforce_nil. }
    apply status_ok. }
  assert (checkApprovedDocuments approved = Ok [] <->
          exists b ds, read (Join [root; approved]) = Some b /\ parse_approvals b = Some ds /\ Forall document_ok ds) as Happ.
  { unfold checkApprovedDocuments. split.
    - intros (b & Hb%of_option_ok_inv & (ds & Hd%of_option_ok_inv & Hc%check_documents_nil)%bind_ok_inv)%bind_ok_inv. by exists b, ds.
    - intros (b & ds & Hb & Hd & Hc%check_documents_nil). rewrite Hb. cbn [of_option mbind result_bind]. rewrite Hd.
      cbn [of_option mbind result_bind]. exact Hc. }
  generalize dependent (if bool_decide (sweep done files = []) then 0 else 1). intros swept Hswept.
  destruct (is_empty approved) eqn:Ee; [apply is_empty_true in Ee|apply is_empty_false in Ee].
  - rewrite Hswept. split; [intros Hr; exists files; by repeat split|].
    intros (? & [= <-] & _ & _ & _ & Hr). apply Hr. by left.
  - split.
    + destruct (checkApprovedDocuments approved) as [[|p ps]|]; [|discriminate..]. intros Hs. exists files.
      split; [done|]. split; [done|]. split; [done|]. split; [intros _; by apply Happ|].
      intros [?|Ha]; [done|]. rewrite Ha in Hs. by apply Hswept.
    + intros (? & [= <-] & _ & _ & Ha & Hr). rewrite (proj2 Happ (Ha Ee)). destruct approvalOnly; [done|]. apply Hswept, Hr. by right.
Qed.
End Check.

(** The process, on the words of its command line. *)
Definition doclint_set : FlagSet :=
  [("root", VString "."); ("v", VBool false); ("tasks-complete", VString ""); ("approved-documents", VString "");
   ("approval-only", VBool false)]%string.
Definition doclint_main `{Sha256} environ read run_git (args : list string) : Z :=
  match Parse doclint_set args with
  | Err e => exit_on_error e
  | Ok (fs, _) =>
      doclint (get_string fs "root") environ read run_git (get_string fs "tasks-complete") (get_string fs "approved-documents")
        (get_bool fs "approval-only")
  end.

(** ** Examples *)

Example rules_compile :
  forallb (fun r => match Compile ("(?im)" +:+ Pattern r), Compile ("(?im)" +:+ Stale r), validate_rule r with Some _, Some _, None => true | _, _, _ => false end)
    rules = true.
Proof. vm_compute. done. Qed.

Example demo_paragraphs :
  markdownUnits (text_of ["One  claim"; "on two lines."; "| a  row |"; "```"; "| code |"; "```"; ""; " "; "Next"]%string)
  = map to_bytes ["| a row |"; "One claim on two lines."; "Next"]%string.
Proof. vm_compute. done. Qed.
(** What a rule makes of a document of one paragraph. *)
Definition demo_rule (id : string) (doc : string) : option (list disposition) :=
  match filter (fun r => r_ID r = id) rules with
  | r :: _ => match apply_rule "r" (fun _ => Some (to_bytes doc)) ["docs/a.md"%string] r with Ok hs => Some (map df_disposition hs) | Err _ => None end
  | [] => None
  end.
Example demo_dispositions :
  map (fun x => demo_rule x.1 x.2)
    [("evidence-location", "Acceptance evidence is recorded alongside the dossier."); ("evidence-location", "Acceptance-evidence lands with the work.");
     ("evidence-location", "Acceptance evidence is no longer alongside the dossier."); ("evidence-location", "Acceptance evidence: *alongside the dossier*.");
     ("evidence-location", "**Acceptance evidence is alongside the dossier**"); ("evidence-location", "Acceptance evidence alongside the dossier; `G21` corrected the claim.");
     ("agent-ledger-route", "RSK-4: an operator reaches  the ledgers only through the server"); ("runner-label-absence", "Nothing else serves the docker label.");
     ("dossier-file-per-task", "One file per **task**."); ("runner-cannot-run-containers", "A runner can not start a container.");
     ("r6-unmet-suite-deferred", "R6 remains unmet."); ("no-pipe-to-shell", "curl x | sudo bash"); ("no-pipe-to-shell", "curl x -o y")]%string
  = [Some [Live]; Some [Current]; Some [Negated]; Some [Quoted]; Some [Live]; Some [Corrected]; Some [Live]; Some [Live];
     Some [Live]; Some [Live]; Some [Live]; Some [Live]; Some []].
Proof. vm_compute. done. Qed.
(** In YAML a line is a unit. *)
Example demo_trigger :
  match filter (fun r => r_ID r = "forbidden-ci-triggers"%string) rules with
  | r :: _ => match apply_rule "r" (fun _ => Some (text_of ["on:"; "  pull_request_target:"]%string)) ["ci.yaml"%string] r with
              | Ok hs => map df_disposition hs | Err _ => [] end
  | [] => [] end = [Live].
Proof. vm_compute. done. Qed.
